(** * laptopers-backend: resource lifecycle handlers

    A shallow embedding of the Go controllers (contributions, events, hubs,
    favorites) and of the asset helper [extractPublicID], with the document
    store, the clock and the asset host made explicit as state.

    Layout: Go runtime and library models first (strings, path, net/url,
    float64, ObjectID, BSON documents), then the store, the handler monad,
    the handlers themselves, and finally the properties. *)

From Stdlib Require Import ZArith String Ascii Bool Lia.
From Stdlib Require Import Floats.SpecFloat.
From stdpp Require Import base option list strings pretty gmap fin_maps.

Set Warnings "-register-all".
Local Open Scope string_scope.
Local Open Scope Z_scope.
Local Open Scope list_scope.

(** ** Go values *)

(** A Go function either returns a value, returns an error, or panics. *)
Inductive outcome (A : Type) : Type :=
| Ok (a : A)
| Err (msg : string)
| Panic (msg : string).
Arguments Ok {A} a.
Arguments Err {A} msg.
Arguments Panic {A} msg.

(** ** Package strings *)
Module strings.

Definition HasPrefix (s prefix : string) : bool := String.prefix prefix s.

Definition HasSuffix (s suffix : string) : bool :=
  (String.length suffix <=? String.length s)%nat &&
  String.eqb (String.substring (String.length s - String.length suffix)
                               (String.length suffix) s) suffix.

Definition TrimSuffix (s suffix : string) : string :=
  if HasSuffix s suffix
  then String.substring 0 (String.length s - String.length suffix) s
  else s.

(** [Split s sep] for a one-byte separator, the only use in the source. *)
Fixpoint Split (s : string) (sep : ascii) : list string :=
  match s with
  | EmptyString => [EmptyString]
  | String c r =>
      match Split r sep with
      | [] => [String c EmptyString]
      | h :: t => if Ascii.eqb c sep then EmptyString :: h :: t
                  else String c h :: t
      end
  end.

Fixpoint Contains (s : string) (c : ascii) : bool :=
  match s with
  | EmptyString => false
  | String a r => Ascii.eqb a c || Contains r c
  end.

(** [Cut s sep]: the text before and after the first [sep]. *)
Fixpoint Cut (s : string) (sep : ascii) : string * string * bool :=
  match s with
  | EmptyString => (EmptyString, EmptyString, false)
  | String a r =>
      if Ascii.eqb a sep then (EmptyString, r, true)
      else let '(b, af, found) := Cut r sep in (String a b, af, found)
  end.

Definition Join (elems : list string) (sep : string) : string :=
  String.concat sep elems.

End strings.

(** ** Package path *)
Module path.

(** The loop of [path.Ext], which walks the path from its last byte. *)
Fixpoint ext_scan (rev_path : list ascii) (acc : list ascii) : list ascii :=
  match rev_path with
  | [] => []
  | c :: r =>
      if Ascii.eqb c "/" then []
      else if Ascii.eqb c "." then c :: acc
      else ext_scan r (c :: acc)
  end.

Definition Ext (p : string) : string :=
  string_of_list_ascii (ext_scan (rev (list_ascii_of_string p)) []).

(** One step of [path.Clean] on the stack of kept elements (top first). *)
Definition clean_step (rooted : bool) (stack : list string) (seg : string)
  : list string :=
  if String.eqb seg "" || String.eqb seg "." then stack
  else if String.eqb seg ".." then
    match stack with
    | top :: below => if String.eqb top ".." then seg :: stack else below
    | [] => if rooted then [] else [seg]
    end
  else seg :: stack.

Definition Clean (p : string) : string :=
  let rooted := strings.HasPrefix p "/" in
  let kept := rev (fold_left (clean_step rooted) (strings.Split p "/") []) in
  let body := String.concat "/" kept in
  if rooted then String.append "/" body
  else if String.eqb body "" then "." else body.

Fixpoint Join (elem : list string) : string :=
  match elem with
  | [] => ""
  | e :: rest =>
      if String.eqb e "" then Join rest
      else Clean (strings.Join (e :: rest) "/")
  end.

End path.

(** ** Package net/url

    Only what [extractPublicID] reads: [url.Parse(s).Path]. The host is
    kept as written and the fragment as cut: the authority (user
    information, port, brackets, the characters of the host) and the
    escapes of the fragment are not checked, so that [Parse] is the
    parser on the URLs that pass these checks, and returns a URL on
    the others, where the parser returns an error. *)
Module url.

Record URL := {
  Scheme : string;
  Opaque : string;
  Host : string;
  Path : string;
  RawQuery : string;
  Fragment : string
}.

Definition is_alpha (c : ascii) : bool :=
  let n := nat_of_ascii c in
  ((97 <=? n) && (n <=? 122) || (65 <=? n) && (n <=? 90))%nat.

Definition is_digit (c : ascii) : bool :=
  let n := nat_of_ascii c in ((48 <=? n) && (n <=? 57))%nat.

Definition is_ctl (c : ascii) : bool :=
  let n := nat_of_ascii c in ((n <? 32) || (n =? 127))%nat.

Fixpoint stringContainsCTLByte (s : string) : bool :=
  match s with
  | EmptyString => false
  | String c r => is_ctl c || stringContainsCTLByte r
  end.

Inductive scheme_scan := ScanColon (i : nat) | ScanNone | ScanMissing.

Fixpoint scan_scheme (i : nat) (s : string) : scheme_scan :=
  match s with
  | EmptyString => ScanNone
  | String c r =>
      if is_alpha c then scan_scheme (S i) r
      else if is_digit c || Ascii.eqb c "+" || Ascii.eqb c "-" || Ascii.eqb c "."
      then (if (i =? 0)%nat then ScanNone else scan_scheme (S i) r)
      else if Ascii.eqb c ":"
      then (if (i =? 0)%nat then ScanMissing else ScanColon i)
      else ScanNone
  end.

Definition getScheme (rawURL : string) : outcome (string * string) :=
  match scan_scheme 0 rawURL with
  | ScanColon i =>
      Ok (String.substring 0 i rawURL,
          String.substring (S i) (String.length rawURL - S i) rawURL)
  | ScanNone => Ok ("", rawURL)
  | ScanMissing => Err "missing protocol scheme"
  end.

Definition unhex (c : ascii) : option nat :=
  let n := nat_of_ascii c in
  if ((48 <=? n) && (n <=? 57))%nat then Some (n - 48)%nat
  else if ((97 <=? n) && (n <=? 102))%nat then Some (n - 97 + 10)%nat
  else if ((65 <=? n) && (n <=? 70))%nat then Some (n - 65 + 10)%nat
  else None.

(** [unescape] in path mode: percent-escapes are decoded, a malformed
    escape is an error. *)
Fixpoint unescape (s : string) : option string :=
  match s with
  | EmptyString => Some EmptyString
  | String c r =>
      if Ascii.eqb c "%" then
        match r with
        | String h (String l r') =>
            match unhex h, unhex l, unescape r' with
            | Some a, Some b, Some t => Some (String (ascii_of_nat (16 * a + b)) t)
            | _, _, _ => None
            end
        | _ => None
        end
      else option_map (String c) (unescape r)
  end.

Definition Parse (rawURL : string) : outcome URL :=
  let '(u, frag, _) := strings.Cut rawURL "#" in
  if stringContainsCTLByte u then Err "invalid control character in URL"
  else if String.eqb u "*" then
    Ok {| Scheme := ""; Opaque := ""; Host := ""; Path := "*";
          RawQuery := ""; Fragment := frag |}
  else
    match getScheme u with
    | Err e => Err e
    | Panic e => Panic e
    | Ok (scheme, rest0) =>
        let '(rest, query, _) := strings.Cut rest0 "?" in
        if negb (strings.HasPrefix rest "/") && negb (String.eqb scheme "") then
          Ok {| Scheme := scheme; Opaque := rest; Host := ""; Path := "";
                RawQuery := query; Fragment := frag |}
        else if negb (strings.HasPrefix rest "/") &&
                strings.Contains (fst (fst (strings.Cut rest "/"))) ":" then
          Err "first path segment in URL cannot contain colon"
        else
          let '(host, rest') :=
            if (negb (String.eqb scheme "") || negb (strings.HasPrefix rest "///"))
               && strings.HasPrefix rest "//"
            then
              let authority := String.substring 2 (String.length rest - 2) rest in
              let '(h, after, found) := strings.Cut authority "/" in
              (h, if found then String.append "/" after else "")
            else ("", rest) in
          match unescape rest' with
          | None => Err "invalid URL escape"
          | Some p =>
              Ok {| Scheme := scheme; Opaque := ""; Host := host; Path := p;
                    RawQuery := query; Fragment := frag |}
          end
    end.

End url.

(** ** utils: the Cloudinary helper *)

(** [s[n:]] on a slice: panics when [n] exceeds the length. *)
Definition slice_from {A} (n : nat) (l : list A) : option (list A) :=
  if (n <=? length l)%nat then Some (drop n l) else None.

Definition extractPublicID (imageURL : string) : outcome string :=
  match url.Parse imageURL with
  | Err e => Err e
  | Panic e => Panic e
  | Ok parsedURL =>
      let parts := strings.Split (url.Path parsedURL) "/" in
      if (length parts <? 3)%nat then Err "invalid cloudinary URL format"
      else
        (* Remove version part *)
        let cleanPath := drop (length parts - 2) parts in
        let parts :=
          match cleanPath with
          | c0 :: _ =>
              if strings.HasPrefix c0 "v"
              then take (length parts - 2) parts ++ drop (length parts - 1) parts
              else parts
          | [] => parts
          end in
        match slice_from 3 parts with
        | None => Panic "slice bounds out of range"
        | Some tail =>
            Ok (strings.TrimSuffix (path.Join tail)
                                   (path.Ext (List.last parts "")))
        end
  end.

(** ** Scalars of the data model *)

(** [float64]: IEEE 754 binary64 (53-bit mantissa, exponent bound 1024). *)
Module f64.
Definition t := spec_float.
Definition zero : t := S754_zero false.
Definition of_Z (z : Z) : t := binary_normalize 53 1024 z 0 false.
(** Go's [x > y] and [x <= y]: both are false when an operand is NaN. *)
Definition gt (x y : t) : bool := SFltb y x.
Definition le (x y : t) : bool := SFleb x y.
End f64.

(** [time.Time] as the instant that the store keeps: milliseconds since
    the Unix epoch. A BSON DateTime has this precision and no zone, so a
    time that is read from a document is its instant. A reading of the
    clock has nanoseconds and a zone besides: of such a time only the
    instant in milliseconds is kept here, which is what is stored of it
    and what the comparisons of the handlers are about; an answer that
    shows a clock reading as the handler holds it is described only up
    to these. *)
Module time.
Definition Time := Z.
(** The zero [time.Time]: 1 January of the year 1, 00:00 UTC, which is
    62135596800 seconds before the epoch. *)
Definition zero : Time := -62135596800000.
Definition After (t u : Time) : bool := Z.ltb u t.
End time.

(** [primitive.ObjectID]: twelve bytes, kept here in their lower-case
    hexadecimal form, which is what [Hex] returns. *)
Module primitive.

Record ObjectID := mkObjectID { Hex : string }.

Global Instance ObjectID_eq_dec : EqDecision ObjectID.
Proof. solve_decision. Defined.

Definition NilObjectID : ObjectID := mkObjectID "000000000000000000000000".

Definition IsZero (o : ObjectID) : bool := bool_decide (o = NilObjectID).

Definition is_hex (c : ascii) : bool :=
  match url.unhex c with Some _ => true | None => false end.

Definition lower (c : ascii) : ascii :=
  let n := nat_of_ascii c in
  if ((65 <=? n) && (n <=? 90))%nat then ascii_of_nat (n + 32) else c.

Fixpoint all_hex (s : string) : bool :=
  match s with
  | EmptyString => true
  | String c r => is_hex c && all_hex r
  end.

Fixpoint to_lower (s : string) : string :=
  match s with
  | EmptyString => EmptyString
  | String c r => String (lower c) (to_lower r)
  end.

(** [None] stands for the error [ErrInvalidHex]. *)
Definition ObjectIDFromHex (s : string) : option ObjectID :=
  if (String.length s =? 24)%nat && all_hex s
  then Some (mkObjectID (to_lower s)) else None.

End primitive.
Export primitive.
Abbreviation Time := time.Time.

(** ** BSON documents *)

Inductive bson : Type :=
| BNull
| BString (s : string)
| BDouble (f : f64.t)
| BInt (n : Z)
| BBool (b : bool)
| BDateTime (t : Time)
| BObjectID (o : ObjectID)
| BArray (l : list bson)
| BDocument (d : gmap string bson).

(** [bson.M], and a stored document. *)
Abbreviation Doc := (gmap string bson).

(** Equality as the store's exact-match filters use it (scalars only). *)
Definition bson_eqb (a b : bson) : bool :=
  match a, b with
  | BNull, BNull => true
  | BString s, BString t => String.eqb s t
  | BInt n, BInt m => Z.eqb n m
  | BBool x, BBool y => Bool.eqb x y
  | BDateTime t, BDateTime u => Z.eqb t u
  | BObjectID o, BObjectID p => bool_decide (o = p)
  | _, _ => false
  end.

(** *** Decoding a document into a struct field

    A missing or null field leaves the zero value; a field of the wrong
    BSON type is a decode error ([None]). *)
Module decode.

Definition str (d : Doc) (k : string) : option string :=
  match d !! k with
  | None | Some BNull => Some ""
  | Some (BString s) => Some s
  | Some _ => None
  end.

Definition double_of (v : option bson) : option f64.t :=
  match v with
  | None | Some BNull => Some f64.zero
  | Some (BDouble f) => Some f
  | Some (BInt n) => Some (f64.of_Z n)
  | Some _ => None
  end.

Definition double (d : Doc) (k : string) : option f64.t := double_of (d !! k).

Definition int (d : Doc) (k : string) : option Z :=
  match d !! k with
  | None | Some BNull => Some 0
  | Some (BInt n) => Some n
  | Some _ => None
  end.

Definition datetime (d : Doc) (k : string) : option Time :=
  match d !! k with
  | None | Some BNull => Some time.zero
  | Some (BDateTime t) => Some t
  | Some _ => None
  end.

Definition datetime_ptr (d : Doc) (k : string) : option (option Time) :=
  match d !! k with
  | None | Some BNull => Some None
  | Some (BDateTime t) => Some (Some t)
  | Some _ => None
  end.

Definition oid (d : Doc) (k : string) : option ObjectID :=
  match d !! k with
  | None | Some BNull => Some NilObjectID
  | Some (BObjectID o) => Some o
  | Some _ => None
  end.

Definition str_elem (v : bson) : option string :=
  match v with BString s => Some s | BNull => Some "" | _ => None end.

Definition strs (d : Doc) (k : string) : option (list string) :=
  match d !! k with
  | None | Some BNull => Some []
  | Some (BArray l) => mapM str_elem l
  | Some _ => None
  end.

End decode.

(** ** package models *)
Module Contribution.
Record t := mk {
  ID : ObjectID;
  EventID : ObjectID;
  ContributorName : string;
  ContributorContact : string;
  Amount : f64.t;
  Currency : string;
  Method : string;
  PaymentRef : string;
  Status : string;
  ReceiptURL : string;
  CreatedAt : Time;
  UpdatedAt : Time
}.

Definition decode (d : Doc) : option t :=
  id ← decode.oid d "_id";
  ev ← decode.oid d "event_id";
  name ← decode.str d "contributor_name";
  contact ← decode.str d "contributor_contact";
  amount ← decode.double d "amount";
  currency ← decode.str d "currency";
  method ← decode.str d "method";
  ref ← decode.str d "payment_reference";
  status ← decode.str d "status";
  receipt ← decode.str d "receipt_url";
  created ← decode.datetime d "created_at";
  updated ← decode.datetime d "updated_at";
  Some (mk id ev name contact amount currency method ref status receipt
           created updated).

(** Optional insertion of an [omitempty] string field. *)
Definition put_nonempty (k v : string) (d : Doc) : Doc :=
  if String.eqb v "" then d else <[k := BString v]> d.

Definition encode (c : t) : Doc :=
  (if IsZero (ID c) then (fun d => d) else insert "_id" (BObjectID (ID c)))
  (put_nonempty "contributor_contact" (ContributorContact c)
  (put_nonempty "payment_reference" (PaymentRef c)
  (put_nonempty "receipt_url" (ReceiptURL c)
  (<["event_id" := BObjectID (EventID c)]>
  (<["contributor_name" := BString (ContributorName c)]>
  (<["amount" := BDouble (Amount c)]>
  (<["currency" := BString (Currency c)]>
  (<["method" := BString (Method c)]>
  (<["status" := BString (Status c)]>
  (<["created_at" := BDateTime (CreatedAt c)]>
  (<["updated_at" := BDateTime (UpdatedAt c)]> ∅))))))))))).
End Contribution.

Module Event.
Record t := mk {
  ID : ObjectID;
  UserID : ObjectID;
  Title : string;
  Description : string;
  Location : string;
  TargetAmount : f64.t;
  Deadline : option Time;
  Status : string;
  Images : list string;
  CreatedAt : Time;
  UpdatedAt : Time
}.

Definition decode (d : Doc) : option t :=
  id ← decode.oid d "_id";
  user ← decode.oid d "user_id";
  title ← decode.str d "title";
  description ← decode.str d "description";
  location ← decode.str d "location";
  target ← decode.double d "target_amount";
  deadline ← decode.datetime_ptr d "deadline";
  status ← decode.str d "status";
  images ← decode.strs d "images";
  created ← decode.datetime d "created_at";
  updated ← decode.datetime d "updated_at";
  Some (mk id user title description location target deadline status images
           created updated).
End Event.

Module Coordinates.
Record t := mk { Lat : f64.t; Lng : f64.t }.

Definition zero : t := mk f64.zero f64.zero.

Definition decode (v : option bson) : option t :=
  match v with
  | None | Some BNull => Some zero
  | Some (BDocument c) =>
      lat ← decode.double c "lat";
      lng ← decode.double c "lng";
      Some (mk lat lng)
  | Some _ => None
  end.
End Coordinates.

Module Review.
Record t := mk {
  ID : ObjectID;
  UserID : ObjectID;
  HubID : ObjectID;
  Rating : Z;
  Comment : string;
  CreatedAt : Time;
  UpdatedAt : Time
}.

Definition decode (d : Doc) : option t :=
  id ← decode.oid d "_id";
  user ← decode.oid d "user_id";
  hub ← decode.oid d "hub_id";
  rating ← decode.int d "rating";
  comment ← decode.str d "comment";
  created ← decode.datetime d "created_at";
  updated ← decode.datetime d "updated_at";
  Some (mk id user hub rating comment created updated).
End Review.

Module ReviewResponse.
Record t := mk {
  ID : ObjectID;
  UserID : ObjectID;
  UserName : string;
  HubID : ObjectID;
  Rating : Z;
  Comment : string;
  CreatedAt : Time
}.
End ReviewResponse.

Module Hub.
Record t := mk {
  ID : ObjectID;
  UserID : ObjectID;
  Title : string;
  Description : string;
  Coordinates : Coordinates.t;
  LocationName : string;
  Rating : f64.t;
  Images : list string;
  CreatedAt : Time;
  UpdatedAt : Time;
  (* enriched, never stored *)
  IsFavorite : bool;
  Reviews : list ReviewResponse.t
}.

(** The stored names are those of the [bson] tags: [LocationName] is
    stored as [location] and [Rating] as [target_amount]. *)
Definition decode (d : Doc) : option t :=
  id ← decode.oid d "_id";
  user ← decode.oid d "user_id";
  title ← decode.str d "title";
  description ← decode.str d "description";
  coords ← Coordinates.decode (d !! "coordinates");
  location ← decode.str d "location";
  rating ← decode.double d "target_amount";
  images ← decode.strs d "images";
  created ← decode.datetime d "created_at";
  updated ← decode.datetime d "updated_at";
  Some (mk id user title description coords location rating images
           created updated false []).

Definition with_enrichment (h : t) (reviews : list ReviewResponse.t)
    (fav : bool) : t :=
  mk (ID h) (UserID h) (Title h) (Description h) (Coordinates h)
     (LocationName h) (Rating h) (Images h) (CreatedAt h) (UpdatedAt h)
     fav reviews.
End Hub.

Module Favorite.
Record t := mk {
  ID : ObjectID;
  UserID : ObjectID;
  HubID : ObjectID;
  CreatedAt : Time
}.

Definition decode (d : Doc) : option t :=
  id ← decode.oid d "_id";
  user ← decode.oid d "user_id";
  hub ← decode.oid d "hub_id";
  created ← decode.datetime d "created_at";
  Some (mk id user hub created).

Definition encode (f : t) : Doc :=
  (if IsZero (ID f) then (fun d => d) else insert "_id" (BObjectID (ID f)))
  (<["user_id" := BObjectID (UserID f)]>
  (<["hub_id" := BObjectID (HubID f)]>
  (<["created_at" := BDateTime (CreatedAt f)]> ∅))).
End Favorite.

(** [models.User] is declared outside the files at hand; the hub handlers
    read its [Name] only, stored under [name]. *)
Module User.
Record t := mk { Name : string }.
Definition decode (d : Doc) : option t :=
  name ← decode.str d "name"; Some (mk name).
End User.

(** ** The document store

    Collections are kept by name, each a sequence of documents in
    insertion order. *)
Abbreviation Store := (gmap string (list Doc)).

Definition coll (s : Store) (name : string) : list Doc := default [] (s !! name).

Inductive StoreCall :=
| CallFindOne (col : string) (filter : Doc)
| CallFind (col : string) (filter : Doc)
| CallCursorAll (col : string)
| CallCursorNext (col : string)
| CallCountDocuments (col : string) (filter : Doc)
| CallInsertOne (col : string) (doc : Doc)
| CallUpdateOne (col : string) (filter : Doc) (set : Doc)
| CallDeleteOne (col : string) (filter : Doc).

Definition is_write (c : StoreCall) : bool :=
  match c with
  | CallInsertOne _ _ | CallUpdateOne _ _ _ | CallDeleteOne _ _ => true
  | _ => false
  end.

Inductive AssetCall :=
| AssetUpload (filename : string)
| AssetDestroy (publicID : string).

(** A part of a multipart form; [Opens] is the result of [Open()]. *)
Record FileHeader := { Filename : string; Opens : bool }.

(** What the handlers rely on and the files at hand do not define: the
    store's failures, the id generator, [utils.GenerateETag], the time
    layouts, the store's regular expressions and the asset host. *)
Record Collaborators := {
  (** whether the store call issued after [n] earlier ones fails *)
  fault : nat -> StoreCall -> bool;
  (** the [n]-th identifier handed out by [primitive.NewObjectID] *)
  objectIDs : nat -> ObjectID;
  GenerateETag : ObjectID -> Time -> string;
  (** [t.UTC().Format(http.TimeFormat)] *)
  FormatHTTP : Time -> string;
  (** [time.Parse(layout, value)] *)
  ParseTime : string -> string -> option Time;
  (** the store's [$regex] with its [$options] on a field value *)
  regexMatch : string -> string -> string -> bool;
  (** the error of [getCloudinaryInstance], if any *)
  cloudinaryConfigError : option string;
  (** [cld.Upload.Upload]: the secure URL, or the error text *)
  cloudinaryUpload : FileHeader -> string + string;
  (** the error of [cld.Upload.Destroy], if any *)
  cloudinaryDestroyError : string -> option string
}.

Record World := mkWorld {
  db : Store;
  log : list StoreCall;
  assets : list AssetCall;
  clock : Time;
  issued : nat
}.

Definition with_db (s : Store) (w : World) : World :=
  mkWorld s (log w) (assets w) (clock w) (issued w).
Definition with_log (l : list StoreCall) (w : World) : World :=
  mkWorld (db w) l (assets w) (clock w) (issued w).
Definition with_assets (a : list AssetCall) (w : World) : World :=
  mkWorld (db w) (log w) a (clock w) (issued w).
Definition with_issued (n : nat) (w : World) : World :=
  mkWorld (db w) (log w) (assets w) (clock w) n.

(** ** Responses *)

(** The review shape local to [GetHub]. *)
Module HubReview.
Record t := mk {
  ID : ObjectID;
  UserName : string;
  Comment : string;
  Rating : Z;
  CreatedAt : Time
}.
End HubReview.

Inductive Body :=
| NoBody
| ErrorBody (error : string)
| ErrorDetails (error details : string)
| MessageID (message id : string)
| IDMessage (id message : string)
| ContributionList (l : list Contribution.t)
| EventList (l : list Event.t)
| HubList (l : list Hub.t)
| EventUpdated (message : string) (event : Event.t)
| HubUpdated (message : string) (hub : Hub.t)
| HubDetail (hub : Hub.t) (reviews : list HubReview.t) (is_favorite : bool)
| FavoriteToggled (message : string) (favorite : bool).

Record Response := mkResponse {
  status : Z;
  headers : list (string * string);
  body : Body
}.

Module http.
Definition StatusOK := 200.
Definition StatusCreated := 201.
Definition StatusNotModified := 304.
Definition StatusBadRequest := 400.
Definition StatusUnauthorized := 401.
Definition StatusForbidden := 403.
Definition StatusNotFound := 404.
Definition StatusInternalServerError := 500.
End http.

(** How a handler ends: with a response, or with a panic. *)
Inductive Exit :=
| Responded (r : Response)
| Panicked (msg : string).

(** ** The handler monad: state, with early exit *)
Definition H (A : Type) : Type := World -> (Exit + A) * World.

Definition ret {A} (a : A) : H A := fun w => (inr a, w).

Definition bind {A B} (m : H A) (f : A -> H B) : H B := fun w =>
  match m w with
  | (inl e, w') => (inl e, w')
  | (inr a, w') => f a w'
  end.

Notation "x <- m ;; k" := (bind m (fun x => k))
  (at level 100, m at next level, right associativity).

Definition exit {A} (e : Exit) : H A := fun w => (inl e, w).

(** [c.JSON(status, body); return], after the [c.Header] calls [hdrs]. *)
Definition JSON {A} (hdrs : list (string * string)) (st : Z) (b : Body) : H A :=
  exit (Responded (mkResponse st hdrs b)).

(** [c.Status(status); return]. *)
Definition Status {A} (st : Z) : H A :=
  exit (Responded (mkResponse st [] NoBody)).

Definition panic {A} (msg : string) : H A := exit (Panicked msg).

Definition get_world : H World := fun w => (inr w, w).
Definition put_world (w : World) : H unit := fun _ => (inr tt, w).

(** A handler that returns without writing leaves gin's empty 200. *)
Definition serve (h : H unit) (w : World) : Exit * World :=
  match h w with
  | (inl e, w') => (e, w')
  | (inr _, w') => (Responded (mkResponse http.StatusOK [] NoBody), w')
  end.

(** The request as the handlers read it from [*gin.Context]. *)
Record Context := {
  user_id : string;                 (* c.GetString("user_id") *)
  role : string;                    (* c.GetString("role") *)
  Param_id : string;                (* c.Param("id") *)
  Query : string -> string;         (* c.Query(key) *)
  GetHeader : string -> string;     (* c.GetHeader(key) *)
  (* c.MultipartForm(): the files by field name, when multipart *)
  MultipartForm : option (string -> list FileHeader)
}.

(** The form structs local to the update handlers. A nil slice or nil
    pointer is [None]. *)
Module UpdateEventInput.
Record t := mk {
  Title : string;
  Description : string;
  Location : string;
  TargetAmount : f64.t;
  Deadline : option string;
  Status : string;
  Images : option (list string)
}.
End UpdateEventInput.

Module UpdateHubInput.
Record t := mk {
  Title : string;
  Description : string;
  Lat : option f64.t;
  Lng : option f64.t;
  LocationName : string;
  Rating : f64.t;
  Images : option (list string)
}.

(** The text of the validator for a field that fails its tag. *)
Definition validation_error (field tag : string) : string :=
  "Key: '" +:+ field +:+ "' Error:Field validation for '" +:+ field +:+
  "' failed on the '" +:+ tag +:+ "' tag".

(** [c.ShouldBind(&input)] on the decoded form: [Title] carries
    [binding:"required"]. *)
Definition ShouldBind (form : outcome t) : outcome t :=
  match form with
  | Ok input =>
      if String.eqb (Title input) "" then Err (validation_error "Title" "required")
      else Ok input
  | other => other
  end.
End UpdateHubInput.

Module layout.
Definition RFC3339 := "2006-01-02T15:04:05Z07:00".
Definition fallbacks := ["2006-01-02"; "2006-01-02 15:04"; "2006-01-02 15:04:05"].
End layout.

Section Handlers.

Variable E : Collaborators.

(** *** Store operations *)

(** One criterion of a filter: an operator document ([$regex]) or an
    exact match on the field. *)
Definition crit (k : string) (v : bson) (d : Doc) : bool :=
  match v with
  | BDocument ops =>
      match ops !! "$regex", decode.str ops "$options", d !! k with
      | Some (BString q), Some opts, Some (BString s) => regexMatch E q opts s
      | _, _, _ => false
      end
  | _ => match d !! k with Some x => bson_eqb v x | None => false end
  end.

Definition matches (filter d : Doc) : bool :=
  bool_decide (map_Forall (fun k v => crit k v d = true) filter).

(** Issue a store call: it is logged, and goes through unless it faults. *)
Definition call (c : StoreCall) : H bool := fun w =>
  (inr (negb (fault E (length (log w)) c)), with_log (log w ++ [c]) w).

(** [None]: [ErrNoDocuments] or a failure of the store. *)
Definition FindOne (col : string) (filter : Doc) : H (option Doc) :=
  ok <- call (CallFindOne col filter);;
  w <- get_world;;
  ret (if ok then List.find (matches filter) (coll (db w) col) else None).

(** The documents the cursor ranges over; [None] on failure. *)
Definition Find (col : string) (filter : Doc) : H (option (list Doc)) :=
  ok <- call (CallFind col filter);;
  w <- get_world;;
  ret (if ok then Some (List.filter (matches filter) (coll (db w) col))
        else None).

(** [cursor.All]: fails as a whole when one document does not decode. *)
Definition CursorAll {A} (col : string) (dec : Doc -> option A)
    (docs : list Doc) : H (option (list A)) :=
  ok <- call (CallCursorAll col);;
  ret (if ok then mapM dec docs else None).

Definition CountDocuments (col : string) (filter : Doc) : H (option Z) :=
  ok <- call (CallCountDocuments col filter);;
  w <- get_world;;
  ret (if ok
        then Some (Z.of_nat (length (List.filter (matches filter) (coll (db w) col))))
        else None).

Definition same_id (a b : Doc) : bool :=
  match a !! "_id", b !! "_id" with
  | Some x, Some y => bson_eqb x y
  | _, _ => false
  end.

(** [false]: the insert failed (the store, or a duplicate [_id]). *)
Definition InsertOne (col : string) (doc : Doc) : H bool :=
  ok <- call (CallInsertOne col doc);;
  w <- get_world;;
  if ok && negb (existsb (same_id doc) (coll (db w) col)) then
    _ <- put_world (with_db (<[col := coll (db w) col ++ [doc]]> (db w)) w);;
    ret true
  else ret false.

Fixpoint update_first (p : Doc -> bool) (f : Doc -> Doc) (l : list Doc)
  : option (list Doc) :=
  match l with
  | [] => None
  | d :: r => if p d then Some (f d :: r)
              else option_map (cons d) (update_first p f r)
  end.

(** [UpdateOne(filter, {"$set": set})]: the fields of [set] replace the
    fields of the same name in the first match; the result is the
    matched count, [None] on failure. *)
Definition UpdateOne (col : string) (filter set : Doc) : H (option Z) :=
  ok <- call (CallUpdateOne col filter set);;
  w <- get_world;;
  if ok then
    match update_first (matches filter) (fun d => set ∪ d) (coll (db w) col) with
    | Some l' => _ <- put_world (with_db (<[col := l']> (db w)) w);; ret (Some 1)
    | None => ret (Some 0)
    end
  else ret None.

Fixpoint remove_first (p : Doc -> bool) (l : list Doc) : option (list Doc) :=
  match l with
  | [] => None
  | d :: r => if p d then Some r else option_map (cons d) (remove_first p r)
  end.

(** The deleted count, [None] on failure. *)
Definition DeleteOne (col : string) (filter : Doc) : H (option Z) :=
  ok <- call (CallDeleteOne col filter);;
  w <- get_world;;
  if ok then
    match remove_first (matches filter) (coll (db w) col) with
    | Some l' => _ <- put_world (with_db (<[col := l']> (db w)) w);; ret (Some 1)
    | None => ret (Some 0)
    end
  else ret None.

Definition NewObjectID : H ObjectID := fun w =>
  (inr (objectIDs E (issued w)), with_issued (S (issued w)) w).

(** [time.Now()], as the instant that the store keeps of it. The world
    holds the clock as the request reads it; a handler that reads the
    clock a second time takes the later reading as an input
    ([AddReview]). *)
Definition time_Now : H Time := fun w => (inr (clock w), w).

(** *** Control-flow helpers *)

(** [if cond { ...; return }]. *)
Definition when (cond : bool) (h : H unit) : H unit :=
  if cond then h else ret tt.

(** [v, err := ...; if err != nil { ...; return }]. *)
Definition unwrap {A} (o : option A) (h : H A) : H A :=
  match o with Some a => ret a | None => h end.

(** [c.ShouldBind(&input)] and its error branch. *)
Definition bound {A} (input : outcome A) : H A :=
  match input with
  | Ok i => ret i
  | Err e => JSON [] http.StatusBadRequest (ErrorBody e)
  | Panic e => panic e
  end.

(** [for _, x := range l { ...; out = append(out, y) }]. *)
Fixpoint forEach {A B} (l : list A) (f : A -> H B) : H (list B) :=
  match l with
  | [] => ret ([] : list B)
  | x :: r => y <- f x;; ys <- forEach r f;; ret (y :: ys)
  end.

Definition nonempty (s : string) : bool := negb (String.eqb s "").

(** [if cond { update[k] = v }]. *)
Definition put_if (cond : bool) (k : string) (v : bson) (update : Doc) : Doc :=
  if cond then <[k := v]> update else update.

(** *** utils: asset host *)

Definition UploadToCloudinary (fileHeader : FileHeader) : H (outcome string) :=
  match cloudinaryConfigError E with
  | Some e => ret (Err ("cloudinary config error: " +:+ e))
  | None =>
      w <- get_world;;
      _ <- put_world (with_assets (assets w ++ [AssetUpload (Filename fileHeader)]) w);;
      match cloudinaryUpload E fileHeader with
      | inl secureURL => ret (Ok secureURL)
      | inr e => ret (Err ("upload error: " +:+ e))
      end
  end.

(** The returned option is the error, if any. *)
Definition DeleteFromCloudinary (imageURL : string) : H (option string) :=
  match cloudinaryConfigError E with
  | Some e => ret (Some ("cloudinary config error: " +:+ e))
  | None =>
      match extractPublicID imageURL with
      | Err e => ret (Some ("could not extract public ID: " +:+ e))
      | Panic e => panic e
      | Ok publicID =>
          w <- get_world;;
          _ <- put_world (with_assets (assets w ++ [AssetDestroy publicID]) w);;
          match cloudinaryDestroyError E publicID with
          | Some e => ret (Some ("delete error: " +:+ e))
          | None => ret None
          end
      end
  end.

(** The upload loop of the update handlers (field [new_images]). *)
Fixpoint uploadEach (files : list FileHeader) (urls : list string)
  : H (list string) :=
  match files with
  | [] => ret urls
  | fileHeader :: rest =>
      _ <- when (negb (Opens fileHeader))
            (JSON [] http.StatusInternalServerError (ErrorBody "failed to open image"));;
      r <- UploadToCloudinary fileHeader;;
      match r with
      | Ok u => uploadEach rest (urls ++ [u])
      | Err e => JSON [] http.StatusInternalServerError
                      (ErrorDetails "image upload failed" e)
      | Panic e => panic e
      end
  end.

Definition newImages (c : Context) : H (list string) :=
  match MultipartForm c with
  | Some form => uploadEach (form "new_images") []
  | None => ret []
  end.

(** [append(input.Images, newImageURLs...)], a nil slice being [None]. *)
Definition append_images (images : option (list string)) (new : list string)
  : list string := default [] images ++ new.

Definition images_value (l : list string) : bson := BArray (BString <$> l).

(** [if input.Images != nil || len(newImageURLs) > 0 { update["images"] = ... }] *)
Definition mergeImages (images : option (list string)) (new : list string)
    (update : Doc) : Doc :=
  put_if (bool_decide (is_Some images) || (0 <? length new)%nat)
         "images" (images_value (append_images images new)) update.


(** *** contributions_controller.go *)

Definition CreateContribution (c : Context) (body : outcome Contribution.t)
  : H unit :=
  input <- bound body;;
  _ <- when (IsZero (Contribution.EventID input))
         (JSON [] http.StatusBadRequest (ErrorBody "event_id is required"));;
  found <- FindOne "events"
             ({[ "_id" := BObjectID (Contribution.EventID input) ]} : Doc);;
  event <- unwrap (found ≫= Event.decode)
             (JSON [] http.StatusBadRequest (ErrorBody "event not found"));;
  _ <- when (f64.le (Contribution.Amount input) f64.zero)
         (JSON [] http.StatusBadRequest (ErrorBody "amount must be greater than 0"));;
  now <- time_Now;;
  id <- NewObjectID;;
  let contribution :=
    Contribution.mk id (Contribution.EventID input)
      (Contribution.ContributorName input) (Contribution.ContributorContact input)
      (Contribution.Amount input) (Contribution.Currency input)
      (Contribution.Method input) (Contribution.PaymentRef input)
      "PENDING" (Contribution.ReceiptURL input) now now in
  ok <- InsertOne "contributions" (Contribution.encode contribution);;
  _ <- when (negb ok)
         (JSON [] http.StatusInternalServerError
               (ErrorBody "could not create contribution"));;
  JSON [] http.StatusCreated (IDMessage (Hex id) "contribution created").

Definition contributionsFilter (c : Context) : Doc :=
  let filter : Doc := ∅ in
  let filter :=
    if nonempty (Query c "event_id") then
      match ObjectIDFromHex (Query c "event_id") with
      | Some oid => <["event_id" := BObjectID oid]> filter
      | None => filter
      end
    else filter in
  put_if (nonempty (Query c "status")) "status" (BString (Query c "status")) filter.

Definition fetchContributions (c : Context) : H (list Contribution.t) :=
  cursor <- Find "contributions" (contributionsFilter c);;
  docs <- unwrap cursor
            (JSON [] http.StatusInternalServerError
                  (ErrorBody "could not fetch contributions"));;
  all <- CursorAll "contributions" Contribution.decode docs;;
  unwrap all (JSON [] http.StatusInternalServerError
                   (ErrorBody "could not decode contributions")).

(** [latest := l[0]; for _, x := range l { if x.UpdatedAt.After(latest.UpdatedAt) { latest = x } }] *)
Definition pickLatest {A} (UpdatedAt : A -> Time) (first : A) (l : list A) : A :=
  fold_left (fun latest x =>
               if time.After (UpdatedAt x) (UpdatedAt latest) then x else latest)
            l first.

Definition etagMatches (c : Context) (etag : string) : bool :=
  let match_ := GetHeader c "If-None-Match" in
  nonempty match_ && String.eqb match_ etag.

Definition ListContributions (c : Context) : H unit :=
  contributions <- fetchContributions c;;
  match contributions with
  | [] => JSON [] http.StatusOK (ContributionList [])
  | first :: _ =>
      let latest := pickLatest Contribution.UpdatedAt first contributions in
      let etag := GenerateETag E (Contribution.ID latest) (Contribution.UpdatedAt latest) in
      if etagMatches c etag then Status http.StatusNotModified
      else JSON [("ETag", etag);
                 ("Last-Modified", FormatHTTP E (Contribution.UpdatedAt latest))]
                http.StatusOK (ContributionList contributions)
  end.

Definition stageContribution (now : Time) (input : Contribution.t) : Doc :=
  let update : Doc := {[ "updated_at" := BDateTime now ]} in
  let update := put_if (nonempty (Contribution.ContributorName input))
                  "contributor_name" (BString (Contribution.ContributorName input)) update in
  let update := put_if (nonempty (Contribution.ContributorContact input))
                  "contributor_contact" (BString (Contribution.ContributorContact input)) update in
  let update := put_if (f64.gt (Contribution.Amount input) f64.zero)
                  "amount" (BDouble (Contribution.Amount input)) update in
  let update := put_if (nonempty (Contribution.Currency input))
                  "currency" (BString (Contribution.Currency input)) update in
  let update := put_if (nonempty (Contribution.Method input))
                  "method" (BString (Contribution.Method input)) update in
  let update := put_if (nonempty (Contribution.PaymentRef input))
                  "payment_reference" (BString (Contribution.PaymentRef input)) update in
  let update := put_if (nonempty (Contribution.Status input))
                  "status" (BString (Contribution.Status input)) update in
  put_if (nonempty (Contribution.ReceiptURL input))
         "receipt_url" (BString (Contribution.ReceiptURL input)) update.

Definition UpdateContribution (c : Context) (body : outcome Contribution.t)
  : H unit :=
  oid <- unwrap (ObjectIDFromHex (Param_id c))
           (JSON [] http.StatusBadRequest (ErrorBody "invalid contribution id"));;
  input <- bound body;;
  now <- time_Now;;
  let update := stageContribution now input in
  _ <- when (size update =? 1)%nat
         (JSON [] http.StatusBadRequest (ErrorBody "no fields to update"));;
  res <- UpdateOne "contributions" ({[ "_id" := BObjectID oid ]} : Doc) update;;
  matched <- unwrap res
               (JSON [] http.StatusInternalServerError
                     (ErrorBody "failed to update contribution"));;
  _ <- when (matched =? 0)
         (JSON [] http.StatusNotFound (ErrorBody "contribution not found"));;
  JSON [] http.StatusOK (MessageID "contribution updated" (Hex oid)).

(** *** events (second half of contributions_controller.go) *)

Definition eventsFilter (c : Context) (userID : ObjectID) : Doc :=
  let filter : Doc := {[ "user_id" := BObjectID userID ]} in
  put_if (nonempty (Query c "q")) "title"
         (BDocument (<["$regex" := BString (Query c "q")]>
                      {[ "$options" := BString "i" ]})) filter.

Definition fetchEvents (c : Context) : H (list Event.t) :=
  userID <- unwrap (ObjectIDFromHex (user_id c))
              (JSON [] http.StatusUnauthorized (ErrorBody "invalid user id"));;
  cursor <- Find "events" (eventsFilter c userID);;
  docs <- unwrap cursor
            (JSON [] http.StatusInternalServerError
                  (ErrorBody "could not fetch events"));;
  all <- CursorAll "events" Event.decode docs;;
  unwrap all (JSON [] http.StatusInternalServerError
                   (ErrorBody "could not decode events")).

Definition ListEvents (c : Context) : H unit :=
  events <- fetchEvents c;;
  match events with
  | [] => JSON [] http.StatusOK (EventList [])
  | first :: _ =>
      let latest := pickLatest Event.UpdatedAt first events in
      let etag := GenerateETag E (Event.ID latest) (Event.UpdatedAt latest) in
      if etagMatches c etag then Status http.StatusNotModified
      else JSON [("ETag", etag);
                 ("Last-Modified", FormatHTTP E (Event.UpdatedAt latest))]
                http.StatusOK (EventList events)
  end.

Fixpoint firstLayout (layouts : list string) (value : string) : option Time :=
  match layouts with
  | [] => None
  | l :: rest =>
      match ParseTime E l value with
      | Some t => Some t
      | None => firstLayout rest value
      end
  end.

(** RFC3339 first, then the fallback layouts; [None] when none parses. *)
Definition parseDeadline (value : string) : option Time :=
  match ParseTime E layout.RFC3339 value with
  | Some parsed => Some parsed
  | None => firstLayout layout.fallbacks value
  end.

Definition stageEvent (now : Time) (input : UpdateEventInput.t) : Doc :=
  let update : Doc := {[ "updated_at" := BDateTime now ]} in
  let update := put_if (nonempty (UpdateEventInput.Title input))
                  "title" (BString (UpdateEventInput.Title input)) update in
  let update := put_if (nonempty (UpdateEventInput.Description input))
                  "description" (BString (UpdateEventInput.Description input)) update in
  let update := put_if (nonempty (UpdateEventInput.Location input))
                  "location" (BString (UpdateEventInput.Location input)) update in
  let update := put_if (f64.gt (UpdateEventInput.TargetAmount input) f64.zero)
                  "target_amount" (BDouble (UpdateEventInput.TargetAmount input)) update in
  put_if (nonempty (UpdateEventInput.Status input))
         "status" (BString (UpdateEventInput.Status input)) update.

Definition stageDeadline (deadline : option string) (update : Doc) : H Doc :=
  match deadline with
  | Some value =>
      if nonempty value then
        parsed <- unwrap (parseDeadline value)
                    (JSON [] http.StatusBadRequest
                          (ErrorBody "invalid deadline format, use RFC3339 or YYYY-MM-DD"));;
        ret (<["deadline" := BDateTime parsed]> update)
      else ret update
  | None => ret update
  end.

(** [role != "admin" && existing.UserID.Hex() != requesterID] *)
Definition denied (role requesterID : string) (owner : ObjectID) : bool :=
  negb (String.eqb role "admin") && negb (String.eqb (Hex owner) requesterID).

(** The end of [UpdateEvent], from the staged update set on: reject
    the empty update, apply the others, read the event back. *)
Definition applyEventUpdate (objID : ObjectID) (update : Doc) : H unit :=
  _ <- when (size update =? 1)%nat
         (JSON [] http.StatusBadRequest (ErrorBody "no fields to update"));;
  res <- UpdateOne "events" ({[ "_id" := BObjectID objID ]} : Doc) update;;
  _ <- unwrap res
         (JSON [] http.StatusInternalServerError (ErrorBody "Could not update event"));;
  found <- FindOne "events" ({[ "_id" := BObjectID objID ]} : Doc);;
  updated <- unwrap (found ≫= Event.decode)
               (JSON [] http.StatusInternalServerError
                     (ErrorBody "Failed to retrieve updated event"));;
  JSON [] http.StatusOK (EventUpdated "Event updated successfully" updated).

Definition UpdateEvent (c : Context) (form : outcome UpdateEventInput.t)
  : H unit :=
  let role := role c in
  let requesterID := user_id c in
  _ <- when (String.eqb requesterID "")
         (JSON [] http.StatusUnauthorized (ErrorBody "unauthorized"));;
  objID <- unwrap (ObjectIDFromHex (Param_id c))
             (JSON [] http.StatusBadRequest (ErrorBody "Invalid event ID"));;
  found <- FindOne "events" ({[ "_id" := BObjectID objID ]} : Doc);;
  existing <- unwrap (found ≫= Event.decode)
                (JSON [] http.StatusNotFound (ErrorBody "Event not found"));;
  _ <- when (denied role requesterID (Event.UserID existing))
         (JSON [] http.StatusForbidden (ErrorBody "Access denied"));;
  input <- bound form;;
  now <- time_Now;;
  let update := stageEvent now input in
  update <- stageDeadline (UpdateEventInput.Deadline input) update;;
  newImageURLs <- newImages c;;
  let update := mergeImages (UpdateEventInput.Images input) newImageURLs update in
  applyEventUpdate objID update.

Definition DeleteEvent (c : Context) : H unit :=
  let role := role c in
  let requesterID := user_id c in
  _ <- when (String.eqb requesterID "")
         (JSON [] http.StatusUnauthorized (ErrorBody "unauthorized"));;
  oid <- unwrap (ObjectIDFromHex (Param_id c))
           (JSON [] http.StatusBadRequest (ErrorBody "invalid event id"));;
  found <- FindOne "events" ({[ "_id" := BObjectID oid ]} : Doc);;
  existing <- unwrap (found ≫= Event.decode)
                (JSON [] http.StatusNotFound (ErrorBody "event not found"));;
  _ <- when (denied role requesterID (Event.UserID existing))
         (JSON [] http.StatusForbidden (ErrorBody "access denied"));;
  res <- DeleteOne "events" ({[ "_id" := BObjectID oid ]} : Doc);;
  deleted <- unwrap res
               (JSON [] http.StatusInternalServerError
                     (ErrorBody "failed to delete event"));;
  _ <- when (deleted =? 0)
         (JSON [] http.StatusNotFound (ErrorBody "event not found"));;
  _ <- forEach (Event.Images existing) DeleteFromCloudinary;;
  JSON [] http.StatusOK (MessageID "event deleted successfully" (Hex oid)).

(** *** hubs_controller.go *)

Definition hubsFilter (c : Context) : Doc :=
  let filter : Doc := ∅ in
  put_if (nonempty (Query c "q")) "title"
         (BDocument (<["$regex" := BString (Query c "q")]>
                      {[ "$options" := BString "i" ]})) filter.

Definition fetchHubs (c : Context) : H (list Hub.t) :=
  cursor <- Find "hubs" (hubsFilter c);;
  docs <- unwrap cursor
            (JSON [] http.StatusInternalServerError (ErrorBody "could not fetch hubs"));;
  all <- CursorAll "hubs" Hub.decode docs;;
  unwrap all (JSON [] http.StatusInternalServerError
                   (ErrorBody "could not decode hubs")).

(** The body of the inner loop of [ListHubs]. *)
Definition enrichReview (r : Review.t) : H ReviewResponse.t :=
  found <- FindOne "users" ({[ "_id" := BObjectID (Review.UserID r) ]} : Doc);;
  let username :=
    match found ≫= User.decode with
    | Some user => User.Name user
    | None => "Unknown"
    end in
  ret (ReviewResponse.mk (Review.ID r) (Review.UserID r) username
         (Review.HubID r) (Review.Rating r) (Review.Comment r)
         (Review.CreatedAt r)).

(** The reviews of a hub: nil when the query or the decoding fails. *)
Definition hubReviews (hubID : ObjectID) : H (list Review.t) :=
  reviewCursor <- Find "reviews" ({[ "hub_id" := BObjectID hubID ]} : Doc);;
  match reviewCursor with
  | Some docs =>
      all <- CursorAll "reviews" Review.decode docs;;
      ret (default [] all)
  | None => ret []
  end.

(** The body of the outer loop of [ListHubs]. *)
Definition enrichHub (userID : ObjectID) (hub : Hub.t) : H Hub.t :=
  reviews <- hubReviews (Hub.ID hub);;
  reviewResponses <- forEach reviews enrichReview;;
  fav <- FindOne "favorites"
           (<["user_id" := BObjectID userID]>
              {[ "hub_id" := BObjectID (Hub.ID hub) ]} : Doc);;
  ret (Hub.with_enrichment hub reviewResponses
         (match fav with Some _ => true | None => false end)).

Definition ListHubs (c : Context) : H unit :=
  userID <- unwrap (ObjectIDFromHex (user_id c))
              (JSON [] http.StatusUnauthorized (ErrorBody "invalid user id"));;
  hubs <- fetchHubs c;;
  hubs <- forEach hubs (enrichHub userID);;
  JSON [] http.StatusOK (HubList hubs).

(** The [cursor.Next] loop of [GetHub]: a failing [Next] ends it, a
    review that does not decode is skipped. *)
Fixpoint eachReview (docs : list Doc) (reviews : list HubReview.t)
  : H (list HubReview.t) :=
  match docs with
  | [] => ret reviews
  | d :: rest =>
      more <- call (CallCursorNext "reviews");;
      if more then
        match Review.decode d with
        | None => eachReview rest reviews
        | Some review =>
            found <- FindOne "users"
                       ({[ "_id" := BObjectID (Review.UserID review) ]} : Doc);;
            let name :=
              match found ≫= User.decode with
              | Some user => User.Name user
              | None => "Unknown User"
              end in
            eachReview rest
              (reviews ++ [HubReview.mk (Review.ID review) name
                             (Review.Comment review) (Review.Rating review)
                             (Review.CreatedAt review)])
        end
      else ret reviews
  end.

Definition fetchHub (c : Context) : H (ObjectID * Hub.t) :=
  hubID <- unwrap (ObjectIDFromHex (Param_id c))
             (JSON [] http.StatusBadRequest (ErrorBody "invalid hub id"));;
  found <- FindOne "hubs" ({[ "_id" := BObjectID hubID ]} : Doc);;
  hub <- unwrap (found ≫= Hub.decode)
           (JSON [] http.StatusNotFound (ErrorBody "hub not found"));;
  ret (hubID, hub).

(** The favorite check of [GetHub]: only for a caller with a valid id,
    and false when the count fails. *)
Definition hubFavorite (user : option ObjectID) (hubID : ObjectID) : H bool :=
  match user with
  | Some userID =>
      count <- CountDocuments "favorites"
                 (<["hub_id" := BObjectID hubID]>
                    {[ "user_id" := BObjectID userID ]} : Doc);;
      ret (match count with Some n => 0 <? n | None => false end)
  | None => ret false
  end.

Definition GetHub (c : Context) : H unit :=
  let uid := user_id c in
  let user := if nonempty uid then ObjectIDFromHex uid else None in
  fetched <- fetchHub c;;
  let hubID := fst fetched in
  let hub := snd fetched in
  cursor <- Find "reviews" ({[ "hub_id" := BObjectID hubID ]} : Doc);;
  docs <- unwrap cursor
            (JSON [] http.StatusInternalServerError
                  (ErrorBody "failed to fetch reviews"));;
  reviews <- eachReview docs [];;
  isFavorite <- hubFavorite user hubID;;
  let etag := GenerateETag E (Hub.ID hub) (Hub.UpdatedAt hub) in
  if etagMatches c etag then Status http.StatusNotModified
  else JSON [("ETag", etag)] http.StatusOK (HubDetail hub reviews isFavorite).

Definition stageCoordinates (input : UpdateHubInput.t) : Doc :=
  let coordinatesUpdate : Doc := ∅ in
  let coordinatesUpdate :=
    match UpdateHubInput.Lat input with
    | Some lat => <["lat" := BDouble lat]> coordinatesUpdate
    | None => coordinatesUpdate
    end in
  match UpdateHubInput.Lng input with
  | Some lng => <["lng" := BDouble lng]> coordinatesUpdate
  | None => coordinatesUpdate
  end.

Definition stageHub (now : Time) (input : UpdateHubInput.t) : Doc :=
  let update : Doc := {[ "updated_at" := BDateTime now ]} in
  let update := put_if (nonempty (UpdateHubInput.Title input))
                  "title" (BString (UpdateHubInput.Title input)) update in
  let update := put_if (nonempty (UpdateHubInput.Description input))
                  "description" (BString (UpdateHubInput.Description input)) update in
  let update := put_if (nonempty (UpdateHubInput.LocationName input))
                  "location_name" (BString (UpdateHubInput.LocationName input)) update in
  let update := put_if (f64.gt (UpdateHubInput.Rating input) f64.zero)
                  "rating" (BDouble (UpdateHubInput.Rating input)) update in
  let coordinatesUpdate := stageCoordinates input in
  put_if (0 <? size coordinatesUpdate)%nat
         "coordinates" (BDocument coordinatesUpdate) update.

(** The end of [UpdateHub], from the staged update set on. *)
Definition applyHubUpdate (objID : ObjectID) (update : Doc) : H unit :=
  _ <- when (size update =? 1)%nat
         (JSON [] http.StatusBadRequest (ErrorBody "no fields to update"));;
  res <- UpdateOne "hubs" ({[ "_id" := BObjectID objID ]} : Doc) update;;
  _ <- unwrap res
         (JSON [] http.StatusInternalServerError (ErrorBody "Could not update hub"));;
  found <- FindOne "hubs" ({[ "_id" := BObjectID objID ]} : Doc);;
  updated <- unwrap (found ≫= Hub.decode)
               (JSON [] http.StatusInternalServerError
                     (ErrorBody "Failed to retrieve updated hub"));;
  JSON [] http.StatusOK (HubUpdated "Hub updated successfully" updated).

Definition UpdateHub (c : Context) (form : outcome UpdateHubInput.t) : H unit :=
  let role := role c in
  let requesterID := user_id c in
  _ <- when (String.eqb requesterID "")
         (JSON [] http.StatusUnauthorized (ErrorBody "unauthorized"));;
  objID <- unwrap (ObjectIDFromHex (Param_id c))
             (JSON [] http.StatusBadRequest (ErrorBody "Invalid hub ID"));;
  found <- FindOne "hubs" ({[ "_id" := BObjectID objID ]} : Doc);;
  existing <- unwrap (found ≫= Hub.decode)
                (JSON [] http.StatusNotFound (ErrorBody "Hub not found"));;
  _ <- when (denied role requesterID (Hub.UserID existing))
         (JSON [] http.StatusForbidden (ErrorBody "Access denied"));;
  input <- bound (UpdateHubInput.ShouldBind form);;
  now <- time_Now;;
  let update := stageHub now input in
  newImageURLs <- newImages c;;
  let update := mergeImages (UpdateHubInput.Images input) newImageURLs update in
  applyHubUpdate objID update.

Definition DeleteHub (c : Context) : H unit :=
  let role := role c in
  let requesterID := user_id c in
  _ <- when (String.eqb requesterID "")
         (JSON [] http.StatusUnauthorized (ErrorBody "unauthorized"));;
  oid <- unwrap (ObjectIDFromHex (Param_id c))
           (JSON [] http.StatusBadRequest (ErrorBody "invalid hub id"));;
  found <- FindOne "hubs" ({[ "_id" := BObjectID oid ]} : Doc);;
  existing <- unwrap (found ≫= Hub.decode)
                (JSON [] http.StatusNotFound (ErrorBody "Hub not found"));;
  _ <- when (denied role requesterID (Hub.UserID existing))
         (JSON [] http.StatusForbidden (ErrorBody "access denied"));;
  res <- DeleteOne "hubs" ({[ "_id" := BObjectID oid ]} : Doc);;
  deleted <- unwrap res
               (JSON [] http.StatusInternalServerError
                     (ErrorBody "failed to delete hub"));;
  _ <- when (deleted =? 0)
         (JSON [] http.StatusNotFound (ErrorBody "Hub not found"));;
  _ <- forEach (Hub.Images existing) DeleteFromCloudinary;;
  JSON [] http.StatusOK (MessageID "Hub deleted successfully" (Hex oid)).

Definition favoriteFilter (userID hubID : ObjectID) : Doc :=
  <["user_id" := BObjectID userID]> {[ "hub_id" := BObjectID hubID ]}.

Definition ToggleFavorite (c : Context) : H unit :=
  userID <- unwrap (ObjectIDFromHex (user_id c))
              (JSON [] http.StatusUnauthorized (ErrorBody "invalid user id"));;
  hubID <- unwrap (ObjectIDFromHex (Param_id c))
             (JSON [] http.StatusBadRequest (ErrorBody "invalid hub id"));;
  found <- FindOne "favorites" (favoriteFilter userID hubID);;
  match found ≫= Favorite.decode with
  | Some fav =>
      _ <- DeleteOne "favorites" ({[ "_id" := BObjectID (Favorite.ID fav) ]} : Doc);;
      JSON [] http.StatusOK (FavoriteToggled "removed from favorites" false)
  | None =>
      id <- NewObjectID;;
      now <- time_Now;;
      let favorite := Favorite.mk id userID hubID now in
      ok <- InsertOne "favorites" (Favorite.encode favorite);;
      _ <- when (negb ok)
             (JSON [] http.StatusInternalServerError
                   (ErrorBody "could not mark as favorite"));;
      JSON [] http.StatusOK (FavoriteToggled "added to favorites" true)
  end.

End Handlers.

Arguments when cond h /.
Arguments unwrap {A} o h /.
Arguments bound {A} input /.
Arguments FindOne : simpl never.
Arguments Find : simpl never.
Arguments CursorAll : simpl never.
Arguments CountDocuments : simpl never.
Arguments InsertOne : simpl never.
Arguments UpdateOne : simpl never.
Arguments DeleteOne : simpl never.
Arguments newImages : simpl never.
Arguments stageDeadline : simpl never.
Arguments matches : simpl never.
Arguments hubFavorite : simpl never.
Arguments eachReview : simpl never.
Arguments fetchHub : simpl never.
Arguments fetchHubs : simpl never.

(** ** A concrete environment

    A store that never fails, identifiers counted in hexadecimal, and an
    asset host that accepts every file. Used to run the handlers on
    concrete requests. *)
Module demo.

Definition hexdigit (n : nat) : ascii :=
  ascii_of_nat (if (n <? 10)%nat then 48 + n else 87 + n).

Definition oid_of (n : nat) : ObjectID :=
  mkObjectID ("5f00000000000000000000" +:+
              String (hexdigit ((n / 16) mod 16))
                (String (hexdigit (n mod 16)) EmptyString)).

Definition env : Collaborators := {|
  fault := fun _ _ => false;
  objectIDs := fun n => oid_of (128 + n);
  GenerateETag := fun o t => Hex o +:+ "-" +:+ pretty t;
  FormatHTTP := fun t => pretty t;
  ParseTime := fun _ _ => None;
  regexMatch := fun q _ s => strings.HasPrefix s q;
  cloudinaryConfigError := None;
  cloudinaryUpload := fun fh =>
    inl ("https://res.cloudinary.com/demo/image/upload/v1/events/" +:+ Filename fh);
  cloudinaryDestroyError := fun _ => None
|}.

Definition context (uid role id : string) : Context := {|
  user_id := uid; role := role; Param_id := id;
  Query := fun _ => ""; GetHeader := fun _ => ""; MultipartForm := None
|}.

Definition world (s : Store) : World := mkWorld s [] [] 1700000000000 0.

Definition alice := oid_of 1.
Definition bob := oid_of 2.

End demo.

(** ** Properties *)

(** *** Asset identifiers *)

(** C7. On the URL that the helper's own comment gives as its example,
    [extractPublicID] does not return [events/abc123]: the [upload]
    segment and the version stay in the result. A path of three elements
    yields the empty identifier without an error, and a short path whose
    folder starts with [v] panics. *)
Theorem C7_extractPublicID_keeps_upload_and_version :
  extractPublicID
    "https://res.cloudinary.com/demo/image/upload/v1234567890/events/abc123.jpg"
    = Ok "upload/v1234567890/events/abc123"
  /\ extractPublicID "https://example.com/a/b" = Ok ""
  /\ extractPublicID "/v1/x.jpg" = Panic "slice bounds out of range".
Proof. repeat split; vm_compute; reflexivity. Qed.

(** The version is dropped only when it is the folder of the file. *)
Example extractPublicID_without_folder :
  extractPublicID "https://res.cloudinary.com/demo/image/upload/v1234567890/abc123.jpg"
  = Ok "upload/abc123".
Proof. vm_compute. reflexivity. Qed.

Example extractPublicID_folder_named_v :
  extractPublicID "https://res.cloudinary.com/demo/image/upload/v1/videos/clip.mp4"
  = Ok "upload/v1/clip".
Proof. vm_compute. reflexivity. Qed.

Example extractPublicID_not_a_url :
  extractPublicID "not a url" = Err "invalid cloudinary URL format".
Proof. vm_compute. reflexivity. Qed.

(** *** Staged update sets *)

Lemma lookup_put_if_eq cond k v (m : Doc) :
  put_if cond k v m !! k = if cond then Some v else m !! k.
Proof. destruct cond; simpl; [apply lookup_insert_eq | reflexivity]. Qed.

Lemma lookup_put_if_ne cond k k' v (m : Doc) :
  k <> k' -> put_if cond k v m !! k' = m !! k'.
Proof. intros Hne. destruct cond; simpl; [by apply lookup_insert_ne | reflexivity]. Qed.

(** C8, as the code has it. The amount of a contribution update is staged
    exactly when it is strictly positive; an amount that is zero, negative
    or not a number is left out of the update set. *)
Theorem C8_amount_staged_iff_positive (now : Time) (input : Contribution.t) :
  stageContribution now input !! "amount"
  = if f64.gt (Contribution.Amount input) f64.zero
    then Some (BDouble (Contribution.Amount input)) else None.
Proof.
  unfold stageContribution.
  repeat (rewrite lookup_put_if_ne by discriminate).
  rewrite lookup_put_if_eq.
  repeat (rewrite lookup_put_if_ne by discriminate).
  by rewrite lookup_singleton_ne.
Qed.

(** Zero and the negative numbers are not greater than zero, and neither
    is NaN. *)
Lemma f64_le_zero_not_gt x : f64.le x f64.zero = true -> f64.gt x f64.zero = false.
Proof.
  unfold f64.le, f64.gt, f64.zero, SFleb, SFltb, SFcompare.
  destruct x as [[]|[]| |[] m e]; simpl; try done.
Qed.

Example nan_amount_not_staged :
  f64.gt S754_nan f64.zero = false /\ f64.le S754_nan f64.zero = false.
Proof. split; reflexivity. Qed.

Definition minus_five_update : Contribution.t :=
  Contribution.mk NilObjectID NilObjectID "Ann" "" (f64.of_Z (-5)) "" "" "" "" "" 0 0.

(** C8 as stated fails: an update that carries the amount -5 (and a new
    contributor name) stages the name and no amount. *)
Lemma C8_negative_amount_not_staged :
  f64.le (Contribution.Amount minus_five_update) f64.zero = true
  /\ stageContribution 0 minus_five_update !! "contributor_name" = Some (BString "Ann")
  /\ stageContribution 0 minus_five_update !! "amount" = None.
Proof. repeat split; vm_compute; reflexivity. Qed.

(** *** Rejection of empty updates *)

(** Every updatable field of a contribution payload is absent. *)
Definition blankContribution (input : Contribution.t) : Prop :=
  Contribution.ContributorName input = "" /\
  Contribution.ContributorContact input = "" /\
  f64.gt (Contribution.Amount input) f64.zero = false /\
  Contribution.Currency input = "" /\
  Contribution.Method input = "" /\
  Contribution.PaymentRef input = "" /\
  Contribution.Status input = "" /\
  Contribution.ReceiptURL input = "".

Lemma stageContribution_blank now input :
  blankContribution input ->
  stageContribution now input = {[ "updated_at" := BDateTime now ]}.
Proof.
  intros (Hn & Hc & Ha & Hcu & Hm & Hp & Hs & Hr).
  unfold stageContribution. rewrite Hn, Hc, Ha, Hcu, Hm, Hp, Hs, Hr.
  reflexivity.
Qed.

Lemma UpdateContribution_blank E c input oid w :
  ObjectIDFromHex (Param_id c) = Some oid ->
  blankContribution input ->
  serve (UpdateContribution E c (Ok input)) w
  = (Responded (mkResponse 400 [] (ErrorBody "no fields to update")), w).
Proof.
  intros Hid Hblank.
  unfold serve, UpdateContribution, bind. rewrite Hid. simpl.
  rewrite (stageContribution_blank _ _ Hblank), map_size_singleton.
  reflexivity.
Qed.

(** What [FindOne] returns in a given world. *)
Definition findOneResult (E : Collaborators) (col : string) (filter : Doc)
    (w : World) : option Doc :=
  if fault E (length (log w)) (CallFindOne col filter) then None
  else List.find (matches E filter) (coll (db w) col).

Definition logged (c : StoreCall) (w : World) : World := with_log (log w ++ [c]) w.

Abbreviation byID o := ({[ "_id" := BObjectID o ]} : Doc).

Lemma FindOne_run E col filter w :
  FindOne E col filter w
  = (inr (findOneResult E col filter w), logged (CallFindOne col filter) w).
Proof.
  unfold FindOne, findOneResult, bind, call, get_world, ret, logged. simpl.
  destruct (fault E _ _); reflexivity.
Qed.

(** The files of the form field [new_images]. *)
Definition newFiles (c : Context) : list FileHeader :=
  match MultipartForm c with Some form => form "new_images" | None => [] end.

Lemma newImages_none E c w : newFiles c = [] -> newImages E c w = (inr [], w).
Proof.
  unfold newFiles, newImages. destruct (MultipartForm c) as [form|]; [|reflexivity].
  intros ->. reflexivity.
Qed.

Definition blankEvent (input : UpdateEventInput.t) : Prop :=
  UpdateEventInput.Title input = "" /\
  UpdateEventInput.Description input = "" /\
  UpdateEventInput.Location input = "" /\
  f64.gt (UpdateEventInput.TargetAmount input) f64.zero = false /\
  UpdateEventInput.Status input = "" /\
  (UpdateEventInput.Deadline input = None \/ UpdateEventInput.Deadline input = Some "") /\
  UpdateEventInput.Images input = None.

Definition blankHub (input : UpdateHubInput.t) : Prop :=
  UpdateHubInput.Title input = "" /\
  UpdateHubInput.Description input = "" /\
  UpdateHubInput.Lat input = None /\
  UpdateHubInput.Lng input = None /\
  UpdateHubInput.LocationName input = "" /\
  f64.gt (UpdateHubInput.Rating input) f64.zero = false /\
  UpdateHubInput.Images input = None.

Lemma stageEvent_blank now input :
  blankEvent input -> stageEvent now input = {[ "updated_at" := BDateTime now ]}.
Proof.
  intros (Ht & Hd & Hl & Ha & Hs & _ & _).
  unfold stageEvent. rewrite Ht, Hd, Hl, Ha, Hs. reflexivity.
Qed.

Lemma stageDeadline_blank E input update w :
  blankEvent input ->
  stageDeadline E (UpdateEventInput.Deadline input) update w = (inr update, w).
Proof. intros (_ & _ & _ & _ & _ & [-> | ->] & _); reflexivity. Qed.

Lemma eqb_empty_false s : s <> "" -> String.eqb s "" = false.
Proof. intros H. by apply String.eqb_neq. Qed.

Lemma UpdateEvent_blank E c input objID existing w :
  user_id c <> "" ->
  ObjectIDFromHex (Param_id c) = Some objID ->
  findOneResult E "events" (byID objID) w ≫= Event.decode = Some existing ->
  denied (role c) (user_id c) (Event.UserID existing) = false ->
  blankEvent input ->
  newFiles c = [] ->
  serve (UpdateEvent E c (Ok input)) w
  = (Responded (mkResponse 400 [] (ErrorBody "no fields to update")),
     logged (CallFindOne "events" (byID objID)) w).
Proof.
  intros Hauth Hid Hfound Hperm Hblank Hfiles.
  unfold serve, UpdateEvent, bind.
  rewrite (eqb_empty_false _ Hauth), Hid. cbn.
  rewrite FindOne_run, Hfound. cbn. rewrite Hperm. cbn.
  rewrite (stageEvent_blank _ _ Hblank), (stageDeadline_blank _ _ _ _ Hblank).
  rewrite (newImages_none _ _ _ Hfiles).
  destruct Hblank as (_ & _ & _ & _ & _ & _ & ->).
  unfold mergeImages, applyEventUpdate, bind. cbn.
  rewrite map_size_singleton. reflexivity.
Qed.

Lemma UpdateHub_blank E c input objID existing w :
  user_id c <> "" ->
  ObjectIDFromHex (Param_id c) = Some objID ->
  findOneResult E "hubs" (byID objID) w ≫= Hub.decode = Some existing ->
  denied (role c) (user_id c) (Hub.UserID existing) = false ->
  blankHub input ->
  serve (UpdateHub E c (Ok input)) w
  = (Responded (mkResponse 400 []
                  (ErrorBody (UpdateHubInput.validation_error "Title" "required"))),
     logged (CallFindOne "hubs" (byID objID)) w).
Proof.
  intros Hauth Hid Hfound Hperm (Ht & _).
  unfold serve, UpdateHub, bind.
  rewrite (eqb_empty_false _ Hauth), Hid. cbn.
  rewrite FindOne_run, Hfound. cbn. rewrite Hperm. cbn.
  rewrite Ht. reflexivity.
Qed.

(** Stored documents used to run the handlers. *)
Module fixtures.

Definition event_doc (id owner : ObjectID) (title : string)
    (images : list string) (updated : Time) : Doc :=
  <["_id" := BObjectID id]> (<["user_id" := BObjectID owner]>
  (<["title" := BString title]> (<["status" := BString "ACTIVE"]>
  (<["images" := images_value images]>
  (<["created_at" := BDateTime 1600000000000]>
  (<["updated_at" := BDateTime updated]> ∅)))))).

Definition hub_doc (id owner : ObjectID) (title : string)
    (lat lng : Z) (images : list string) (updated : Time) : Doc :=
  <["_id" := BObjectID id]> (<["user_id" := BObjectID owner]>
  (<["title" := BString title]>
  (<["coordinates" := BDocument (<["lat" := BDouble (f64.of_Z lat)]>
                                 {[ "lng" := BDouble (f64.of_Z lng) ]})]>
  (<["images" := images_value images]>
  (<["created_at" := BDateTime 1600000000000]>
  (<["updated_at" := BDateTime updated]> ∅)))))).

Definition e1 := demo.oid_of 17.
Definition h1 := demo.oid_of 33.

Definition events : Store :=
  {[ "events" := [event_doc e1 demo.alice "Roof repair" ["A"; "B"] 1650000000000] ]}.

Definition hubs : Store :=
  {[ "hubs" := [hub_doc h1 demo.alice "Library" 1 2 ["A"; "B"] 1650000000000] ]}.

Definition blank_contribution : Contribution.t :=
  Contribution.mk NilObjectID NilObjectID "" "" f64.zero "" "" "" "" "" 0 0.

Definition blank_event : UpdateEventInput.t :=
  UpdateEventInput.mk "" "" "" f64.zero None "" None.

Definition blank_hub : UpdateHubInput.t :=
  UpdateHubInput.mk "" "" None None "" f64.zero None.

(** Alice, an ordinary user, addressing the event and the hub she owns. *)
Definition alice_on_e1 : Context := demo.context (Hex demo.alice) "user" (Hex e1).
Definition alice_on_h1 : Context := demo.context (Hex demo.alice) "user" (Hex h1).
(** Bob, who owns neither. *)
Definition bob_on_e1 : Context := demo.context (Hex demo.bob) "user" (Hex e1).
Definition bob_on_h1 : Context := demo.context (Hex demo.bob) "user" (Hex h1).
Definition admin_on_e1 : Context := demo.context (Hex demo.bob) "admin" (Hex e1).
Definition admin_on_h1 : Context := demo.context (Hex demo.bob) "admin" (Hex h1).

End fixtures.

(** C2, as the code has it. A contribution update with every field absent
    is rejected with "no fields to update" without any store call. An
    event update with every field absent, by a caller allowed to update
    the event, is rejected with the same error after the one read that
    fetches the event. A hub update with every field absent is rejected
    by the form binding, whose title is required, after the same read. In
    the three cases nothing is written and the store is unchanged. *)
Theorem C2_blank_update_rejected_before_any_write (E : Collaborators) :
  (forall c input oid w,
      ObjectIDFromHex (Param_id c) = Some oid ->
      blankContribution input ->
      serve (UpdateContribution E c (Ok input)) w
      = (Responded (mkResponse 400 [] (ErrorBody "no fields to update")), w))
  /\ (forall c input objID existing w,
      user_id c <> "" ->
      ObjectIDFromHex (Param_id c) = Some objID ->
      findOneResult E "events" (byID objID) w ≫= Event.decode = Some existing ->
      denied (role c) (user_id c) (Event.UserID existing) = false ->
      blankEvent input ->
      newFiles c = [] ->
      serve (UpdateEvent E c (Ok input)) w
      = (Responded (mkResponse 400 [] (ErrorBody "no fields to update")),
         logged (CallFindOne "events" (byID objID)) w))
  /\ (forall c input objID existing w,
      user_id c <> "" ->
      ObjectIDFromHex (Param_id c) = Some objID ->
      findOneResult E "hubs" (byID objID) w ≫= Hub.decode = Some existing ->
      denied (role c) (user_id c) (Hub.UserID existing) = false ->
      blankHub input ->
      serve (UpdateHub E c (Ok input)) w
      = (Responded (mkResponse 400 []
                      (ErrorBody (UpdateHubInput.validation_error "Title" "required"))),
         logged (CallFindOne "hubs" (byID objID)) w)).
Proof.
  split; [|split]; intros.
  - eapply UpdateContribution_blank; eassumption.
  - eapply UpdateEvent_blank; eassumption.
  - eapply UpdateHub_blank; eassumption.
Qed.

Lemma C2_blank_update_witness :
  serve (UpdateContribution demo.env fixtures.alice_on_e1
           (Ok fixtures.blank_contribution)) (demo.world fixtures.events)
  = (Responded (mkResponse 400 [] (ErrorBody "no fields to update")),
     demo.world fixtures.events)
  /\ serve (UpdateEvent demo.env fixtures.alice_on_e1 (Ok fixtures.blank_event))
           (demo.world fixtures.events)
  = (Responded (mkResponse 400 [] (ErrorBody "no fields to update")),
     logged (CallFindOne "events" (byID fixtures.e1)) (demo.world fixtures.events))
  /\ serve (UpdateHub demo.env fixtures.alice_on_h1 (Ok fixtures.blank_hub))
           (demo.world fixtures.hubs)
  = (Responded (mkResponse 400 []
                  (ErrorBody (UpdateHubInput.validation_error "Title" "required"))),
     logged (CallFindOne "hubs" (byID fixtures.h1)) (demo.world fixtures.hubs)).
Proof.
  destruct (C2_blank_update_rejected_before_any_write demo.env) as (Hc & He & Hh).
  split; [|split].
  - apply (Hc _ _ fixtures.e1); [reflexivity | repeat split].
  - eapply (He _ _ fixtures.e1);
      [discriminate | reflexivity | vm_compute; reflexivity | reflexivity
      | repeat split; by left | reflexivity].
  - eapply (Hh _ _ fixtures.h1);
      [discriminate | reflexivity | vm_compute; reflexivity | reflexivity
      | repeat split].
Defined.

(** C2 as stated fails. The owner's blank event update is rejected only
    after a store call: the log holds the read of the event. The owner's
    blank hub update is not answered with "no fields to update". *)
Lemma C2_blank_update_counterexample :
  log (snd (serve (UpdateEvent demo.env fixtures.alice_on_e1 (Ok fixtures.blank_event))
                  (demo.world fixtures.events)))
  = [CallFindOne "events" (byID fixtures.e1)]
  /\ fst (serve (UpdateHub demo.env fixtures.alice_on_h1 (Ok fixtures.blank_hub))
                (demo.world fixtures.hubs))
     <> Responded (mkResponse 400 [] (ErrorBody "no fields to update")).
Proof.
  split.
  - vm_compute. reflexivity.
  - vm_compute. discriminate.
Qed.

(** *** Where a handler can end

    [exits P m]: whenever [m] ends the request early, the way it ends
    satisfies [P]. *)
Definition exits {A} (P : Exit -> Prop) (m : H A) : Prop :=
  forall w e w', m w = (inl e, w') -> P e.

Section Exits.

Variable E : Collaborators.
Variable P : Exit -> Prop.

Lemma exits_ret {A} (a : A) : exits P (ret a).
Proof. intros w e w' Hrun. discriminate. Qed.

Lemma exits_exit {A} e : P e -> exits P (@exit A e).
Proof. intros He w e' w' Hrun. unfold exit in Hrun. by simplify_eq. Qed.

Lemma exits_JSON {A} hdrs st b :
  P (Responded (mkResponse st hdrs b)) -> exits P (@JSON A hdrs st b).
Proof. apply exits_exit. Qed.

Lemma exits_Status {A} st :
  P (Responded (mkResponse st [] NoBody)) -> exits P (@Status A st).
Proof. apply exits_exit. Qed.

Lemma exits_bind {A B} (m : H A) (f : A -> H B) :
  exits P m -> (forall a, exits P (f a)) -> exits P (bind m f).
Proof.
  intros Hm Hf w e w' Hrun. unfold bind in Hrun.
  destruct (m w) as [[e1|a] w1] eqn:Hmw.
  - simplify_eq. eapply Hm; eassumption.
  - eapply Hf; eassumption.
Qed.

Lemma exits_when cond h : exits P h -> exits P (when cond h).
Proof. destruct cond; simpl; [done | intros _; apply exits_ret]. Qed.

Lemma exits_unwrap {A} (o : option A) h : exits P h -> exits P (unwrap o h).
Proof. destruct o; simpl; [intros _; apply exits_ret | done]. Qed.

Lemma exits_bound {A} (input : outcome A) :
  (forall msg, P (Responded (mkResponse 400 [] (ErrorBody msg)))) ->
  (forall msg, P (Panicked msg)) ->
  exits P (bound input).
Proof.
  intros Hbad Hpanic. destruct input; simpl.
  - apply exits_ret.
  - apply exits_JSON, Hbad.
  - apply exits_exit, Hpanic.
Qed.

(** The store operations, the clock and the id generator never end a
    request by themselves. *)
Lemma exits_call c : exits P (call E c).
Proof. intros w e w' Hrun. discriminate. Qed.

Lemma exits_FindOne col filter : exits P (FindOne E col filter).
Proof. intros w e w' Hrun. rewrite FindOne_run in Hrun. discriminate. Qed.

Lemma exits_UpdateOne col filter set : exits P (UpdateOne E col filter set).
Proof.
  intros w e w' Hrun. unfold UpdateOne, bind, call, get_world, put_world, ret in Hrun.
  cbn in Hrun. repeat case_match; simplify_eq.
Qed.

Lemma exits_DeleteOne col filter : exits P (DeleteOne E col filter).
Proof.
  intros w e w' Hrun. unfold DeleteOne, bind, call, get_world, put_world, ret in Hrun.
  cbn in Hrun. repeat case_match; simplify_eq.
Qed.

Lemma exits_time_Now : exits P time_Now.
Proof. intros w e w' Hrun. discriminate. Qed.

Lemma exits_forEach {A B} (l : list A) (f : A -> H B) :
  (forall a, exits P (f a)) -> exits P (forEach l f).
Proof.
  intros Hf. induction l as [|x l IH]; cbn [forEach].
  - apply exits_ret.
  - apply exits_bind; [apply Hf | intros y].
    apply exits_bind; [apply IH | intros ys]. apply exits_ret.
Qed.

Lemma exits_UploadToCloudinary fh : exits P (UploadToCloudinary E fh).
Proof.
  intros w e w' Hrun. unfold UploadToCloudinary, bind, get_world, put_world, ret in Hrun.
  repeat case_match; simplify_eq.
Qed.

Lemma exits_DeleteFromCloudinary u :
  (forall msg, P (Panicked msg)) -> exits P (DeleteFromCloudinary E u).
Proof.
  intros Hpanic w e w' Hrun.
  unfold DeleteFromCloudinary, bind, get_world, put_world, ret, panic, exit in Hrun.
  repeat case_match; simplify_eq. apply Hpanic.
Qed.

Lemma exits_uploadEach files urls :
  (forall b, P (Responded (mkResponse 500 [] b))) ->
  (forall msg, P (Panicked msg)) ->
  exits P (uploadEach E files urls).
Proof.
  intros H500 Hpanic. revert urls.
  induction files as [|fh files IH]; intros urls; cbn [uploadEach].
  - apply exits_ret.
  - apply exits_bind; [apply exits_when, exits_JSON, H500 | intros _].
    apply exits_bind; [apply exits_UploadToCloudinary | intros [u|e|e]].
    + apply IH.
    + apply exits_JSON, H500.
    + apply exits_exit, Hpanic.
Qed.

Lemma exits_newImages c :
  (forall b, P (Responded (mkResponse 500 [] b))) ->
  (forall msg, P (Panicked msg)) ->
  exits P (newImages E c).
Proof.
  intros H500 Hpanic. unfold newImages. destruct (MultipartForm c).
  - by apply exits_uploadEach.
  - apply exits_ret.
Qed.

Lemma exits_stageDeadline deadline update :
  (forall b, P (Responded (mkResponse 400 [] b))) ->
  exits P (stageDeadline E deadline update).
Proof.
  intros H400. unfold stageDeadline. destruct deadline as [v|]; [|apply exits_ret].
  destruct (nonempty v); [|apply exits_ret].
  apply exits_bind; [apply exits_unwrap, exits_JSON, H400 | intros; apply exits_ret].
Qed.

Lemma serve_exits (m : H unit) w :
  exits P m -> P (Responded (mkResponse 200 [] NoBody)) -> P (fst (serve m w)).
Proof.
  intros Hm Hok. unfold serve. destruct (m w) as [[e|a] w'] eqn:Hmw; simpl.
  - eapply Hm; eassumption.
  - exact Hok.
Qed.

End Exits.

(** *** Ownership *)

Definition not_forbidden (e : Exit) : Prop :=
  match e with
  | Responded r => status r <> http.StatusForbidden
  | Panicked _ => True
  end.

Lemma denied_admin requesterID owner : denied "admin" requesterID owner = false.
Proof. reflexivity. Qed.

Lemma denied_stranger role requesterID owner :
  role <> "admin" -> Hex owner <> requesterID -> denied role requesterID owner = true.
Proof.
  intros Hrole Howner. unfold denied.
  apply String.eqb_neq in Hrole, Howner. by rewrite Hrole, Howner.
Qed.

Ltac exits_step :=
  first
    [ apply exits_ret
    | apply exits_JSON; simpl; discriminate
    | apply exits_when
    | apply exits_unwrap
    | apply exits_FindOne
    | apply exits_UpdateOne
    | apply exits_DeleteOne
    | apply exits_time_Now
    | apply exits_bound; [intros ?; simpl; discriminate | intros ?; exact I]
    | apply exits_newImages; [intros ?; simpl; discriminate | intros ?; exact I]
    | apply exits_stageDeadline; intros ?; simpl; discriminate
    | apply exits_forEach; intros ?; apply exits_DeleteFromCloudinary; intros ?; exact I
    | apply exits_bind; [|intros ?] ].

Lemma UpdateEvent_admin E c form :
  role c = "admin" -> exits not_forbidden (UpdateEvent E c form).
Proof.
  intros Hrole. unfold UpdateEvent, applyEventUpdate. rewrite Hrole.
  repeat exits_step.
Qed.

Lemma DeleteEvent_admin E c :
  role c = "admin" -> exits not_forbidden (DeleteEvent E c).
Proof. intros Hrole. unfold DeleteEvent. rewrite Hrole. repeat exits_step. Qed.

Lemma UpdateHub_admin E c form :
  role c = "admin" -> exits not_forbidden (UpdateHub E c form).
Proof.
  intros Hrole. unfold UpdateHub, applyHubUpdate. rewrite Hrole.
  repeat exits_step.
Qed.

Lemma DeleteHub_admin E c :
  role c = "admin" -> exits not_forbidden (DeleteHub E c).
Proof. intros Hrole. unfold DeleteHub. rewrite Hrole. repeat exits_step. Qed.

Definition forbidden (msg : string) : Exit :=
  Responded (mkResponse 403 [] (ErrorBody msg)).

Section Stranger.

Variables (E : Collaborators) (c : Context) (w : World) (oid : ObjectID).
Hypothesis Hauth : user_id c <> "".
Hypothesis Hid : ObjectIDFromHex (Param_id c) = Some oid.
Hypothesis Hrole : role c <> "admin".

Lemma UpdateEvent_stranger existing form :
  findOneResult E "events" (byID oid) w ≫= Event.decode = Some existing ->
  Hex (Event.UserID existing) <> user_id c ->
  serve (UpdateEvent E c form) w
  = (forbidden "Access denied", logged (CallFindOne "events" (byID oid)) w).
Proof.
  intros Hfound Howner. unfold serve, UpdateEvent, bind.
  rewrite (eqb_empty_false _ Hauth), Hid. cbn.
  rewrite FindOne_run, Hfound. cbn.
  rewrite (denied_stranger _ _ _ Hrole Howner). reflexivity.
Qed.

Lemma DeleteEvent_stranger existing :
  findOneResult E "events" (byID oid) w ≫= Event.decode = Some existing ->
  Hex (Event.UserID existing) <> user_id c ->
  serve (DeleteEvent E c) w
  = (forbidden "access denied", logged (CallFindOne "events" (byID oid)) w).
Proof.
  intros Hfound Howner. unfold serve, DeleteEvent, bind.
  rewrite (eqb_empty_false _ Hauth), Hid. cbn.
  rewrite FindOne_run, Hfound. cbn.
  rewrite (denied_stranger _ _ _ Hrole Howner). reflexivity.
Qed.

Lemma UpdateHub_stranger existing form :
  findOneResult E "hubs" (byID oid) w ≫= Hub.decode = Some existing ->
  Hex (Hub.UserID existing) <> user_id c ->
  serve (UpdateHub E c form) w
  = (forbidden "Access denied", logged (CallFindOne "hubs" (byID oid)) w).
Proof.
  intros Hfound Howner. unfold serve, UpdateHub, bind.
  rewrite (eqb_empty_false _ Hauth), Hid. cbn.
  rewrite FindOne_run, Hfound. cbn.
  rewrite (denied_stranger _ _ _ Hrole Howner). reflexivity.
Qed.

Lemma DeleteHub_stranger existing :
  findOneResult E "hubs" (byID oid) w ≫= Hub.decode = Some existing ->
  Hex (Hub.UserID existing) <> user_id c ->
  serve (DeleteHub E c) w
  = (forbidden "access denied", logged (CallFindOne "hubs" (byID oid)) w).
Proof.
  intros Hfound Howner. unfold serve, DeleteHub, bind.
  rewrite (eqb_empty_false _ Hauth), Hid. cbn.
  rewrite FindOne_run, Hfound. cbn.
  rewrite (denied_stranger _ _ _ Hrole Howner). reflexivity.
Qed.

End Stranger.

(** C5. An authenticated caller who is neither admin nor the owner of the
    event or hub addressed gets Forbidden from update and from delete,
    whatever the payload; the only store call is the read of the resource,
    so the store is unchanged. A caller whose role is admin is never
    answered Forbidden by these four handlers. *)
Theorem C5_ownership_enforced (E : Collaborators) (c : Context) (w : World)
    (Hauth : user_id c <> "") :
  (forall oid existing,
      ObjectIDFromHex (Param_id c) = Some oid ->
      role c <> "admin" ->
      findOneResult E "events" (byID oid) w ≫= Event.decode = Some existing ->
      Hex (Event.UserID existing) <> user_id c ->
      (forall form, serve (UpdateEvent E c form) w
         = (forbidden "Access denied", logged (CallFindOne "events" (byID oid)) w))
      /\ serve (DeleteEvent E c) w
         = (forbidden "access denied", logged (CallFindOne "events" (byID oid)) w))
  /\ (forall oid existing,
      ObjectIDFromHex (Param_id c) = Some oid ->
      role c <> "admin" ->
      findOneResult E "hubs" (byID oid) w ≫= Hub.decode = Some existing ->
      Hex (Hub.UserID existing) <> user_id c ->
      (forall form, serve (UpdateHub E c form) w
         = (forbidden "Access denied", logged (CallFindOne "hubs" (byID oid)) w))
      /\ serve (DeleteHub E c) w
         = (forbidden "access denied", logged (CallFindOne "hubs" (byID oid)) w))
  /\ (role c = "admin" ->
      (forall form, not_forbidden (fst (serve (UpdateEvent E c form) w)))
      /\ not_forbidden (fst (serve (DeleteEvent E c) w))
      /\ (forall form, not_forbidden (fst (serve (UpdateHub E c form) w)))
      /\ not_forbidden (fst (serve (DeleteHub E c) w))).
Proof.
  split; [|split].
  - intros oid existing Hid Hrole Hfound Howner. split; [intros form|].
    + by eapply UpdateEvent_stranger.
    + by eapply DeleteEvent_stranger.
  - intros oid existing Hid Hrole Hfound Howner. split; [intros form|].
    + by eapply UpdateHub_stranger.
    + by eapply DeleteHub_stranger.
  - intros Hrole. repeat split; intros;
      (apply serve_exits; [|simpl; discriminate]).
    + by apply UpdateEvent_admin.
    + by apply DeleteEvent_admin.
    + by apply UpdateHub_admin.
    + by apply DeleteHub_admin.
Qed.

Lemma C5_ownership_witness :
  serve (UpdateEvent demo.env fixtures.bob_on_e1 (Err "malformed form"))
        (demo.world fixtures.events)
  = (forbidden "Access denied",
     logged (CallFindOne "events" (byID fixtures.e1)) (demo.world fixtures.events))
  /\ serve (DeleteHub demo.env fixtures.bob_on_h1) (demo.world fixtures.hubs)
  = (forbidden "access denied",
     logged (CallFindOne "hubs" (byID fixtures.h1)) (demo.world fixtures.hubs))
  /\ not_forbidden
       (fst (serve (DeleteEvent demo.env fixtures.admin_on_e1)
                   (demo.world fixtures.events))).
Proof.
  split; [|split].
  - destruct (C5_ownership_enforced demo.env fixtures.bob_on_e1
                (demo.world fixtures.events)) as (He & _ & _); [discriminate|].
    eapply (He fixtures.e1);
      [reflexivity | discriminate | vm_compute; reflexivity | discriminate].
  - destruct (C5_ownership_enforced demo.env fixtures.bob_on_h1
                (demo.world fixtures.hubs)) as (_ & Hh & _); [discriminate|].
    eapply (Hh fixtures.h1);
      [reflexivity | discriminate | vm_compute; reflexivity | discriminate].
  - destruct (C5_ownership_enforced demo.env fixtures.admin_on_e1
                (demo.world fixtures.events)) as (_ & _ & Ha); [discriminate|].
    destruct Ha as (_ & Hd & _); [reflexivity|]. exact Hd.
Defined.

(** The admin's delete goes through on the stored event. *)
Example admin_deletes_event :
  fst (serve (DeleteEvent demo.env fixtures.admin_on_e1) (demo.world fixtures.events))
  = Responded (mkResponse 200 []
                 (MessageID "event deleted successfully" (Hex fixtures.e1))).
Proof. vm_compute. reflexivity. Qed.

(** *** Creating a contribution *)

Definition badRequest (msg : string) : Exit :=
  Responded (mkResponse 400 [] (ErrorBody msg)).

Lemma IsZero_false o : IsZero o = false -> bool_decide (o = NilObjectID) = false.
Proof. done. Qed.

Lemma CreateContribution_nonpositive E c input event w :
  IsZero (Contribution.EventID input) = false ->
  findOneResult E "events" (byID (Contribution.EventID input)) w ≫= Event.decode
    = Some event ->
  f64.le (Contribution.Amount input) f64.zero = true ->
  serve (CreateContribution E c (Ok input)) w
  = (badRequest "amount must be greater than 0",
     logged (CallFindOne "events" (byID (Contribution.EventID input))) w).
Proof.
  intros Hzero Hfound Hamount. unfold serve, CreateContribution, bind.
  cbn. rewrite Hzero. cbn. rewrite FindOne_run, Hfound. cbn.
  rewrite Hamount. reflexivity.
Qed.

Lemma CreateContribution_no_event E c input w :
  IsZero (Contribution.EventID input) = false ->
  List.find (matches E (byID (Contribution.EventID input))) (coll (db w) "events")
    = None ->
  serve (CreateContribution E c (Ok input)) w
  = (badRequest "event not found",
     logged (CallFindOne "events" (byID (Contribution.EventID input))) w).
Proof.
  intros Hzero Hnone. unfold serve, CreateContribution, bind.
  cbn. rewrite Hzero. cbn. rewrite FindOne_run.
  replace (findOneResult E "events" (byID (Contribution.EventID input)) w)
    with (@None Doc); [reflexivity|].
  unfold findOneResult. by destruct (fault E _ _).
Qed.

(** C6. With an amount that is not positive, creating a contribution
    against an event that the store returns fails with 400 and "amount
    must be greater than 0"; against an event id that matches no stored
    event it fails with 400 and "event not found". In both cases the
    only store call is the read of the event: nothing is inserted. *)
Theorem C6_contribution_validated_before_insert (E : Collaborators)
    (c : Context) (input : Contribution.t) (w : World)
    (Hid : IsZero (Contribution.EventID input) = false) :
  (forall event,
      findOneResult E "events" (byID (Contribution.EventID input)) w ≫= Event.decode
        = Some event ->
      f64.le (Contribution.Amount input) f64.zero = true ->
      serve (CreateContribution E c (Ok input)) w
      = (badRequest "amount must be greater than 0",
         logged (CallFindOne "events" (byID (Contribution.EventID input))) w))
  /\ (List.find (matches E (byID (Contribution.EventID input))) (coll (db w) "events")
        = None ->
      serve (CreateContribution E c (Ok input)) w
      = (badRequest "event not found",
         logged (CallFindOne "events" (byID (Contribution.EventID input))) w)).
Proof.
  split.
  - intros event Hfound Hamount. by eapply CreateContribution_nonpositive.
  - intros Hnone. by apply CreateContribution_no_event.
Qed.

Definition gift (event : ObjectID) (amount : Z) : Contribution.t :=
  Contribution.mk NilObjectID event "Ann" "" (f64.of_Z amount) "KES" "MPESA" "" "" "" 0 0.

Lemma C6_contribution_witness :
  serve (CreateContribution demo.env fixtures.alice_on_e1 (Ok (gift fixtures.e1 (-5))))
        (demo.world fixtures.events)
  = (badRequest "amount must be greater than 0",
     logged (CallFindOne "events" (byID fixtures.e1)) (demo.world fixtures.events))
  /\ serve (CreateContribution demo.env fixtures.alice_on_e1
              (Ok (gift (demo.oid_of 99) 100)))
           (demo.world fixtures.events)
  = (badRequest "event not found",
     logged (CallFindOne "events" (byID (demo.oid_of 99))) (demo.world fixtures.events)).
Proof.
  split.
  - destruct (C6_contribution_validated_before_insert demo.env fixtures.alice_on_e1
                (gift fixtures.e1 (-5)) (demo.world fixtures.events)) as (Hamount & _);
      [reflexivity|].
    eapply Hamount; vm_compute; reflexivity.
  - destruct (C6_contribution_validated_before_insert demo.env fixtures.alice_on_e1
                (gift (demo.oid_of 99) 100) (demo.world fixtures.events)) as (_ & Hnone);
      [reflexivity|].
    apply Hnone. vm_compute. reflexivity.
Defined.

(** A valid contribution is inserted with status PENDING. *)
Example contribution_created :
  let r := serve (CreateContribution demo.env fixtures.alice_on_e1
                    (Ok (gift fixtures.e1 100))) (demo.world fixtures.events) in
  fst r = Responded (mkResponse 201 []
                       (IDMessage (Hex (demo.oid_of 128)) "contribution created"))
  /\ (Contribution.decode <$> coll (db (snd r)) "contributions")
     = [Some (Contribution.mk (demo.oid_of 128) fixtures.e1 "Ann" "" (f64.of_Z 100)
                "KES" "MPESA" "" "PENDING" "" 1700000000000 1700000000000)].
Proof. split; vm_compute; reflexivity. Qed.

(** *** Freshness of list responses *)

Section PickLatest.

Context {A : Type} (UpdatedAt : A -> Time).

Lemma pickLatest_cons a x l :
  pickLatest UpdatedAt a (x :: l)
  = pickLatest UpdatedAt
      (if time.After (UpdatedAt x) (UpdatedAt a) then x else a) l.
Proof. reflexivity. Qed.

(** The loop returns its start value or an element of the list, and
    nothing in sight is more recent. *)
Lemma pickLatest_spec l a :
  let r := pickLatest UpdatedAt a l in
  (r = a \/ In r l)
  /\ UpdatedAt a <= UpdatedAt r
  /\ forall x, In x l -> UpdatedAt x <= UpdatedAt r.
Proof.
  revert a. induction l as [|x l IH]; intros a.
  - simpl. repeat split; [by left | lia | intros x []].
  - rewrite pickLatest_cons. cbv zeta.
    specialize (IH (if time.After (UpdatedAt x) (UpdatedAt a) then x else a)).
    cbv zeta in IH. destruct IH as (Hin & Hge & Hall).
    unfold time.After in *.
    destruct (Z.ltb_spec (UpdatedAt a) (UpdatedAt x)) as [Hlt|Hle].
    + repeat split.
      * right. destruct Hin as [-> | Hin]; [by left | by right].
      * lia.
      * intros y [<- | Hy]; [exact Hge | by apply Hall].
    + repeat split.
      * destruct Hin as [-> | Hin]; [by left | right; by right].
      * exact Hge.
      * intros y [<- | Hy]; [lia | by apply Hall].
Qed.

Lemma pickLatest_max first rest :
  let latest := pickLatest UpdatedAt first (first :: rest) in
  In latest (first :: rest)
  /\ forall x, In x (first :: rest) -> UpdatedAt x <= UpdatedAt latest.
Proof.
  destruct (pickLatest_spec (first :: rest) first) as (Hin & _ & Hall).
  split; [|exact Hall].
  destruct Hin as [-> | Hin]; [by left | exact Hin].
Qed.

End PickLatest.

(** The two answers of a list endpoint on a non-empty result. *)
Definition freshResponse (E : Collaborators) (c : Context)
    (id : ObjectID) (updated : Time) (b : Body) : Exit :=
  let etag := GenerateETag E id updated in
  if nonempty (GetHeader c "If-None-Match")
     && String.eqb (GetHeader c "If-None-Match") etag
  then Responded (mkResponse 304 [] NoBody)
  else Responded (mkResponse 200
                    [("ETag", etag); ("Last-Modified", FormatHTTP E updated)] b).

Lemma ListContributions_fresh E c w w1 l :
  fetchContributions E c w = (inr l, w1) ->
  l <> [] ->
  exists latest,
    In latest l
    /\ (forall x, In x l -> Contribution.UpdatedAt x <= Contribution.UpdatedAt latest)
    /\ serve (ListContributions E c) w
       = (freshResponse E c (Contribution.ID latest) (Contribution.UpdatedAt latest)
            (ContributionList l), w1).
Proof.
  intros Hfetch Hne. destruct l as [|first rest]; [done|].
  destruct (pickLatest_max Contribution.UpdatedAt first rest) as (Hin & Hmax).
  eexists. split; [exact Hin|]. split; [exact Hmax|].
  unfold serve, ListContributions, bind. rewrite Hfetch.
  unfold freshResponse, etagMatches, Status, JSON, exit.
  by destruct (_ && _).
Qed.

Lemma ListEvents_fresh E c w w1 l :
  fetchEvents E c w = (inr l, w1) ->
  l <> [] ->
  exists latest,
    In latest l
    /\ (forall x, In x l -> Event.UpdatedAt x <= Event.UpdatedAt latest)
    /\ serve (ListEvents E c) w
       = (freshResponse E c (Event.ID latest) (Event.UpdatedAt latest)
            (EventList l), w1).
Proof.
  intros Hfetch Hne. destruct l as [|first rest]; [done|].
  destruct (pickLatest_max Event.UpdatedAt first rest) as (Hin & Hmax).
  eexists. split; [exact Hin|]. split; [exact Hmax|].
  unfold serve, ListEvents, bind. rewrite Hfetch.
  unfold freshResponse, etagMatches, Status, JSON, exit.
  by destruct (_ && _).
Qed.

Lemma freshResponse_not_modified E c id updated b :
  GetHeader c "If-None-Match" <> "" ->
  GetHeader c "If-None-Match" = GenerateETag E id updated ->
  freshResponse E c id updated b = Responded (mkResponse 304 [] NoBody).
Proof.
  intros Hne Heq. unfold freshResponse, nonempty.
  rewrite (eqb_empty_false _ Hne). rewrite Heq at 1. by rewrite String.eqb_refl.
Qed.

Lemma freshResponse_full E c id updated b :
  ~ (GetHeader c "If-None-Match" <> ""
     /\ GetHeader c "If-None-Match" = GenerateETag E id updated) ->
  freshResponse E c id updated b
  = Responded (mkResponse 200
                 [("ETag", GenerateETag E id updated);
                  ("Last-Modified", FormatHTTP E updated)] b).
Proof.
  intros Hno. unfold freshResponse, nonempty.
  destruct (String.eqb_spec (GetHeader c "If-None-Match") "") as [|Hne]; [done|].
  destruct (String.eqb_spec (GetHeader c "If-None-Match") (GenerateETag E id updated));
    [|done].
  exfalso. by apply Hno.
Qed.

(** C3. When a list handler has fetched a non-empty result, the ETag and
    the date come from an element of the result whose [updated_at] is
    maximal. A non-empty [If-None-Match] equal to that ETag is answered 304
    with no header and no body; any other request is answered 200 with the
    [ETag] and [Last-Modified] headers and the whole list. *)
Theorem C3_list_freshness (E : Collaborators) (c : Context) (w w1 : World) :
  (forall l,
      fetchContributions E c w = (inr l, w1) -> l <> [] ->
      exists latest,
        In latest l
        /\ (forall x, In x l -> Contribution.UpdatedAt x <= Contribution.UpdatedAt latest)
        /\ let etag := GenerateETag E (Contribution.ID latest)
                         (Contribution.UpdatedAt latest) in
           let inm := GetHeader c "If-None-Match" in
           (inm <> "" /\ inm = etag ->
            serve (ListContributions E c) w
            = (Responded (mkResponse 304 [] NoBody), w1))
           /\ (~ (inm <> "" /\ inm = etag) ->
               serve (ListContributions E c) w
               = (Responded (mkResponse 200
                               [("ETag", etag);
                                ("Last-Modified",
                                 FormatHTTP E (Contribution.UpdatedAt latest))]
                               (ContributionList l)), w1)))
  /\ (forall l,
      fetchEvents E c w = (inr l, w1) -> l <> [] ->
      exists latest,
        In latest l
        /\ (forall x, In x l -> Event.UpdatedAt x <= Event.UpdatedAt latest)
        /\ let etag := GenerateETag E (Event.ID latest) (Event.UpdatedAt latest) in
           let inm := GetHeader c "If-None-Match" in
           (inm <> "" /\ inm = etag ->
            serve (ListEvents E c) w = (Responded (mkResponse 304 [] NoBody), w1))
           /\ (~ (inm <> "" /\ inm = etag) ->
               serve (ListEvents E c) w
               = (Responded (mkResponse 200
                               [("ETag", etag);
                                ("Last-Modified", FormatHTTP E (Event.UpdatedAt latest))]
                               (EventList l)), w1))).
Proof.
  split; intros l Hfetch Hne.
  - destruct (ListContributions_fresh _ _ _ _ _ Hfetch Hne) as (latest & Hin & Hmax & Hrun).
    exists latest. split; [exact Hin|]. split; [exact Hmax|]. cbv zeta. split.
    + intros [Hinm Heq]. by rewrite Hrun, freshResponse_not_modified.
    + intros Hno. by rewrite Hrun, freshResponse_full.
  - destruct (ListEvents_fresh _ _ _ _ _ Hfetch Hne) as (latest & Hin & Hmax & Hrun).
    exists latest. split; [exact Hin|]. split; [exact Hmax|]. cbv zeta. split.
    + intros [Hinm Heq]. by rewrite Hrun, freshResponse_not_modified.
    + intros Hno. by rewrite Hrun, freshResponse_full.
Qed.

Module ledger.

Definition contribution_doc (id event : ObjectID) (name : string) (amount : Z)
    (updated : Time) : Doc :=
  <["_id" := BObjectID id]> (<["event_id" := BObjectID event]>
  (<["contributor_name" := BString name]>
  (<["amount" := BDouble (f64.of_Z amount)]>
  (<["currency" := BString "KES"]> (<["method" := BString "MPESA"]>
  (<["status" := BString "PENDING"]>
  (<["created_at" := BDateTime 1600000000000]>
  (<["updated_at" := BDateTime updated]> ∅)))))))).

Definition store : Store :=
  {[ "contributions" :=
       [contribution_doc (demo.oid_of 65) fixtures.e1 "Ann" 100 1650000000000;
        contribution_doc (demo.oid_of 66) fixtures.e1 "Ben" 250 1670000000000;
        contribution_doc (demo.oid_of 67) fixtures.e1 "Cyd" 75 1660000000000] ]}.

Definition decoded (id : ObjectID) (name : string) (amount : Z) (updated : Time)
  : Contribution.t :=
  Contribution.mk id fixtures.e1 name "" (f64.of_Z amount) "KES" "MPESA" ""
    "PENDING" "" 1600000000000 updated.

Definition rows : list Contribution.t :=
  [decoded (demo.oid_of 65) "Ann" 100 1650000000000;
   decoded (demo.oid_of 66) "Ben" 250 1670000000000;
   decoded (demo.oid_of 67) "Cyd" 75 1660000000000].

Definition fetched : World :=
  logged (CallCursorAll "contributions")
    (logged (CallFind "contributions" ∅) (demo.world store)).

(** The ETag of the most recent row, Ben's. *)
Definition etag : string :=
  GenerateETag demo.env (demo.oid_of 66) 1670000000000.

(** Alice's events, as [ListEvents] fetches them. *)
Definition event : Event.t :=
  Event.mk fixtures.e1 demo.alice "Roof repair" "" "" f64.zero None "ACTIVE"
    ["A"; "B"] 1600000000000 1650000000000.

Definition events_fetched : World :=
  logged (CallCursorAll "events")
    (logged (CallFind "events" {[ "user_id" := BObjectID demo.alice ]})
       (demo.world fixtures.events)).

Definition conditional (tag : string) : Context := {|
  user_id := Hex demo.alice; role := "user"; Param_id := "";
  Query := fun _ => "";
  GetHeader := fun k => if String.eqb k "If-None-Match" then tag else "";
  MultipartForm := None
|}.

End ledger.

Lemma C3_list_freshness_witness :
  serve (ListContributions demo.env (ledger.conditional ledger.etag))
        (demo.world ledger.store)
  = (Responded (mkResponse 304 [] NoBody), ledger.fetched)
  /\ serve (ListContributions demo.env (ledger.conditional "stale"))
           (demo.world ledger.store)
  = (Responded (mkResponse 200
                  [("ETag", ledger.etag); ("Last-Modified", "1670000000000")]
                  (ContributionList ledger.rows)), ledger.fetched)
  /\ serve (ListEvents demo.env fixtures.alice_on_e1) (demo.world fixtures.events)
  = (Responded (mkResponse 200
                  [("ETag", GenerateETag demo.env fixtures.e1 1650000000000);
                   ("Last-Modified", "1650000000000")]
                  (EventList [ledger.event])), ledger.events_fetched).
Proof.
  assert (forall latest,
            In latest ledger.rows ->
            (forall x, In x ledger.rows ->
                       Contribution.UpdatedAt x <= Contribution.UpdatedAt latest) ->
            latest = ledger.decoded (demo.oid_of 66) "Ben" 250 1670000000000) as Hben.
  { intros latest Hin Hmax.
    specialize (Hmax (ledger.decoded (demo.oid_of 66) "Ben" 250 1670000000000)).
    destruct Hin as [<- | [<- | [<- | []]]]; [exfalso | reflexivity | exfalso];
      cbn in Hmax.
    - assert (1670000000000 <= 1650000000000) by (apply Hmax; tauto). lia.
    - assert (1670000000000 <= 1660000000000) by (apply Hmax; tauto). lia. }
  split; [|split].
  - destruct (C3_list_freshness demo.env (ledger.conditional ledger.etag)
                (demo.world ledger.store) ledger.fetched) as (Hc & _).
    destruct (Hc ledger.rows) as (latest & Hin & Hmax & H304 & _);
      [vm_compute; reflexivity | discriminate |].
    apply H304. clear H304. rewrite (Hben latest Hin Hmax).
    split; [vm_compute; discriminate | vm_compute; reflexivity].
  - destruct (C3_list_freshness demo.env (ledger.conditional "stale")
                (demo.world ledger.store) ledger.fetched) as (Hc & _).
    destruct (Hc ledger.rows) as (latest & Hin & Hmax & _ & H200);
      [vm_compute; reflexivity | discriminate |].
    rewrite (Hben latest Hin Hmax) in H200.
    apply H200. intros [_ Heq]. vm_compute in Heq. discriminate.
  - destruct (C3_list_freshness demo.env fixtures.alice_on_e1
                (demo.world fixtures.events) ledger.events_fetched) as (_ & He).
    destruct (He [ledger.event]) as (latest & Hin & _ & _ & H200);
      [vm_compute; reflexivity | discriminate |].
    destruct Hin as [<- | []].
    apply H200. intros [Hne _]. by apply Hne.
Defined.

(** *** The store's field-level update *)

Lemma bson_eqb_oid o x : bson_eqb (BObjectID o) x = true <-> x = BObjectID o.
Proof.
  destruct x; simpl; try (split; [discriminate | congruence]).
  rewrite bool_decide_eq_true. split; congruence.
Qed.

Lemma crit_oid E k o d :
  crit E k (BObjectID o) d = true <-> d !! k = Some (BObjectID o).
Proof.
  unfold crit. destruct (d !! k) as [x|]; [|split; discriminate].
  rewrite bson_eqb_oid. split; congruence.
Qed.

Lemma matches_byID E o d :
  matches E (byID o) d = true <-> d !! "_id" = Some (BObjectID o).
Proof.
  unfold matches. rewrite bool_decide_eq_true, map_Forall_singleton.
  apply crit_oid.
Qed.

Lemma update_first_find p f (l : list Doc) d :
  List.find p l = Some d -> p (f d) = true ->
  exists l', update_first p f l = Some l' /\ List.find p l' = Some (f d).
Proof.
  intros Hfind Hpf. induction l as [|x l IH]; [discriminate|].
  simpl in *. destruct (p x) eqn:Hpx.
  - injection Hfind as ->. eexists. split; [reflexivity|]. simpl. by rewrite Hpf.
  - destruct (IH Hfind) as (l' & -> & Hl'). eexists. split; [reflexivity|].
    simpl. by rewrite Hpx.
Qed.

Lemma update_first_map {B} (g : Doc -> B) p f l l' :
  (forall d, g (f d) = g d) ->
  update_first p f l = Some l' -> g <$> l' = g <$> l.
Proof.
  intros Hg. revert l'. induction l as [|x l IH]; intros l' Hup; [discriminate|].
  simpl in Hup. destruct (p x).
  - injection Hup as <-. simpl. by rewrite Hg.
  - destruct (update_first p f l) as [l0|]; [|discriminate].
    injection Hup as <-. simpl. f_equal. by apply IH.
Qed.

Lemma coll_insert (s : Store) col l : coll (<[col := l]> s) col = l.
Proof. unfold coll. by rewrite lookup_insert_eq. Qed.

Lemma coll_insert_ne (s : Store) col col' l :
  col <> col' -> coll (<[col := l]> s) col' = coll s col'.
Proof. intros Hne. unfold coll. by rewrite lookup_insert_ne. Qed.

(** The three ways [UpdateOne] can go. *)
Lemma UpdateOne_cases E col filter set w :
  let w1 := logged (CallUpdateOne col filter set) w in
  (fault E (length (log w)) (CallUpdateOne col filter set) = true
   /\ UpdateOne E col filter set w = (inr None, w1))
  \/ (fault E (length (log w)) (CallUpdateOne col filter set) = false
      /\ update_first (matches E filter) (fun d => set ∪ d) (coll (db w) col) = None
      /\ UpdateOne E col filter set w = (inr (Some 0), w1))
  \/ (exists l',
      fault E (length (log w)) (CallUpdateOne col filter set) = false
      /\ update_first (matches E filter) (fun d => set ∪ d) (coll (db w) col) = Some l'
      /\ UpdateOne E col filter set w
         = (inr (Some 1), with_db (<[col := l']> (db w)) w1)).
Proof.
  unfold UpdateOne, bind, call, get_world, put_world, ret, logged. cbn.
  destruct (fault E _ _); cbn; [by left | right].
  destruct (update_first _ _ _) as [l'|]; cbn; [right | left]; eauto.
Qed.

(** *** The staged sets of the update handlers *)

Lemma stageEvent_lookup_other now input k :
  k <> "updated_at" -> k <> "title" -> k <> "description" -> k <> "location" ->
  k <> "target_amount" -> k <> "status" ->
  stageEvent now input !! k = None.
Proof.
  intros. unfold stageEvent.
  repeat (rewrite lookup_put_if_ne by done). by rewrite lookup_singleton_ne.
Qed.

Lemma stageHub_lookup_other now input k :
  k <> "updated_at" -> k <> "title" -> k <> "description" ->
  k <> "location_name" -> k <> "rating" -> k <> "coordinates" ->
  stageHub now input !! k = None.
Proof.
  intros. unfold stageHub.
  repeat (rewrite lookup_put_if_ne by done). by rewrite lookup_singleton_ne.
Qed.

(** Whether the caller supplied retained URLs or new files. *)
Definition imagesSupplied (images : option (list string)) (new : list string) : Prop :=
  is_Some images \/ new <> [].

Lemma mergeImages_supplied images new update :
  imagesSupplied images new ->
  mergeImages images new update !! "images"
  = Some (images_value (default [] images ++ new)).
Proof.
  intros Hs. unfold mergeImages. rewrite lookup_put_if_eq.
  replace (bool_decide (is_Some images) || (0 <? length new)%nat) with true; [done|].
  symmetry. destruct Hs as [Hi | Hn].
  - by rewrite (bool_decide_eq_true_2 _ Hi).
  - destruct new; [done|]. by rewrite orb_true_r.
Qed.

Lemma mergeImages_neither update : mergeImages None [] update = update.
Proof. reflexivity. Qed.

Lemma mergeImages_lookup_ne images new update k :
  k <> "images" -> mergeImages images new update !! k = update !! k.
Proof. intros Hne. unfold mergeImages. by rewrite lookup_put_if_ne. Qed.

(** The deadline of the form, parsed: [None] when no layout fits. *)
Definition deadlineParsed (E : Collaborators) (deadline : option string)
  : option (option Time) :=
  match deadline with
  | Some value => if nonempty value then Some <$> parseDeadline E value else Some None
  | None => Some None
  end.

Definition withDeadline (p : option Time) (update : Doc) : Doc :=
  match p with Some t => <["deadline" := BDateTime t]> update | None => update end.

Lemma stageDeadline_run E deadline p update w :
  deadlineParsed E deadline = Some p ->
  stageDeadline E deadline update w = (inr (withDeadline p update), w).
Proof.
  unfold deadlineParsed, stageDeadline. destruct deadline as [v|]; [|by intros [= <-]].
  destruct (nonempty v); [|by intros [= <-]].
  unfold bind. destruct (parseDeadline E v) as [t|]; [|discriminate].
  by intros [= <-].
Qed.

Lemma withDeadline_lookup_ne p update k :
  k <> "deadline" -> withDeadline p update !! k = update !! k.
Proof. intros Hne. destruct p; simpl; [by rewrite lookup_insert_ne | done]. Qed.

(** The URL of an upload that goes through. *)
Definition uploadURL (E : Collaborators) (fh : FileHeader) : option string :=
  if Opens fh then
    match cloudinaryConfigError E, cloudinaryUpload E fh with
    | None, inl u => Some u
    | _, _ => None
    end
  else None.

(** The URLs of the new files, when every one of them is uploaded. *)
Definition newURLs (E : Collaborators) (c : Context) : option (list string) :=
  mapM (uploadURL E) (newFiles c).

Lemma uploadEach_run E files urls new w :
  mapM (uploadURL E) files = Some new ->
  uploadEach E files urls w
  = (inr (urls ++ new),
     with_assets (assets w ++ (AssetUpload ∘ Filename <$> files)) w).
Proof.
  revert urls new w. induction files as [|fh files IH]; intros urls new w Hall.
  - injection Hall as <-. cbn. rewrite !app_nil_r. by destruct w.
  - cbn in Hall. destruct (uploadURL E fh) as [u|] eqn:Hu; [|discriminate].
    cbn in Hall. destruct (mapM (uploadURL E) files) as [rest|] eqn:Hrest; [|discriminate].
    injection Hall as <-.
    unfold uploadURL in Hu. cbn [uploadEach]. unfold bind, UploadToCloudinary.
    destruct (Opens fh); [|discriminate]. cbn.
    destruct (cloudinaryConfigError E); [discriminate|].
    destruct (cloudinaryUpload E fh) as [u'|]; [|discriminate].
    injection Hu as ->. cbn.
    rewrite (IH _ rest) by reflexivity. cbn.
    by rewrite <- !app_assoc.
Qed.

Lemma newImages_run E c new w :
  newURLs E c = Some new ->
  newImages E c w
  = (inr new, with_assets (assets w ++ (AssetUpload ∘ Filename <$> newFiles c)) w).
Proof.
  unfold newURLs, newFiles, newImages. destruct (MultipartForm c) as [form|].
  - intros Hall. by rewrite (uploadEach_run _ _ _ _ _ Hall).
  - intros [= <-]. cbn. rewrite app_nil_r. by destruct w.
Qed.

Lemma size_two_keys (m : Doc) k1 k2 :
  is_Some (m !! k1) -> is_Some (m !! k2) -> k1 <> k2 -> size m <> 1%nat.
Proof.
  intros H1 H2 Hne Hsize.
  assert (size (delete k1 m) <> 0%nat) as Hrest.
  { apply (map_size_ne_0_lookup_2 _ k2). by rewrite lookup_delete_ne. }
  rewrite (map_size_delete_Some _ _ H1) in Hrest. lia.
Qed.

Lemma findOneResult_Some E col filter w d :
  findOneResult E col filter w = Some d ->
  List.find (matches E filter) (coll (db w) col) = Some d.
Proof. unfold findOneResult. by destruct (fault E _ _). Qed.

(** After a [$set] that went through, [byID] finds the merged document. *)
Ltac stored_after_update Hsize Hfault Hfind Hid :=
  unfold serve, bind; cbn;
  rewrite (proj2 (Nat.eqb_neq _ _) Hsize); cbn;
  match goal with
  | |- context [UpdateOne ?E ?col ?f ?U ?w] =>
      destruct (update_first_find (matches E f) (fun d => U ∪ d) _ _ Hfind)
        as (l' & Hup & Hl');
      [ apply matches_byID; rewrite lookup_union_r by exact Hid;
        apply (proj1 (matches_byID E _ _)); exact (proj2 (find_some _ _ Hfind))
      | destruct (UpdateOne_cases E col f U w)
          as [(Hf & _) | [(_ & Hnone & _) | (l'' & _ & Hsome & ->)]];
        [ congruence | congruence
        | rewrite Hup in Hsome; injection Hsome as <- ] ]
  end;
  cbn; rewrite FindOne_run;
  match goal with
  | |- context [findOneResult ?E ?col ?f ?w ≫= ?dec] =>
      destruct (findOneResult E col f w ≫= dec)
  end; cbn; by rewrite coll_insert.

(** A [$set] leaves alone every field it does not name. *)
Ltac frame_after_update Hk :=
  unfold serve, bind; cbn;
  match goal with |- context [(size ?U =? 1)%nat] => destruct (size U =? 1)%nat end;
  cbn; [reflexivity|];
  match goal with
  | |- context [UpdateOne ?E ?col ?f ?U ?w] =>
      destruct (UpdateOne_cases E col f U w)
        as [(_ & ->) | [(_ & _ & ->) | (l' & _ & Hup & ->)]]
  end; cbn; [reflexivity | | ];
  rewrite FindOne_run;
  match goal with
  | |- context [findOneResult ?E ?col ?f ?w ≫= ?dec] =>
      destruct (findOneResult E col f w ≫= dec)
  end; cbn; try reflexivity;
  rewrite coll_insert;
  (eapply update_first_map; [|eassumption]);
  intros d0; cbn; by rewrite lookup_union_r.

Lemma applyEventUpdate_stored E objID update w d :
  size update <> 1%nat ->
  fault E (length (log w)) (CallUpdateOne "events" (byID objID) update) = false ->
  List.find (matches E (byID objID)) (coll (db w) "events") = Some d ->
  update !! "_id" = None ->
  List.find (matches E (byID objID))
    (coll (db (snd (serve (applyEventUpdate E objID update) w))) "events")
  = Some (update ∪ d).
Proof.
  intros Hsize Hfault Hfind Hid. unfold applyEventUpdate.
  stored_after_update Hsize Hfault Hfind Hid.
Qed.

Lemma applyHubUpdate_stored E objID update w d :
  size update <> 1%nat ->
  fault E (length (log w)) (CallUpdateOne "hubs" (byID objID) update) = false ->
  List.find (matches E (byID objID)) (coll (db w) "hubs") = Some d ->
  update !! "_id" = None ->
  List.find (matches E (byID objID))
    (coll (db (snd (serve (applyHubUpdate E objID update) w))) "hubs")
  = Some (update ∪ d).
Proof.
  intros Hsize Hfault Hfind Hid. unfold applyHubUpdate.
  stored_after_update Hsize Hfault Hfind Hid.
Qed.

Lemma applyEventUpdate_frame E objID update w k :
  update !! k = None ->
  (fun d : Doc => d !! k)
    <$> coll (db (snd (serve (applyEventUpdate E objID update) w))) "events"
  = (fun d : Doc => d !! k) <$> coll (db w) "events".
Proof. intros Hk. unfold applyEventUpdate. frame_after_update Hk. Qed.

Lemma applyHubUpdate_frame E objID update w k :
  update !! k = None ->
  (fun d : Doc => d !! k)
    <$> coll (db (snd (serve (applyHubUpdate E objID update) w))) "hubs"
  = (fun d : Doc => d !! k) <$> coll (db w) "hubs".
Proof. intros Hk. unfold applyHubUpdate. frame_after_update Hk. Qed.

(** The world in which the staged update is applied: the resource has
    been read and the new files uploaded. *)
Definition staged (c : Context) (col : string) (objID : ObjectID) (w : World) : World :=
  with_assets (assets w ++ (AssetUpload ∘ Filename <$> newFiles c))
    (logged (CallFindOne col (byID objID)) w).

Lemma UpdateEvent_staged E c w objID d existing input p new :
  user_id c <> "" ->
  ObjectIDFromHex (Param_id c) = Some objID ->
  findOneResult E "events" (byID objID) w = Some d ->
  Event.decode d = Some existing ->
  denied (role c) (user_id c) (Event.UserID existing) = false ->
  deadlineParsed E (UpdateEventInput.Deadline input) = Some p ->
  newURLs E c = Some new ->
  serve (UpdateEvent E c (Ok input)) w
  = serve (applyEventUpdate E objID
             (mergeImages (UpdateEventInput.Images input) new
                (withDeadline p (stageEvent (clock w) input))))
          (staged c "events" objID w).
Proof.
  intros Hauth Hid Hfound Hdec Hperm Hdl Hnew.
  unfold serve at 1. unfold UpdateEvent, bind.
  rewrite (eqb_empty_false _ Hauth), Hid. cbn.
  rewrite FindOne_run, Hfound. cbn. rewrite Hdec. cbn. rewrite Hperm. cbn.
  rewrite (stageDeadline_run _ _ _ _ _ Hdl).
  rewrite (newImages_run _ _ _ _ Hnew). reflexivity.
Qed.

Lemma UpdateHub_staged E c w objID d existing input new :
  user_id c <> "" ->
  ObjectIDFromHex (Param_id c) = Some objID ->
  findOneResult E "hubs" (byID objID) w = Some d ->
  Hub.decode d = Some existing ->
  denied (role c) (user_id c) (Hub.UserID existing) = false ->
  UpdateHubInput.Title input <> "" ->
  newURLs E c = Some new ->
  serve (UpdateHub E c (Ok input)) w
  = serve (applyHubUpdate E objID
             (mergeImages (UpdateHubInput.Images input) new
                (stageHub (clock w) input)))
          (staged c "hubs" objID w).
Proof.
  intros Hauth Hid Hfound Hdec Hperm Htitle Hnew.
  unfold serve at 1. unfold UpdateHub, bind.
  rewrite (eqb_empty_false _ Hauth), Hid. cbn.
  rewrite FindOne_run, Hfound. cbn. rewrite Hdec. cbn. rewrite Hperm. cbn.
  rewrite (eqb_empty_false _ Htitle). cbn.
  rewrite (newImages_run _ _ _ _ Hnew). reflexivity.
Qed.

(** The image rule, for a staged set [update] and the collection [col]
    after the handler, [w'] being the final world: with retained
    URLs or new files, the images staged and stored are the retained ones
    followed by the new ones; with neither, no images are staged and the
    stored images are those of before. *)
Definition imagesMerged (E : Collaborators) (col : string) (objID : ObjectID)
    (images : option (list string)) (new : list string)
    (update : Doc) (w1 w' : World) : Prop :=
  (imagesSupplied images new ->
     update !! "images" = Some (images_value (default [] images ++ new))
     /\ (fault E (length (log w1)) (CallUpdateOne col (byID objID) update) = false ->
         exists d', List.find (matches E (byID objID)) (coll (db w') col) = Some d'
                    /\ d' !! "images"
                       = Some (images_value (default [] images ++ new))))
  /\ (images = None -> new = [] ->
      update !! "images" = None
      /\ (fun d : Doc => d !! "images") <$> coll (db w') col
         = (fun d : Doc => d !! "images") <$> coll (db w1) col).

Lemma UpdateEvent_images E c w objID d existing input p new :
  user_id c <> "" ->
  ObjectIDFromHex (Param_id c) = Some objID ->
  findOneResult E "events" (byID objID) w = Some d ->
  Event.decode d = Some existing ->
  denied (role c) (user_id c) (Event.UserID existing) = false ->
  deadlineParsed E (UpdateEventInput.Deadline input) = Some p ->
  newURLs E c = Some new ->
  exists update,
    serve (UpdateEvent E c (Ok input)) w
    = serve (applyEventUpdate E objID update) (staged c "events" objID w)
    /\ imagesMerged E "events" objID (UpdateEventInput.Images input) new update
         (staged c "events" objID w)
         (snd (serve (UpdateEvent E c (Ok input)) w)).
Proof.
  intros Hauth Hid Hfound Hdec Hperm Hdl Hnew.
  eexists. split; [by eapply UpdateEvent_staged|].
  rewrite (UpdateEvent_staged _ _ _ _ _ _ _ _ _ Hauth Hid Hfound Hdec Hperm Hdl Hnew).
  split.
  - intros Hs. split; [by apply mergeImages_supplied|]. intros Hfault.
    eexists. split.
    + apply applyEventUpdate_stored; [| exact Hfault | |].
      * apply (size_two_keys _ "images" "updated_at"); [| |done].
        -- by rewrite mergeImages_supplied.
        -- rewrite mergeImages_lookup_ne, withDeadline_lookup_ne by done.
           unfold stageEvent. repeat (rewrite lookup_put_if_ne by done).
           by rewrite lookup_singleton_eq.
      * by apply findOneResult_Some in Hfound.
      * rewrite mergeImages_lookup_ne, withDeadline_lookup_ne by done.
        by apply stageEvent_lookup_other.
    + rewrite lookup_union_l' by (by rewrite mergeImages_supplied).
      by apply mergeImages_supplied.
  - intros -> ->. rewrite mergeImages_neither.
    assert (withDeadline p (stageEvent (clock w) input) !! "images" = None) as Hk.
    { rewrite withDeadline_lookup_ne by done. by apply stageEvent_lookup_other. }
    split; [exact Hk|]. by apply applyEventUpdate_frame.
Qed.

Lemma UpdateHub_images E c w objID d existing input new :
  user_id c <> "" ->
  ObjectIDFromHex (Param_id c) = Some objID ->
  findOneResult E "hubs" (byID objID) w = Some d ->
  Hub.decode d = Some existing ->
  denied (role c) (user_id c) (Hub.UserID existing) = false ->
  UpdateHubInput.Title input <> "" ->
  newURLs E c = Some new ->
  exists update,
    serve (UpdateHub E c (Ok input)) w
    = serve (applyHubUpdate E objID update) (staged c "hubs" objID w)
    /\ imagesMerged E "hubs" objID (UpdateHubInput.Images input) new update
         (staged c "hubs" objID w)
         (snd (serve (UpdateHub E c (Ok input)) w)).
Proof.
  intros Hauth Hid Hfound Hdec Hperm Htitle Hnew.
  eexists. split; [by eapply UpdateHub_staged|].
  rewrite (UpdateHub_staged _ _ _ _ _ _ _ _ Hauth Hid Hfound Hdec Hperm Htitle Hnew).
  split.
  - intros Hs. split; [by apply mergeImages_supplied|]. intros Hfault.
    eexists. split.
    + apply applyHubUpdate_stored; [| exact Hfault | |].
      * apply (size_two_keys _ "images" "updated_at"); [| |done].
        -- by rewrite mergeImages_supplied.
        -- rewrite mergeImages_lookup_ne by done.
           unfold stageHub. repeat (rewrite lookup_put_if_ne by done).
           by rewrite lookup_singleton_eq.
      * by apply findOneResult_Some in Hfound.
      * rewrite mergeImages_lookup_ne by done. by apply stageHub_lookup_other.
    + rewrite lookup_union_l' by (by rewrite mergeImages_supplied).
      by apply mergeImages_supplied.
  - intros -> ->. rewrite mergeImages_neither.
    assert (stageHub (clock w) input !! "images" = None) as Hk
      by (by apply stageHub_lookup_other).
    split; [exact Hk|]. by apply applyHubUpdate_frame.
Qed.

(** C4. When an event or hub update reaches the staging of its fields
    (the caller may update the resource, the form binds, the deadline
    parses, every new file is uploaded): if retained URLs or new files are
    supplied, the staged [images] field is the retained list followed by
    the URLs of the new files, and that is the stored list once the store
    applies the update; if neither is supplied, no [images] field is
    staged and the stored image lists are those of before. *)
Theorem C4_images_retained_then_new (E : Collaborators) (c : Context) (w : World)
    (objID : ObjectID) (d : Doc) (new : list string)
    (Hauth : user_id c <> "")
    (Hid : ObjectIDFromHex (Param_id c) = Some objID)
    (Hnew : newURLs E c = Some new) :
  (forall existing input p,
      findOneResult E "events" (byID objID) w = Some d ->
      Event.decode d = Some existing ->
      denied (role c) (user_id c) (Event.UserID existing) = false ->
      deadlineParsed E (UpdateEventInput.Deadline input) = Some p ->
      exists update,
        serve (UpdateEvent E c (Ok input)) w
        = serve (applyEventUpdate E objID update) (staged c "events" objID w)
        /\ imagesMerged E "events" objID (UpdateEventInput.Images input) new update
             (staged c "events" objID w)
             (snd (serve (UpdateEvent E c (Ok input)) w)))
  /\ (forall existing input,
      findOneResult E "hubs" (byID objID) w = Some d ->
      Hub.decode d = Some existing ->
      denied (role c) (user_id c) (Hub.UserID existing) = false ->
      UpdateHubInput.Title input <> "" ->
      exists update,
        serve (UpdateHub E c (Ok input)) w
        = serve (applyHubUpdate E objID update) (staged c "hubs" objID w)
        /\ imagesMerged E "hubs" objID (UpdateHubInput.Images input) new update
             (staged c "hubs" objID w)
             (snd (serve (UpdateHub E c (Ok input)) w))).
Proof.
  split.
  - intros existing input p Hfound Hdec Hperm Hdl. by eapply UpdateEvent_images.
  - intros existing input Hfound Hdec Hperm Htitle. by eapply UpdateHub_images.
Qed.

Module album.

(** Alice updates her event: she keeps [B] and sends one new file. *)
Definition keep_B_add_c : Context := {|
  user_id := Hex demo.alice; role := "user"; Param_id := Hex fixtures.e1;
  Query := fun _ => ""; GetHeader := fun _ => "";
  MultipartForm := Some (fun field =>
    if String.eqb field "new_images"
    then [{| Filename := "c.jpg"; Opens := true |}] else [])
|}.

Definition form : UpdateEventInput.t :=
  UpdateEventInput.mk "" "" "" f64.zero None "" (Some ["B"]).

Definition C : string :=
  "https://res.cloudinary.com/demo/image/upload/v1/events/c.jpg".

Definition after : World :=
  snd (serve (UpdateEvent demo.env keep_B_add_c (Ok form))
             (demo.world fixtures.events)).

(** The same update on her hub. *)
Definition hub_keep_B_add_c : Context := {|
  user_id := Hex demo.alice; role := "user"; Param_id := Hex fixtures.h1;
  Query := fun _ => ""; GetHeader := fun _ => "";
  MultipartForm := MultipartForm keep_B_add_c
|}.

Definition hub_form : UpdateHubInput.t :=
  UpdateHubInput.mk "Library" "" None None "" f64.zero (Some ["B"]).

Definition hub_after : World :=
  snd (serve (UpdateHub demo.env hub_keep_B_add_c (Ok hub_form))
             (demo.world fixtures.hubs)).

End album.

(** Stored images [A; B], retained [B], one upload [C]: stored [B; C],
    for the event and for the hub. *)
Lemma C4_images_witness :
  (exists d',
     List.find (matches demo.env (byID fixtures.e1)) (coll (db album.after) "events")
     = Some d'
     /\ d' !! "images" = Some (images_value ["B"; album.C]))
  /\ (exists d',
     List.find (matches demo.env (byID fixtures.h1)) (coll (db album.hub_after) "hubs")
     = Some d'
     /\ d' !! "images" = Some (images_value ["B"; album.C])).
Proof.
  split.
  - destruct (C4_images_retained_then_new demo.env album.keep_B_add_c
                (demo.world fixtures.events) fixtures.e1
                (fixtures.event_doc fixtures.e1 demo.alice "Roof repair" ["A"; "B"]
                   1650000000000)
                [album.C]) as (He & _);
      [discriminate | reflexivity | reflexivity |].
    destruct (He (Event.mk fixtures.e1 demo.alice "Roof repair" "" "" f64.zero None
                    "ACTIVE" ["A"; "B"] 1600000000000 1650000000000)
                 album.form None) as (update & _ & Hsupplied & _);
      [vm_compute; reflexivity | vm_compute; reflexivity | reflexivity | reflexivity |].
    destruct Hsupplied as (_ & Hstored); [left; by eexists|].
    exact (Hstored eq_refl).
  - destruct (C4_images_retained_then_new demo.env album.hub_keep_B_add_c
                (demo.world fixtures.hubs) fixtures.h1
                (fixtures.hub_doc fixtures.h1 demo.alice "Library" 1 2 ["A"; "B"]
                   1650000000000)
                [album.C]) as (_ & Hh);
      [discriminate | reflexivity | reflexivity |].
    destruct (Hh (Hub.mk fixtures.h1 demo.alice "Library" ""
                    (Coordinates.mk (f64.of_Z 1) (f64.of_Z 2)) "" f64.zero
                    ["A"; "B"] 1600000000000 1650000000000 false [])
                 album.hub_form) as (update & _ & Hsupplied & _);
      [vm_compute; reflexivity | vm_compute; reflexivity | reflexivity | discriminate |].
    destruct Hsupplied as (_ & Hstored); [left; by eexists|].
    exact (Hstored eq_refl).
Defined.

Example images_before_the_update :
  (fun d : Doc => d !! "images") <$> coll fixtures.events "events"
  = [Some (images_value ["A"; "B"])].
Proof. vm_compute. reflexivity. Qed.

(** *** Hub coordinates *)

Lemma stageCoordinates_lat_only input lat :
  UpdateHubInput.Lat input = Some lat -> UpdateHubInput.Lng input = None ->
  stageCoordinates input = {[ "lat" := BDouble lat ]}.
Proof. unfold stageCoordinates. by intros -> ->. Qed.

Lemma stageHub_lat_only now input lat :
  UpdateHubInput.Lat input = Some lat -> UpdateHubInput.Lng input = None ->
  stageHub now input !! "coordinates" = Some (BDocument {[ "lat" := BDouble lat ]}).
Proof.
  intros Hlat Hlng. unfold stageHub.
  rewrite (stageCoordinates_lat_only _ _ Hlat Hlng), map_size_singleton.
  apply lookup_put_if_eq.
Qed.

(** Whatever longitude was stored, an update that supplies the latitude
    alone stores a coordinates document that holds the latitude alone. *)
Lemma UpdateHub_lat_only_replaces_coordinates E c w objID d existing input new lat :
  user_id c <> "" ->
  ObjectIDFromHex (Param_id c) = Some objID ->
  findOneResult E "hubs" (byID objID) w = Some d ->
  Hub.decode d = Some existing ->
  denied (role c) (user_id c) (Hub.UserID existing) = false ->
  UpdateHubInput.Title input <> "" ->
  newURLs E c = Some new ->
  UpdateHubInput.Lat input = Some lat -> UpdateHubInput.Lng input = None ->
  (forall u, fault E (S (length (log w))) (CallUpdateOne "hubs" (byID objID) u) = false) ->
  exists d',
    List.find (matches E (byID objID))
      (coll (db (snd (serve (UpdateHub E c (Ok input)) w))) "hubs") = Some d'
    /\ d' !! "coordinates" = Some (BDocument {[ "lat" := BDouble lat ]})
    /\ Coordinates.decode (d' !! "coordinates") = Some (Coordinates.mk lat f64.zero).
Proof.
  intros Hauth Hid Hfound Hdec Hperm Htitle Hnew Hlat Hlng Hfault.
  rewrite (UpdateHub_staged _ _ _ _ _ _ _ _ Hauth Hid Hfound Hdec Hperm Htitle Hnew).
  assert (mergeImages (UpdateHubInput.Images input) new (stageHub (clock w) input)
            !! "coordinates" = Some (BDocument {[ "lat" := BDouble lat ]})) as Hc.
  { rewrite mergeImages_lookup_ne by done. by apply stageHub_lat_only. }
  eexists. split; [|split].
  - apply applyHubUpdate_stored.
    + apply (size_two_keys _ "coordinates" "updated_at"); [by rewrite Hc | | done].
      rewrite mergeImages_lookup_ne by done.
      unfold stageHub. repeat (rewrite lookup_put_if_ne by done).
      by rewrite lookup_singleton_eq.
    + cbn. rewrite length_app. cbn. rewrite Nat.add_1_r. apply Hfault.
    + by apply findOneResult_Some in Hfound.
    + rewrite mergeImages_lookup_ne by done. by apply stageHub_lookup_other.
  - by rewrite lookup_union_l' by (by rewrite Hc).
  - rewrite lookup_union_l' by (by rewrite Hc). rewrite Hc. reflexivity.
Qed.

Module atlas.

(** Alice moves her hub, stored at (1, 2), to latitude 5. *)
Definition lat_only : UpdateHubInput.t :=
  UpdateHubInput.mk "Library" "" (Some (f64.of_Z 5)) None "" f64.zero None.

Definition after : World :=
  snd (serve (UpdateHub demo.env fixtures.alice_on_h1 (Ok lat_only))
             (demo.world fixtures.hubs)).

Definition coordinates (s : Store) : list (option Coordinates.t) :=
  (fun d : Doc => Coordinates.decode (d !! "coordinates")) <$> coll s "hubs".

End atlas.

(** C1 fails on the code. The hub is stored with coordinates (1, 2); after
    an update that supplies the latitude 5 and no longitude, the stored
    coordinates document holds [lat] alone and the hub reads back with
    longitude 0: the previous longitude is lost. *)
Theorem C1_lat_only_update_drops_lng :
  atlas.coordinates fixtures.hubs
  = [Some (Coordinates.mk (f64.of_Z 1) (f64.of_Z 2))]
  /\ (fun d : Doc => d !! "coordinates") <$> coll (db atlas.after) "hubs"
     = [Some (BDocument {[ "lat" := BDouble (f64.of_Z 5) ]})]
  /\ atlas.coordinates (db atlas.after)
     = [Some (Coordinates.mk (f64.of_Z 5) f64.zero)].
Proof. repeat split; vm_compute; reflexivity. Qed.

(** The response of that update shows the hub with longitude 0. *)
Example lat_only_update_response :
  match fst (serve (UpdateHub demo.env fixtures.alice_on_h1 (Ok atlas.lat_only))
                   (demo.world fixtures.hubs)) with
  | Responded (mkResponse 200 [] (HubUpdated _ hub)) =>
      Hub.Coordinates hub = Coordinates.mk (f64.of_Z 5) f64.zero
  | _ => False
  end.
Proof. vm_compute. reflexivity. Qed.

(** *** Favorites *)

Lemma remove_first_split (p : Doc -> bool) l l' :
  remove_first p l = Some l' ->
  exists l1 x l2,
    l = l1 ++ x :: l2 /\ l' = l1 ++ l2 /\ p x = true
    /\ Forall (fun y => p y = false) l1.
Proof.
  revert l'. induction l as [|y l IH]; intros l' Hrm; [discriminate|].
  simpl in Hrm. destruct (p y) eqn:Hpy.
  - injection Hrm as <-. by exists [], y, l.
  - destruct (remove_first p l) as [l0|]; [|discriminate]. injection Hrm as <-.
    destruct (IH l0 eq_refl) as (l1 & x & l2 & -> & -> & Hpx & Hl1).
    exists (y :: l1), x, l2. repeat split; [done | by constructor].
Qed.

Lemma remove_first_None (p : Doc -> bool) l :
  remove_first p l = None -> List.find p l = None.
Proof.
  induction l as [|y l IH]; [done|]. simpl. destruct (p y); [discriminate|].
  destruct (remove_first p l); [discriminate|]. intros _. by apply IH.
Qed.

Lemma find_app_miss (p : Doc -> bool) l1 l2 :
  List.find p l1 = None -> List.find p (l1 ++ l2) = List.find p l2.
Proof.
  induction l1 as [|y l1 IH]; [done|]. simpl. destruct (p y); [discriminate | done].
Qed.

Lemma DeleteOne_run E col filter w :
  fault E (length (log w)) (CallDeleteOne col filter) = false ->
  DeleteOne E col filter w
  = match remove_first (matches E filter) (coll (db w) col) with
    | Some l' => (inr (Some 1),
                  with_db (<[col := l']> (db w)) (logged (CallDeleteOne col filter) w))
    | None => (inr (Some 0), logged (CallDeleteOne col filter) w)
    end.
Proof.
  intros Hok. unfold DeleteOne, bind, call, get_world, put_world, ret, logged.
  rewrite Hok. cbn. by destruct (remove_first _ _).
Qed.

Lemma InsertOne_run E col doc w :
  fault E (length (log w)) (CallInsertOne col doc) = false ->
  existsb (same_id doc) (coll (db w) col) = false ->
  InsertOne E col doc w
  = (inr true, with_db (<[col := coll (db w) col ++ [doc]]> (db w))
                 (logged (CallInsertOne col doc) w)).
Proof.
  intros Hok Hfresh. unfold InsertOne, bind, call, get_world, put_world, ret, logged.
  rewrite Hok. cbn. by rewrite Hfresh.
Qed.

Lemma matches_favorite E u h d :
  matches E (favoriteFilter u h) d = true
  <-> d !! "user_id" = Some (BObjectID u) /\ d !! "hub_id" = Some (BObjectID h).
Proof.
  unfold matches, favoriteFilter.
  rewrite bool_decide_eq_true, map_Forall_insert by done.
  by rewrite map_Forall_singleton, !crit_oid.
Qed.

(** The favorited state of a pair is the existence of its record. *)
Definition favorited (E : Collaborators) (userID hubID : ObjectID) (s : Store) : bool :=
  existsb (matches E (favoriteFilter userID hubID)) (coll s "favorites").

Definition favoriteKey (d : Doc) : option bson * option bson :=
  (d !! "user_id", d !! "hub_id").

Definition docID (d : Doc) : option bson := d !! "_id".

(** A favorites collection as the handler leaves it: every document is a
    favorite with its identifier, identifiers are unique, and so are the
    (user, hub) pairs. *)
Record favoritesOK (l : list Doc) : Prop := {
  favorites_decode :
    Forall (fun d => exists f, Favorite.decode d = Some f
                               /\ d !! "_id" = Some (BObjectID (Favorite.ID f))) l;
  favorites_ids : NoDup (docID <$> l);
  favorites_pairs : NoDup (favoriteKey <$> l)
}.

Lemma favoritesOK_remove l1 x l2 :
  favoritesOK (l1 ++ x :: l2) -> favoritesOK (l1 ++ l2).
Proof.
  intros [Hdec Hids Hpairs]. split.
  - apply Forall_app in Hdec as [H1 H2]. apply Forall_app. split; [done|].
    by apply Forall_cons in H2 as [_ H2].
  - rewrite fmap_app in *. rewrite fmap_cons in Hids.
    apply NoDup_app in Hids as (H1 & H12 & H2). apply NoDup_cons in H2 as [_ H2].
    apply NoDup_app. repeat split; [done | | done].
    intros y Hy1 Hy2. apply (H12 y Hy1). by right.
  - rewrite fmap_app in *. rewrite fmap_cons in Hpairs.
    apply NoDup_app in Hpairs as (H1 & H12 & H2). apply NoDup_cons in H2 as [_ H2].
    apply NoDup_app. repeat split; [done | | done].
    intros y Hy1 Hy2. apply (H12 y Hy1). by right.
Qed.

(** Once the record of a pair is taken out, the pair has no record. *)
Lemma favorited_after_remove E u h l1 x l2 :
  favoritesOK (l1 ++ x :: l2) ->
  matches E (favoriteFilter u h) x = true ->
  existsb (matches E (favoriteFilter u h)) (l1 ++ l2) = false.
Proof.
  intros [_ _ Hpairs] Hx. apply matches_favorite in Hx as [Hxu Hxh].
  apply not_true_is_false. intros Hex.
  apply existsb_exists in Hex as (y & Hy & Hmy).
  apply matches_favorite in Hmy as [Hyu Hyh].
  assert (favoriteKey y = favoriteKey x) as Hkey
    by (unfold favoriteKey; congruence).
  rewrite fmap_app, fmap_cons in Hpairs.
  apply NoDup_app in Hpairs as (_ & H12 & H2). apply NoDup_cons in H2 as [Hx2 _].
  apply in_app_or in Hy as [Hy | Hy]; apply list_elem_of_In in Hy.
  - apply (H12 (favoriteKey y)); [by apply list_elem_of_fmap_2|].
    rewrite Hkey. by left.
  - apply Hx2. rewrite <- Hkey. by apply list_elem_of_fmap_2.
Qed.

Lemma NoDup_fmap_same {A B} (g : A -> B) (l : list A) x y :
  NoDup (g <$> l) -> x ∈ l -> y ∈ l -> g x = g y -> x = y.
Proof.
  induction l as [|a l IH]; intros Hnd Hx Hy Hg; [by apply elem_of_nil in Hx|].
  rewrite fmap_cons in Hnd. apply NoDup_cons in Hnd as [Ha Hnd].
  apply elem_of_cons in Hx as [-> | Hx]; apply elem_of_cons in Hy as [-> | Hy].
  - done.
  - exfalso. apply Ha. rewrite Hg. by apply list_elem_of_fmap_2.
  - exfalso. apply Ha. rewrite <- Hg. by apply list_elem_of_fmap_2.
  - by apply IH.
Qed.

Lemma existsb_find (p : Doc -> bool) l :
  existsb p l = true -> exists x, List.find p l = Some x.
Proof.
  induction l as [|y l IH]; [discriminate|]. simpl. destruct (p y); [by eexists|].
  exact IH.
Qed.

Lemma existsb_false_find (p : Doc -> bool) l :
  existsb p l = false -> List.find p l = None.
Proof.
  induction l as [|y l IH]; [done|]. simpl. destruct (p y); [discriminate | exact IH].
Qed.

Lemma findOneResult_reliable E col filter w :
  (forall n call, fault E n call = false) ->
  findOneResult E col filter w = List.find (matches E filter) (coll (db w) col).
Proof. intros Hok. unfold findOneResult. by rewrite Hok. Qed.

Lemma Favorite_encode_fields f :
  IsZero (Favorite.ID f) = false ->
  Favorite.encode f !! "_id" = Some (BObjectID (Favorite.ID f))
  /\ Favorite.encode f !! "user_id" = Some (BObjectID (Favorite.UserID f))
  /\ Favorite.encode f !! "hub_id" = Some (BObjectID (Favorite.HubID f))
  /\ Favorite.decode (Favorite.encode f) = Some f.
Proof.
  intros Hz. unfold Favorite.decode, Favorite.encode, decode.oid, decode.datetime.
  rewrite Hz. destruct f. by simplify_map_eq.
Qed.

(** The identifier about to be handed out is not nil and names no stored
    favorite. *)
Definition freshID (id : ObjectID) (l : list Doc) : Prop :=
  IsZero id = false /\ Forall (fun d => d !! "_id" <> Some (BObjectID id)) l.

Section Toggle.

Variables (E : Collaborators) (c : Context) (userID hubID : ObjectID).
Hypothesis Huser : ObjectIDFromHex (user_id c) = Some userID.
Hypothesis Hhub : ObjectIDFromHex (Param_id c) = Some hubID.
Hypothesis Hreliable : forall n call, fault E n call = false.

Definition removed : Exit :=
  Responded (mkResponse 200 [] (FavoriteToggled "removed from favorites" false)).
Definition added : Exit :=
  Responded (mkResponse 200 [] (FavoriteToggled "added to favorites" true)).

Lemma ToggleFavorite_off w :
  favoritesOK (coll (db w) "favorites") ->
  favorited E userID hubID (db w) = true ->
  let r := serve (ToggleFavorite E c) w in
  fst r = removed
  /\ issued (snd r) = issued w
  /\ exists l1 x l2,
       coll (db w) "favorites" = l1 ++ x :: l2
       /\ coll (db (snd r)) "favorites" = l1 ++ l2
       /\ matches E (favoriteFilter userID hubID) x = true.
Proof.
  intros Hok Hfav. cbv zeta.
  destruct (existsb_find _ _ Hfav) as (x & Hfind).
  destruct (find_some _ _ Hfind) as [Hin Hmx].
  pose proof (favorites_decode _ Hok) as Hdec.
  rewrite Forall_forall in Hdec.
  destruct (Hdec x (proj2 (list_elem_of_In _ _) Hin)) as (f & Hf & Hfid).
  unfold serve, ToggleFavorite, bind. rewrite Huser, Hhub. cbn.
  rewrite FindOne_run, findOneResult_reliable, Hfind by done. cbn. rewrite Hf.
  rewrite DeleteOne_run by apply Hreliable. cbn.
  destruct (remove_first _ _) as [l'|] eqn:Hrm.
  - destruct (remove_first_split _ _ _ Hrm) as (l1 & y & l2 & Hl & -> & Hy & _).
    assert (y = x) as ->.
    { apply matches_byID in Hy.
      apply (NoDup_fmap_same docID (coll (db w) "favorites"));
        [apply Hok | | | unfold docID; congruence].
      - rewrite Hl. apply elem_of_app. right. by left.
      - by apply list_elem_of_In. }
    cbn. split; [reflexivity|]. split; [reflexivity|].
    exists l1, x, l2. split; [exact Hl|]. split; [apply coll_insert | exact Hmx].
  - exfalso. apply remove_first_None in Hrm.
    apply (find_none _ _ Hrm) in Hin.
    assert (matches E (byID (Favorite.ID f)) x = true) by (by apply matches_byID).
    congruence.
Qed.

Lemma ToggleFavorite_on w :
  favoritesOK (coll (db w) "favorites") ->
  favorited E userID hubID (db w) = false ->
  freshID (objectIDs E (issued w)) (coll (db w) "favorites") ->
  let r := serve (ToggleFavorite E c) w in
  let record := Favorite.encode
                  (Favorite.mk (objectIDs E (issued w)) userID hubID (clock w)) in
  fst r = added
  /\ coll (db (snd r)) "favorites" = coll (db w) "favorites" ++ [record].
Proof.
  intros Hok Hfav [Hnz Hfresh]. cbv zeta.
  unfold serve, ToggleFavorite, bind. rewrite Huser, Hhub. cbn.
  rewrite FindOne_run, findOneResult_reliable by done.
  rewrite (existsb_false_find _ _ Hfav). cbn.
  destruct (Favorite_encode_fields
              (Favorite.mk (objectIDs E (issued w)) userID hubID (clock w)) Hnz)
    as (Hid & _).
  rewrite InsertOne_run; [| apply Hreliable |].
  - cbn. split; [reflexivity|]. by rewrite coll_insert.
  - cbn. apply not_true_is_false. intros Hex.
    apply existsb_exists in Hex as (d & Hd & Hsame).
    rewrite Forall_forall in Hfresh.
    apply (Hfresh d); [by apply list_elem_of_In|].
    unfold same_id in Hsame. rewrite Hid in Hsame.
    destruct (d !! "_id") as [y|]; [|discriminate].
    by apply bson_eqb_oid in Hsame as ->.
Qed.

Lemma favoritesOK_add l id now :
  favoritesOK l ->
  existsb (matches E (favoriteFilter userID hubID)) l = false ->
  freshID id l ->
  favoritesOK (l ++ [Favorite.encode (Favorite.mk id userID hubID now)]).
Proof.
  intros [Hdec Hids Hpairs] Hfav [Hnz Hfresh].
  destruct (Favorite_encode_fields (Favorite.mk id userID hubID now) Hnz)
    as (Hid & Hu & Hh & Hrt).
  split.
  - apply Forall_app. split; [done|]. apply Forall_singleton. eauto.
  - rewrite fmap_app. apply NoDup_app. repeat split; [done | | apply NoDup_singleton].
    intros y Hy Hy'. apply list_elem_of_singleton in Hy'. subst y.
    apply list_elem_of_fmap in Hy as (d & Hd & Hdl).
    rewrite Forall_forall in Hfresh. apply (Hfresh d Hdl).
    unfold docID in Hd. cbn in Hid. congruence.
  - rewrite fmap_app. apply NoDup_app. repeat split; [done | | apply NoDup_singleton].
    intros y Hy Hy'. apply list_elem_of_singleton in Hy'. subst y.
    apply list_elem_of_fmap in Hy as (d & Hd & Hdl).
    assert (matches E (favoriteFilter userID hubID) d = true) as Hm.
    { apply matches_favorite. unfold favoriteKey in Hd. cbn in Hu, Hh.
      split; congruence. }
    assert (existsb (matches E (favoriteFilter userID hubID)) l = true)
      by (apply existsb_exists; exists d; split; [by apply list_elem_of_In | done]).
    congruence.
Qed.

Lemma favorited_added l id now :
  IsZero id = false ->
  existsb (matches E (favoriteFilter userID hubID))
    (l ++ [Favorite.encode (Favorite.mk id userID hubID now)]) = true.
Proof.
  intros Hnz. rewrite existsb_app. apply orb_true_iff. right. cbn.
  destruct (Favorite_encode_fields (Favorite.mk id userID hubID now) Hnz)
    as (_ & Hu & Hh & _).
  rewrite (proj2 (matches_favorite E userID hubID _)); [done|]. by split.
Qed.

End Toggle.

Lemma freshID_remove id (l1 : list Doc) x l2 :
  freshID id (l1 ++ x :: l2) -> freshID id (l1 ++ l2).
Proof.
  intros [Hnz Hall]. split; [done|].
  apply Forall_app in Hall as [H1 H2]. apply Forall_cons in H2 as [_ H2].
  by apply Forall_app.
Qed.

(** C10. With valid identifiers, a store that answers, and a favorites
    collection in which identifiers and (user, hub) pairs are unique:
    when the pair has a record, [ToggleFavorite] removes it and reports
    [favorite = false]; when it has none, it inserts one and reports
    [favorite = true]. Either way the reported value is the existence of
    the record afterwards, a second call restores the favorited state of
    before, and the collection keeps its uniqueness. *)
Theorem C10_toggle_favorite_involution (E : Collaborators) (c : Context) (w : World)
    (userID hubID : ObjectID)
    (Huser : ObjectIDFromHex (user_id c) = Some userID)
    (Hhub : ObjectIDFromHex (Param_id c) = Some hubID)
    (Hreliable : forall n call, fault E n call = false)
    (Hok : favoritesOK (coll (db w) "favorites"))
    (Hfresh : freshID (objectIDs E (issued w)) (coll (db w) "favorites")) :
  let once := serve (ToggleFavorite E c) w in
  let twice := serve (ToggleFavorite E c) (snd once) in
  (favorited E userID hubID (db w) = true ->
     fst once = Responded (mkResponse 200 []
                             (FavoriteToggled "removed from favorites" false))
     /\ favorited E userID hubID (db (snd once)) = false)
  /\ (favorited E userID hubID (db w) = false ->
     fst once = Responded (mkResponse 200 []
                             (FavoriteToggled "added to favorites" true))
     /\ favorited E userID hubID (db (snd once)) = true)
  /\ favorited E userID hubID (db (snd twice)) = favorited E userID hubID (db w)
  /\ favoritesOK (coll (db (snd once)) "favorites").
Proof.
  cbv zeta. destruct Hfresh as [Hnz Hall].
  destruct (favorited E userID hubID (db w)) eqn:Hfav.
  - destruct (ToggleFavorite_off E c userID hubID Huser Hhub Hreliable w Hok Hfav)
      as (Hout & Hissued & l1 & x & l2 & Hl & Hl' & Hx).
    rewrite Hl in Hok, Hall.
    pose proof (favorited_after_remove E userID hubID l1 x l2 Hok Hx) as Hgone.
    pose proof (favoritesOK_remove l1 x l2 Hok) as Hok1.
    rewrite <- Hl' in Hok1.
    assert (favorited E userID hubID (db (snd (serve (ToggleFavorite E c) w))) = false)
      as Hfav1.
    { unfold favorited. rewrite Hl'. exact Hgone. }
    split; [intros _; split; [exact Hout | exact Hfav1]|].
    split; [discriminate|]. split; [|exact Hok1].
    destruct (ToggleFavorite_on E c userID hubID Huser Hhub Hreliable _ Hok1 Hfav1)
      as (_ & Hl2).
    + rewrite Hissued, Hl'. apply (freshID_remove _ l1 x l2).
      split; [exact Hnz | exact Hall].
    + unfold favorited at 1. rewrite Hl2. apply favorited_added.
      rewrite Hissued. exact Hnz.
  - destruct (ToggleFavorite_on E c userID hubID Huser Hhub Hreliable w Hok Hfav)
      as (Hout & Hl'); [split; [exact Hnz | exact Hall]|].
    pose proof (favorited_added E userID hubID (coll (db w) "favorites")
                  (objectIDs E (issued w)) (clock w) Hnz) as Hthere.
    pose proof (favoritesOK_add E userID hubID (coll (db w) "favorites")
                  (objectIDs E (issued w)) (clock w) Hok Hfav (conj Hnz Hall)) as Hok1.
    rewrite <- Hl' in Hok1, Hthere.
    split; [discriminate|].
    split; [intros _; split; [exact Hout | exact Hthere]|]. split; [|exact Hok1].
    destruct (ToggleFavorite_off E c userID hubID Huser Hhub Hreliable _ Hok1 Hthere)
      as (_ & _ & l1 & x & l2 & Hl & Hl2 & Hx).
    unfold favorited at 1. rewrite Hl2.
    apply (favorited_after_remove E userID hubID l1 x l2); [|exact Hx].
    rewrite <- Hl. exact Hok1.
Qed.

Module shelf.

(** Alice has favorited the hub [h1]. *)
Definition record : Doc :=
  Favorite.encode (Favorite.mk (demo.oid_of 81) demo.alice fixtures.h1 1690000000000).

Definition store : Store := {[ "favorites" := [record] ]}.

Definition once : Exit * World :=
  serve (ToggleFavorite demo.env fixtures.alice_on_h1) (demo.world store).
Definition twice : Exit * World :=
  serve (ToggleFavorite demo.env fixtures.alice_on_h1) (snd once).

Lemma store_ok : favoritesOK (coll store "favorites").
Proof.
  split.
  - apply Forall_singleton. eexists. split; vm_compute; reflexivity.
  - apply NoDup_singleton.
  - apply NoDup_singleton.
Defined.

Lemma fresh : freshID (objectIDs demo.env 0) (coll store "favorites").
Proof.
  split; [reflexivity|]. apply Forall_singleton. vm_compute. discriminate.
Defined.

(** A store on which every deletion fails. *)
Definition deletes_fail : Collaborators := {|
  fault := fun _ call =>
    match call with CallDeleteOne _ _ => true | _ => false end;
  objectIDs := objectIDs demo.env;
  GenerateETag := GenerateETag demo.env;
  FormatHTTP := FormatHTTP demo.env;
  ParseTime := ParseTime demo.env;
  regexMatch := regexMatch demo.env;
  cloudinaryConfigError := cloudinaryConfigError demo.env;
  cloudinaryUpload := cloudinaryUpload demo.env;
  cloudinaryDestroyError := cloudinaryDestroyError demo.env
|}.

(** A store on which every read of one document fails. *)
Definition reads_fail : Collaborators := {|
  fault := fun _ call =>
    match call with CallFindOne _ _ => true | _ => false end;
  objectIDs := objectIDs demo.env;
  GenerateETag := GenerateETag demo.env;
  FormatHTTP := FormatHTTP demo.env;
  ParseTime := ParseTime demo.env;
  regexMatch := regexMatch demo.env;
  cloudinaryConfigError := cloudinaryConfigError demo.env;
  cloudinaryUpload := cloudinaryUpload demo.env;
  cloudinaryDestroyError := cloudinaryDestroyError demo.env
|}.

(** A request of Alice to toggle [h1], on the store [s]. *)
Definition toggle (E : Collaborators) (s : Store) : Exit * World :=
  serve (ToggleFavorite E fixtures.alice_on_h1) (demo.world s).

(** The record that such a request inserts. *)
Definition second : Doc :=
  Favorite.encode (Favorite.mk (demo.oid_of 128) demo.alice fixtures.h1 1700000000000).

End shelf.

Lemma C10_toggle_favorite_witness :
  fst shelf.once
  = Responded (mkResponse 200 [] (FavoriteToggled "removed from favorites" false))
  /\ favorited demo.env demo.alice fixtures.h1 (db (snd shelf.once)) = false
  /\ favorited demo.env demo.alice fixtures.h1 (db (snd shelf.twice)) = true.
Proof.
  destruct (C10_toggle_favorite_involution demo.env fixtures.alice_on_h1
              (demo.world shelf.store) demo.alice fixtures.h1
              eq_refl eq_refl (fun _ _ => eq_refl) shelf.store_ok shelf.fresh)
    as (Hoff & _ & Htwice & _).
  destruct Hoff as (Hout & Hfav); [vm_compute; reflexivity|].
  split; [exact Hout|]. split; [exact Hfav|]. exact Htwice.
Defined.

(** C10 as stated fails when a call of the store fails. Alice has
    favorited the hub. When the deletion fails, the error is dropped:
    the answer reports [favorite = false] and the record is still
    there. When the read fails, the pair counts as not favorited: the
    answer reports [favorite = true] for a pair that had a record, and
    a second record is inserted for it. From these two records, on a
    store that answers, a toggle removes one and reports
    [favorite = false] while the other remains. *)
Lemma C10_toggle_favorite_counterexample :
  favorited demo.env demo.alice fixtures.h1 shelf.store = true
  /\ shelf.toggle shelf.deletes_fail shelf.store
     = (Responded (mkResponse 200 [] (FavoriteToggled "removed from favorites" false)),
        with_log [CallFindOne "favorites" (favoriteFilter demo.alice fixtures.h1);
                  CallDeleteOne "favorites" (byID (demo.oid_of 81))]
          (demo.world shelf.store))
  /\ favorited demo.env demo.alice fixtures.h1
       (db (snd (shelf.toggle shelf.deletes_fail shelf.store))) = true
  /\ fst (shelf.toggle shelf.reads_fail shelf.store)
     = Responded (mkResponse 200 [] (FavoriteToggled "added to favorites" true))
  /\ coll (db (snd (shelf.toggle shelf.reads_fail shelf.store))) "favorites"
     = [shelf.record; shelf.second]
  /\ fst (shelf.toggle demo.env (db (snd (shelf.toggle shelf.reads_fail shelf.store))))
     = Responded (mkResponse 200 [] (FavoriteToggled "removed from favorites" false))
  /\ favorited demo.env demo.alice fixtures.h1
       (db (snd (shelf.toggle demo.env
                   (db (snd (shelf.toggle shelf.reads_fail shelf.store))))))
     = true.
Proof. repeat split; vm_compute; reflexivity. Qed.

(** The second call adds a record again and says so. *)
Example toggle_twice_response :
  fst shelf.twice
  = Responded (mkResponse 200 [] (FavoriteToggled "added to favorites" true)).
Proof. vm_compute. reflexivity. Qed.

(** *** Read paths

    [reads s Q m]: in a world whose store is [s], [m] goes on (it does not
    end the request), leaves the store as it is, and its result
    satisfies [Q]. *)
Definition reads {A} (s : Store) (Q : A -> Prop) (m : H A) : Prop :=
  forall w, db w = s -> exists a w', m w = (inr a, w') /\ db w' = s /\ Q a.

Section Reads.

Variable E : Collaborators.
Variable s : Store.

Lemma reads_ret {A} (Q : A -> Prop) a : Q a -> reads s Q (ret a).
Proof. intros HQ w Hw. by exists a, w. Qed.

Lemma reads_bind {A B} (P : A -> Prop) (Q : B -> Prop) (m : H A) (f : A -> H B) :
  reads s P m -> (forall a, P a -> reads s Q (f a)) -> reads s Q (bind m f).
Proof.
  intros Hm Hf w Hw. destruct (Hm w Hw) as (a & w1 & Hrun & Hw1 & Ha).
  destruct (Hf a Ha w1 Hw1) as (b & w2 & Hrun2 & Hw2 & Hb).
  exists b, w2. unfold bind. by rewrite Hrun.
Qed.

Lemma reads_CountDocuments col filter :
  reads s (fun _ => True) (CountDocuments E col filter).
Proof.
  intros w Hw. unfold CountDocuments, bind, call, get_world, ret. cbn.
  by eexists _, _.
Qed.

End Reads.

(** [runs m w a k]: from [w], [m] goes on with the result [a], leaves
    the store as it is, and leaves a log of [k] calls: the next call is
    issued at the position [k]. *)
Definition runs {A} (m : H A) (w : World) (a : A) (k : nat) : Prop :=
  exists w', m w = (inr a, w') /\ db w' = db w /\ length (log w') = k.

Lemma mapM_decoded {A} (dec : Doc -> option A) docs rs :
  mapM dec docs = Some rs -> Forall2 (fun d r => dec d = Some r) docs rs.
Proof. intros H. by apply mapM_Some in H. Qed.

Lemma filter_matching (p : Doc -> bool) l :
  Forall (fun d => In d l /\ p d = true) (List.filter p l).
Proof. apply Forall_forall. intros d Hd. by apply filter_In, list_elem_of_In. Qed.

(** The display name stored for a user, if the record is there and
    decodes. *)
Definition userName (E : Collaborators) (s : Store) (uid : ObjectID) : option string :=
  User.Name <$> (List.find (matches E (byID uid)) (coll s "users") ≫= User.decode).

(** The author name that a lookup of the user gives: the stored display
    name; the sentinel when the lookup fails ([failed]), when the user
    has no record, or when the record does not decode. *)
Definition nameFor (E : Collaborators) (s : Store) (sentinel : string)
    (failed : bool) (uid : ObjectID) : string :=
  if failed then sentinel else default sentinel (userName E s uid).

Abbreviation ofHub hubID := ({[ "hub_id" := BObjectID hubID ]} : Doc).
Abbreviation userLookup uid := (CallFindOne "users" (byID uid)).

Lemma nameFor_lookup E w sentinel uid :
  match findOneResult E "users" (byID uid) w ≫= User.decode with
  | Some user => User.Name user
  | None => sentinel
  end
  = nameFor E (db w) sentinel (fault E (length (log w)) (userLookup uid)) uid.
Proof.
  unfold nameFor, userName, findOneResult.
  destruct (fault E _ _); [reflexivity|]. by destruct (_ ≫= User.decode).
Qed.

(** The stored documents of the reviews of a hub, in the order of the
    store. *)
Definition storedReviews (E : Collaborators) (s : Store) (hubID : ObjectID)
  : list Doc :=
  List.filter (matches E (ofHub hubID)) (coll s "reviews").

(** **** The list of hubs

    For each hub, [ListHubs] queries the reviews of the hub, reads the
    cursor when the query went through, looks up the author of each
    review in turn, and then the favorite of the caller. The call at
    position [k] of the log of the request fails when [fault E k] says
    so. *)

(** The reviews that [ListHubs] has of a hub: the stored reviews of the
    hub, all of them and in their order; none when the query or the
    reading of the cursor failed ([failed]), and none when one of the
    documents does not decode. *)
Definition reviewsRead (E : Collaborators) (s : Store) (hubID : ObjectID)
    (failed : bool) : list Review.t :=
  if failed then [] else default [] (mapM Review.decode (storedReviews E s hubID)).

(** What [ListHubs] attaches for the review [r] whose author is looked
    up at the position [k]: the review, under the name that this
    lookup gives. *)
Definition listedAt (E : Collaborators) (s : Store) (k : nat) (r : Review.t)
  : ReviewResponse.t :=
  ReviewResponse.mk (Review.ID r) (Review.UserID r)
    (nameFor E s "Unknown" (fault E k (userLookup (Review.UserID r))) (Review.UserID r))
    (Review.HubID r) (Review.Rating r) (Review.Comment r) (Review.CreatedAt r).

(** The position of the first lookup of an author, for a hub whose
    reviews are queried at [k]. *)
Definition firstLookup (E : Collaborators) (k : nat) (hubID : ObjectID) : nat :=
  if fault E k (CallFind "reviews" (ofHub hubID)) then S k else S (S k).

(** What [ListHubs] attaches to a hub whose reviews are queried at
    [k]: one entry for each of the reviews read, in their order. *)
Definition listedReviews (E : Collaborators) (s : Store) (k : nat)
    (hubID : ObjectID) : list ReviewResponse.t :=
  imap (fun i => listedAt E s (firstLookup E k hubID + i))
    (reviewsRead E s hubID
       (fault E k (CallFind "reviews" (ofHub hubID))
        || fault E (S k) (CallCursorAll "reviews"))).

(** The lists attached to the hubs, in turn, from the position [k]:
    the next hub comes after the lookups of the authors and the lookup
    of the favorite. *)
Fixpoint listedHubs (E : Collaborators) (s : Store) (k : nat) (hubs : list Hub.t)
  : list (list ReviewResponse.t) :=
  match hubs with
  | [] => []
  | h :: rest =>
      let reviews := listedReviews E s k (Hub.ID h) in
      reviews :: listedHubs E s (S (firstLookup E k (Hub.ID h) + length reviews)) rest
  end.

Lemma enrichReview_run E r w :
  enrichReview E r w
  = (inr (listedAt E (db w) (length (log w)) r), logged (userLookup (Review.UserID r)) w).
Proof.
  unfold enrichReview, bind. rewrite FindOne_run. cbn.
  by rewrite nameFor_lookup.
Qed.

Lemma forEach_enrichReview E reviews w :
  runs (forEach reviews (enrichReview E)) w
    (imap (fun i => listedAt E (db w) (length (log w) + i)) reviews)
    (length (log w) + length reviews).
Proof.
  revert w. induction reviews as [|r reviews IH]; intros w.
  - exists w. cbn. split; [reflexivity|]. split; [reflexivity | lia].
  - destruct (IH (logged (userLookup (Review.UserID r)) w)) as (w' & Hrun & Hdb & Hlog).
    exists w'. cbn [forEach]. unfold bind. rewrite enrichReview_run, Hrun.
    split; [|split; [exact Hdb|]].
    + unfold ret. cbn [imap]. rewrite Nat.add_0_r. do 3 f_equal.
      apply imap_ext. intros i x _. cbn. unfold logged. cbn.
      rewrite length_app. cbn. f_equal. lia.
    + rewrite Hlog. unfold logged. cbn. rewrite length_app. cbn. lia.
Qed.

Lemma hubReviews_runs E hubID w :
  runs (hubReviews E hubID) w
    (reviewsRead E (db w) hubID
       (fault E (length (log w)) (CallFind "reviews" (ofHub hubID))
        || fault E (S (length (log w))) (CallCursorAll "reviews")))
    (firstLookup E (length (log w)) hubID).
Proof.
  unfold runs, hubReviews, firstLookup, reviewsRead, storedReviews, Find, CursorAll,
    bind, call, get_world, ret. cbn.
  destruct (fault E (length (log w)) _); cbn.
  - eexists. split; [reflexivity|]. split; [reflexivity|].
    cbn. rewrite length_app. cbn. lia.
  - rewrite length_app. cbn [length]. rewrite Nat.add_1_r.
    destruct (fault E (S (length (log w))) _); cbn;
      (eexists; split; [reflexivity|]; split; [reflexivity|]);
      cbn; rewrite !length_app; cbn; lia.
Qed.

Lemma enrichHub_runs E userID hub w :
  let reviews := listedReviews E (db w) (length (log w)) (Hub.ID hub) in
  exists fav,
    runs (enrichHub E userID hub) w (Hub.with_enrichment hub reviews fav)
      (S (firstLookup E (length (log w)) (Hub.ID hub) + length reviews)).
Proof.
  cbv zeta.
  destruct (hubReviews_runs E (Hub.ID hub) w) as (w1 & Hrun1 & Hdb1 & Hlog1).
  destruct (forEach_enrichReview E
              (reviewsRead E (db w) (Hub.ID hub)
                 (fault E (length (log w)) (CallFind "reviews" (ofHub (Hub.ID hub)))
                  || fault E (S (length (log w))) (CallCursorAll "reviews"))) w1)
    as (w2 & Hrun2 & Hdb2 & Hlog2).
  eexists. unfold runs, enrichHub, bind. rewrite Hrun1, Hrun2, FindOne_run. cbn.
  eexists. split; [|split].
  - unfold listedReviews. rewrite Hdb1, Hlog1. reflexivity.
  - cbn. congruence.
  - unfold logged. cbn. rewrite length_app, Hlog2, Hlog1. cbn.
    unfold listedReviews. rewrite length_imap. lia.
Qed.

(** The hubs with what is attached to them: each is the hub it is made
    of, with its list of reviews and its favorite flag set. *)
Definition enriched (h h' : Hub.t) : Prop :=
  exists fav, h' = Hub.with_enrichment h (Hub.Reviews h') fav.

Lemma forEach_enrichHub E userID hubs w :
  exists hubs' w',
    forEach hubs (enrichHub E userID) w = (inr hubs', w')
    /\ db w' = db w
    /\ Forall2 enriched hubs hubs'
    /\ Hub.Reviews <$> hubs' = listedHubs E (db w) (length (log w)) hubs.
Proof.
  revert w. induction hubs as [|h hubs IH]; intros w.
  - exists [], w. repeat split; constructor.
  - destruct (enrichHub_runs E userID h w) as (fav & w1 & Hrun & Hdb1 & Hlog1).
    destruct (IH w1) as (hubs' & w' & Hruns & Hdb & Hall & Hlists).
    eexists (_ :: hubs'), w'. cbn [forEach]. unfold bind. rewrite Hrun, Hruns.
    split; [reflexivity|]. split; [congruence|]. split.
    + constructor; [by exists fav | exact Hall].
    + cbn [fmap list_fmap listedHubs]. fold (fmap (M:=list) Hub.Reviews hubs').
      rewrite Hlists, Hdb1, Hlog1. reflexivity.
Qed.

(** The fetch of the hubs reads the store and does not change it. *)
Lemma fetchHubs_db E c w hubs w1 :
  fetchHubs E c w = (inr hubs, w1) -> db w1 = db w.
Proof.
  unfold fetchHubs, bind, Find, CursorAll, call, get_world, ret. cbn.
  destruct (fault E _ _); cbn; [discriminate|].
  destruct (fault E _ _); cbn; [discriminate|].
  destruct (mapM _ _); cbn; [|discriminate]. by intros [= _ <-].
Qed.

Lemma ListHubs_enriches E c w userID hubs w1 :
  ObjectIDFromHex (user_id c) = Some userID ->
  fetchHubs E c w = (inr hubs, w1) ->
  exists hubs' w',
    serve (ListHubs E c) w = (Responded (mkResponse 200 [] (HubList hubs')), w')
    /\ db w' = db w
    /\ Forall2 enriched hubs hubs'
    /\ Hub.Reviews <$> hubs' = listedHubs E (db w) (length (log w1)) hubs.
Proof.
  intros Huser Hfetch. pose proof (fetchHubs_db _ _ _ _ _ Hfetch) as Hdb.
  destruct (forEach_enrichHub E userID hubs w1)
    as (hubs' & w' & Hrun & Hdb' & Hall & Hlists).
  exists hubs', w'. rewrite <- Hdb. split; [|by split; [congruence|]].
  unfold serve, ListHubs, bind. rewrite Huser. cbn. rewrite Hfetch, Hrun.
  reflexivity.
Qed.

(** **** The single hub

    [GetHub] steps through the cursor of the reviews of the hub: each
    step is a call; a document that does not decode is skipped; the
    author of a review that decodes is looked up next. *)

(** What [GetHub] shows for the review [r] whose author is looked up at
    the position [k]. *)
Definition shownAt (E : Collaborators) (s : Store) (k : nat) (r : Review.t)
  : HubReview.t :=
  HubReview.mk (Review.ID r)
    (nameFor E s "Unknown User" (fault E k (userLookup (Review.UserID r)))
       (Review.UserID r))
    (Review.Comment r) (Review.Rating r) (Review.CreatedAt r).

(** The reviews that [GetHub] shows of the documents [docs] of the
    cursor, stepped through from the position [k]: one entry for each
    document that decodes, in their order, up to the step of the cursor
    that fails, if one does. *)
Fixpoint shownFrom (E : Collaborators) (s : Store) (k : nat) (docs : list Doc)
  : list HubReview.t :=
  match docs with
  | [] => []
  | d :: rest =>
      if fault E k (CallCursorNext "reviews") then []
      else match Review.decode d with
           | None => shownFrom E s (S k) rest
           | Some r => shownAt E s (S k) r :: shownFrom E s (S (S k)) rest
           end
  end.

Lemma eachReview_cons E d rest reviews :
  eachReview E (d :: rest) reviews
  = bind (call E (CallCursorNext "reviews")) (fun more : bool =>
      if more then
        match Review.decode d with
        | None => eachReview E rest reviews
        | Some review =>
            bind (FindOne E "users" (byID (Review.UserID review))) (fun found =>
              eachReview E rest
                (reviews ++ [HubReview.mk (Review.ID review)
                               match found ≫= User.decode with
                               | Some user => User.Name user
                               | None => "Unknown User"
                               end
                               (Review.Comment review) (Review.Rating review)
                               (Review.CreatedAt review)]))
        end
      else ret reviews).
Proof. reflexivity. Qed.

Lemma length_logged c w : length (log (logged c w)) = S (length (log w)).
Proof. unfold logged. cbn. rewrite length_app. cbn. lia. Qed.

Lemma eachReview_run E docs acc w :
  exists w',
    eachReview E docs acc w = (inr (acc ++ shownFrom E (db w) (length (log w)) docs), w')
    /\ db w' = db w.
Proof.
  revert acc w. induction docs as [|d docs IH]; intros acc w; cbn [shownFrom].
  - exists w. cbn. by rewrite app_nil_r.
  - rewrite eachReview_cons. unfold bind at 1.
    change (call E (CallCursorNext "reviews") w)
      with (inr (A:=Exit) (negb (fault E (length (log w)) (CallCursorNext "reviews"))),
            logged (CallCursorNext "reviews") w).
    destruct (fault E (length (log w)) _); cbn [negb].
    { eexists. rewrite app_nil_r. split; reflexivity. }
    destruct (Review.decode d) as [review|].
    + unfold bind at 1. rewrite FindOne_run, nameFor_lookup, length_logged.
      change (db (logged (CallCursorNext "reviews") w)) with (db w).
      fold (shownAt E (db w) (S (length (log w))) review).
      match goal with
      | |- context [eachReview E docs ?a ?w0] => destruct (IH a w0) as (w' & -> & Hdb)
      end.
      exists w'. split; [|exact Hdb].
      rewrite !length_logged.
      change (db (logged _ (logged _ w))) with (db w).
      by rewrite <- app_assoc.
    + match goal with
      | |- context [eachReview E docs ?a ?w0] => destruct (IH a w0) as (w' & -> & Hdb)
      end.
      exists w'. split; [|exact Hdb]. by rewrite length_logged.
Qed.

Lemma reads_hubFavorite E s user hubID :
  reads s (fun _ => True) (hubFavorite E user hubID).
Proof.
  unfold hubFavorite. destruct user as [userID|]; [|by apply reads_ret].
  eapply reads_bind; [apply reads_CountDocuments | intros count _].
  by apply reads_ret.
Qed.

Lemma fetchHub_db E c w fetched w1 :
  fetchHub E c w = (inr fetched, w1) -> db w1 = db w.
Proof.
  unfold fetchHub, bind. destruct (ObjectIDFromHex (Param_id c)); cbn; [|discriminate].
  rewrite FindOne_run. destruct (_ ≫= Hub.decode); cbn; [|discriminate].
  by intros [= _ <-].
Qed.

Lemma Find_run E col filter w :
  fault E (length (log w)) (CallFind col filter) = false ->
  Find E col filter w
  = (inr (Some (List.filter (matches E filter) (coll (db w) col))),
     logged (CallFind col filter) w).
Proof.
  intros Hok. unfold Find, bind, call, get_world, ret, logged. cbn. by rewrite Hok.
Qed.

(** The answer of [GetHub] once the hub and its reviews are at hand. *)
Definition hubResponse (E : Collaborators) (c : Context) (hub : Hub.t)
    (reviews : list HubReview.t) (fav : bool) : Exit :=
  let etag := GenerateETag E (Hub.ID hub) (Hub.UpdatedAt hub) in
  if nonempty (GetHeader c "If-None-Match")
     && String.eqb (GetHeader c "If-None-Match") etag
  then Responded (mkResponse 304 [] NoBody)
  else Responded (mkResponse 200 [("ETag", etag)] (HubDetail hub reviews fav)).

Lemma GetHub_enriches E c w hubID hub w1 :
  fetchHub E c w = (inr (hubID, hub), w1) ->
  fault E (length (log w1)) (CallFind "reviews" (ofHub hubID)) = false ->
  exists fav w',
    serve (GetHub E c) w
    = (hubResponse E c hub
         (shownFrom E (db w) (S (length (log w1))) (storedReviews E (db w) hubID)) fav,
       w')
    /\ db w' = db w.
Proof.
  intros Hfetch Hfind. pose proof (fetchHub_db _ _ _ _ _ Hfetch) as Hdb.
  destruct (eachReview_run E (storedReviews E (db w) hubID) []
              (logged (CallFind "reviews" (ofHub hubID)) w1))
    as (w2 & Hrun & Hdb2).
  destruct (reads_hubFavorite E (db w)
              (if nonempty (user_id c) then ObjectIDFromHex (user_id c) else None)
              hubID w2 ltac:(cbn in Hdb2; congruence)) as (fav & w' & Hfav & Hdb' & _).
  exists fav, w'. split; [|exact Hdb'].
  unfold serve, GetHub, bind. rewrite Hfetch. cbn.
  rewrite (Find_run _ _ _ _ Hfind). cbn. rewrite Hdb.
  fold (storedReviews E (db w) hubID).
  cbn in Hrun. rewrite Hdb in Hrun. rewrite Hrun, Hfav.
  unfold logged. cbn. rewrite length_app, Nat.add_1_r.
  unfold hubResponse, etagMatches, Status, JSON, exit. by destruct (_ && _).
Qed.

(** C9. On both hub read paths, once the hub documents are at hand (and,
    for the single get, the query for the reviews went through), the
    request succeeds whatever happens to the user lookups: the list
    answers 200 with every hub, the single get answers 200 with the hub
    (or 304 on a matching [If-None-Match]), and the store is left as it
    is. The reviews attached are the stored reviews of the hub, in the
    order of the store. The list attaches all of them, or none when the
    query or the reading of its cursor fails or a document does not
    decode; the single get attaches those that decode, up to the step
    of the cursor that fails, if one does. Each review is attached with
    the fields of the stored review, under the name that the lookup of
    its author gives: the stored display name when this lookup goes
    through and finds a record that decodes, and otherwise the
    sentinel, [Unknown] in the list and [Unknown User] in the single
    get. *)
Theorem C9_review_names_never_fail_hub_reads (E : Collaborators) (c : Context)
    (w : World) :
  (forall userID hubs w1,
      ObjectIDFromHex (user_id c) = Some userID ->
      fetchHubs E c w = (inr hubs, w1) ->
      exists hubs' w',
        serve (ListHubs E c) w = (Responded (mkResponse 200 [] (HubList hubs')), w')
        /\ db w' = db w
        /\ Forall2 enriched hubs hubs'
        /\ Hub.Reviews <$> hubs' = listedHubs E (db w) (length (log w1)) hubs)
  /\ (forall hubID hub w1,
      fetchHub E c w = (inr (hubID, hub), w1) ->
      fault E (length (log w1)) (CallFind "reviews" (ofHub hubID)) = false ->
      exists fav w',
        serve (GetHub E c) w
        = ((let etag := GenerateETag E (Hub.ID hub) (Hub.UpdatedAt hub) in
            let reviews :=
              shownFrom E (db w) (S (length (log w1)))
                (storedReviews E (db w) hubID) in
            if nonempty (GetHeader c "If-None-Match")
               && String.eqb (GetHeader c "If-None-Match") etag
            then Responded (mkResponse 304 [] NoBody)
            else Responded (mkResponse 200 [("ETag", etag)]
                              (HubDetail hub reviews fav))), w')
        /\ db w' = db w)
  /\ (forall s sentinel uid,
      nameFor E s sentinel true uid = sentinel
      /\ (userName E s uid = None -> nameFor E s sentinel false uid = sentinel)
      /\ (forall n, userName E s uid = Some n -> nameFor E s sentinel false uid = n)).
Proof.
  split; [|split].
  - intros userID hubs w1 Huser Hfetch.
    exact (ListHubs_enriches E c w userID hubs w1 Huser Hfetch).
  - intros hubID hub w1 Hfetch Hfind.
    exact (GetHub_enriches E c w hubID hub w1 Hfetch Hfind).
  - intros s sentinel uid. unfold nameFor. split; [reflexivity|].
    split; [by intros -> | by intros n ->].
Qed.

Module forum.

Definition review_doc (id user hub : ObjectID) (rating : Z) (comment : string) : Doc :=
  <["_id" := BObjectID id]> (<["user_id" := BObjectID user]>
  (<["hub_id" := BObjectID hub]> (<["rating" := BInt rating]>
  (<["comment" := BString comment]>
  (<["created_at" := BDateTime 1680000000000]>
  (<["updated_at" := BDateTime 1680000000000]> ∅)))))).

(** Alice and Bob reviewed the hub; only Alice has a user record. *)
Definition store : Store :=
  <["hubs" := [fixtures.hub_doc fixtures.h1 demo.alice "Library" 1 2 ["A"; "B"]
                 1650000000000]]>
  (<["reviews" := [review_doc (demo.oid_of 49) demo.alice fixtures.h1 5 "Great";
                   review_doc (demo.oid_of 50) demo.bob fixtures.h1 3 "Fine"]]>
  {[ "users" := [<["_id" := BObjectID demo.alice]> {[ "name" := BString "Alice" ]}] ]}).

Definition hub : Hub.t :=
  Hub.mk fixtures.h1 demo.alice "Library" ""
    (Coordinates.mk (f64.of_Z 1) (f64.of_Z 2)) "" f64.zero ["A"; "B"]
    1600000000000 1650000000000 false [].

Definition listed_as (alice bob : string) : list ReviewResponse.t :=
  [ReviewResponse.mk (demo.oid_of 49) demo.alice alice fixtures.h1 5 "Great"
     1680000000000;
   ReviewResponse.mk (demo.oid_of 50) demo.bob bob fixtures.h1 3 "Fine"
     1680000000000].

Definition shown_as (alice bob : string) : list HubReview.t :=
  [HubReview.mk (demo.oid_of 49) alice "Great" 5 1680000000000;
   HubReview.mk (demo.oid_of 50) bob "Fine" 3 1680000000000].

(** A store whose user lookups all fail. *)
Definition users_down : Collaborators := {|
  fault := fun _ call =>
    match call with
    | CallFindOne col _ => String.eqb col "users"
    | _ => false
    end;
  objectIDs := objectIDs demo.env;
  GenerateETag := GenerateETag demo.env;
  FormatHTTP := FormatHTTP demo.env;
  ParseTime := ParseTime demo.env;
  regexMatch := regexMatch demo.env;
  cloudinaryConfigError := None;
  cloudinaryUpload := cloudinaryUpload demo.env;
  cloudinaryDestroyError := fun _ => None
|}.

(** A store on which only the second lookup of a user in the request
    for the list fails: the call at position 5 of its log, after the
    two calls that fetch the hubs, the query of the reviews, the
    reading of its cursor and the lookup of the first author. *)
Definition second_lookup_down : Collaborators := {|
  fault := fun k call =>
    match call with
    | CallFindOne col _ => String.eqb col "users" && (k =? 5)%nat
    | _ => false
    end;
  objectIDs := objectIDs demo.env;
  GenerateETag := GenerateETag demo.env;
  FormatHTTP := FormatHTTP demo.env;
  ParseTime := ParseTime demo.env;
  regexMatch := regexMatch demo.env;
  cloudinaryConfigError := None;
  cloudinaryUpload := cloudinaryUpload demo.env;
  cloudinaryDestroyError := fun _ => None
|}.

(** Carol has a record too, and has reviewed the hub after Alice. *)
Definition carol := demo.oid_of 3.

Definition crowded : Store :=
  <["hubs" := [fixtures.hub_doc fixtures.h1 demo.alice "Library" 1 2 ["A"; "B"]
                 1650000000000]]>
  (<["reviews" := [review_doc (demo.oid_of 49) demo.alice fixtures.h1 5 "Great";
                   review_doc (demo.oid_of 50) carol fixtures.h1 3 "Fine"]]>
  {[ "users" := [<["_id" := BObjectID demo.alice]> {[ "name" := BString "Alice" ]};
                 <["_id" := BObjectID carol]> {[ "name" := BString "Carol" ]}] ]}).

End forum.

(** The hub of Alice with its two reviews. With a store that answers,
    the review of Alice is under her name and the review of Bob, who
    has no record, under the sentinel; when every lookup of a user
    fails, both reviews are there, under the sentinel. When only the
    second lookup fails, the first author is under her name and the
    second, who has a record, under the sentinel. *)
Lemma C9_review_names_witness :
  (exists fav w',
     serve (ListHubs demo.env fixtures.alice_on_h1) (demo.world forum.store)
     = (Responded (mkResponse 200 []
          (HubList [Hub.with_enrichment forum.hub
                      (forum.listed_as "Alice" "Unknown") fav])), w'))
  /\ (exists fav w',
     serve (ListHubs forum.users_down fixtures.alice_on_h1) (demo.world forum.store)
     = (Responded (mkResponse 200 []
          (HubList [Hub.with_enrichment forum.hub
                      (forum.listed_as "Unknown" "Unknown") fav])), w'))
  /\ (exists fav w',
     serve (ListHubs forum.second_lookup_down fixtures.alice_on_h1)
       (demo.world forum.crowded)
     = (Responded (mkResponse 200 []
          (HubList [Hub.with_enrichment forum.hub
                      [ReviewResponse.mk (demo.oid_of 49) demo.alice "Alice"
                         fixtures.h1 5 "Great" 1680000000000;
                       ReviewResponse.mk (demo.oid_of 50) forum.carol "Unknown"
                         fixtures.h1 3 "Fine" 1680000000000] fav])), w'))
  /\ (exists fav w',
     serve (GetHub demo.env fixtures.alice_on_h1) (demo.world forum.store)
     = (Responded (mkResponse 200
                     [("ETag", GenerateETag demo.env fixtures.h1 1650000000000)]
                     (HubDetail forum.hub
                        (forum.shown_as "Alice" "Unknown User") fav)), w'))
  /\ (exists fav w',
     serve (GetHub forum.users_down fixtures.alice_on_h1) (demo.world forum.store)
     = (Responded (mkResponse 200
                     [("ETag", GenerateETag demo.env fixtures.h1 1650000000000)]
                     (HubDetail forum.hub
                        (forum.shown_as "Unknown User" "Unknown User") fav)), w')).
Proof.
  assert (forall E s (l : list ReviewResponse.t),
            (exists hubs' w',
               serve (ListHubs E fixtures.alice_on_h1) (demo.world s)
               = (Responded (mkResponse 200 [] (HubList hubs')), w')
               /\ db w' = db (demo.world s)
               /\ Forall2 enriched [forum.hub] hubs'
               /\ Hub.Reviews <$> hubs' = [l]) ->
            exists fav w',
              serve (ListHubs E fixtures.alice_on_h1) (demo.world s)
              = (Responded (mkResponse 200 []
                   (HubList [Hub.with_enrichment forum.hub l fav])), w')) as Hone.
  { intros E s l (hubs' & w' & Hrun & _ & Hall & Hlists).
    apply Forall2_cons_inv_l in Hall as (h' & rest & (fav & Hh) & Hrest & ->).
    apply Forall2_nil_inv_l in Hrest as ->.
    injection Hlists as Hl. rewrite Hl in Hh. subst h'.
    exists fav, w'. exact Hrun. }
  split; [|split; [|split; [|split]]].
  - apply Hone.
    destruct (C9_review_names_never_fail_hub_reads demo.env
                fixtures.alice_on_h1 (demo.world forum.store)) as (Hlist & _ & _).
    destruct (Hlist demo.alice [forum.hub] _ eq_refl ltac:(vm_compute; reflexivity))
      as (hubs' & w' & Hrun & Hdb & Hall & Hlists).
    exists hubs', w'. split; [exact Hrun|]. split; [exact Hdb|].
    split; [exact Hall|]. rewrite Hlists. vm_compute. reflexivity.
  - apply Hone.
    destruct (C9_review_names_never_fail_hub_reads forum.users_down
                fixtures.alice_on_h1 (demo.world forum.store)) as (Hlist & _ & _).
    destruct (Hlist demo.alice [forum.hub] _ eq_refl ltac:(vm_compute; reflexivity))
      as (hubs' & w' & Hrun & Hdb & Hall & Hlists).
    exists hubs', w'. split; [exact Hrun|]. split; [exact Hdb|].
    split; [exact Hall|]. rewrite Hlists. vm_compute. reflexivity.
  - apply Hone.
    destruct (C9_review_names_never_fail_hub_reads forum.second_lookup_down
                fixtures.alice_on_h1 (demo.world forum.crowded)) as (Hlist & _ & _).
    destruct (Hlist demo.alice [forum.hub] _ eq_refl ltac:(vm_compute; reflexivity))
      as (hubs' & w' & Hrun & Hdb & Hall & Hlists).
    exists hubs', w'. split; [exact Hrun|]. split; [exact Hdb|].
    split; [exact Hall|]. rewrite Hlists. vm_compute. reflexivity.
  - destruct (C9_review_names_never_fail_hub_reads demo.env
                fixtures.alice_on_h1 (demo.world forum.store)) as (_ & Hget & _).
    destruct (Hget fixtures.h1 forum.hub _ ltac:(vm_compute; reflexivity) eq_refl)
      as (fav & w' & Hrun & _).
    exists fav, w'. exact Hrun.
  - destruct (C9_review_names_never_fail_hub_reads forum.users_down
                fixtures.alice_on_h1 (demo.world forum.store)) as (_ & Hget & _).
    destruct (Hget fixtures.h1 forum.hub _ ltac:(vm_compute; reflexivity) eq_refl)
      as (fav & w' & Hrun & _).
    exists fav, w'. exact Hrun.
Defined.

Example hubs_listed :
  fst (serve (ListHubs demo.env fixtures.alice_on_h1) (demo.world forum.store))
  = Responded (mkResponse 200 []
      (HubList [Hub.with_enrichment forum.hub (forum.listed_as "Alice" "Unknown") false])).
Proof. vm_compute. reflexivity. Qed.

Example hubs_listed_users_down :
  fst (serve (ListHubs forum.users_down fixtures.alice_on_h1) (demo.world forum.store))
  = Responded (mkResponse 200 []
      (HubList [Hub.with_enrichment forum.hub (forum.listed_as "Unknown" "Unknown") false])).
Proof. vm_compute. reflexivity. Qed.

Example hub_shown :
  fst (serve (GetHub demo.env fixtures.alice_on_h1) (demo.world forum.store))
  = Responded (mkResponse 200
      [("ETag", GenerateETag demo.env fixtures.h1 1650000000000)]
      (HubDetail forum.hub (forum.shown_as "Alice" "Unknown User") false)).
Proof. vm_compute. reflexivity. Qed.

Example hub_shown_users_down :
  fst (serve (GetHub forum.users_down fixtures.alice_on_h1) (demo.world forum.store))
  = Responded (mkResponse 200
      [("ETag", GenerateETag demo.env fixtures.h1 1650000000000)]
      (HubDetail forum.hub (forum.shown_as "Unknown User" "Unknown User") false)).
Proof. vm_compute. reflexivity. Qed.

(** *** Stored names of the hub fields

    [UpdateHub] stages the location name and the rating under
    [location_name] and [rating], while [models.Hub] reads them from
    [location] and [target_amount]: the update is stored and not read
    back. *)
Example hub_rating_update_not_read_back :
  let form := UpdateHubInput.mk "Library" "" None None "Main street" (f64.of_Z 4) None in
  let w' := snd (serve (UpdateHub demo.env fixtures.alice_on_h1 (Ok form))
                       (demo.world fixtures.hubs)) in
  (fun d : Doc => (d !! "rating", d !! "location_name")) <$> coll (db w') "hubs"
  = [(Some (BDouble (f64.of_Z 4)), Some (BString "Main street"))]
  /\ (fun d : Doc => (fun h => (Hub.Rating h, Hub.LocationName h)) <$> Hub.decode d)
       <$> coll (db w') "hubs"
     = [Some (f64.zero, "")].
Proof. split; vm_compute; reflexivity. Qed.

(** * Further properties of the handlers

    ** Triples

    [triple R P Q m]: whenever [m] runs from [w] to [w'], the two worlds
    are related by [R]; if it ends the request, the exit satisfies [P];
    if it goes on, its result satisfies [Q]. *)
Definition triple {A} (R : World -> World -> Prop) (P : Exit -> Prop)
    (Q : A -> Prop) (m : H A) : Prop :=
  forall w r w', m w = (r, w') ->
    R w w' /\ match r with inl e => P e | inr a => Q a end.

Section Triples.

Variable E : Collaborators.
Variable R : World -> World -> Prop.
Variable P : Exit -> Prop.
(** The store calls that [R] lets through. *)
Variable allowed : StoreCall -> Prop.
Hypothesis R_refl : forall w, R w w.
Hypothesis R_trans : forall w1 w2 w3, R w1 w2 -> R w2 w3 -> R w1 w3.
Hypothesis R_call : forall c w, allowed c -> R w (logged c w).

Lemma triple_ret {A} (Q : A -> Prop) a : Q a -> triple R P Q (ret a).
Proof. intros HQ w r w' [= <- <-]. split; [apply R_refl | exact HQ]. Qed.

Lemma triple_exit {A} (Q : A -> Prop) e : P e -> triple R P Q (exit e).
Proof. intros HP w r w' [= <- <-]. split; [apply R_refl | exact HP]. Qed.

Lemma triple_bind {A B} (Q1 : A -> Prop) (Q : B -> Prop) (m : H A) (f : A -> H B) :
  triple R P Q1 m -> (forall a, Q1 a -> triple R P Q (f a)) ->
  triple R P Q (bind m f).
Proof.
  intros Hm Hf w r w' Hrun. unfold bind in Hrun.
  destruct (m w) as [[e|a] w1] eqn:Hmw.
  - injection Hrun as <- <-. exact (Hm w (inl e) w1 Hmw).
  - destruct (Hm w (inr a) w1 Hmw) as [HR Ha].
    destruct (Hf a Ha w1 r w' Hrun) as [HR' Hr].
    split; [exact (R_trans _ _ _ HR HR') | exact Hr].
Qed.

Lemma triple_weaken {A} (Q Q' : A -> Prop) (m : H A) :
  (forall a, Q a -> Q' a) -> triple R P Q m -> triple R P Q' m.
Proof.
  intros HQ Hm w r w' Hrun. destruct (Hm w r w' Hrun) as [HR Hr].
  split; [exact HR|]. destruct r as [e|a]; [exact Hr | exact (HQ a Hr)].
Qed.

(** After [if cond { ...; return }] the condition is false. *)
Lemma triple_when cond e :
  P e -> triple R P (fun _ => cond = false) (when cond (exit e)).
Proof.
  intros HP. destruct cond; simpl; [by apply triple_exit | by apply triple_ret].
Qed.

Lemma triple_unwrap {A} (o : option A) e :
  P e -> triple R P (fun a => o = Some a) (unwrap o (exit e)).
Proof.
  intros HP. destruct o; simpl; [by apply triple_ret | by apply triple_exit].
Qed.

Lemma triple_bound {A} (input : outcome A) :
  (forall msg, P (Responded (mkResponse 400 [] (ErrorBody msg)))) ->
  (forall msg, P (Panicked msg)) ->
  triple R P (fun a => input = Ok a) (bound input).
Proof.
  intros Hbad Hpanic. destruct input; simpl.
  - by apply triple_ret.
  - apply triple_exit, Hbad.
  - apply triple_exit, Hpanic.
Qed.

Lemma triple_call c :
  allowed c -> triple R P (fun _ => True) (call E c).
Proof.
  intros Hc w r w' [= <- <-]. split; [exact (R_call c w Hc) | exact I].
Qed.

Lemma triple_FindOne col filter :
  allowed (CallFindOne col filter) ->
  triple R P (fun _ => True) (FindOne E col filter).
Proof.
  intros Hc w r w' Hrun. rewrite FindOne_run in Hrun. injection Hrun as <- <-.
  split; [exact (R_call _ w Hc) | exact I].
Qed.

Lemma triple_Find col filter :
  allowed (CallFind col filter) ->
  triple R P (fun _ => True) (Find E col filter).
Proof.
  intros Hc w r w' Hrun. unfold Find, bind, call, get_world, ret in Hrun.
  cbn in Hrun. injection Hrun as <- <-.
  split; [exact (R_call _ w Hc) | exact I].
Qed.

Lemma triple_CursorAll {A} col (dec : Doc -> option A) docs :
  allowed (CallCursorAll col) ->
  triple R P (fun _ => True) (CursorAll E col dec docs).
Proof.
  intros Hc w r w' Hrun. unfold CursorAll, bind, call, ret in Hrun.
  cbn in Hrun. injection Hrun as <- <-.
  split; [exact (R_call _ w Hc) | exact I].
Qed.

Lemma triple_CountDocuments col filter :
  allowed (CallCountDocuments col filter) ->
  triple R P (fun _ => True) (CountDocuments E col filter).
Proof.
  intros Hc w r w' Hrun. unfold CountDocuments, bind, call, get_world, ret in Hrun.
  cbn in Hrun. injection Hrun as <- <-.
  split; [exact (R_call _ w Hc) | exact I].
Qed.

Lemma triple_time_Now : triple R P (fun _ => True) time_Now.
Proof. intros w r w' [= <- <-]. split; [apply R_refl | exact I]. Qed.

Lemma triple_forEach {A B} (Q : B -> Prop) (l : list A) (f : A -> H B) :
  (forall x, triple R P Q (f x)) -> triple R P (Forall Q) (forEach l f).
Proof.
  intros Hf. induction l as [|x l IH]; cbn [forEach].
  - apply triple_ret. constructor.
  - eapply triple_bind; [apply Hf | intros y Hy].
    eapply triple_bind; [apply IH | intros ys Hys].
    apply triple_ret. by constructor.
Qed.

(** The triple of a handler, read on its response. *)
Lemma triple_serve (m : H unit) w :
  triple R P (fun _ => True) m ->
  P (Responded (mkResponse 200 [] NoBody)) ->
  R w (snd (serve m w)) /\ P (fst (serve m w)).
Proof.
  intros Hm Hok. unfold serve. destruct (m w) as [[e|a] w'] eqn:Hmw; simpl.
  - exact (Hm w (inl e) w' Hmw).
  - split; [exact (proj1 (Hm w (inr a) w' Hmw)) | exact Hok].
Qed.

End Triples.

(** ** Read handlers never write

    [onlyReads w w']: [w'] is [w] with more store calls in its log, none
    of them a write; the store, the asset log, the clock and the id
    counter are those of [w]. *)
Definition onlyReads (w w' : World) : Prop :=
  exists calls,
    Forall (fun c => is_write c = false) calls
    /\ w' = with_log (log w ++ calls) w.

Lemma onlyReads_refl w : onlyReads w w.
Proof. exists []. split; [constructor|]. destruct w. cbn. by rewrite app_nil_r. Qed.

Lemma onlyReads_trans w1 w2 w3 :
  onlyReads w1 w2 -> onlyReads w2 w3 -> onlyReads w1 w3.
Proof.
  intros (c1 & H1 & ->) (c2 & H2 & ->). exists (c1 ++ c2).
  split; [by apply Forall_app|]. cbn. by rewrite app_assoc.
Qed.

Lemma onlyReads_call c w : is_write c = false -> onlyReads w (logged c w).
Proof. intros Hc. exists [c]. split; [by constructor | reflexivity]. Qed.

Definition any_exit (_ : Exit) : Prop := True.

(** One step of a read-only handler. *)
Ltac reads_prim :=
  first
    [ eapply (triple_when onlyReads any_exit onlyReads_refl); exact I
    | eapply (triple_unwrap onlyReads any_exit onlyReads_refl); exact I
    | eapply (triple_FindOne _ onlyReads any_exit _ onlyReads_call); reflexivity
    | eapply (triple_Find _ onlyReads any_exit _ onlyReads_call); reflexivity
    | eapply (triple_CursorAll _ onlyReads any_exit _ onlyReads_call); reflexivity
    | eapply (triple_CountDocuments _ onlyReads any_exit _ onlyReads_call); reflexivity
    | eapply (triple_call _ onlyReads any_exit _ onlyReads_call); reflexivity ].

Ltac reads_steps :=
  repeat first
    [ eapply (triple_exit onlyReads any_exit onlyReads_refl); exact I
    | eapply (triple_ret onlyReads any_exit onlyReads_refl); exact I
    | eapply triple_weaken; cycle 1; [reads_prim | intros ? ?; exact I]
    | eapply (triple_bind onlyReads any_exit onlyReads_trans (fun _ => True));
      [|intros ? _] ].

Ltac reads_next :=
  eapply (triple_bind onlyReads any_exit onlyReads_trans (fun _ => True)).

Section ReadOnly.

Variable E : Collaborators.

Lemma fetchContributions_reads c :
  triple onlyReads any_exit (fun _ => True) (fetchContributions E c).
Proof.
  unfold fetchContributions. reads_steps.
Qed.

Lemma ListContributions_reads c :
  triple onlyReads any_exit (fun _ => True) (ListContributions E c).
Proof.
  unfold ListContributions.
  reads_next;
    [apply fetchContributions_reads | intros l _].
  destruct l; [reads_steps|]. destruct (etagMatches _ _); reads_steps.
Qed.

Lemma ListEvents_reads c :
  triple onlyReads any_exit (fun _ => True) (ListEvents E c).
Proof.
  unfold ListEvents, fetchEvents.
  reads_next; [reads_steps | intros l _].
  destruct l; [reads_steps|]. destruct (etagMatches _ _); reads_steps.
Qed.

Lemma enrichHub_reads userID hub :
  triple onlyReads any_exit (fun _ => True) (enrichHub E userID hub).
Proof.
  unfold enrichHub, hubReviews.
  reads_next.
  - reads_next; [reads_steps | intros cursor _].
    destruct cursor; reads_steps.
  - intros reviews _.
    reads_next.
    + eapply triple_weaken; cycle 1; [|intros; exact I].
      apply (triple_forEach onlyReads any_exit onlyReads_refl onlyReads_trans
               (fun _ => True)).
      intros r. unfold enrichReview. reads_steps.
    + intros rrs _. reads_steps.
Qed.

Lemma ListHubs_reads c :
  triple onlyReads any_exit (fun _ => True) (ListHubs E c).
Proof.
  unfold ListHubs, fetchHubs.
  reads_next; [reads_steps | intros userID _].
  reads_next; [reads_steps | intros hubs _].
  reads_next; [|intros; reads_steps].
  eapply triple_weaken; cycle 1; [|intros; exact I].
  apply (triple_forEach onlyReads any_exit onlyReads_refl onlyReads_trans (fun _ => True)).
  intros hub. apply enrichHub_reads.
Qed.

Lemma eachReview_reads docs acc :
  triple onlyReads any_exit (fun _ => True) (eachReview E docs acc).
Proof.
  revert acc. induction docs as [|d docs IH]; intros acc; cbn [eachReview].
  - reads_steps.
  - reads_next; [reads_steps | intros more _].
    destruct more; [|reads_steps].
    destruct (Review.decode d); [|apply IH].
    reads_next; [reads_steps | intros found _].
    apply IH.
Qed.

Lemma GetHub_reads c :
  triple onlyReads any_exit (fun _ => True) (GetHub E c).
Proof.
  unfold GetHub, fetchHub.
  reads_next; [reads_steps | intros fetched _].
  reads_next; [reads_steps | intros cursor _].
  reads_next; [reads_steps | intros docs _].
  reads_next;
    [apply eachReview_reads | intros reviews _].
  reads_next.
  - unfold hubFavorite. destruct (if nonempty _ then _ else _); reads_steps.
  - intros fav _. destruct (etagMatches _ _); reads_steps.
Qed.

End ReadOnly.

(** The list handlers of contributions, events and hubs and the single get
    of a hub read the store and nothing else: whatever the request and
    whatever fails, the world after the handler is the world of before
    with read calls added to the log. No document is inserted, updated or
    deleted, and the asset host is not called. *)
Theorem read_handlers_never_write (E : Collaborators) (c : Context) (w : World) :
  onlyReads w (snd (serve (ListContributions E c) w))
  /\ onlyReads w (snd (serve (ListEvents E c) w))
  /\ onlyReads w (snd (serve (ListHubs E c) w))
  /\ onlyReads w (snd (serve (GetHub E c) w)).
Proof.
  split; [|split; [|split]];
    refine (proj1 (triple_serve onlyReads any_exit _ w _ I)).
  - apply ListContributions_reads.
  - apply ListEvents_reads.
  - apply ListHubs_reads.
  - apply GetHub_reads.
Qed.


(** ** The checks that come first in the update and delete handlers *)

Definition unauthorized : Exit :=
  Responded (mkResponse 401 [] (ErrorBody "unauthorized")).

Definition notFound (msg : string) : Exit :=
  Responded (mkResponse 404 [] (ErrorBody msg)).

Section FirstChecks.

Variables (E : Collaborators) (c : Context) (w : World).

Lemma anonymous_rejected :
  user_id c = "" ->
  (forall form, serve (UpdateEvent E c form) w = (unauthorized, w))
  /\ serve (DeleteEvent E c) w = (unauthorized, w)
  /\ (forall form, serve (UpdateHub E c form) w = (unauthorized, w))
  /\ serve (DeleteHub E c) w = (unauthorized, w).
Proof.
  intros Hanon.
  unfold serve, UpdateEvent, DeleteEvent, UpdateHub, DeleteHub, bind.
  rewrite Hanon. cbn. repeat split.
Qed.

Lemma malformed_id_rejected :
  user_id c <> "" -> ObjectIDFromHex (Param_id c) = None ->
  (forall form, serve (UpdateEvent E c form) w = (badRequest "Invalid event ID", w))
  /\ serve (DeleteEvent E c) w = (badRequest "invalid event id", w)
  /\ (forall form, serve (UpdateHub E c form) w = (badRequest "Invalid hub ID", w))
  /\ serve (DeleteHub E c) w = (badRequest "invalid hub id", w).
Proof.
  intros Hauth Hid.
  unfold serve, UpdateEvent, DeleteEvent, UpdateHub, DeleteHub, bind.
  rewrite (eqb_empty_false _ Hauth), Hid. cbn. repeat split.
Qed.

Lemma unreadable_event_rejected oid :
  user_id c <> "" -> ObjectIDFromHex (Param_id c) = Some oid ->
  findOneResult E "events" (byID oid) w ≫= Event.decode = None ->
  (forall form, serve (UpdateEvent E c form) w
     = (notFound "Event not found", logged (CallFindOne "events" (byID oid)) w))
  /\ serve (DeleteEvent E c) w
     = (notFound "event not found", logged (CallFindOne "events" (byID oid)) w).
Proof.
  intros Hauth Hid Hnone.
  unfold serve, UpdateEvent, DeleteEvent, bind.
  rewrite (eqb_empty_false _ Hauth), Hid. cbn.
  rewrite FindOne_run, Hnone. cbn. split; reflexivity.
Qed.

Lemma unreadable_hub_rejected oid :
  user_id c <> "" -> ObjectIDFromHex (Param_id c) = Some oid ->
  findOneResult E "hubs" (byID oid) w ≫= Hub.decode = None ->
  (forall form, serve (UpdateHub E c form) w
     = (notFound "Hub not found", logged (CallFindOne "hubs" (byID oid)) w))
  /\ serve (DeleteHub E c) w
     = (notFound "Hub not found", logged (CallFindOne "hubs" (byID oid)) w).
Proof.
  intros Hauth Hid Hnone.
  unfold serve, UpdateHub, DeleteHub, bind.
  rewrite (eqb_empty_false _ Hauth), Hid. cbn.
  rewrite FindOne_run, Hnone. cbn. split; reflexivity.
Qed.

End FirstChecks.

(** On the update and delete handlers of events and hubs, in this
    order: a caller without identity is answered 401 and a malformed id
    400, both with no store call at all; a resource that the store does
    not return (missing, not decodable, or the read failed) is answered
    404, after that one read. Nothing is written in any of these cases. *)
Theorem mutations_rejected_before_any_write (E : Collaborators) (c : Context)
    (w : World) :
  (user_id c = "" ->
     (forall form, serve (UpdateEvent E c form) w = (unauthorized, w))
     /\ serve (DeleteEvent E c) w = (unauthorized, w)
     /\ (forall form, serve (UpdateHub E c form) w = (unauthorized, w))
     /\ serve (DeleteHub E c) w = (unauthorized, w))
  /\ (user_id c <> "" -> ObjectIDFromHex (Param_id c) = None ->
     (forall form, serve (UpdateEvent E c form) w = (badRequest "Invalid event ID", w))
     /\ serve (DeleteEvent E c) w = (badRequest "invalid event id", w)
     /\ (forall form, serve (UpdateHub E c form) w = (badRequest "Invalid hub ID", w))
     /\ serve (DeleteHub E c) w = (badRequest "invalid hub id", w))
  /\ (forall oid,
     user_id c <> "" -> ObjectIDFromHex (Param_id c) = Some oid ->
     (findOneResult E "events" (byID oid) w ≫= Event.decode = None ->
        (forall form, serve (UpdateEvent E c form) w
           = (notFound "Event not found", logged (CallFindOne "events" (byID oid)) w))
        /\ serve (DeleteEvent E c) w
           = (notFound "event not found", logged (CallFindOne "events" (byID oid)) w))
     /\ (findOneResult E "hubs" (byID oid) w ≫= Hub.decode = None ->
        (forall form, serve (UpdateHub E c form) w
           = (notFound "Hub not found", logged (CallFindOne "hubs" (byID oid)) w))
        /\ serve (DeleteHub E c) w
           = (notFound "Hub not found", logged (CallFindOne "hubs" (byID oid)) w))).
Proof.
  split; [|split].
  - apply anonymous_rejected.
  - apply malformed_id_rejected.
  - intros oid Hauth Hid. split; intros Hnone.
    + by apply unreadable_event_rejected.
    + by apply unreadable_hub_rejected.
Qed.

Lemma mutations_rejected_witness :
  serve (DeleteHub demo.env (demo.context "" "admin" (Hex fixtures.h1)))
        (demo.world fixtures.hubs)
  = (unauthorized, demo.world fixtures.hubs)
  /\ serve (UpdateEvent demo.env (demo.context (Hex demo.alice) "user" "e1")
              (Ok fixtures.blank_event)) (demo.world fixtures.events)
  = (badRequest "Invalid event ID", demo.world fixtures.events)
  /\ serve (DeleteEvent demo.env (demo.context (Hex demo.alice) "user" (Hex fixtures.h1)))
           (demo.world fixtures.events)
  = (notFound "event not found",
     logged (CallFindOne "events" (byID fixtures.h1)) (demo.world fixtures.events)).
Proof.
  split; [|split].
  - destruct (mutations_rejected_before_any_write demo.env
                (demo.context "" "admin" (Hex fixtures.h1)) (demo.world fixtures.hubs))
      as (H401 & _ & _).
    destruct H401 as (_ & _ & _ & Hd); [reflexivity | exact Hd].
  - destruct (mutations_rejected_before_any_write demo.env
                (demo.context (Hex demo.alice) "user" "e1")
                (demo.world fixtures.events)) as (_ & H400 & _).
    destruct H400 as (Hu & _); [discriminate | reflexivity |]. apply Hu.
  - destruct (mutations_rejected_before_any_write demo.env
                (demo.context (Hex demo.alice) "user" (Hex fixtures.h1))
                (demo.world fixtures.events)) as (_ & _ & H404).
    destruct (H404 fixtures.h1) as (He & _); [discriminate | reflexivity |].
    destruct He as (_ & Hd); [vm_compute; reflexivity | exact Hd].
Defined.

(** ** What an update can touch *)

(** From [w] to [w'] only the collection [col] has changed, and in it
    only the fields [keys]: the documents are as many as before, in the
    same order, and agree with the former ones on every other field. *)
Definition touchesOnly (col : string) (keys : list string) (w w' : World) : Prop :=
  (forall col', col' <> col -> coll (db w') col' = coll (db w) col')
  /\ (forall k, k ∉ keys ->
        (fun d : Doc => d !! k) <$> coll (db w') col
        = (fun d : Doc => d !! k) <$> coll (db w) col).

Lemma touchesOnly_same col keys w w' : db w' = db w -> touchesOnly col keys w w'.
Proof. intros Heq. unfold touchesOnly. rewrite Heq. split; reflexivity. Qed.

Lemma touchesOnly_refl col keys w : touchesOnly col keys w w.
Proof. by apply touchesOnly_same. Qed.

Lemma touchesOnly_trans col keys w1 w2 w3 :
  touchesOnly col keys w1 w2 -> touchesOnly col keys w2 w3 ->
  touchesOnly col keys w1 w3.
Proof.
  intros [Hc1 Hk1] [Hc2 Hk2]. split.
  - intros col' Hne. by rewrite Hc2, Hc1.
  - intros k Hk. by rewrite Hk2, Hk1.
Qed.

Lemma touchesOnly_call col keys c w :
  (fun _ : StoreCall => True) c -> touchesOnly col keys w (logged c w).
Proof. intros _. by apply touchesOnly_same. Qed.

(** The asset host is outside the store: whatever relation holds
    between worlds of the same store holds across the uploads. *)
Section Uploads.

Variables (E : Collaborators) (R : World -> World -> Prop).
Hypothesis R_same : forall w w', db w' = db w -> R w w'.
Hypothesis R_trans : forall w1 w2 w3, R w1 w2 -> R w2 w3 -> R w1 w3.

Lemma triple_UploadToCloudinary fh :
  triple R any_exit (fun _ => True) (UploadToCloudinary E fh).
Proof.
  intros w r w' Hrun. unfold UploadToCloudinary in Hrun.
  destruct (cloudinaryConfigError E).
  - injection Hrun as <- <-. split; [by apply R_same | exact I].
  - unfold bind, get_world, put_world in Hrun. cbn in Hrun.
    destruct (cloudinaryUpload E fh); injection Hrun as <- <-;
      (split; [by apply R_same | exact I]).
Qed.

Lemma triple_uploadEach files urls :
  triple R any_exit (fun _ => True) (uploadEach E files urls).
Proof.
  assert (forall w, R w w) as R_refl by (intros w; by apply R_same).
  revert urls. induction files as [|fh files IH]; intros urls; cbn [uploadEach].
  - by apply (triple_ret R any_exit R_refl).
  - eapply (triple_bind R any_exit R_trans (fun _ => True)).
    { eapply triple_weaken; cycle 1.
      - by apply (triple_when R any_exit R_refl).
      - intros ? ?; exact I. }
    intros _ _.
    eapply (triple_bind R any_exit R_trans (fun _ => True));
      [apply triple_UploadToCloudinary|].
    intros [u|e|e] _.
    + apply IH.
    + by apply (triple_exit R any_exit R_refl).
    + by apply (triple_exit R any_exit R_refl).
Qed.

Lemma triple_newImages c :
  triple R any_exit (fun _ => True) (newImages E c).
Proof.
  unfold newImages. destruct (MultipartForm c).
  - apply triple_uploadEach.
  - apply (triple_ret R any_exit); [intros w; by apply R_same | exact I].
Qed.

Lemma triple_NewObjectID : triple R any_exit (fun _ => True) (NewObjectID E).
Proof. intros w r w' [= <- <-]. split; [by apply R_same | exact I]. Qed.

End Uploads.

Section Touches.

Variables (E : Collaborators) (col : string) (keys : list string).

Let R := touchesOnly col keys.

Lemma triple_UpdateOne filter set :
  (forall k, k ∉ keys -> set !! k = None) ->
  triple R any_exit (fun _ => True) (UpdateOne E col filter set).
Proof.
  intros Hset w r w' Hrun.
  destruct (UpdateOne_cases E col filter set w)
    as [(_ & Heq) | [(_ & _ & Heq) | (l' & _ & Hup & Heq)]];
    rewrite Heq in Hrun; injection Hrun as <- <-.
  - split; [by apply touchesOnly_same | exact I].
  - split; [by apply touchesOnly_same | exact I].
  - split; [|exact I]. split; cbn.
    + intros col' Hne. by apply coll_insert_ne.
    + intros k Hk. rewrite coll_insert.
      eapply update_first_map; [|exact Hup].
      intros d. cbn. apply lookup_union_r, Hset, Hk.
Qed.

End Touches.

Lemma mergeImages_keeps (keys : list string) images new update :
  "images" ∈ keys ->
  (forall k, k ∉ keys -> update !! k = None) ->
  forall k, k ∉ keys -> mergeImages images new update !! k = None.
Proof.
  intros Hin Hu k Hk. rewrite mergeImages_lookup_ne; [by apply Hu|].
  intros ->. by apply Hk.
Qed.

Definition eventFields : list string :=
  ["updated_at"; "title"; "description"; "location"; "target_amount";
   "status"; "deadline"; "images"].

Definition hubFields : list string :=
  ["updated_at"; "title"; "description"; "location_name"; "rating";
   "coordinates"; "images"].

Definition contributionFields : list string :=
  ["updated_at"; "contributor_name"; "contributor_contact"; "amount";
   "currency"; "method"; "payment_reference"; "status"; "receipt_url"].

Ltac outside_fields Hk :=
  repeat (apply not_elem_of_cons in Hk; destruct Hk as [? Hk]).

Lemma stageEvent_keeps now input k :
  k ∉ eventFields -> stageEvent now input !! k = None.
Proof. intros Hk. outside_fields Hk. by apply stageEvent_lookup_other. Qed.

Lemma stageHub_keeps now input k :
  k ∉ hubFields -> stageHub now input !! k = None.
Proof. intros Hk. outside_fields Hk. by apply stageHub_lookup_other. Qed.

Lemma stageContribution_keeps now input k :
  k ∉ contributionFields -> stageContribution now input !! k = None.
Proof.
  intros Hk. outside_fields Hk. unfold stageContribution.
  repeat (rewrite lookup_put_if_ne by done). by rewrite lookup_singleton_ne.
Qed.

Ltac touches_prim col keys :=
  first
    [ eapply (triple_when _ any_exit (touchesOnly_refl col keys)); exact I
    | eapply (triple_unwrap _ any_exit (touchesOnly_refl col keys)); exact I
    | eapply (triple_bound _ any_exit (touchesOnly_refl col keys)); intros; exact I
    | eapply (triple_time_Now _ any_exit (touchesOnly_refl col keys))
    | eapply (triple_FindOne _ _ any_exit _ (touchesOnly_call col keys)); exact I
    | eapply (triple_newImages _ _ (touchesOnly_same col keys)
                (touchesOnly_trans col keys)) ].

Ltac touches_steps col keys :=
  repeat first
    [ eapply (triple_exit _ any_exit (touchesOnly_refl col keys)); exact I
    | eapply (triple_ret _ any_exit (touchesOnly_refl col keys)); exact I
    | eapply triple_weaken; cycle 1; [touches_prim col keys | intros ? ?; exact I]
    | eapply (triple_bind _ any_exit (touchesOnly_trans col keys) (fun _ => True));
      [|intros ? _] ].

Section UpdatesTouch.

Variable E : Collaborators.

Lemma stageDeadline_touches deadline update :
  (forall k, k ∉ eventFields -> update !! k = None) ->
  triple (touchesOnly "events" eventFields) any_exit
    (fun u => forall k, k ∉ eventFields -> u !! k = None)
    (stageDeadline E deadline update).
Proof.
  intros Hu. unfold stageDeadline.
  destruct deadline as [value|];
    [destruct (nonempty value)|];
    try by apply (triple_ret _ any_exit (touchesOnly_refl "events" eventFields)).
  eapply (triple_bind _ any_exit (touchesOnly_trans "events" eventFields) (fun _ => True)).
  { eapply triple_weaken; cycle 1.
    - by apply (triple_unwrap _ any_exit (touchesOnly_refl "events" eventFields)).
    - intros ? ?; exact I. }
  intros parsed _. apply (triple_ret _ any_exit (touchesOnly_refl "events" eventFields)).
  intros k Hk. rewrite lookup_insert_ne; [by apply Hu|].
  intros <-. apply Hk. unfold eventFields. repeat constructor.
Qed.

Lemma applyEventUpdate_touches objID update :
  (forall k, k ∉ eventFields -> update !! k = None) ->
  triple (touchesOnly "events" eventFields) any_exit (fun _ => True)
    (applyEventUpdate E objID update).
Proof.
  intros Hu. unfold applyEventUpdate.
  eapply (triple_bind _ any_exit (touchesOnly_trans "events" eventFields) (fun _ => True)).
  { touches_steps "events" eventFields. }
  intros _ _.
  eapply (triple_bind _ any_exit (touchesOnly_trans "events" eventFields) (fun _ => True)).
  { by apply triple_UpdateOne. }
  intros res _. touches_steps "events" eventFields.
Qed.

Lemma applyHubUpdate_touches objID update :
  (forall k, k ∉ hubFields -> update !! k = None) ->
  triple (touchesOnly "hubs" hubFields) any_exit (fun _ => True)
    (applyHubUpdate E objID update).
Proof.
  intros Hu. unfold applyHubUpdate.
  eapply (triple_bind _ any_exit (touchesOnly_trans "hubs" hubFields) (fun _ => True)).
  { touches_steps "hubs" hubFields. }
  intros _ _.
  eapply (triple_bind _ any_exit (touchesOnly_trans "hubs" hubFields) (fun _ => True)).
  { by apply triple_UpdateOne. }
  intros res _. touches_steps "hubs" hubFields.
Qed.

Ltac touches_bind col keys :=
  eapply (triple_bind _ any_exit (touchesOnly_trans col keys) (fun _ => True));
  [touches_steps col keys | intros ? _].

Lemma UpdateEvent_touches c form :
  triple (touchesOnly "events" eventFields) any_exit (fun _ => True)
    (UpdateEvent E c form).
Proof.
  unfold UpdateEvent.
  do 7 touches_bind "events" eventFields.
  eapply (triple_bind _ any_exit (touchesOnly_trans "events" eventFields));
    [apply stageDeadline_touches; intros k; apply stageEvent_keeps|].
  intros update Hu. touches_bind "events" eventFields.
  apply applyEventUpdate_touches, mergeImages_keeps; [|exact Hu].
  unfold eventFields. repeat constructor.
Qed.

Lemma UpdateHub_touches c form :
  triple (touchesOnly "hubs" hubFields) any_exit (fun _ => True)
    (UpdateHub E c form).
Proof.
  unfold UpdateHub.
  do 8 touches_bind "hubs" hubFields.
  apply applyHubUpdate_touches, mergeImages_keeps;
    [|intros k; apply stageHub_keeps].
  unfold hubFields. repeat constructor.
Qed.

Lemma UpdateContribution_touches c body :
  triple (touchesOnly "contributions" contributionFields) any_exit (fun _ => True)
    (UpdateContribution E c body).
Proof.
  unfold UpdateContribution.
  do 4 touches_bind "contributions" contributionFields.
  eapply (triple_bind _ any_exit
            (touchesOnly_trans "contributions" contributionFields) (fun _ => True)).
  { apply triple_UpdateOne. intros k. apply stageContribution_keeps. }
  intros res _. touches_steps "contributions" contributionFields.
Qed.

End UpdatesTouch.

(** Whatever the request and whatever fails on the way, an update of an
    event, a hub or a contribution changes nothing but the fields its
    handler stages, in its own collection: no document is added, removed
    or moved, no other collection is changed, and the identifier, the
    owner ([user_id], [event_id]) and the creation time of every document
    stay as they are. *)
Theorem updates_touch_only_their_fields (E : Collaborators) (c : Context) (w : World) :
  (forall form,
     touchesOnly "events" eventFields w (snd (serve (UpdateEvent E c form) w)))
  /\ (forall form,
     touchesOnly "hubs" hubFields w (snd (serve (UpdateHub E c form) w)))
  /\ (forall body,
     touchesOnly "contributions" contributionFields w
       (snd (serve (UpdateContribution E c body) w))).
Proof.
  split; [|split]; intros x.
  - refine (proj1 (triple_serve _ any_exit _ w _ I)). apply UpdateEvent_touches.
  - refine (proj1 (triple_serve _ any_exit _ w _ I)). apply UpdateHub_touches.
  - refine (proj1 (triple_serve _ any_exit _ w _ I)). apply UpdateContribution_touches.
Qed.


(** ** Contributions *)

Lemma lookup_put_nonempty_ne k v (d : Doc) j :
  j <> k -> Contribution.put_nonempty k v d !! j = d !! j.
Proof.
  intros Hne. unfold Contribution.put_nonempty.
  destruct (String.eqb v ""); [done | by rewrite lookup_insert_ne].
Qed.

Lemma decode_str_put_nonempty k v (d : Doc) :
  d !! k = None -> decode.str (Contribution.put_nonempty k v d) k = Some v.
Proof.
  intros Hd. unfold decode.str, Contribution.put_nonempty.
  destruct (String.eqb_spec v "") as [-> | _];
    [by rewrite Hd | by rewrite lookup_insert_eq].
Qed.

Lemma lookup_encode_below_id c k :
  k <> "_id" ->
  Contribution.encode c !! k
  = (Contribution.put_nonempty "contributor_contact" (Contribution.ContributorContact c)
    (Contribution.put_nonempty "payment_reference" (Contribution.PaymentRef c)
    (Contribution.put_nonempty "receipt_url" (Contribution.ReceiptURL c)
    (<["event_id" := BObjectID (Contribution.EventID c)]>
    (<["contributor_name" := BString (Contribution.ContributorName c)]>
    (<["amount" := BDouble (Contribution.Amount c)]>
    (<["currency" := BString (Contribution.Currency c)]>
    (<["method" := BString (Contribution.Method c)]>
    (<["status" := BString (Contribution.Status c)]>
    (<["created_at" := BDateTime (Contribution.CreatedAt c)]>
    (<["updated_at" := BDateTime (Contribution.UpdatedAt c)]> ∅))))))))))) !! k.
Proof.
  intros Hne. unfold Contribution.encode.
  destruct (IsZero (Contribution.ID c)); [done | by rewrite lookup_insert_ne].
Qed.

Ltac encoded_lookup :=
  rewrite lookup_encode_below_id by done;
  repeat (rewrite lookup_put_nonempty_ne by done);
  repeat (rewrite lookup_insert_ne by done);
  by rewrite lookup_insert_eq.

(** What is stored for a contribution is read back as it was. *)
Lemma Contribution_decode_encode c :
  Contribution.decode (Contribution.encode c) = Some c.
Proof.
  assert (decode.oid (Contribution.encode c) "_id" = Some (Contribution.ID c)) as Hid.
  { unfold decode.oid, Contribution.encode, IsZero.
    destruct (bool_decide_reflect (Contribution.ID c = NilObjectID)) as [-> | _].
    - repeat (rewrite lookup_put_nonempty_ne by done).
      repeat (rewrite lookup_insert_ne by done). by rewrite lookup_empty.
    - by rewrite lookup_insert_eq. }
  assert (decode.str (Contribution.encode c) "contributor_contact"
          = Some (Contribution.ContributorContact c)) as Hcontact.
  { unfold decode.str at 1. rewrite lookup_encode_below_id by done.
    apply decode_str_put_nonempty.
    repeat (rewrite lookup_put_nonempty_ne by done).
    repeat (rewrite lookup_insert_ne by done). by rewrite lookup_empty. }
  assert (decode.str (Contribution.encode c) "payment_reference"
          = Some (Contribution.PaymentRef c)) as Href.
  { unfold decode.str at 1. rewrite lookup_encode_below_id by done.
    rewrite lookup_put_nonempty_ne by done.
    apply decode_str_put_nonempty.
    repeat (rewrite lookup_put_nonempty_ne by done).
    repeat (rewrite lookup_insert_ne by done). by rewrite lookup_empty. }
  assert (decode.str (Contribution.encode c) "receipt_url"
          = Some (Contribution.ReceiptURL c)) as Hreceipt.
  { unfold decode.str at 1. rewrite lookup_encode_below_id by done.
    do 2 (rewrite lookup_put_nonempty_ne by done).
    apply decode_str_put_nonempty.
    repeat (rewrite lookup_insert_ne by done). by rewrite lookup_empty. }
  unfold Contribution.decode.
  rewrite Hid, Hcontact, Href, Hreceipt.
  unfold decode.oid, decode.str, decode.double, decode.datetime.
  replace (Contribution.encode c !! "event_id")
    with (Some (BObjectID (Contribution.EventID c))) by (symmetry; encoded_lookup).
  replace (Contribution.encode c !! "contributor_name")
    with (Some (BString (Contribution.ContributorName c))) by (symmetry; encoded_lookup).
  replace (Contribution.encode c !! "amount")
    with (Some (BDouble (Contribution.Amount c))) by (symmetry; encoded_lookup).
  replace (Contribution.encode c !! "currency")
    with (Some (BString (Contribution.Currency c))) by (symmetry; encoded_lookup).
  replace (Contribution.encode c !! "method")
    with (Some (BString (Contribution.Method c))) by (symmetry; encoded_lookup).
  replace (Contribution.encode c !! "status")
    with (Some (BString (Contribution.Status c))) by (symmetry; encoded_lookup).
  replace (Contribution.encode c !! "created_at")
    with (Some (BDateTime (Contribution.CreatedAt c))) by (symmetry; encoded_lookup).
  replace (Contribution.encode c !! "updated_at")
    with (Some (BDateTime (Contribution.UpdatedAt c))) by (symmetry; encoded_lookup).
  by destruct c.
Qed.

Lemma Contribution_encode_id c :
  IsZero (Contribution.ID c) = false ->
  Contribution.encode c !! "_id" = Some (BObjectID (Contribution.ID c)).
Proof.
  intros Hnz. unfold Contribution.encode. rewrite Hnz. by rewrite lookup_insert_eq.
Qed.

(** No stored document has the identifier of [doc]. *)
Lemma same_id_fresh (doc : Doc) id (l : list Doc) :
  doc !! "_id" = Some (BObjectID id) ->
  Forall (fun d : Doc => d !! "_id" <> Some (BObjectID id)) l ->
  existsb (same_id doc) l = false.
Proof.
  intros Hid Hfresh. apply not_true_is_false. intros Hex.
  apply existsb_exists in Hex as (d & Hd & Hsame).
  rewrite Forall_forall in Hfresh. apply (Hfresh d); [by apply list_elem_of_In|].
  unfold same_id in Hsame. rewrite Hid in Hsame.
  destruct (d !! "_id") as [y|]; [|discriminate].
  by apply bson_eqb_oid in Hsame as ->.
Qed.

(** The contribution that [CreateContribution] makes of a request body:
    the identifier, the status and the two times are the handler's. *)
Definition created (id : ObjectID) (now : Time) (input : Contribution.t)
  : Contribution.t :=
  Contribution.mk id (Contribution.EventID input)
    (Contribution.ContributorName input) (Contribution.ContributorContact input)
    (Contribution.Amount input) (Contribution.Currency input)
    (Contribution.Method input) (Contribution.PaymentRef input)
    "PENDING" (Contribution.ReceiptURL input) now now.

Definition contributionCreated (id : ObjectID) : Exit :=
  Responded (mkResponse 201 [] (IDMessage (Hex id) "contribution created")).

Section Create.

Variables (E : Collaborators) (c : Context) (w : World) (input : Contribution.t).

Let id := objectIDs E (issued w).
Let doc := Contribution.encode (created id (clock w) input).

(** The world after a creation that goes through. *)
Definition afterCreate : World :=
  with_db (<["contributions" := coll (db w) "contributions" ++ [doc]]> (db w))
    (logged (CallInsertOne "contributions" doc)
       (with_issued (S (issued w))
          (logged (CallFindOne "events" (byID (Contribution.EventID input))) w))).

Lemma CreateContribution_run event :
  IsZero (Contribution.EventID input) = false ->
  findOneResult E "events" (byID (Contribution.EventID input)) w ≫= Event.decode
    = Some event ->
  f64.le (Contribution.Amount input) f64.zero = false ->
  fault E (S (length (log w))) (CallInsertOne "contributions" doc) = false ->
  freshID id (coll (db w) "contributions") ->
  serve (CreateContribution E c (Ok input)) w = (contributionCreated id, afterCreate).
Proof.
  intros Hev Hfound Hamount Hins [Hnz Hfresh].
  unfold serve, CreateContribution, bind. cbn. rewrite Hev. cbn.
  rewrite FindOne_run, Hfound. cbn. rewrite Hamount. cbn.
  unfold NewObjectID. cbn.
  rewrite InsertOne_run.
  - reflexivity.
  - cbn. rewrite length_app, Nat.add_1_r. exact Hins.
  - cbn. apply (same_id_fresh _ id); [|exact Hfresh].
    by apply (Contribution_encode_id (created id (clock w) input)).
Qed.

End Create.

(** A contribution to an existing event, with a positive amount, is
    stored when the insert goes through: the answer is 201 with the
    generated identifier; the collection has one more document, the
    last, which reads back as the contribution of the body, with the
    generated identifier, the status PENDING and both times set to the
    time of the request, whatever the body gave for these. *)
Theorem CreateContribution_stores (E : Collaborators) (c : Context) (w : World)
    (input : Contribution.t) (event : Event.t) :
  let id := objectIDs E (issued w) in
  let find := CallFindOne "events" (byID (Contribution.EventID input)) in
  let doc := Contribution.encode (created id (clock w) input) in
  IsZero (Contribution.EventID input) = false ->
  findOneResult E "events" (byID (Contribution.EventID input)) w ≫= Event.decode
    = Some event ->
  f64.le (Contribution.Amount input) f64.zero = false ->
  fault E (S (length (log w))) (CallInsertOne "contributions" doc) = false ->
  freshID id (coll (db w) "contributions") ->
  let r := serve (CreateContribution E c (Ok input)) w in
  fst r = contributionCreated id
  /\ coll (db (snd r)) "contributions" = coll (db w) "contributions" ++ [doc]
  /\ Contribution.decode doc = Some (created id (clock w) input)
  /\ (forall col, col <> "contributions" -> coll (db (snd r)) col = coll (db w) col)
  /\ log (snd r) = log w ++ [find; CallInsertOne "contributions" doc].
Proof.
  intros id find doc Hev Hfound Hamount Hins Hfresh r. subst r.
  rewrite (CreateContribution_run E c w input event Hev Hfound Hamount Hins Hfresh).
  cbn. split; [reflexivity|]. split; [apply coll_insert|].
  split; [apply Contribution_decode_encode|]. split.
  - intros col Hne. by apply coll_insert_ne.
  - unfold logged. cbn. by rewrite <- app_assoc.
Qed.

(** *** Reading a document after a [$set] *)

Section DecodeUnion.

Variables (U d : Doc) (k : string).

Lemma decode_oid_kept : U !! k = None -> decode.oid (U ∪ d) k = decode.oid d k.
Proof. intros HU. unfold decode.oid. by rewrite lookup_union_r. Qed.

Lemma decode_str_kept : U !! k = None -> decode.str (U ∪ d) k = decode.str d k.
Proof. intros HU. unfold decode.str. by rewrite lookup_union_r. Qed.

Lemma decode_double_kept : U !! k = None -> decode.double (U ∪ d) k = decode.double d k.
Proof. intros HU. unfold decode.double. by rewrite lookup_union_r. Qed.

Lemma decode_datetime_kept :
  U !! k = None -> decode.datetime (U ∪ d) k = decode.datetime d k.
Proof. intros HU. unfold decode.datetime. by rewrite lookup_union_r. Qed.

Lemma decode_datetime_ptr_kept :
  U !! k = None -> decode.datetime_ptr (U ∪ d) k = decode.datetime_ptr d k.
Proof. intros HU. unfold decode.datetime_ptr. by rewrite lookup_union_r. Qed.

Lemma decode_strs_kept : U !! k = None -> decode.strs (U ∪ d) k = decode.strs d k.
Proof. intros HU. unfold decode.strs. by rewrite lookup_union_r. Qed.

Lemma decode_str_staged (cond : bool) new old :
  U !! k = (if cond then Some (BString new) else None) ->
  decode.str d k = Some old ->
  decode.str (U ∪ d) k = Some (if cond then new else old).
Proof.
  intros HU Hd. destruct cond.
  - unfold decode.str. by rewrite (lookup_union_Some_l _ _ _ _ HU).
  - by rewrite decode_str_kept.
Qed.

Lemma decode_double_staged (cond : bool) new old :
  U !! k = (if cond then Some (BDouble new) else None) ->
  decode.double d k = Some old ->
  decode.double (U ∪ d) k = Some (if cond then new else old).
Proof.
  intros HU Hd. destruct cond.
  - unfold decode.double. by rewrite (lookup_union_Some_l _ _ _ _ HU).
  - by rewrite decode_double_kept.
Qed.

Lemma decode_datetime_staged now :
  U !! k = Some (BDateTime now) -> decode.datetime (U ∪ d) k = Some now.
Proof.
  intros HU. unfold decode.datetime. by rewrite (lookup_union_Some_l _ _ _ _ HU).
Qed.

End DecodeUnion.

Lemma Contribution_decode_fields d c :
  Contribution.decode d = Some c ->
  decode.oid d "_id" = Some (Contribution.ID c)
  /\ decode.oid d "event_id" = Some (Contribution.EventID c)
  /\ decode.str d "contributor_name" = Some (Contribution.ContributorName c)
  /\ decode.str d "contributor_contact" = Some (Contribution.ContributorContact c)
  /\ decode.double d "amount" = Some (Contribution.Amount c)
  /\ decode.str d "currency" = Some (Contribution.Currency c)
  /\ decode.str d "method" = Some (Contribution.Method c)
  /\ decode.str d "payment_reference" = Some (Contribution.PaymentRef c)
  /\ decode.str d "status" = Some (Contribution.Status c)
  /\ decode.str d "receipt_url" = Some (Contribution.ReceiptURL c)
  /\ decode.datetime d "created_at" = Some (Contribution.CreatedAt c)
  /\ decode.datetime d "updated_at" = Some (Contribution.UpdatedAt c).
Proof.
  unfold Contribution.decode. intros Hdec.
  destruct (decode.oid d "_id"); [|discriminate].
  destruct (decode.oid d "event_id"); [|discriminate].
  destruct (decode.str d "contributor_name"); [|discriminate].
  destruct (decode.str d "contributor_contact"); [|discriminate].
  destruct (decode.double d "amount"); [|discriminate].
  destruct (decode.str d "currency"); [|discriminate].
  destruct (decode.str d "method"); [|discriminate].
  destruct (decode.str d "payment_reference"); [|discriminate].
  destruct (decode.str d "status"); [|discriminate].
  destruct (decode.str d "receipt_url"); [|discriminate].
  destruct (decode.datetime d "created_at"); [|discriminate].
  destruct (decode.datetime d "updated_at"); [|discriminate].
  cbn in Hdec. injection Hdec as <-. cbn. repeat split.
Qed.

(** A staged field, looked up. *)
Ltac staged_lookup :=
  repeat (rewrite lookup_put_if_ne by done);
  try rewrite lookup_put_if_eq;
  repeat (rewrite lookup_put_if_ne by done);
  try (rewrite lookup_singleton_ne by done);
  try rewrite lookup_singleton_eq;
  try reflexivity.

(** The contribution after an update with the body [input]: a field of
    the body that is empty, or an amount that is not positive, leaves
    the stored value. *)
Definition patchedContribution (now : Time) (input old : Contribution.t)
  : Contribution.t :=
  Contribution.mk (Contribution.ID old) (Contribution.EventID old)
    (if nonempty (Contribution.ContributorName input)
     then Contribution.ContributorName input else Contribution.ContributorName old)
    (if nonempty (Contribution.ContributorContact input)
     then Contribution.ContributorContact input else Contribution.ContributorContact old)
    (if f64.gt (Contribution.Amount input) f64.zero
     then Contribution.Amount input else Contribution.Amount old)
    (if nonempty (Contribution.Currency input)
     then Contribution.Currency input else Contribution.Currency old)
    (if nonempty (Contribution.Method input)
     then Contribution.Method input else Contribution.Method old)
    (if nonempty (Contribution.PaymentRef input)
     then Contribution.PaymentRef input else Contribution.PaymentRef old)
    (if nonempty (Contribution.Status input)
     then Contribution.Status input else Contribution.Status old)
    (if nonempty (Contribution.ReceiptURL input)
     then Contribution.ReceiptURL input else Contribution.ReceiptURL old)
    (Contribution.CreatedAt old) now.

Lemma patched_decode now input d old :
  Contribution.decode d = Some old ->
  Contribution.decode (stageContribution now input ∪ d)
  = Some (patchedContribution now input old).
Proof.
  intros Hdec.
  destruct (Contribution_decode_fields d old Hdec)
    as (Hid & Hev & Hname & Hcontact & Hamount & Hcur & Hmeth & Href & Hstatus
        & Hreceipt & Hcreated & _).
  unfold Contribution.decode.
  rewrite (decode_oid_kept (stageContribution now input) d "_id"), Hid by (unfold stageContribution; staged_lookup).
  rewrite (decode_oid_kept (stageContribution now input) d "event_id"), Hev
    by (unfold stageContribution; staged_lookup).
  rewrite (decode_str_staged (stageContribution now input) d "contributor_name" _ _ _ ltac:(unfold stageContribution; staged_lookup) Hname).
  rewrite (decode_str_staged (stageContribution now input) d "contributor_contact" _ _ _ ltac:(unfold stageContribution; staged_lookup) Hcontact).
  rewrite (decode_double_staged (stageContribution now input) d "amount" _ _ _ ltac:(unfold stageContribution; staged_lookup) Hamount).
  rewrite (decode_str_staged (stageContribution now input) d "currency" _ _ _ ltac:(unfold stageContribution; staged_lookup) Hcur).
  rewrite (decode_str_staged (stageContribution now input) d "method" _ _ _ ltac:(unfold stageContribution; staged_lookup) Hmeth).
  rewrite (decode_str_staged (stageContribution now input) d "payment_reference" _ _ _ ltac:(unfold stageContribution; staged_lookup) Href).
  rewrite (decode_str_staged (stageContribution now input) d "status" _ _ _ ltac:(unfold stageContribution; staged_lookup) Hstatus).
  rewrite (decode_str_staged (stageContribution now input) d "receipt_url" _ _ _ ltac:(unfold stageContribution; staged_lookup) Hreceipt).
  rewrite (decode_datetime_kept (stageContribution now input) d "created_at"), Hcreated
    by (unfold stageContribution; staged_lookup).
  rewrite (decode_datetime_staged (stageContribution now input) d "updated_at" now)
    by (unfold stageContribution; staged_lookup).
  reflexivity.
Qed.

Lemma nonempty_false s : nonempty s = false -> s = "".
Proof.
  unfold nonempty. destruct (String.eqb_spec s ""); [done | discriminate].
Qed.

Ltac staged_field k :=
  apply (size_two_keys _ "updated_at" k); [| |done];
  [ eexists; unfold stageContribution; staged_lookup
  | unfold stageContribution; staged_lookup;
    match goal with H : _ = true |- _ => rewrite H end; by eexists ].

(** An update body with a field to set stages more than the time. *)
Lemma stageContribution_not_blank now input :
  ~ blankContribution input -> size (stageContribution now input) <> 1%nat.
Proof.
  intros Hnb.
  destruct (nonempty (Contribution.ContributorName input)) eqn:H1;
    [staged_field "contributor_name"|].
  destruct (nonempty (Contribution.ContributorContact input)) eqn:H2;
    [staged_field "contributor_contact"|].
  destruct (f64.gt (Contribution.Amount input) f64.zero) eqn:H3;
    [staged_field "amount"|].
  destruct (nonempty (Contribution.Currency input)) eqn:H4;
    [staged_field "currency"|].
  destruct (nonempty (Contribution.Method input)) eqn:H5;
    [staged_field "method"|].
  destruct (nonempty (Contribution.PaymentRef input)) eqn:H6;
    [staged_field "payment_reference"|].
  destruct (nonempty (Contribution.Status input)) eqn:H7;
    [staged_field "status"|].
  destruct (nonempty (Contribution.ReceiptURL input)) eqn:H8;
    [staged_field "receipt_url"|].
  exfalso. apply Hnb. unfold blankContribution.
  repeat split; (by apply nonempty_false) || assumption.
Qed.

Arguments stageContribution : simpl never.

Definition contributionUpdated (oid : ObjectID) : Exit :=
  Responded (mkResponse 200 [] (MessageID "contribution updated" (Hex oid))).

(** An update of a contribution with at least one field to set, when
    the store call goes through. If the contribution exists, the
    answer is 200 and the stored document is the former one with the
    staged fields set: read back, it has the non-empty fields and the
    positive amount of the body, the time of the request as update
    time, and every other value as before. If it does not exist, the
    answer is 404 and the store is unchanged. No identity is asked of
    the caller. *)
Theorem UpdateContribution_patches (E : Collaborators) (c : Context) (w : World)
    (input : Contribution.t) (oid : ObjectID) :
  let update := stageContribution (clock w) input in
  ObjectIDFromHex (Param_id c) = Some oid ->
  ~ blankContribution input ->
  fault E (length (log w)) (CallUpdateOne "contributions" (byID oid) update) = false ->
  let r := serve (UpdateContribution E c (Ok input)) w in
  match List.find (matches E (byID oid)) (coll (db w) "contributions") with
  | Some d =>
      fst r = contributionUpdated oid
      /\ List.find (matches E (byID oid)) (coll (db (snd r)) "contributions")
         = Some (update ∪ d)
      /\ (forall old, Contribution.decode d = Some old ->
            Contribution.decode (update ∪ d)
            = Some (patchedContribution (clock w) input old))
  | None =>
      fst r = notFound "contribution not found" /\ db (snd r) = db w
  end.
Proof.
  intros update Hid Hnb Hfault r.
  pose proof (stageContribution_not_blank (clock w) input Hnb) as Hsize.
  assert (r = match UpdateOne E "contributions" (byID oid) update w with
              | (inr (Some matched), w') =>
                  if matched =? 0 then (notFound "contribution not found", w')
                  else (contributionUpdated oid, w')
              | (inr None, w') =>
                  (Responded (mkResponse 500 []
                     (ErrorBody "failed to update contribution")), w')
              | (inl e, w') => (e, w')
              end) as ->.
  { subst r. unfold serve, UpdateContribution, bind. rewrite Hid. cbn.
    rewrite (proj2 (Nat.eqb_neq _ _) Hsize). cbn. fold update.
    destruct (UpdateOne E "contributions" (byID oid) update w) as [[e|[m|]] w'];
      cbn; [reflexivity | | reflexivity].
    destruct (m =? 0); reflexivity. }
  destruct (List.find _ _) as [d|] eqn:Hfind.
  - destruct (update_first_find (matches E (byID oid)) (fun d => update ∪ d) _ _ Hfind)
      as (l' & Hup & Hl').
    { apply matches_byID. rewrite lookup_union_r.
      - apply (proj1 (matches_byID E _ _)). exact (proj2 (find_some _ _ Hfind)).
      - unfold update, stageContribution. staged_lookup. }
    destruct (UpdateOne_cases E "contributions" (byID oid) update w)
      as [(Hf & _) | [(_ & Hnone & _) | (l'' & _ & Hsome & ->)]];
      [congruence | congruence |].
    rewrite Hup in Hsome. injection Hsome as <-. cbn.
    split; [reflexivity|]. split; [by rewrite coll_insert|].
    intros old Hold. by apply patched_decode.
  - destruct (UpdateOne_cases E "contributions" (byID oid) update w)
      as [(Hf & _) | [(_ & Hnone & ->) | (l'' & _ & Hsome & _)]];
      [congruence | | ].
    + cbn. split; reflexivity.
    + exfalso. clear -Hfind Hsome.
      revert l'' Hsome. induction (coll (db w) "contributions") as [|x l IH];
        intros l'' Hsome; [discriminate|].
      cbn in Hfind, Hsome. destruct (matches E (byID oid) x); [discriminate|].
      destruct (update_first _ _ l) as [l0|]; [|discriminate]. by eapply IH.
Qed.

Module pledges.

(** A body that also names an identifier, a status and times. *)
Definition confirmed_gift : Contribution.t :=
  Contribution.mk (demo.oid_of 7) fixtures.e1 "Ann" "" (f64.of_Z 100) "KES" "MPESA"
    "" "CONFIRMED" "" 5 5.

Definition on_ben : Context := demo.context "" "" (Hex (demo.oid_of 66)).

End pledges.

Lemma CreateContribution_stores_witness :
  let r := serve (CreateContribution demo.env fixtures.alice_on_e1
                    (Ok pledges.confirmed_gift)) (demo.world fixtures.events) in
  fst r = contributionCreated (demo.oid_of 128)
  /\ Contribution.decode <$> coll (db (snd r)) "contributions"
     = [Some (created (demo.oid_of 128) 1700000000000 pledges.confirmed_gift)].
Proof.
  edestruct (CreateContribution_stores demo.env fixtures.alice_on_e1
               (demo.world fixtures.events) pledges.confirmed_gift)
    as (Hr & Hcoll & Hdec & _).
  - reflexivity.
  - vm_compute. reflexivity.
  - vm_compute. reflexivity.
  - reflexivity.
  - split; [reflexivity | apply Forall_nil_2].
  - cbv zeta. split; [exact Hr|]. rewrite Hcoll. cbn [fmap list_fmap app].
    change (coll (db (demo.world fixtures.events)) "contributions") with (@nil Doc).
    cbn [fmap list_fmap app]. by rewrite Hdec.
Defined.

Lemma UpdateContribution_patches_witness :
  let r := serve (UpdateContribution demo.env pledges.on_ben (Ok minus_five_update))
                 (demo.world ledger.store) in
  fst r = contributionUpdated (demo.oid_of 66)
  /\ (List.find (matches demo.env (byID (demo.oid_of 66)))
        (coll (db (snd r)) "contributions") ≫= Contribution.decode)
     = Some (Contribution.mk (demo.oid_of 66) fixtures.e1 "Ann" "" (f64.of_Z 250)
               "KES" "MPESA" "" "PENDING" "" 1600000000000 1700000000000).
Proof.
  pose proof (UpdateContribution_patches demo.env pledges.on_ben
                (demo.world ledger.store) minus_five_update (demo.oid_of 66)) as Hthm.
  cbv zeta in Hthm.
  assert (List.find (matches demo.env (byID (demo.oid_of 66)))
            (coll (db (demo.world ledger.store)) "contributions")
          = Some (ledger.contribution_doc (demo.oid_of 66) fixtures.e1 "Ben" 250
                    1670000000000)) as Hfind by (vm_compute; reflexivity).
  rewrite Hfind in Hthm.
  destruct Hthm as (Hr & Hstored & Hdec);
    [reflexivity | intros (Hname & _); discriminate Hname | reflexivity |].
  cbv zeta. split; [exact Hr|]. rewrite Hstored. cbn [mbind option_bind].
  rewrite (Hdec (ledger.decoded (demo.oid_of 66) "Ben" 250 1670000000000))
    by (vm_compute; reflexivity).
  reflexivity.
Defined.

(** ** The other handlers of contributions and events *)

(** The answer of a handler that ends with [c.JSON(status, value)] on a
    value of the data model: the handler returns it, the error answers
    and the bare statuses being exits as before. *)
Record Reply (A : Type) := mkReply {
  reply_status : Z;
  reply_headers : list (string * string);
  reply_value : A
}.
Arguments mkReply {A}.
Arguments reply_status {A}.
Arguments reply_headers {A}.
Arguments reply_value {A}.

Section More.

Variable E : Collaborators.

Definition GetContribution (c : Context) : H (Reply Contribution.t) :=
  oid <- unwrap (ObjectIDFromHex (Param_id c))
           (JSON [] http.StatusBadRequest (ErrorBody "invalid contribution id"));;
  found <- FindOne E "contributions" ({[ "_id" := BObjectID oid ]} : Doc);;
  contribution <- unwrap (found ≫= Contribution.decode)
                    (JSON [] http.StatusNotFound (ErrorBody "contribution not found"));;
  let etag := GenerateETag E (Contribution.ID contribution)
                (Contribution.UpdatedAt contribution) in
  if etagMatches c etag then Status http.StatusNotModified
  else ret (mkReply http.StatusOK [("ETag", etag)] contribution).

Definition DeleteContribution (c : Context) : H unit :=
  oid <- unwrap (ObjectIDFromHex (Param_id c))
           (JSON [] http.StatusBadRequest (ErrorBody "invalid contribution id"));;
  res <- DeleteOne E "contributions" ({[ "_id" := BObjectID oid ]} : Doc);;
  deleted <- unwrap res
               (JSON [] http.StatusInternalServerError
                     (ErrorBody "failed to delete contribution"));;
  _ <- when (deleted =? 0)
         (JSON [] http.StatusNotFound (ErrorBody "contribution not found"));;
  JSON [] http.StatusOK (MessageID "contribution deleted" (Hex oid)).

Definition GetEvent (c : Context) : H (Reply Event.t) :=
  userID <- unwrap (ObjectIDFromHex (user_id c))
              (JSON [] http.StatusUnauthorized (ErrorBody "invalid user id"));;
  eventID <- unwrap (ObjectIDFromHex (Param_id c))
               (JSON [] http.StatusBadRequest (ErrorBody "invalid event id"));;
  found <- FindOne E "events"
             (<["_id" := BObjectID eventID]> {[ "user_id" := BObjectID userID ]} : Doc);;
  event <- unwrap (found ≫= Event.decode)
             (JSON [] http.StatusNotFound (ErrorBody "event not found or not owned"));;
  let etag := GenerateETag E (Event.ID event) (Event.UpdatedAt event) in
  if etagMatches c etag then Status http.StatusNotModified
  else ret (mkReply http.StatusOK [("ETag", etag)] event).

End More.

(** *** Deleting a contribution *)

Definition contributionDeleted (oid : ObjectID) : Exit :=
  Responded (mkResponse 200 [] (MessageID "contribution deleted" (Hex oid))).

Lemma find_remove_first (p : Doc -> bool) l x :
  List.find p l = Some x ->
  exists l1 l2, l = l1 ++ x :: l2 /\ remove_first p l = Some (l1 ++ l2)
                /\ List.find p l1 = None.
Proof.
  induction l as [|y l IH]; [discriminate|]. cbn. destruct (p y) eqn:Hpy.
  - intros [= ->]. by exists [], l.
  - intros Hfind. destruct (IH Hfind) as (l1 & l2 & -> & -> & Hl1).
    exists (y :: l1), l2. cbn. by rewrite Hpy.
Qed.

Lemma find_remove_first_None (p : Doc -> bool) l :
  List.find p l = None -> remove_first p l = None.
Proof.
  induction l as [|y l IH]; [done|]. cbn. destruct (p y); [discriminate|].
  intros Hfind. by rewrite IH.
Qed.

(** With unique identifiers, the document taken out was the only one
    of its identifier. *)
Lemma find_byID_removed E oid (l1 l2 : list Doc) x :
  NoDup (docID <$> l1 ++ x :: l2) ->
  matches E (byID oid) x = true ->
  List.find (matches E (byID oid)) (l1 ++ l2) = None.
Proof.
  intros Hnd Hx. apply matches_byID in Hx.
  destruct (List.find _ _) as [y|] eqn:Hfind; [exfalso | done].
  destruct (find_some _ _ Hfind) as [Hin Hy]. apply matches_byID in Hy.
  rewrite fmap_app, fmap_cons in Hnd.
  apply NoDup_app in Hnd as (_ & H12 & H2). apply NoDup_cons in H2 as [Hx2 _].
  assert (docID y = docID x) as Hsame by (unfold docID; congruence).
  apply in_app_or in Hin as [Hin | Hin]; apply list_elem_of_In in Hin.
  - apply (H12 (docID y)); [by apply list_elem_of_fmap_2|]. rewrite Hsame. by left.
  - apply Hx2. rewrite <- Hsame. by apply list_elem_of_fmap_2.
Qed.

Section Delete.

Variables (E : Collaborators) (c : Context) (oid : ObjectID).
Hypothesis Hid : ObjectIDFromHex (Param_id c) = Some oid.

Lemma DeleteContribution_run w :
  fault E (length (log w)) (CallDeleteOne "contributions" (byID oid)) = false ->
  serve (DeleteContribution E c) w
  = match remove_first (matches E (byID oid)) (coll (db w) "contributions") with
    | Some l' =>
        (contributionDeleted oid,
         with_db (<["contributions" := l']> (db w))
           (logged (CallDeleteOne "contributions" (byID oid)) w))
    | None =>
        (notFound "contribution not found",
         logged (CallDeleteOne "contributions" (byID oid)) w)
    end.
Proof.
  intros Hok. unfold serve, DeleteContribution, bind. rewrite Hid. cbn.
  rewrite DeleteOne_run by exact Hok.
  by destruct (remove_first _ _).
Qed.

End Delete.

(** Deleting a contribution, when the store call goes through: an
    existing contribution is answered 200 and its document, the first
    of that identifier, is taken out, the other documents and the
    other collections staying as they are; a missing one is answered
    404 and nothing changes. When identifiers are unique, a second
    deletion of the same contribution is answered 404. No identity is
    asked of the caller. *)
Theorem DeleteContribution_removes (E : Collaborators) (c : Context) (w : World)
    (oid : ObjectID) :
  ObjectIDFromHex (Param_id c) = Some oid ->
  (forall n, fault E n (CallDeleteOne "contributions" (byID oid)) = false) ->
  let r := serve (DeleteContribution E c) w in
  match List.find (matches E (byID oid)) (coll (db w) "contributions") with
  | Some x =>
      fst r = contributionDeleted oid
      /\ (exists l1 l2,
            coll (db w) "contributions" = l1 ++ x :: l2
            /\ coll (db (snd r)) "contributions" = l1 ++ l2)
      /\ (forall col, col <> "contributions" ->
            coll (db (snd r)) col = coll (db w) col)
      /\ (NoDup (docID <$> coll (db w) "contributions") ->
            serve (DeleteContribution E c) (snd r)
            = (notFound "contribution not found",
               logged (CallDeleteOne "contributions" (byID oid)) (snd r)))
  | None =>
      fst r = notFound "contribution not found" /\ db (snd r) = db w
  end.
Proof.
  intros Hid Hok r. subst r.
  rewrite (DeleteContribution_run E c oid Hid w (Hok _)).
  destruct (List.find _ _) as [x|] eqn:Hfind.
  - destruct (find_remove_first _ _ _ Hfind) as (l1 & l2 & Hl & Hrm & _).
    rewrite Hrm. cbn. split; [reflexivity|]. split; [|split].
    + exists l1, l2. split; [exact Hl | apply coll_insert].
    + intros col Hne. by apply coll_insert_ne.
    + intros Hnd. rewrite (DeleteContribution_run E c oid Hid _ (Hok _)). cbn.
      rewrite coll_insert, find_remove_first_None; [reflexivity|].
      rewrite Hl in Hnd. apply (find_byID_removed E oid l1 l2 x Hnd).
      exact (proj2 (find_some _ _ Hfind)).
  - rewrite (find_remove_first_None _ _ Hfind). cbn. split; reflexivity.
Qed.

Lemma DeleteContribution_removes_witness :
  let r := serve (DeleteContribution demo.env pledges.on_ben) (demo.world ledger.store) in
  fst r = contributionDeleted (demo.oid_of 66)
  /\ fst (serve (DeleteContribution demo.env pledges.on_ben) (snd r))
     = notFound "contribution not found".
Proof.
  pose proof (DeleteContribution_removes demo.env pledges.on_ben
                (demo.world ledger.store) (demo.oid_of 66)) as Hthm.
  cbv zeta in Hthm.
  assert (List.find (matches demo.env (byID (demo.oid_of 66)))
            (coll (db (demo.world ledger.store)) "contributions")
          = Some (ledger.contribution_doc (demo.oid_of 66) fixtures.e1 "Ben" 250
                    1670000000000)) as Hfind by (vm_compute; reflexivity).
  rewrite Hfind in Hthm.
  destruct Hthm as (Hr & _ & _ & Hagain); [reflexivity | reflexivity |].
  cbv zeta. split; [exact Hr|]. rewrite Hagain; [reflexivity|].
  change (coll (db (demo.world ledger.store)) "contributions")
    with [ledger.contribution_doc (demo.oid_of 65) fixtures.e1 "Ann" 100 1650000000000;
          ledger.contribution_doc (demo.oid_of 66) fixtures.e1 "Ben" 250 1670000000000;
          ledger.contribution_doc (demo.oid_of 67) fixtures.e1 "Cyd" 75 1660000000000].
  unfold docID, ledger.contribution_doc. cbn [fmap list_fmap].
  rewrite !lookup_insert_eq.
  repeat (apply NoDup_cons; split;
          [ rewrite ?not_elem_of_cons; repeat split; try apply not_elem_of_nil;
            intros Heq; vm_compute in Heq; discriminate Heq | ]).
  apply NoDup_nil_2.
Defined.

(** *** Reading a contribution *)

Lemma find_byID_appended E id (l : list Doc) doc :
  Forall (fun d : Doc => d !! "_id" <> Some (BObjectID id)) l ->
  doc !! "_id" = Some (BObjectID id) ->
  List.find (matches E (byID id)) (l ++ [doc]) = Some doc.
Proof.
  intros Hfresh Hdoc. rewrite find_app_miss.
  - cbn. by rewrite (proj2 (matches_byID E id doc) Hdoc).
  - destruct (List.find _ l) as [y|] eqn:Hfind; [exfalso | done].
    destruct (find_some _ _ Hfind) as [Hin Hy]. apply matches_byID in Hy.
    rewrite Forall_forall in Hfresh.
    by apply (Hfresh y); [apply list_elem_of_In|].
Qed.

(** What [GetContribution] answers for a contribution that it finds. *)
Definition shownContribution (E : Collaborators) (c : Context)
    (contribution : Contribution.t) : Exit + Reply Contribution.t :=
  let etag := GenerateETag E (Contribution.ID contribution)
                (Contribution.UpdatedAt contribution) in
  if etagMatches c etag then inl (Responded (mkResponse 304 [] NoBody))
  else inr (mkReply 200 [("ETag", etag)] contribution).

Lemma GetContribution_run E c w oid :
  ObjectIDFromHex (Param_id c) = Some oid ->
  GetContribution E c w
  = (match findOneResult E "contributions" (byID oid) w ≫= Contribution.decode with
     | Some contribution => shownContribution E c contribution
     | None => inl (notFound "contribution not found")
     end,
     logged (CallFindOne "contributions" (byID oid)) w).
Proof.
  intros Hid. unfold GetContribution, bind. rewrite Hid. cbn.
  rewrite FindOne_run.
  destruct (findOneResult _ _ _ _ ≫= Contribution.decode) as [contribution|];
    cbn; [|reflexivity].
  unfold shownContribution. by destruct (etagMatches _ _).
Qed.

(** A contribution that has been created is read back under the
    identifier of the answer: [GetContribution] answers with the
    contribution as it was stored and its entity tag, or with 304 when
    the request carries that tag. *)
Theorem created_contribution_is_read_back (E : Collaborators) (c c' : Context)
    (w : World) (input : Contribution.t) (event : Event.t) :
  let id := objectIDs E (issued w) in
  let doc := Contribution.encode (created id (clock w) input) in
  IsZero (Contribution.EventID input) = false ->
  findOneResult E "events" (byID (Contribution.EventID input)) w ≫= Event.decode
    = Some event ->
  f64.le (Contribution.Amount input) f64.zero = false ->
  fault E (S (length (log w))) (CallInsertOne "contributions" doc) = false ->
  freshID id (coll (db w) "contributions") ->
  ObjectIDFromHex (Param_id c') = Some id ->
  fault E (S (S (length (log w)))) (CallFindOne "contributions" (byID id)) = false ->
  let r := serve (CreateContribution E c (Ok input)) w in
  fst r = contributionCreated id
  /\ fst (GetContribution E c' (snd r))
     = shownContribution E c' (created id (clock w) input).
Proof.
  intros id doc Hev Hfound Hamount Hins Hfresh Hid Hread r. subst r.
  rewrite (CreateContribution_run E c w input event Hev Hfound Hamount Hins Hfresh).
  cbn [fst snd]. split; [reflexivity|].
  rewrite (GetContribution_run E c' _ id Hid). cbn [fst].
  unfold findOneResult, afterCreate. cbn [log with_db with_log logged with_issued db].
  rewrite !length_app. cbn [length].
  replace (length (log w) + 1 + 1)%nat with (S (S (length (log w)))) by lia.
  rewrite Hread, coll_insert.
  destruct Hfresh as [Hnz Hfresh]. fold id.
  rewrite (find_byID_appended E id _ _ Hfresh
             (Contribution_encode_id (created id (clock w) input) Hnz)).
  cbn [mbind option_bind]. by rewrite Contribution_decode_encode.
Qed.

Lemma created_contribution_witness :
  let r := serve (CreateContribution demo.env fixtures.alice_on_e1
                    (Ok pledges.confirmed_gift)) (demo.world fixtures.events) in
  fst (GetContribution demo.env (demo.context "" "" (Hex (demo.oid_of 128))) (snd r))
  = inr (mkReply 200
           [("ETag", GenerateETag demo.env (demo.oid_of 128) 1700000000000)]
           (created (demo.oid_of 128) 1700000000000 pledges.confirmed_gift)).
Proof.
  edestruct (created_contribution_is_read_back demo.env fixtures.alice_on_e1
               (demo.context "" "" (Hex (demo.oid_of 128)))
               (demo.world fixtures.events) pledges.confirmed_gift)
    as (_ & Hget).
  - reflexivity.
  - vm_compute. reflexivity.
  - vm_compute. reflexivity.
  - reflexivity.
  - split; [reflexivity | apply Forall_nil_2].
  - reflexivity.
  - reflexivity.
  - cbv zeta. rewrite Hget. reflexivity.
Defined.

(** ** Whose events are shown *)

Lemma matches_lookup E (filter d : Doc) k v :
  matches E filter d = true -> filter !! k = Some v -> crit E k v d = true.
Proof.
  unfold matches. rewrite bool_decide_eq_true. intros Hall Hk.
  exact (map_Forall_lookup_1 _ _ _ _ Hall Hk).
Qed.

Lemma decode_oid_stored (d : Doc) k o :
  d !! k = Some (BObjectID o) -> decode.oid d k = Some o.
Proof. intros Hk. unfold decode.oid. by rewrite Hk. Qed.

Lemma Event_decode_ids d e :
  Event.decode d = Some e ->
  decode.oid d "_id" = Some (Event.ID e) /\ decode.oid d "user_id" = Some (Event.UserID e).
Proof.
  unfold Event.decode. intros Hdec.
  destruct (decode.oid d "_id"); [|discriminate].
  destruct (decode.oid d "user_id"); [|discriminate]. cbn in Hdec.
  repeat match type of Hdec with
         | context [?x ≫= _] => destruct x; [cbn in Hdec | discriminate]
         end.
  injection Hdec as <-. by split.
Qed.

Lemma eventsFilter_owner E c userID d e :
  matches E (eventsFilter c userID) d = true ->
  Event.decode d = Some e -> Event.UserID e = userID.
Proof.
  intros Hm Hdec.
  assert (eventsFilter c userID !! "user_id" = Some (BObjectID userID)) as Hk.
  { unfold eventsFilter. rewrite lookup_put_if_ne by done. apply lookup_singleton_eq. }
  pose proof (proj1 (crit_oid E _ _ _) (matches_lookup E _ _ _ _ Hm Hk)) as Hd.
  destruct (Event_decode_ids d e Hdec) as [_ Hu].
  rewrite (decode_oid_stored _ _ _ Hd) in Hu. congruence.
Qed.

Lemma fetchEvents_owned E c w l w' :
  fetchEvents E c w = (inr l, w') ->
  Forall (fun e => ObjectIDFromHex (user_id c) = Some (Event.UserID e)) l.
Proof.
  unfold fetchEvents, bind.
  destruct (ObjectIDFromHex (user_id c)) as [userID|]; cbn; [|discriminate].
  unfold Find, CursorAll, bind, call, get_world, ret. cbn.
  destruct (fault E _ _); cbn; [discriminate|].
  destruct (fault E _ _); cbn; [discriminate|].
  destruct (mapM _ _) as [l0|] eqn:Hall; cbn; [|discriminate].
  intros [= -> _].
  pose proof (filter_matching (matches E (eventsFilter c userID))
                (coll (db w) "events")) as Hdocs.
  apply mapM_decoded in Hall.
  induction Hall as [|d e docs es Hd _ IH]; [constructor|].
  apply Forall_cons in Hdocs as [[_ Hm] Hdocs].
  constructor; [|by apply IH].
  f_equal. symmetry. by eapply eventsFilter_owner.
Qed.

Lemma ListEvents_owned E c w hdrs l w' :
  serve (ListEvents E c) w = (Responded (mkResponse 200 hdrs (EventList l)), w') ->
  Forall (fun e => ObjectIDFromHex (user_id c) = Some (Event.UserID e)) l.
Proof.
  unfold serve, ListEvents, bind.
  destruct (fetchEvents E c w) as [[e|events] w1] eqn:Hfetch; cbn.
  - unfold fetchEvents, bind in Hfetch.
    destruct (ObjectIDFromHex (user_id c)); cbn in Hfetch;
      [|injection Hfetch as <- _; discriminate].
    unfold Find, CursorAll, bind, call, get_world, ret in Hfetch. cbn in Hfetch.
    destruct (fault E _ _); cbn in Hfetch; [injection Hfetch as <- _; discriminate|].
    destruct (fault E _ _); cbn in Hfetch; [injection Hfetch as <- _; discriminate|].
    destruct (mapM _ _); cbn in Hfetch; [discriminate|].
    injection Hfetch as <- _. discriminate.
  - pose proof (fetchEvents_owned _ _ _ _ _ Hfetch) as Howned.
    destruct events as [|first rest]; cbn.
    + intros [= _ <- _]. constructor.
    + destruct (etagMatches _ _); cbn; [discriminate|].
      intros [= _ <- _]. exact Howned.
Qed.

Lemma GetEvent_owned E c w reply w' :
  GetEvent E c w = (inr reply, w') ->
  ObjectIDFromHex (user_id c) = Some (Event.UserID (reply_value reply))
  /\ ObjectIDFromHex (Param_id c) = Some (Event.ID (reply_value reply)).
Proof.
  unfold GetEvent, bind.
  destruct (ObjectIDFromHex (user_id c)) as [userID|]; cbn; [|discriminate].
  destruct (ObjectIDFromHex (Param_id c)) as [eventID|]; cbn; [|discriminate].
  rewrite FindOne_run.
  destruct (findOneResult _ _ _ _) as [d|] eqn:Hfound; cbn; [|discriminate].
  destruct (Event.decode d) as [e|] eqn:Hdec; cbn; [|discriminate].
  destruct (etagMatches _ _); cbn; [discriminate|].
  intros [= <- _]. cbn.
  apply findOneResult_Some, find_some in Hfound as [_ Hm].
  destruct (Event_decode_ids d e Hdec) as [Hi Hu].
  assert (d !! "_id" = Some (BObjectID eventID)) as Hd1.
  { apply (crit_oid E). apply (matches_lookup E _ _ _ _ Hm). apply lookup_insert_eq. }
  assert (d !! "user_id" = Some (BObjectID userID)) as Hd2.
  { apply (crit_oid E). apply (matches_lookup E _ _ _ _ Hm).
    rewrite lookup_insert_ne by done. apply lookup_singleton_eq. }
  rewrite (decode_oid_stored _ _ _ Hd1) in Hi.
  rewrite (decode_oid_stored _ _ _ Hd2) in Hu. split; congruence.
Qed.

(** The events a caller is shown are the caller's own, whatever the
    store holds and whatever the role: every event of a list answered
    by [ListEvents] has the caller as owner, and so has the event
    answered by [GetEvent], which is moreover the event asked for. *)
Theorem events_shown_are_the_callers (E : Collaborators) (c : Context) (w : World) :
  (forall hdrs l w',
     serve (ListEvents E c) w = (Responded (mkResponse 200 hdrs (EventList l)), w') ->
     Forall (fun e => ObjectIDFromHex (user_id c) = Some (Event.UserID e)) l)
  /\ (forall reply w',
     GetEvent E c w = (inr reply, w') ->
     ObjectIDFromHex (user_id c) = Some (Event.UserID (reply_value reply))
     /\ ObjectIDFromHex (Param_id c) = Some (Event.ID (reply_value reply))).
Proof.
  split.
  - intros hdrs l w' Hrun. exact (ListEvents_owned E c w hdrs l w' Hrun).
  - intros reply w' Hrun. exact (GetEvent_owned E c w reply w' Hrun).
Qed.

Module calendar.

(** Alice's event and one of Bob's. *)
Definition store : Store :=
  {[ "events" :=
       [fixtures.event_doc fixtures.e1 demo.alice "Roof repair" ["A"; "B"] 1650000000000;
        fixtures.event_doc (demo.oid_of 18) demo.bob "Well" [] 1660000000000] ]}.

End calendar.

Lemma events_shown_witness :
  Forall (fun e => ObjectIDFromHex (Hex demo.alice) = Some (Event.UserID e))
    [ledger.event]
  /\ ObjectIDFromHex (Hex fixtures.e1) = Some (Event.ID ledger.event).
Proof.
  destruct (events_shown_are_the_callers demo.env fixtures.alice_on_e1
              (demo.world calendar.store)) as [Hlist Hget].
  split.
  - eapply Hlist. vm_compute. reflexivity.
  - eapply (Hget (mkReply 200 _ ledger.event)). vm_compute. reflexivity.
Defined.

(** Bob's event is not shown to Alice, be she an administrator. *)
Example event_of_another_not_shown :
  fst (GetEvent demo.env (demo.context (Hex demo.alice) "admin" (Hex (demo.oid_of 18)))
         (demo.world calendar.store))
  = inl (notFound "event not found or not owned").
Proof. vm_compute. reflexivity. Qed.

(** ** What a list holds *)

Lemma bson_eqb_string s x : bson_eqb (BString s) x = true <-> x = BString s.
Proof.
  destruct x; simpl; try (split; [discriminate | congruence]).
  rewrite String.eqb_eq. split; congruence.
Qed.

Lemma crit_string E k s d :
  crit E k (BString s) d = true <-> d !! k = Some (BString s).
Proof.
  unfold crit. destruct (d !! k) as [x|]; [|split; discriminate].
  rewrite bson_eqb_string. split; congruence.
Qed.

(** What the query of [ListContributions] asks of a document: the event
    of [event_id], when this is a well-formed identifier, and the status
    of [status], when there is one. *)
Definition askedContribution (c : Context) (d : Doc) : Prop :=
  (forall oid, ObjectIDFromHex (Query c "event_id") = Some oid ->
     d !! "event_id" = Some (BObjectID oid))
  /\ (Query c "status" <> "" -> d !! "status" = Some (BString (Query c "status"))).

Lemma ObjectIDFromHex_empty : ObjectIDFromHex "" = None.
Proof. reflexivity. Qed.

Lemma nonempty_true s : nonempty s = true <-> s <> "".
Proof.
  unfold nonempty. destruct (String.eqb_spec s ""); split; try done.
Qed.

Lemma contributionsFilter_asks E c d :
  matches E (contributionsFilter c) d = true <-> askedContribution c d.
Proof.
  unfold matches, contributionsFilter, askedContribution, put_if.
  rewrite bool_decide_eq_true.
  destruct (nonempty (Query c "status")) eqn:Hs;
    [apply nonempty_true in Hs | apply nonempty_false in Hs].
  - destruct (nonempty (Query c "event_id")) eqn:He;
      [|apply nonempty_false in He; rewrite He, ObjectIDFromHex_empty].
    + destruct (ObjectIDFromHex (Query c "event_id")) as [oid|].
      * rewrite map_Forall_insert by (by rewrite lookup_insert_ne).
        rewrite map_Forall_insert by done.
        rewrite crit_string, crit_oid. split.
        -- intros (H1 & H2 & _). split; [by intros ? [= <-] | done].
        -- intros [H1 H2]. split; [by apply H2|]. split; [by apply H1|].
           apply map_Forall_empty.
      * rewrite map_Forall_insert by done. rewrite crit_string. split.
        -- intros (H1 & _). split; [done | done].
        -- intros [_ H2]. split; [by apply H2 | apply map_Forall_empty].
    + rewrite map_Forall_insert by done. rewrite crit_string. split.
      * intros (H1 & _). split; [done | done].
      * intros [_ H2]. split; [by apply H2 | apply map_Forall_empty].
  - rewrite Hs.
    destruct (nonempty (Query c "event_id")) eqn:He;
      [|apply nonempty_false in He; rewrite He, ObjectIDFromHex_empty].
    + destruct (ObjectIDFromHex (Query c "event_id")) as [oid|].
      * rewrite map_Forall_insert by done. rewrite crit_oid. split.
        -- intros (H1 & _). split; [by intros ? [= <-] | done].
        -- intros [H1 _]. split; [by apply H1 | apply map_Forall_empty].
      * split; [intros _; split; done | intros _; apply map_Forall_empty].
    + split; [intros _; split; done | intros _; apply map_Forall_empty].
Qed.

Lemma fetchContributions_cases E c w r w' :
  fetchContributions E c w = (r, w') ->
  match r with
  | inr l =>
      mapM Contribution.decode
        (List.filter (matches E (contributionsFilter c)) (coll (db w) "contributions"))
      = Some l
  | inl e => exists msg, e = Responded (mkResponse 500 [] (ErrorBody msg))
  end.
Proof.
  unfold fetchContributions, bind, Find, CursorAll, call, get_world, ret. cbn.
  destruct (fault E _ _); cbn; [intros [= <- _]; by eexists|].
  destruct (fault E _ _); cbn; [intros [= <- _]; by eexists|].
  destruct (mapM _ _) as [l0|]; cbn; [by intros [= <- _] | intros [= <- _]; by eexists].
Qed.

(** The contributions of a list answered by [ListContributions] are the
    stored ones that the query asks for, each read from its document,
    in the order of the store. An [event_id] that is not a well-formed
    identifier asks nothing: it does not restrict the list. *)
Theorem ListContributions_lists_what_is_asked (E : Collaborators) (c : Context)
    (w : World) :
  (forall d, matches E (contributionsFilter c) d = true <-> askedContribution c d)
  /\ (ObjectIDFromHex (Query c "event_id") = None -> Query c "status" = "" ->
        forall d, matches E (contributionsFilter c) d = true)
  /\ (forall hdrs l w',
        serve (ListContributions E c) w
        = (Responded (mkResponse 200 hdrs (ContributionList l)), w') ->
        mapM Contribution.decode
          (List.filter (matches E (contributionsFilter c))
             (coll (db w) "contributions"))
        = Some l).
Proof.
  split; [|split].
  - intros d. apply contributionsFilter_asks.
  - intros Hev Hst d. apply contributionsFilter_asks. split.
    + intros oid Hoid. congruence.
    + intros Hne. by destruct Hne.
  - intros hdrs l w'. unfold serve, ListContributions, bind.
    destruct (fetchContributions E c w) as [[e|l0] w1] eqn:Hfetch;
      apply fetchContributions_cases in Hfetch.
    + destruct Hfetch as (msg & ->). discriminate.
    + destruct l0 as [|first rest]; cbn.
      * by intros [= _ <- _].
      * destruct (etagMatches _ _); cbn; [discriminate|]. by intros [= _ <- _].
Qed.

Module queries.

Definition asking (event_id status_ : string) : Context := {|
  user_id := ""; role := ""; Param_id := "";
  Query := fun k => if String.eqb k "event_id" then event_id
                    else if String.eqb k "status" then status_ else "";
  GetHeader := fun _ => ""; MultipartForm := None
|}.

End queries.

Lemma ListContributions_lists_witness :
  mapM Contribution.decode
    (List.filter (matches demo.env (contributionsFilter (queries.asking "e1" "")))
       (coll ledger.store "contributions"))
  = Some ledger.rows
  /\ matches demo.env (contributionsFilter (queries.asking "e1" "")) ∅ = true.
Proof.
  destruct (ListContributions_lists_what_is_asked demo.env (queries.asking "e1" "")
              (demo.world ledger.store)) as (_ & Hall & Hlist).
  split.
  - eapply Hlist. vm_compute. reflexivity.
  - apply Hall; reflexivity.
Defined.

(** ** Reading handlers, on a given store

    [reading s P Q m]: from a world whose store is [s], [m] leaves the
    store as it is; if it ends the request, the exit satisfies [P]; if
    it goes on, its result satisfies [Q]. *)
Definition reading {A} (s : Store) (P : Exit -> Prop) (Q : A -> Prop) (m : H A)
  : Prop :=
  forall w r w', db w = s -> m w = (r, w') ->
    db w' = s /\ match r with inl e => P e | inr a => Q a end.

Section Reading.

Variables (E : Collaborators) (s : Store) (P : Exit -> Prop).

Lemma reading_ret {A} (Q : A -> Prop) a : Q a -> reading s P Q (ret a).
Proof. intros HQ w r w' Hw [= <- <-]. by split. Qed.

Lemma reading_exit {A} (Q : A -> Prop) e : P e -> reading s P Q (exit e).
Proof. intros HP w r w' Hw [= <- <-]. by split. Qed.

Lemma reading_bind {A B} (Q1 : A -> Prop) (Q : B -> Prop) (m : H A) (f : A -> H B) :
  reading s P Q1 m -> (forall a, Q1 a -> reading s P Q (f a)) ->
  reading s P Q (bind m f).
Proof.
  intros Hm Hf w r w' Hw Hrun. unfold bind in Hrun.
  destruct (m w) as [[e|a] w1] eqn:Hmw.
  - injection Hrun as <- <-. exact (Hm w (inl e) w1 Hw Hmw).
  - destruct (Hm w (inr a) w1 Hw Hmw) as [Hw1 Ha].
    exact (Hf a Ha w1 r w' Hw1 Hrun).
Qed.

Lemma reading_weaken {A} (Q Q' : A -> Prop) (m : H A) :
  (forall a, Q a -> Q' a) -> reading s P Q m -> reading s P Q' m.
Proof.
  intros HQ Hm w r w' Hw Hrun. destruct (Hm w r w' Hw Hrun) as [Hw' Hr].
  split; [exact Hw'|]. destruct r as [e|a]; [exact Hr | exact (HQ a Hr)].
Qed.

Lemma reading_unwrap {A} (o : option A) e :
  P e -> reading s P (fun a => o = Some a) (unwrap o (exit e)).
Proof.
  intros HP. destruct o; simpl; [by apply reading_ret | by apply reading_exit].
Qed.

Lemma reading_call c : reading s P (fun _ => True) (call E c).
Proof. intros w r w' Hw [= <- <-]. by split. Qed.

(** [FindOne] returns the first match, or nothing because the call
    failed. *)
Lemma reading_FindOne col filter :
  reading s P
    (fun o => o = List.find (matches E filter) (coll s col)
              \/ (o = None /\ exists k, fault E k (CallFindOne col filter) = true))
    (FindOne E col filter).
Proof.
  intros w r w' Hw Hrun. rewrite FindOne_run in Hrun. injection Hrun as <- <-.
  split; [exact Hw|]. unfold findOneResult.
  destruct (fault E _ _) eqn:Hf; [right; eauto | left; by rewrite Hw].
Qed.

Lemma reading_Find col filter :
  reading s P
    (fun o => o = None \/ o = Some (List.filter (matches E filter) (coll s col)))
    (Find E col filter).
Proof.
  intros w r w' Hw Hrun. unfold Find, bind, call, get_world, ret in Hrun.
  cbn in Hrun. injection Hrun as <- <-. split; [exact Hw|].
  destruct (fault E _ _); cbn; [by left | right; by rewrite Hw].
Qed.

Lemma reading_CursorAll {A} col (dec : Doc -> option A) docs :
  reading s P (fun o => o = None \/ o = mapM dec docs) (CursorAll E col dec docs).
Proof.
  intros w r w' Hw Hrun. unfold CursorAll, bind, call, ret in Hrun.
  cbn in Hrun. injection Hrun as <- <-. split; [exact Hw|].
  destruct (fault E _ _); cbn; auto.
Qed.

(** [CountDocuments] returns the number of matches, or nothing because
    the call failed. *)
Lemma reading_CountDocuments col filter :
  reading s P
    (fun o => o = Some (Z.of_nat (length (List.filter (matches E filter) (coll s col))))
              \/ (o = None
                  /\ exists k, fault E k (CallCountDocuments col filter) = true))
    (CountDocuments E col filter).
Proof.
  intros w r w' Hw Hrun. unfold CountDocuments, bind, call, get_world, ret in Hrun.
  cbn in Hrun. injection Hrun as <- <-. split; [exact Hw|].
  destruct (fault E _ _) eqn:Hf; cbn; [right; eauto | left; by rewrite Hw].
Qed.

Lemma reading_forEach {A B} (Q : A -> B -> Prop) (l : list A) (f : A -> H B) :
  (forall x, reading s P (Q x) (f x)) ->
  reading s P (fun ys => Forall2 Q l ys) (forEach l f).
Proof.
  intros Hf. induction l as [|x l IH]; cbn [forEach].
  - apply reading_ret. constructor.
  - eapply reading_bind; [apply Hf | intros y Hy].
    eapply reading_bind; [apply IH | intros ys Hys].
    apply reading_ret. by constructor.
Qed.

Lemma reading_serve (m : H unit) w e w' :
  reading s P (fun _ => P (Responded (mkResponse 200 [] NoBody))) m ->
  db w = s -> serve m w = (e, w') -> db w' = s /\ P e.
Proof.
  intros Hm Hw. unfold serve. destruct (m w) as [[e0|a] w0] eqn:Hmw; intros [= <- <-].
  - exact (Hm w (inl e0) w0 Hw Hmw).
  - exact (Hm w (inr a) w0 Hw Hmw).
Qed.

End Reading.

(** ** The favorite flag of the hub reads *)

Lemma favoriteFilter_commutes userID hubID :
  (<["hub_id" := BObjectID hubID]> {[ "user_id" := BObjectID userID ]} : Doc)
  = favoriteFilter userID hubID.
Proof.
  unfold favoriteFilter. rewrite <- !insert_empty. by apply insert_insert_ne.
Qed.

Lemma count_positive (p : Doc -> bool) l :
  (0 <? Z.of_nat (length (List.filter p l))) = existsb p l.
Proof.
  induction l as [|d l IH]; [reflexivity|]. cbn. destruct (p d); [|exact IH].
  cbn [length]. rewrite orb_true_l. apply Z.ltb_lt. lia.
Qed.

Lemma found_exists (p : Doc -> bool) l :
  match List.find p l with Some _ => true | None => false end = existsb p l.
Proof.
  induction l as [|d l IH]; [reflexivity|]. cbn. by destruct (p d).
Qed.

(** The flag [fav] shown to the user [user] for the hub [hubID]: it
    tells whether the store holds the favorite, unless the store call
    that looks for it failed, and then it is false. *)
Definition flagged (E : Collaborators) (s : Store) (user : option ObjectID)
    (hubID : ObjectID) (fav : bool) : Prop :=
  match user with
  | Some userID =>
      fav = favorited E userID hubID s
      \/ (fav = false
          /\ exists k call, fault E k call = true
               /\ (call = CallFindOne "favorites" (favoriteFilter userID hubID)
                   \/ call = CallCountDocuments "favorites"
                               (favoriteFilter userID hubID)))
  | None => fav = false
  end.

(** The caller of [GetHub], when the request names one. *)
Definition caller (c : Context) : option ObjectID :=
  if nonempty (user_id c) then ObjectIDFromHex (user_id c) else None.

Section Flags.

Variables (E : Collaborators) (s : Store).

Lemma reading_hubFavorite P user hubID :
  reading s P (flagged E s user hubID) (hubFavorite E user hubID).
Proof.
  unfold hubFavorite. destruct user as [userID|]; [|by apply reading_ret].
  rewrite favoriteFilter_commutes.
  eapply reading_bind; [apply reading_CountDocuments|].
  intros count [-> | [-> (k & Hk)]]; apply reading_ret; cbn.
  - left. apply count_positive.
  - right. split; [reflexivity|]. eexists k, _. split; [exact Hk | by right].
Qed.

(** The answers of [GetHub] that carry the right flag, or none. *)
Definition flagOK (c : Context) (e : Exit) : Prop :=
  forall hdrs hub reviews fav hubID,
    e = Responded (mkResponse 200 hdrs (HubDetail hub reviews fav)) ->
    ObjectIDFromHex (Param_id c) = Some hubID ->
    flagged E s (caller c) hubID fav.

Lemma flagOK_error c st hdrs msg :
  flagOK c (Responded (mkResponse st hdrs (ErrorBody msg))).
Proof. intros ? ? ? ? ? [=]. Qed.

Lemma flagOK_status c st : flagOK c (Responded (mkResponse st [] NoBody)).
Proof. intros ? ? ? ? ? [=]. Qed.

Lemma reading_eachReview_any P docs acc :
  reading s P (fun _ => True) (eachReview E docs acc).
Proof.
  revert acc. induction docs as [|d docs IH]; intros acc; cbn [eachReview].
  - by apply reading_ret.
  - eapply reading_bind; [apply reading_call | intros more _].
    destruct more; [|by apply reading_ret].
    destruct (Review.decode d); [|apply IH].
    eapply reading_bind; [apply reading_FindOne | intros found _]. apply IH.
Qed.

Lemma GetHub_flag c :
  reading s (flagOK c) (fun _ => flagOK c (Responded (mkResponse 200 [] NoBody)))
    (GetHub E c).
Proof.
  unfold GetHub, fetchHub.
  eapply reading_bind.
  { eapply reading_bind; [apply reading_unwrap, flagOK_error | intros hubID Hid].
    eapply reading_bind; [apply reading_FindOne | intros found _].
    eapply reading_bind; [apply reading_unwrap, flagOK_error | intros hub _].
    apply (reading_ret s _ (fun fetched => ObjectIDFromHex (Param_id c)
                                           = Some (fst fetched))).
    exact Hid. }
  intros [hubID hub] Hid. cbn [fst snd] in *.
  eapply reading_bind; [apply reading_Find | intros cursor _].
  eapply reading_bind; [apply reading_unwrap, flagOK_error | intros docs _].
  eapply reading_bind; [apply reading_eachReview_any | intros reviews _].
  eapply reading_bind; [apply reading_hubFavorite | intros fav Hfav].
  destruct (etagMatches _ _); apply reading_exit; [apply flagOK_status|].
  intros hdrs hub' reviews' fav' hubID' [= _ _ _ <-] Hid'.
  rewrite Hid in Hid'. injection Hid' as <-. exact Hfav.
Qed.

(** A hub as [ListHubs] lists it for the user. *)
Definition listedFor (userID : ObjectID) (h h' : Hub.t) : Prop :=
  Hub.ID h' = Hub.ID h
  /\ flagged E s (Some userID) (Hub.ID h) (Hub.IsFavorite h').

Lemma reading_enrichHub P userID hub :
  reading s P (listedFor userID hub) (enrichHub E userID hub).
Proof.
  unfold enrichHub, hubReviews.
  eapply reading_bind.
  { eapply reading_bind; [apply reading_Find | intros cursor _].
    destruct cursor as [docs|]; [|by apply (reading_ret s P (fun _ => True))].
    eapply reading_bind; [apply reading_CursorAll | intros all _].
    by apply (reading_ret s P (fun _ => True)). }
  intros reviews _.
  eapply reading_bind.
  { apply (reading_forEach s P (fun _ _ => True)). intros r. unfold enrichReview.
    eapply reading_bind; [apply reading_FindOne | intros found _].
    by apply reading_ret. }
  intros reviewResponses _.
  eapply reading_bind; [apply reading_FindOne|].
  intros fav Hfav. apply reading_ret. split; [reflexivity|]. cbn.
  fold (favoriteFilter userID (Hub.ID hub)) in Hfav.
  destruct Hfav as [-> | [-> (k & Hk)]].
  - left. apply found_exists.
  - right. split; [reflexivity|]. eexists k, _. split; [exact Hk | by left].
Qed.

End Flags.

Section FlagsOfLists.

Variables (E : Collaborators) (s : Store).

(** The answers of [ListHubs] whose hubs carry the right flag, or none. *)
Definition flagsOK (c : Context) (e : Exit) : Prop :=
  forall hdrs hubs userID,
    e = Responded (mkResponse 200 hdrs (HubList hubs)) ->
    ObjectIDFromHex (user_id c) = Some userID ->
    Forall (fun h => flagged E s (Some userID) (Hub.ID h) (Hub.IsFavorite h)) hubs.

Lemma flagsOK_error c st hdrs msg :
  flagsOK c (Responded (mkResponse st hdrs (ErrorBody msg))).
Proof. intros ? ? ? [=]. Qed.

Lemma ListHubs_flags c :
  reading s (flagsOK c) (fun _ => flagsOK c (Responded (mkResponse 200 [] NoBody)))
    (ListHubs E c).
Proof.
  unfold ListHubs, fetchHubs.
  eapply reading_bind; [apply reading_unwrap, flagsOK_error | intros userID Huser].
  eapply reading_bind.
  { eapply reading_bind; [apply reading_Find | intros cursor _].
    eapply reading_bind; [apply reading_unwrap, flagsOK_error | intros docs _].
    eapply reading_bind; [apply reading_CursorAll | intros all _].
    eapply reading_weaken; [|apply reading_unwrap, flagsOK_error].
    intros hubs _. exact I. }
  intros hubs _.
  eapply reading_bind; [apply reading_forEach, reading_enrichHub | intros hubs' Hall].
  apply reading_exit. intros hdrs hubs'' userID' [= _ <-] Huser'.
  rewrite Huser in Huser'. injection Huser' as <-.
  clear -Hall. induction Hall as [|h h' hubs hubs' [Hid Hflag] _ IH]; constructor.
  - by rewrite Hid.
  - exact IH.
Qed.

End FlagsOfLists.


Module lounge.

(** The forum, with the hub among Alice's favorites. *)
Definition store : Store :=
  <["favorites" := [Favorite.encode
                      (Favorite.mk (demo.oid_of 81) demo.alice fixtures.h1 1690000000000)]]>
    forum.store.

End lounge.



(** ** What a failed request leaves behind *)

Definition sameStore (w w' : World) : Prop := db w' = db w.

Lemma sameStore_same w w' : db w' = db w -> sameStore w w'.
Proof. done. Qed.

Lemma sameStore_refl w : sameStore w w.
Proof. reflexivity. Qed.

Lemma sameStore_trans w1 w2 w3 : sameStore w1 w2 -> sameStore w2 w3 -> sameStore w1 w3.
Proof. unfold sameStore. congruence. Qed.

Lemma sameStore_call c w : (fun _ : StoreCall => True) c -> sameStore w (logged c w).
Proof. reflexivity. Qed.

(** [keeps ok m]: [m] goes on only with the store as it was, and ends
    the request with another store only in a way that satisfies [ok]. *)
Definition keeps {A} (ok : Exit -> Prop) (m : H A) : Prop :=
  forall w r w', m w = (r, w') ->
    match r with
    | inl e => db w' = db w \/ ok e
    | inr _ => db w' = db w
    end.

(** [ends ok m]: [m] ends the request, in a way that satisfies [ok]. *)
Definition ends {A} (ok : Exit -> Prop) (m : H A) : Prop :=
  forall w r w', m w = (r, w') ->
    match r with inl e => ok e | inr _ => False end.

Section Keeps.

Variables (E : Collaborators) (ok : Exit -> Prop).

Lemma keeps_exit {A} e : keeps ok (@exit A e).
Proof. intros w r w' [= <- <-]. by left. Qed.

Lemma keeps_bind {A B} (Q : A -> Prop) (m : H A) (f : A -> H B) :
  triple sameStore any_exit Q m -> (forall a, Q a -> keeps ok (f a)) ->
  keeps ok (bind m f).
Proof.
  intros Hm Hf w r w' Hrun. unfold bind in Hrun.
  destruct (m w) as [[e|a] w1] eqn:Hmw.
  - injection Hrun as <- <-. left. exact (proj1 (Hm w _ w1 Hmw)).
  - destruct (Hm w _ w1 Hmw) as [Hw1 Ha]. unfold sameStore in Hw1.
    pose proof (Hf a Ha w1 r w' Hrun) as Hr. rewrite Hw1 in Hr. exact Hr.
Qed.

Lemma ends_exit {A} e : ok e -> ends ok (@exit A e).
Proof. intros He w r w' [= <- <-]. exact He. Qed.

Lemma ends_bind {A B} (m : H A) (f : A -> H B) :
  exits ok m -> (forall a, ends ok (f a)) -> ends ok (bind m f).
Proof.
  intros Hm Hf w r w' Hrun. unfold bind in Hrun.
  destruct (m w) as [[e|a] w1] eqn:Hmw.
  - injection Hrun as <- <-. exact (Hm w e w1 Hmw).
  - exact (Hf a w1 r w' Hrun).
Qed.

Lemma ends_ret_bind {A B} (a : A) (f : A -> H B) :
  ends ok (f a) -> ends ok (bind (ret a) f).
Proof. intros Hf w r w' Hrun. exact (Hf w r w' Hrun). Qed.

Lemma ends_keeps {A} (m : H A) : ends ok m -> keeps ok m.
Proof.
  intros Hm w r w' Hrun. pose proof (Hm w r w' Hrun) as Hr.
  destruct r; [by right | done].
Qed.

(** After an update: without a match or on a failure the store is as
    it was; otherwise what follows has to end well. *)
Lemma keeps_UpdateOne {B} col filter set (f : option Z -> H B) :
  keeps ok (f None) -> keeps ok (f (Some 0)) -> ends ok (f (Some 1)) ->
  keeps ok (bind (UpdateOne E col filter set) f).
Proof.
  intros Hnone Hzero Hone w r w' Hrun. unfold bind in Hrun.
  destruct (UpdateOne_cases E col filter set w)
    as [(_ & Heq) | [(_ & _ & Heq) | (l' & _ & _ & Heq)]]; rewrite Heq in Hrun.
  - exact (Hnone _ r w' Hrun).
  - exact (Hzero _ r w' Hrun).
  - pose proof (Hone _ r w' Hrun) as Hr. destruct r; [by right | done].
Qed.

Lemma keeps_DeleteOne {B} col filter (f : option Z -> H B) :
  keeps ok (f None) -> keeps ok (f (Some 0)) -> ends ok (f (Some 1)) ->
  keeps ok (bind (DeleteOne E col filter) f).
Proof.
  intros Hnone Hzero Hone w r w' Hrun. unfold bind in Hrun.
  unfold DeleteOne, bind, call, get_world, put_world, ret in Hrun. cbn in Hrun.
  destruct (fault E _ _); cbn in Hrun; [exact (Hnone _ r w' Hrun)|].
  destruct (remove_first _ _); cbn in Hrun.
  - pose proof (Hone _ r w' Hrun) as Hr. destruct r; [by right | done].
  - exact (Hzero _ r w' Hrun).
Qed.

Lemma keeps_InsertOne {B} col doc (f : bool -> H B) :
  keeps ok (f false) -> ends ok (f true) ->
  keeps ok (bind (InsertOne E col doc) f).
Proof.
  intros Hfalse Htrue w r w' Hrun. unfold bind in Hrun.
  unfold InsertOne, bind, call, get_world, put_world, ret in Hrun. cbn in Hrun.
  destruct (_ && _); cbn in Hrun.
  - pose proof (Htrue _ r w' Hrun) as Hr. destruct r; [by right | done].
  - exact (Hfalse _ r w' Hrun).
Qed.

Lemma keeps_serve (m : H unit) w :
  keeps ok m ->
  db (snd (serve m w)) = db w \/ ok (fst (serve m w)).
Proof.
  intros Hm. unfold serve. destruct (m w) as [[e|a] w'] eqn:Hmw; cbn.
  - exact (Hm w _ w' Hmw).
  - left. exact (Hm w _ w' Hmw).
Qed.

End Keeps.

Ltac same_prim :=
  first
    [ eapply (triple_when _ any_exit sameStore_refl); exact I
    | eapply (triple_unwrap _ any_exit sameStore_refl); exact I
    | eapply (triple_bound _ any_exit sameStore_refl); intros; exact I
    | eapply (triple_time_Now _ any_exit sameStore_refl)
    | eapply (triple_FindOne _ _ any_exit _ sameStore_call); exact I
    | eapply (triple_newImages _ _ sameStore_same sameStore_trans)
    | eapply (triple_NewObjectID _ _ sameStore_same)
    | eapply (triple_exit _ any_exit sameStore_refl (fun _ => True)); exact I
    | eapply (triple_ret _ any_exit sameStore_refl (fun _ => True)); exact I ].

(** One step of a handler that does not write, then the rest. *)
Ltac keeps_step :=
  eapply (keeps_bind _ (fun _ => True));
  [ eapply triple_weaken; cycle 1; [same_prim | intros ? ?; exact I] | intros ? _ ].

Ltac keeps_all := repeat first [apply keeps_exit | keeps_step].

(** The answers with the status [st]. *)
Definition answered (st : Z) (e : Exit) : Prop :=
  match e with Responded r => status r = st | Panicked _ => False end.

Definition panicked (e : Exit) : Prop :=
  match e with Responded _ => False | Panicked _ => True end.

Definition notReadBack (msg : string) (e : Exit) : Prop :=
  e = Responded (mkResponse 500 [] (ErrorBody msg)).

Section Failures.

Variable E : Collaborators.

Lemma stageDeadline_same deadline update :
  triple sameStore any_exit (fun _ => True) (stageDeadline E deadline update).
Proof.
  unfold stageDeadline.
  destruct deadline as [value|];
    [destruct (nonempty value)|];
    try by apply (triple_ret _ any_exit sameStore_refl).
  eapply (triple_bind _ any_exit sameStore_trans (fun _ => True)).
  { eapply triple_weaken; cycle 1; [same_prim | intros ? ?; exact I]. }
  intros parsed _. by apply (triple_ret _ any_exit sameStore_refl).
Qed.

Lemma CreateContribution_keeps c body :
  keeps (answered 201) (CreateContribution E c body).
Proof.
  unfold CreateContribution. do 7 keeps_step.
  apply keeps_InsertOne; cbn; [keeps_all|].
  apply ends_ret_bind. by apply ends_exit.
Qed.

Lemma UpdateContribution_keeps c body :
  keeps (answered 200) (UpdateContribution E c body).
Proof.
  unfold UpdateContribution. do 4 keeps_step.
  apply keeps_UpdateOne; cbn; [keeps_all | keeps_all |].
  apply ends_ret_bind. cbn. apply ends_ret_bind. by apply ends_exit.
Qed.

Lemma DeleteContribution_keeps c :
  keeps (answered 200) (DeleteContribution E c).
Proof.
  unfold DeleteContribution. keeps_step.
  apply keeps_DeleteOne; cbn; [keeps_all | keeps_all |].
  apply ends_ret_bind. cbn. apply ends_ret_bind. by apply ends_exit.
Qed.

Definition updatedOr (msg : string) (e : Exit) : Prop :=
  answered 200 e \/ notReadBack msg e.

Lemma UpdateEvent_keeps c form :
  keeps (updatedOr "Failed to retrieve updated event") (UpdateEvent E c form).
Proof.
  unfold UpdateEvent. do 7 keeps_step.
  eapply (keeps_bind _ (fun _ => True)); [apply stageDeadline_same | intros ? _].
  keeps_step. unfold applyEventUpdate. keeps_step.
  apply keeps_UpdateOne; cbn; [keeps_all | keeps_all |].
  apply ends_ret_bind.
  apply ends_bind; [apply exits_FindOne | intros found].
  apply ends_bind; [|intros updated; apply ends_exit; by left].
  apply exits_unwrap, exits_exit. by right.
Qed.

Lemma UpdateHub_keeps c form :
  keeps (updatedOr "Failed to retrieve updated hub") (UpdateHub E c form).
Proof.
  unfold UpdateHub. do 8 keeps_step.
  unfold applyHubUpdate. keeps_step.
  apply keeps_UpdateOne; cbn; [keeps_all | keeps_all |].
  apply ends_ret_bind.
  apply ends_bind; [apply exits_FindOne | intros found].
  apply ends_bind; [|intros updated; apply ends_exit; by left].
  apply exits_unwrap, exits_exit. by right.
Qed.

Definition deletedOr (e : Exit) : Prop := answered 200 e \/ panicked e.

Lemma DeleteEvent_keeps c : keeps deletedOr (DeleteEvent E c).
Proof.
  unfold DeleteEvent. do 5 keeps_step.
  apply keeps_DeleteOne; cbn; [keeps_all | keeps_all |].
  apply ends_ret_bind. cbn. apply ends_ret_bind.
  apply ends_bind; [|intros _; apply ends_exit; by left].
  apply exits_forEach. intros u. apply exits_DeleteFromCloudinary.
  intros msg. by right.
Qed.

Lemma DeleteHub_keeps c : keeps deletedOr (DeleteHub E c).
Proof.
  unfold DeleteHub. do 5 keeps_step.
  apply keeps_DeleteOne; cbn; [keeps_all | keeps_all |].
  apply ends_ret_bind. cbn. apply ends_ret_bind.
  apply ends_bind; [|intros _; apply ends_exit; by left].
  apply exits_forEach. intros u. apply exits_DeleteFromCloudinary.
  intros msg. by right.
Qed.

Lemma ToggleFavorite_keeps c : keeps (answered 200) (ToggleFavorite E c).
Proof.
  unfold ToggleFavorite. do 3 keeps_step.
  destruct (_ ≫= Favorite.decode) as [fav|].
  - apply ends_keeps. apply ends_bind; [apply exits_DeleteOne | intros _].
    by apply ends_exit.
  - keeps_step. keeps_step.
    apply keeps_InsertOne; cbn; [keeps_all|].
    apply ends_ret_bind. by apply ends_exit.
Qed.

End Failures.

(** The handler [h], run from [w], leaves the store as it was or ends
    in a way that satisfies [ok]. *)
Definition unchangedOr (ok : Exit -> Prop) (h : H unit) (w : World) : Prop :=
  db (snd (serve h w)) = db w \/ ok (fst (serve h w)).

(** A request that fails leaves the store as it was. Whenever a
    handler that writes ends with another store than it started from,
    it answers with its success status: 201 for the creation of a
    contribution, 200 for the others. There are two exceptions: an
    update of an event or of a hub whose read-back fails is answered
    500 with the update applied, and a deletion of an event or of a hub
    stays done when the cleanup of its images panics. *)
Theorem failures_leave_the_store (E : Collaborators) (c : Context) (w : World) :
  (forall body, unchangedOr (answered 201) (CreateContribution E c body) w)
  /\ (forall body, unchangedOr (answered 200) (UpdateContribution E c body) w)
  /\ unchangedOr (answered 200) (DeleteContribution E c) w
  /\ (forall form,
        unchangedOr (updatedOr "Failed to retrieve updated event")
          (UpdateEvent E c form) w)
  /\ unchangedOr deletedOr (DeleteEvent E c) w
  /\ (forall form,
        unchangedOr (updatedOr "Failed to retrieve updated hub")
          (UpdateHub E c form) w)
  /\ unchangedOr deletedOr (DeleteHub E c) w
  /\ unchangedOr (answered 200) (ToggleFavorite E c) w.
Proof.
  unfold unchangedOr.
  split; [intros body; apply keeps_serve, CreateContribution_keeps|].
  split; [intros body; apply keeps_serve, UpdateContribution_keeps|].
  split; [apply keeps_serve, DeleteContribution_keeps|].
  split; [intros form; apply keeps_serve, UpdateEvent_keeps|].
  split; [apply keeps_serve, DeleteEvent_keeps|].
  split; [intros form; apply keeps_serve, UpdateHub_keeps|].
  split; [apply keeps_serve, DeleteHub_keeps|].
  apply keeps_serve, ToggleFavorite_keeps.
Qed.

Module attic.

(** An event whose image is not an asset URL. *)
Definition store : Store :=
  {[ "events" :=
       [fixtures.event_doc fixtures.e1 demo.alice "Roof repair" ["/v1/x.jpg"]
          1650000000000] ]}.

End attic.

(** The deletion is done before the images are cleaned up: a panic of
    the cleanup leaves the event deleted. *)
Example deletion_survives_cleanup_panic :
  let r := serve (DeleteEvent demo.env fixtures.alice_on_e1) (demo.world attic.store) in
  fst r = Panicked "slice bounds out of range"
  /\ coll (db (snd r)) "events" = [].
Proof. split; vm_compute; reflexivity. Qed.

(** ** What an update of an event answers *)

Lemma Event_decode_fields d e :
  Event.decode d = Some e ->
  decode.oid d "_id" = Some (Event.ID e)
  /\ decode.oid d "user_id" = Some (Event.UserID e)
  /\ decode.str d "title" = Some (Event.Title e)
  /\ decode.str d "description" = Some (Event.Description e)
  /\ decode.str d "location" = Some (Event.Location e)
  /\ decode.double d "target_amount" = Some (Event.TargetAmount e)
  /\ decode.datetime_ptr d "deadline" = Some (Event.Deadline e)
  /\ decode.str d "status" = Some (Event.Status e)
  /\ decode.strs d "images" = Some (Event.Images e)
  /\ decode.datetime d "created_at" = Some (Event.CreatedAt e)
  /\ decode.datetime d "updated_at" = Some (Event.UpdatedAt e).
Proof.
  unfold Event.decode. intros Hdec.
  destruct (decode.oid d "_id"); [|discriminate].
  destruct (decode.oid d "user_id"); [|discriminate].
  destruct (decode.str d "title"); [|discriminate].
  destruct (decode.str d "description"); [|discriminate].
  destruct (decode.str d "location"); [|discriminate].
  destruct (decode.double d "target_amount"); [|discriminate].
  destruct (decode.datetime_ptr d "deadline"); [|discriminate].
  destruct (decode.str d "status"); [|discriminate].
  destruct (decode.strs d "images"); [|discriminate].
  destruct (decode.datetime d "created_at"); [|discriminate].
  destruct (decode.datetime d "updated_at"); [|discriminate].
  cbn in Hdec. injection Hdec as <-. cbn. repeat split.
Qed.

Lemma mapM_str_elem l : mapM decode.str_elem (BString <$> l) = Some l.
Proof. induction l as [|x l IH]; [done|]. cbn. by rewrite IH. Qed.

Lemma decode_strs_staged (U d : Doc) k (cond : bool) new old :
  U !! k = (if cond then Some (images_value new) else None) ->
  decode.strs d k = Some old ->
  decode.strs (U ∪ d) k = Some (if cond then new else old).
Proof.
  intros HU Hd. destruct cond.
  - unfold decode.strs. rewrite (lookup_union_Some_l _ _ _ _ HU).
    apply mapM_str_elem.
  - by rewrite decode_strs_kept.
Qed.

Lemma decode_datetime_ptr_staged (U d : Doc) k (p : option Time) old :
  U !! k = BDateTime <$> p ->
  decode.datetime_ptr d k = Some old ->
  decode.datetime_ptr (U ∪ d) k
  = Some (match p with Some t => Some t | None => old end).
Proof.
  intros HU Hd. destruct p as [t|]; cbn in HU.
  - unfold decode.datetime_ptr. by rewrite (lookup_union_Some_l _ _ _ _ HU).
  - by rewrite decode_datetime_ptr_kept.
Qed.

(** Whether an update carries images: retained URLs, or new files. *)
Definition withImages (images : option (list string)) (new : list string) : bool :=
  bool_decide (is_Some images) || (0 <? length new)%nat.

(** The set that [UpdateEvent] stages for the form [input], the parsed
    deadline [p] and the URLs [new] of the uploaded files. *)
Definition eventUpdate (now : Time) (input : UpdateEventInput.t) (p : option Time)
    (new : list string) : Doc :=
  mergeImages (UpdateEventInput.Images input) new
    (withDeadline p (stageEvent now input)).

(** The event after the update: an empty field of the form, or a
    target amount that is not positive, leaves the stored value. *)
Definition patchedEvent (now : Time) (input : UpdateEventInput.t) (p : option Time)
    (new : list string) (old : Event.t) : Event.t :=
  Event.mk (Event.ID old) (Event.UserID old)
    (if nonempty (UpdateEventInput.Title input)
     then UpdateEventInput.Title input else Event.Title old)
    (if nonempty (UpdateEventInput.Description input)
     then UpdateEventInput.Description input else Event.Description old)
    (if nonempty (UpdateEventInput.Location input)
     then UpdateEventInput.Location input else Event.Location old)
    (if f64.gt (UpdateEventInput.TargetAmount input) f64.zero
     then UpdateEventInput.TargetAmount input else Event.TargetAmount old)
    (match p with Some t => Some t | None => Event.Deadline old end)
    (if nonempty (UpdateEventInput.Status input)
     then UpdateEventInput.Status input else Event.Status old)
    (if withImages (UpdateEventInput.Images input) new
     then default [] (UpdateEventInput.Images input) ++ new else Event.Images old)
    (Event.CreatedAt old) now.

Ltac event_lookup :=
  unfold eventUpdate;
  rewrite ?mergeImages_lookup_ne, ?withDeadline_lookup_ne by done;
  unfold stageEvent; staged_lookup.

Lemma eventUpdate_images now input p new :
  eventUpdate now input p new !! "images"
  = (if withImages (UpdateEventInput.Images input) new
     then Some (images_value (default [] (UpdateEventInput.Images input) ++ new))
     else None).
Proof.
  unfold eventUpdate, mergeImages. rewrite lookup_put_if_eq. fold (withImages (UpdateEventInput.Images input) new).
  destruct (withImages _ _); [reflexivity|].
  rewrite withDeadline_lookup_ne by done. by apply stageEvent_lookup_other.
Qed.

Lemma eventUpdate_deadline now input p new :
  eventUpdate now input p new !! "deadline" = BDateTime <$> p.
Proof.
  unfold eventUpdate. rewrite mergeImages_lookup_ne by done.
  destruct p as [t|]; cbn; [apply lookup_insert_eq|].
  by apply stageEvent_lookup_other.
Qed.

Lemma patchedEvent_decode now input p new d old :
  Event.decode d = Some old ->
  Event.decode (eventUpdate now input p new ∪ d)
  = Some (patchedEvent now input p new old).
Proof.
  intros Hdec.
  destruct (Event_decode_fields d old Hdec)
    as (Hid & Huser & Htitle & Hdesc & Hloc & Htarget & Hdl & Hstatus & Himages
        & Hcreated & _).
  set (U := eventUpdate now input p new).
  unfold Event.decode.
  rewrite (decode_oid_kept U d "_id"), Hid by (subst U; event_lookup).
  rewrite (decode_oid_kept U d "user_id"), Huser by (subst U; event_lookup).
  rewrite (decode_str_staged U d "title" _ _ _ ltac:(subst U; event_lookup) Htitle).
  rewrite (decode_str_staged U d "description" _ _ _
             ltac:(subst U; event_lookup) Hdesc).
  rewrite (decode_str_staged U d "location" _ _ _ ltac:(subst U; event_lookup) Hloc).
  rewrite (decode_double_staged U d "target_amount" _ _ _
             ltac:(subst U; event_lookup) Htarget).
  rewrite (decode_datetime_ptr_staged U d "deadline" p _
             (eventUpdate_deadline now input p new) Hdl).
  rewrite (decode_str_staged U d "status" _ _ _ ltac:(subst U; event_lookup) Hstatus).
  rewrite (decode_strs_staged U d "images" _ _ _
             (eventUpdate_images now input p new) Himages).
  rewrite (decode_datetime_kept U d "created_at"), Hcreated
    by (subst U; event_lookup).
  rewrite (decode_datetime_staged U d "updated_at" now) by (subst U; event_lookup).
  reflexivity.
Qed.

Ltac event_field k :=
  apply (size_two_keys _ "updated_at" k); [| |done];
  [ eexists; event_lookup
  | event_lookup; match goal with H : _ = true |- _ => rewrite H end; by eexists ].

Lemma deadlineParsed_None E deadline :
  deadlineParsed E deadline = Some None -> deadline = None \/ deadline = Some "".
Proof.
  unfold deadlineParsed. destruct deadline as [v|]; [|by left].
  destruct (nonempty v) eqn:Hv.
  - destruct (parseDeadline E v); discriminate.
  - intros _. right. f_equal. by apply nonempty_false.
Qed.

(** A form with a field to set, or a file, stages more than the time. *)
Lemma eventUpdate_not_blank E now input p new :
  deadlineParsed E (UpdateEventInput.Deadline input) = Some p ->
  ~ (blankEvent input /\ new = []) ->
  size (eventUpdate now input p new) <> 1%nat.
Proof.
  intros Hdl Hnb.
  destruct (nonempty (UpdateEventInput.Title input)) eqn:H1; [event_field "title"|].
  destruct (nonempty (UpdateEventInput.Description input)) eqn:H2;
    [event_field "description"|].
  destruct (nonempty (UpdateEventInput.Location input)) eqn:H3;
    [event_field "location"|].
  destruct (f64.gt (UpdateEventInput.TargetAmount input) f64.zero) eqn:H4;
    [event_field "target_amount"|].
  destruct (nonempty (UpdateEventInput.Status input)) eqn:H5; [event_field "status"|].
  destruct p as [t|].
  { apply (size_two_keys _ "updated_at" "deadline"); [| |done].
    - eexists. event_lookup.
    - rewrite eventUpdate_deadline. by eexists. }
  destruct (withImages (UpdateEventInput.Images input) new) eqn:H6.
  { apply (size_two_keys _ "updated_at" "images"); [| |done].
    - eexists. event_lookup.
    - rewrite eventUpdate_images, H6. by eexists. }
  exfalso. apply Hnb. unfold withImages in H6.
  apply orb_false_iff in H6 as [Hi Hn].
  split.
  - unfold blankEvent. repeat split; try (by apply nonempty_false); try assumption.
    + by apply (deadlineParsed_None E).
    + apply bool_decide_eq_false in Hi.
      destruct (UpdateEventInput.Images input); [|done]. exfalso. apply Hi. by eexists.
  - destruct new; [done | discriminate].
Qed.

Definition eventUpdated (event : Event.t) : Exit :=
  Responded (mkResponse 200 [] (EventUpdated "Event updated successfully" event)).

Lemma applyEventUpdate_run E objID update w d :
  size update <> 1%nat ->
  fault E (length (log w)) (CallUpdateOne "events" (byID objID) update) = false ->
  fault E (S (length (log w))) (CallFindOne "events" (byID objID)) = false ->
  List.find (matches E (byID objID)) (coll (db w) "events") = Some d ->
  update !! "_id" = None ->
  forall updated, Event.decode (update ∪ d) = Some updated ->
  let r := serve (applyEventUpdate E objID update) w in
  fst r = eventUpdated updated
  /\ List.find (matches E (byID objID)) (coll (db (snd r)) "events")
     = Some (update ∪ d).
Proof.
  intros Hsize Hup Hread Hfind Hid updated Hdec r. subst r.
  destruct (update_first_find (matches E (byID objID)) (fun d => update ∪ d) _ _ Hfind)
    as (l' & Hl' & Hfound).
  { apply matches_byID. rewrite lookup_union_r by exact Hid.
    apply (proj1 (matches_byID E _ _)). exact (proj2 (find_some _ _ Hfind)). }
  unfold serve, applyEventUpdate, bind. cbn.
  rewrite (proj2 (Nat.eqb_neq _ _) Hsize). cbn.
  destruct (UpdateOne_cases E "events" (byID objID) update w)
    as [(Hf & _) | [(_ & Hnone & _) | (l'' & _ & Hsome & ->)]];
    [congruence | congruence |].
  rewrite Hl' in Hsome. injection Hsome as <-. cbn.
  rewrite FindOne_run. unfold findOneResult. cbn.
  rewrite length_app, Nat.add_1_r, Hread, coll_insert, Hfound. cbn.
  rewrite Hdec. cbn. rewrite coll_insert. by split.
Qed.

(** An update of an event that goes through. The caller may update
    the event, the deadline parses, the new files are uploaded, the
    form or the files give something to set, and the two store calls
    succeed. Then the answer is 200 with the event as patched: the
    non-empty fields of the form, the positive target amount and the
    parsed deadline replace the stored values, the images are the
    retained ones followed by the new ones when either is given, the
    update time is that of the request, and everything else is as
    stored. The stored event, read back, is the one of the answer. *)
Theorem UpdateEvent_answers_the_patched_event (E : Collaborators) (c : Context)
    (w : World) (objID : ObjectID) (d : Doc) (existing : Event.t)
    (input : UpdateEventInput.t) (p : option Time) (new : list string) :
  let update := eventUpdate (clock w) input p new in
  let patched := patchedEvent (clock w) input p new existing in
  user_id c <> "" ->
  ObjectIDFromHex (Param_id c) = Some objID ->
  findOneResult E "events" (byID objID) w = Some d ->
  Event.decode d = Some existing ->
  denied (role c) (user_id c) (Event.UserID existing) = false ->
  deadlineParsed E (UpdateEventInput.Deadline input) = Some p ->
  newURLs E c = Some new ->
  ~ (blankEvent input /\ new = []) ->
  fault E (S (length (log w))) (CallUpdateOne "events" (byID objID) update) = false ->
  fault E (S (S (length (log w)))) (CallFindOne "events" (byID objID)) = false ->
  let r := serve (UpdateEvent E c (Ok input)) w in
  fst r = eventUpdated patched
  /\ (List.find (matches E (byID objID)) (coll (db (snd r)) "events") ≫= Event.decode)
     = Some patched.
Proof.
  intros update patched Hauth Hid Hfound Hdec Hperm Hdl Hnew Hnb Hup Hread r.
  subst r.
  rewrite (UpdateEvent_staged E c w objID d existing input p new
             Hauth Hid Hfound Hdec Hperm Hdl Hnew).
  fold (eventUpdate (clock w) input p new). fold update.
  assert (length (log (staged c "events" objID w)) = S (length (log w))) as Hlen.
  { unfold staged, logged. cbn. by rewrite length_app, Nat.add_1_r. }
  destruct (applyEventUpdate_run E objID update (staged c "events" objID w) d)
    with (updated := patched) as [Hr Hstored].
  - by apply (eventUpdate_not_blank E).
  - by rewrite Hlen.
  - by rewrite Hlen.
  - by apply findOneResult_Some in Hfound.
  - subst update. event_lookup.
  - by apply patchedEvent_decode.
  - split; [exact Hr|]. rewrite Hstored. cbn. by apply patchedEvent_decode.
Qed.

Module agenda.

(** A new title, one retained image and one new file. *)
Definition form : UpdateEventInput.t :=
  UpdateEventInput.mk "Roof and gutters" "" "" (f64.of_Z (-1)) None "" (Some ["B"]).

End agenda.

Lemma UpdateEvent_answers_witness :
  fst (serve (UpdateEvent demo.env album.keep_B_add_c (Ok agenda.form))
         (demo.world fixtures.events))
  = eventUpdated
      (Event.mk fixtures.e1 demo.alice "Roof and gutters" "" "" f64.zero None "ACTIVE"
         ["B"; album.C] 1600000000000 1700000000000).
Proof.
  edestruct (UpdateEvent_answers_the_patched_event demo.env album.keep_B_add_c
               (demo.world fixtures.events) fixtures.e1
               (fixtures.event_doc fixtures.e1 demo.alice "Roof repair" ["A"; "B"]
                  1650000000000)
               ledger.event agenda.form None [album.C]) as [Hr _].
  - discriminate.
  - reflexivity.
  - vm_compute. reflexivity.
  - vm_compute. reflexivity.
  - reflexivity.
  - reflexivity.
  - reflexivity.
  - intros [_ Hnew]. discriminate Hnew.
  - reflexivity.
  - reflexivity.
  - exact Hr.
Defined.

(** ** What an update of a hub answers *)

Lemma Hub_decode_fields d h :
  Hub.decode d = Some h ->
  decode.oid d "_id" = Some (Hub.ID h)
  /\ decode.oid d "user_id" = Some (Hub.UserID h)
  /\ decode.str d "title" = Some (Hub.Title h)
  /\ decode.str d "description" = Some (Hub.Description h)
  /\ Coordinates.decode (d !! "coordinates") = Some (Hub.Coordinates h)
  /\ decode.str d "location" = Some (Hub.LocationName h)
  /\ decode.double d "target_amount" = Some (Hub.Rating h)
  /\ decode.strs d "images" = Some (Hub.Images h)
  /\ decode.datetime d "created_at" = Some (Hub.CreatedAt h)
  /\ decode.datetime d "updated_at" = Some (Hub.UpdatedAt h)
  /\ Hub.IsFavorite h = false /\ Hub.Reviews h = [].
Proof.
  unfold Hub.decode. intros Hdec.
  destruct (decode.oid d "_id"); [|discriminate].
  destruct (decode.oid d "user_id"); [|discriminate].
  destruct (decode.str d "title"); [|discriminate].
  destruct (decode.str d "description"); [|discriminate].
  destruct (Coordinates.decode (d !! "coordinates")); [|discriminate].
  destruct (decode.str d "location"); [|discriminate].
  destruct (decode.double d "target_amount"); [|discriminate].
  destruct (decode.strs d "images"); [|discriminate].
  destruct (decode.datetime d "created_at"); [|discriminate].
  destruct (decode.datetime d "updated_at"); [|discriminate].
  cbn in Hdec. injection Hdec as <-. cbn. repeat split.
Qed.

(** The set that [UpdateHub] stages for the form [input] and the URLs
    [new] of the uploaded files. *)
Definition hubUpdate (now : Time) (input : UpdateHubInput.t) (new : list string)
  : Doc :=
  mergeImages (UpdateHubInput.Images input) new (stageHub now input).

(** The coordinates after the update: those of the form, a missing one
    being zero, when the form has either; the stored ones otherwise. *)
Definition patchedCoordinates (input : UpdateHubInput.t) (old : Coordinates.t)
  : Coordinates.t :=
  match UpdateHubInput.Lat input, UpdateHubInput.Lng input with
  | None, None => old
  | lat, lng => Coordinates.mk (default f64.zero lat) (default f64.zero lng)
  end.

(** The hub after the update, as it is read from the store: the
    location name and the rating are those of before, since the update
    stores them under names that the hub is not read from. *)
Definition patchedHub (now : Time) (input : UpdateHubInput.t) (new : list string)
    (old : Hub.t) : Hub.t :=
  Hub.mk (Hub.ID old) (Hub.UserID old)
    (if nonempty (UpdateHubInput.Title input)
     then UpdateHubInput.Title input else Hub.Title old)
    (if nonempty (UpdateHubInput.Description input)
     then UpdateHubInput.Description input else Hub.Description old)
    (patchedCoordinates input (Hub.Coordinates old))
    (Hub.LocationName old) (Hub.Rating old)
    (if withImages (UpdateHubInput.Images input) new
     then default [] (UpdateHubInput.Images input) ++ new else Hub.Images old)
    (Hub.CreatedAt old) now false [].

Ltac hub_lookup :=
  unfold hubUpdate;
  rewrite ?mergeImages_lookup_ne by done;
  unfold stageHub; staged_lookup.

Lemma hubUpdate_images now input new :
  hubUpdate now input new !! "images"
  = (if withImages (UpdateHubInput.Images input) new
     then Some (images_value (default [] (UpdateHubInput.Images input) ++ new))
     else None).
Proof.
  unfold hubUpdate, mergeImages. rewrite lookup_put_if_eq.
  fold (withImages (UpdateHubInput.Images input) new).
  destruct (withImages _ _); [reflexivity|]. by apply stageHub_lookup_other.
Qed.

Lemma size_positive (m : Doc) k : is_Some (m !! k) -> (0 <? size m)%nat = true.
Proof.
  intros Hk. apply Nat.ltb_lt. pose proof (map_size_ne_0_lookup_2 m k Hk). lia.
Qed.

Lemma hubUpdate_coordinates now input new d old :
  Coordinates.decode (d !! "coordinates") = Some old ->
  Coordinates.decode ((hubUpdate now input new ∪ d) !! "coordinates")
  = Some (patchedCoordinates input old).
Proof.
  intros Hd.
  assert (hubUpdate now input new !! "coordinates"
          = if (0 <? size (stageCoordinates input))%nat
            then Some (BDocument (stageCoordinates input)) else None) as HU
    by hub_lookup.
  unfold patchedCoordinates, stageCoordinates in *.
  destruct (UpdateHubInput.Lat input) as [lat|], (UpdateHubInput.Lng input) as [lng|].
  - rewrite (size_positive _ "lng") in HU by (rewrite lookup_insert_eq; by eexists).
    rewrite (lookup_union_Some_l _ _ _ _ HU). cbn.
    unfold decode.double. by simplify_map_eq.
  - rewrite (size_positive _ "lat") in HU by (rewrite lookup_insert_eq; by eexists).
    rewrite (lookup_union_Some_l _ _ _ _ HU). cbn.
    unfold decode.double. by simplify_map_eq.
  - rewrite (size_positive _ "lng") in HU by (rewrite lookup_insert_eq; by eexists).
    rewrite (lookup_union_Some_l _ _ _ _ HU). cbn.
    unfold decode.double. by simplify_map_eq.
  - rewrite map_size_empty in HU. cbn in HU. by rewrite lookup_union_r.
Qed.

Lemma patchedHub_decode now input new d old :
  Hub.decode d = Some old ->
  Hub.decode (hubUpdate now input new ∪ d) = Some (patchedHub now input new old).
Proof.
  intros Hdec.
  destruct (Hub_decode_fields d old Hdec)
    as (Hid & Huser & Htitle & Hdesc & Hcoord & Hloc & Hrating & Himages
        & Hcreated & _).
  set (U := hubUpdate now input new).
  unfold Hub.decode.
  rewrite (decode_oid_kept U d "_id"), Hid by (subst U; hub_lookup).
  rewrite (decode_oid_kept U d "user_id"), Huser by (subst U; hub_lookup).
  rewrite (decode_str_staged U d "title" _ _ _ ltac:(subst U; hub_lookup) Htitle).
  rewrite (decode_str_staged U d "description" _ _ _
             ltac:(subst U; hub_lookup) Hdesc).
  subst U. rewrite (hubUpdate_coordinates now input new d _ Hcoord).
  set (U := hubUpdate now input new).
  rewrite (decode_str_kept U d "location"), Hloc by (subst U; hub_lookup).
  rewrite (decode_double_kept U d "target_amount"), Hrating by (subst U; hub_lookup).
  rewrite (decode_strs_staged U d "images" _ _ _
             (hubUpdate_images now input new) Himages).
  rewrite (decode_datetime_kept U d "created_at"), Hcreated by (subst U; hub_lookup).
  rewrite (decode_datetime_staged U d "updated_at" now) by (subst U; hub_lookup).
  reflexivity.
Qed.

Definition hubUpdated (hub : Hub.t) : Exit :=
  Responded (mkResponse 200 [] (HubUpdated "Hub updated successfully" hub)).

(** A form that binds has a title, so that its update is never empty. *)
Lemma hubUpdate_not_blank now input new :
  UpdateHubInput.Title input <> "" -> size (hubUpdate now input new) <> 1%nat.
Proof.
  intros Htitle. apply (size_two_keys _ "updated_at" "title"); [| |done].
  - eexists. hub_lookup.
  - hub_lookup. rewrite (proj2 (nonempty_true _) Htitle). by eexists.
Qed.

Lemma applyHubUpdate_run E objID update w d :
  size update <> 1%nat ->
  fault E (length (log w)) (CallUpdateOne "hubs" (byID objID) update) = false ->
  fault E (S (length (log w))) (CallFindOne "hubs" (byID objID)) = false ->
  List.find (matches E (byID objID)) (coll (db w) "hubs") = Some d ->
  update !! "_id" = None ->
  forall updated, Hub.decode (update ∪ d) = Some updated ->
  let r := serve (applyHubUpdate E objID update) w in
  fst r = hubUpdated updated
  /\ List.find (matches E (byID objID)) (coll (db (snd r)) "hubs")
     = Some (update ∪ d).
Proof.
  intros Hsize Hup Hread Hfind Hid updated Hdec r. subst r.
  destruct (update_first_find (matches E (byID objID)) (fun d => update ∪ d) _ _ Hfind)
    as (l' & Hl' & Hfound).
  { apply matches_byID. rewrite lookup_union_r by exact Hid.
    apply (proj1 (matches_byID E _ _)). exact (proj2 (find_some _ _ Hfind)). }
  unfold serve, applyHubUpdate, bind. cbn.
  rewrite (proj2 (Nat.eqb_neq _ _) Hsize). cbn.
  destruct (UpdateOne_cases E "hubs" (byID objID) update w)
    as [(Hf & _) | [(_ & Hnone & _) | (l'' & _ & Hsome & ->)]];
    [congruence | congruence |].
  rewrite Hl' in Hsome. injection Hsome as <-. cbn.
  rewrite FindOne_run. unfold findOneResult. cbn.
  rewrite length_app, Nat.add_1_r, Hread, coll_insert, Hfound. cbn.
  rewrite Hdec. cbn. rewrite coll_insert. by split.
Qed.

(** An update of a hub that goes through: the caller may update the
    hub, the form has its title, the new files are uploaded and the two
    store calls succeed. Then the answer is 200 with the hub as it is
    read back from the store. Title, description, images and update
    time are those of the update. The coordinates are replaced as a
    whole as soon as the form has a latitude or a longitude, a missing
    one becoming zero. The location name and the rating of the form are
    stored and not read back: the hub keeps the ones it had. *)
Theorem UpdateHub_answers_the_stored_hub (E : Collaborators) (c : Context)
    (w : World) (objID : ObjectID) (d : Doc) (existing : Hub.t)
    (input : UpdateHubInput.t) (new : list string) :
  let update := hubUpdate (clock w) input new in
  let patched := patchedHub (clock w) input new existing in
  user_id c <> "" ->
  ObjectIDFromHex (Param_id c) = Some objID ->
  findOneResult E "hubs" (byID objID) w = Some d ->
  Hub.decode d = Some existing ->
  denied (role c) (user_id c) (Hub.UserID existing) = false ->
  UpdateHubInput.Title input <> "" ->
  newURLs E c = Some new ->
  fault E (S (length (log w))) (CallUpdateOne "hubs" (byID objID) update) = false ->
  fault E (S (S (length (log w)))) (CallFindOne "hubs" (byID objID)) = false ->
  let r := serve (UpdateHub E c (Ok input)) w in
  fst r = hubUpdated patched
  /\ (List.find (matches E (byID objID)) (coll (db (snd r)) "hubs") ≫= Hub.decode)
     = Some patched
  /\ Hub.LocationName patched = Hub.LocationName existing
  /\ Hub.Rating patched = Hub.Rating existing.
Proof.
  intros update patched Hauth Hid Hfound Hdec Hperm Htitle Hnew Hup Hread r.
  subst r.
  rewrite (UpdateHub_staged E c w objID d existing input new
             Hauth Hid Hfound Hdec Hperm Htitle Hnew).
  fold (hubUpdate (clock w) input new). fold update.
  assert (length (log (staged c "hubs" objID w)) = S (length (log w))) as Hlen.
  { unfold staged, logged. cbn. by rewrite length_app, Nat.add_1_r. }
  destruct (applyHubUpdate_run E objID update (staged c "hubs" objID w) d)
    with (updated := patched) as [Hr Hstored].
  - by apply hubUpdate_not_blank.
  - by rewrite Hlen.
  - by rewrite Hlen.
  - by apply findOneResult_Some in Hfound.
  - subst update. hub_lookup.
  - by apply patchedHub_decode.
  - split; [exact Hr|]. split; [|split; reflexivity].
    rewrite Hstored. cbn. by apply patchedHub_decode.
Qed.

Module annex.

(** A new title, a latitude alone, a location name and a rating. *)
Definition form : UpdateHubInput.t :=
  UpdateHubInput.mk "Reading room" "" (Some (f64.of_Z 7)) None "Main street"
    (f64.of_Z 4) None.

End annex.

Lemma UpdateHub_answers_witness :
  fst (serve (UpdateHub demo.env fixtures.alice_on_h1 (Ok annex.form))
         (demo.world fixtures.hubs))
  = hubUpdated
      (Hub.mk fixtures.h1 demo.alice "Reading room" ""
         (Coordinates.mk (f64.of_Z 7) f64.zero) "" f64.zero ["A"; "B"]
         1600000000000 1700000000000 false []).
Proof.
  edestruct (UpdateHub_answers_the_stored_hub demo.env fixtures.alice_on_h1
               (demo.world fixtures.hubs) fixtures.h1
               (fixtures.hub_doc fixtures.h1 demo.alice "Library" 1 2 ["A"; "B"]
                  1650000000000)
               forum.hub annex.form []) as [Hr _].
  - discriminate.
  - reflexivity.
  - vm_compute. reflexivity.
  - vm_compute. reflexivity.
  - reflexivity.
  - discriminate.
  - reflexivity.
  - reflexivity.
  - reflexivity.
  - exact Hr.
Defined.

(** *** The empty update of a hub *)

Definition notEmptyRejection (e : Exit) : Prop :=
  e <> badRequest "no fields to update".

Lemma exits_ret_bind {A B} P (a : A) (f : A -> H B) :
  exits P (f a) -> exits P (bind (ret a) f).
Proof. intros Hf w e w' Hrun. exact (Hf w e w' Hrun). Qed.

Lemma exits_exit_bind {A B} (P : Exit -> Prop) e (f : A -> H B) :
  P e -> exits P (bind (exit e) f).
Proof. intros He w e' w' [= <- _]. exact He. Qed.

Ltac not_empty_step :=
  first
    [ apply exits_ret
    | apply exits_JSON; unfold notEmptyRejection, badRequest; discriminate
    | apply exits_when
    | apply exits_unwrap
    | apply exits_FindOne
    | apply exits_UpdateOne
    | apply exits_time_Now
    | apply exits_newImages;
      [intros ?; unfold notEmptyRejection, badRequest; discriminate
      | intros ?; unfold notEmptyRejection, badRequest; discriminate] ].

Lemma UpdateHub_not_empty E c input :
  exits notEmptyRejection (UpdateHub E c (Ok input)).
Proof.
  unfold UpdateHub.
  apply exits_bind; [repeat not_empty_step | intros _].
  apply exits_bind; [repeat not_empty_step | intros objID].
  apply exits_bind; [repeat not_empty_step | intros found].
  apply exits_bind; [repeat not_empty_step | intros existing].
  apply exits_bind; [repeat not_empty_step | intros _].
  unfold UpdateHubInput.ShouldBind.
  destruct (String.eqb_spec (UpdateHubInput.Title input) "") as [Hblank | Htitle].
  - apply exits_exit_bind. unfold notEmptyRejection, badRequest.
    intros Heq. vm_compute in Heq. discriminate Heq.
  - apply exits_ret_bind.
    apply exits_bind; [repeat not_empty_step | intros now].
    apply exits_bind; [repeat not_empty_step | intros new].
    fold (hubUpdate now input new). unfold applyHubUpdate.
    rewrite (proj2 (Nat.eqb_neq _ _) (hubUpdate_not_blank now input new Htitle)).
    apply exits_bind; [repeat not_empty_step | intros _].
    apply exits_bind; [repeat not_empty_step | intros res].
    apply exits_bind; [repeat not_empty_step | intros _].
    apply exits_bind; [repeat not_empty_step | intros found'].
    apply exits_bind; [repeat not_empty_step | intros updated].
    repeat not_empty_step.
Qed.

(** Whatever the form, [UpdateHub] never answers that there are no
    fields to update: a form that binds has a title, which is staged,
    and a form without a title is rejected by the binding. The check
    for the empty update is dead code. *)
Theorem UpdateHub_never_rejects_as_empty (E : Collaborators) (c : Context)
    (input : UpdateHubInput.t) (w : World) :
  fst (serve (UpdateHub E c (Ok input)) w) <> badRequest "no fields to update".
Proof.
  apply (serve_exits notEmptyRejection).
  - apply UpdateHub_not_empty.
  - unfold notEmptyRejection, badRequest. discriminate.
Qed.

(** ** Deadlines and uploads that fail *)

Definition badDeadline : Exit :=
  badRequest "invalid deadline format, use RFC3339 or YYYY-MM-DD".

(** The files whose upload is tried and fails, and what is left of a
    failed upload loop: the assets of the files before the failing one,
    and the attempt on the failing one if it got as far as the host. *)
Definition attempted (E : Collaborators) (fh : FileHeader) : list AssetCall :=
  if Opens fh && bool_decide (cloudinaryConfigError E = None)
  then [AssetUpload (Filename fh)] else [].

Definition uploadFailed (e : Exit) : Prop :=
  e = Responded (mkResponse 500 [] (ErrorBody "failed to open image"))
  \/ exists details,
       e = Responded (mkResponse 500 [] (ErrorDetails "image upload failed" details)).

Lemma uploadEach_fails E files urls w :
  mapM (uploadURL E) files = None ->
  exists done failing rest e,
    files = done ++ failing :: rest
    /\ Forall (fun fh => is_Some (uploadURL E fh)) done
    /\ uploadURL E failing = None
    /\ uploadFailed e
    /\ uploadEach E files urls w
       = (inl e,
          with_assets (assets w ++ (AssetUpload ∘ Filename <$> done)
                       ++ attempted E failing) w).
Proof.
  revert urls w. induction files as [|fh files IH]; intros urls w Hnone;
    [discriminate|].
  cbn in Hnone. destruct (uploadURL E fh) as [u|] eqn:Hu.
  - cbn in Hnone. destruct (mapM (uploadURL E) files) as [us|] eqn:Hrest;
      [discriminate|].
    pose proof Hu as Hu'. unfold uploadURL in Hu'.
    destruct (Opens fh) eqn:Hopen; [|discriminate].
    destruct (cloudinaryConfigError E) eqn:Hcfg; [discriminate|].
    destruct (cloudinaryUpload E fh) as [u'|] eqn:Hup; [|discriminate].
    injection Hu' as ->.
    destruct (IH (urls ++ [u])
                 (with_assets (assets w ++ [AssetUpload (Filename fh)]) w) eq_refl)
      as (done & failing & rest & e & -> & Hdone & Hfail & He & Hrun).
    exists (fh :: done), failing, rest, e.
    split; [reflexivity|]. split; [constructor; [by eexists | exact Hdone]|].
    split; [exact Hfail|]. split; [exact He|].
    cbn [uploadEach]. unfold bind, UploadToCloudinary. rewrite Hopen. cbn.
    rewrite Hcfg. cbn. rewrite Hup. cbn. rewrite Hrun. cbn.
    by rewrite <- !app_assoc.
  - exists [], fh, files.
    unfold uploadURL in Hu. unfold attempted.
    cbn [uploadEach]. unfold bind, UploadToCloudinary.
    destruct (Opens fh) eqn:Hopen; cbn.
    + destruct (cloudinaryConfigError E) eqn:Hcfg; cbn.
      * eexists. split; [reflexivity|]. split; [constructor|].
        split; [unfold uploadURL; by rewrite Hopen, Hcfg|].
        split; [right; by eexists|]. rewrite app_nil_r. by destruct w.
      * destruct (cloudinaryUpload E fh) as [u|err] eqn:Hup; [discriminate|]. cbn.
        eexists. split; [reflexivity|]. split; [constructor|].
        split; [unfold uploadURL; by rewrite Hopen, Hcfg, Hup|].
        split; [right; by eexists | reflexivity].
    + eexists. split; [reflexivity|]. split; [constructor|].
      split; [unfold uploadURL; by rewrite Hopen|].
      split; [by left|]. rewrite app_nil_r. by destruct w.
Qed.

Lemma newImages_fails E c w :
  newURLs E c = None ->
  exists done failing rest e,
    newFiles c = done ++ failing :: rest
    /\ Forall (fun fh => is_Some (uploadURL E fh)) done
    /\ uploadURL E failing = None
    /\ uploadFailed e
    /\ newImages E c w
       = (inl e,
          with_assets (assets w ++ (AssetUpload ∘ Filename <$> done)
                       ++ attempted E failing) w).
Proof.
  unfold newURLs, newFiles, newImages. destruct (MultipartForm c) as [form|].
  - apply uploadEach_fails.
  - discriminate.
Qed.

Section FailedStages.

Variables (E : Collaborators) (c : Context) (w : World) (objID : ObjectID).
Hypothesis Hauth : user_id c <> "".
Hypothesis Hid : ObjectIDFromHex (Param_id c) = Some objID.

Lemma UpdateEvent_bad_deadline existing input value :
  findOneResult E "events" (byID objID) w ≫= Event.decode = Some existing ->
  denied (role c) (user_id c) (Event.UserID existing) = false ->
  UpdateEventInput.Deadline input = Some value ->
  value <> "" ->
  parseDeadline E value = None ->
  serve (UpdateEvent E c (Ok input)) w
  = (badDeadline, logged (CallFindOne "events" (byID objID)) w).
Proof.
  intros Hfound Hperm Hdl Hvalue Hparse.
  unfold serve, UpdateEvent, bind.
  rewrite (eqb_empty_false _ Hauth), Hid. cbn.
  rewrite FindOne_run, Hfound. cbn. rewrite Hperm. cbn.
  rewrite Hdl. unfold stageDeadline.
  rewrite (proj2 (nonempty_true _) Hvalue). unfold bind. rewrite Hparse.
  reflexivity.
Qed.

Lemma UpdateEvent_upload_fails existing input p :
  findOneResult E "events" (byID objID) w ≫= Event.decode = Some existing ->
  denied (role c) (user_id c) (Event.UserID existing) = false ->
  deadlineParsed E (UpdateEventInput.Deadline input) = Some p ->
  newURLs E c = None ->
  exists done failing rest e,
    newFiles c = done ++ failing :: rest
    /\ Forall (fun fh => is_Some (uploadURL E fh)) done
    /\ uploadURL E failing = None
    /\ uploadFailed e
    /\ serve (UpdateEvent E c (Ok input)) w
       = (e, with_assets (assets w ++ (AssetUpload ∘ Filename <$> done)
                          ++ attempted E failing)
               (logged (CallFindOne "events" (byID objID)) w)).
Proof.
  intros Hfound Hperm Hdl Hnew.
  destruct (newImages_fails E c (logged (CallFindOne "events" (byID objID)) w) Hnew)
    as (done & failing & rest & e & Hfiles & Hdone & Hfail & He & Hrun).
  exists done, failing, rest, e. repeat (split; [assumption|]).
  unfold serve, UpdateEvent, bind.
  rewrite (eqb_empty_false _ Hauth), Hid. cbn.
  rewrite FindOne_run, Hfound. cbn. rewrite Hperm. cbn.
  rewrite (stageDeadline_run _ _ _ _ _ Hdl), Hrun. reflexivity.
Qed.

Lemma UpdateHub_upload_fails existing input :
  findOneResult E "hubs" (byID objID) w ≫= Hub.decode = Some existing ->
  denied (role c) (user_id c) (Hub.UserID existing) = false ->
  UpdateHubInput.Title input <> "" ->
  newURLs E c = None ->
  exists done failing rest e,
    newFiles c = done ++ failing :: rest
    /\ Forall (fun fh => is_Some (uploadURL E fh)) done
    /\ uploadURL E failing = None
    /\ uploadFailed e
    /\ serve (UpdateHub E c (Ok input)) w
       = (e, with_assets (assets w ++ (AssetUpload ∘ Filename <$> done)
                          ++ attempted E failing)
               (logged (CallFindOne "hubs" (byID objID)) w)).
Proof.
  intros Hfound Hperm Htitle Hnew.
  destruct (newImages_fails E c (logged (CallFindOne "hubs" (byID objID)) w) Hnew)
    as (done & failing & rest & e & Hfiles & Hdone & Hfail & He & Hrun).
  exists done, failing, rest, e. repeat (split; [assumption|]).
  unfold serve, UpdateHub, bind.
  rewrite (eqb_empty_false _ Hauth), Hid. cbn.
  rewrite FindOne_run, Hfound. cbn. rewrite Hperm. cbn.
  rewrite (eqb_empty_false _ Htitle). cbn. rewrite Hrun. reflexivity.
Qed.

End FailedStages.

(** A deadline that no layout parses ends the update of an event with
    400 before any file is uploaded: after the read of the event,
    nothing has happened, on the store or on the asset host. *)
Theorem UpdateEvent_checks_deadline_before_uploads (E : Collaborators) (c : Context)
    (w : World) (objID : ObjectID) (existing : Event.t)
    (input : UpdateEventInput.t) (value : string) :
  user_id c <> "" ->
  ObjectIDFromHex (Param_id c) = Some objID ->
  findOneResult E "events" (byID objID) w ≫= Event.decode = Some existing ->
  denied (role c) (user_id c) (Event.UserID existing) = false ->
  UpdateEventInput.Deadline input = Some value ->
  value <> "" ->
  parseDeadline E value = None ->
  serve (UpdateEvent E c (Ok input)) w
  = (badDeadline, logged (CallFindOne "events" (byID objID)) w).
Proof. intros. by eapply UpdateEvent_bad_deadline. Qed.

Module drafts.

Definition someday : UpdateEventInput.t :=
  UpdateEventInput.mk "Roof" "" "" f64.zero (Some "someday") "" None.

(** Two files, the second of which cannot be opened. *)
Definition two_files : Context := {|
  user_id := Hex demo.alice; role := "user"; Param_id := Hex fixtures.e1;
  Query := fun _ => ""; GetHeader := fun _ => "";
  MultipartForm := Some (fun field =>
    if String.eqb field "new_images"
    then [{| Filename := "c.jpg"; Opens := true |};
          {| Filename := "d.jpg"; Opens := false |}] else [])
|}.

Definition titled : UpdateEventInput.t :=
  UpdateEventInput.mk "Roof" "" "" f64.zero None "" None.

End drafts.

Lemma UpdateEvent_checks_deadline_witness :
  serve (UpdateEvent demo.env album.keep_B_add_c (Ok drafts.someday))
        (demo.world fixtures.events)
  = (badDeadline,
     logged (CallFindOne "events" (byID fixtures.e1)) (demo.world fixtures.events)).
Proof.
  eapply (UpdateEvent_checks_deadline_before_uploads demo.env album.keep_B_add_c
            (demo.world fixtures.events) fixtures.e1 ledger.event drafts.someday
            "someday").
  - discriminate.
  - reflexivity.
  - vm_compute. reflexivity.
  - reflexivity.
  - reflexivity.
  - discriminate.
  - reflexivity.
Defined.

(** When a new file of an update fails to upload, the update is given
    up with 500: nothing is written, the store call of the request is
    the read of the resource, and the files uploaded before the failing
    one stay on the asset host, where nothing refers to them. *)
Theorem failed_upload_gives_up_the_update (E : Collaborators) (c : Context)
    (w : World) (objID : ObjectID) :
  user_id c <> "" ->
  ObjectIDFromHex (Param_id c) = Some objID ->
  newURLs E c = None ->
  (forall existing input p,
     findOneResult E "events" (byID objID) w ≫= Event.decode = Some existing ->
     denied (role c) (user_id c) (Event.UserID existing) = false ->
     deadlineParsed E (UpdateEventInput.Deadline input) = Some p ->
     exists done failing rest e,
       newFiles c = done ++ failing :: rest
       /\ Forall (fun fh => is_Some (uploadURL E fh)) done
       /\ uploadURL E failing = None
       /\ uploadFailed e
       /\ serve (UpdateEvent E c (Ok input)) w
          = (e, with_assets (assets w ++ (AssetUpload ∘ Filename <$> done)
                             ++ attempted E failing)
                  (logged (CallFindOne "events" (byID objID)) w)))
  /\ (forall existing input,
     findOneResult E "hubs" (byID objID) w ≫= Hub.decode = Some existing ->
     denied (role c) (user_id c) (Hub.UserID existing) = false ->
     UpdateHubInput.Title input <> "" ->
     exists done failing rest e,
       newFiles c = done ++ failing :: rest
       /\ Forall (fun fh => is_Some (uploadURL E fh)) done
       /\ uploadURL E failing = None
       /\ uploadFailed e
       /\ serve (UpdateHub E c (Ok input)) w
          = (e, with_assets (assets w ++ (AssetUpload ∘ Filename <$> done)
                             ++ attempted E failing)
                  (logged (CallFindOne "hubs" (byID objID)) w))).
Proof.
  intros Hauth Hid Hnew. split.
  - intros existing input p Hfound Hperm Hdl.
    exact (UpdateEvent_upload_fails E c w objID Hauth Hid existing input p
             Hfound Hperm Hdl Hnew).
  - intros existing input Hfound Hperm Htitle.
    exact (UpdateHub_upload_fails E c w objID Hauth Hid existing input
             Hfound Hperm Htitle Hnew).
Qed.

Lemma failed_upload_witness :
  exists e,
    uploadFailed e
    /\ serve (UpdateEvent demo.env drafts.two_files (Ok drafts.titled))
             (demo.world fixtures.events)
       = (e, with_assets [AssetUpload "c.jpg"]
               (logged (CallFindOne "events" (byID fixtures.e1))
                  (demo.world fixtures.events))).
Proof.
  destruct (failed_upload_gives_up_the_update demo.env drafts.two_files
              (demo.world fixtures.events) fixtures.e1) as [Hevent _];
    [discriminate | reflexivity | reflexivity |].
  destruct (Hevent ledger.event drafts.titled None)
    as (done & failing & rest & e & Hfiles & Hdone & Hfail & He & Hrun);
    [vm_compute; reflexivity | reflexivity | reflexivity |].
  exists e. split; [exact He|]. rewrite Hrun. f_equal.
  assert (done = [{| Filename := "c.jpg"; Opens := true |}]
          /\ failing = {| Filename := "d.jpg"; Opens := false |}) as [-> ->].
  { change (newFiles drafts.two_files)
      with [{| Filename := "c.jpg"; Opens := true |};
            {| Filename := "d.jpg"; Opens := false |}] in Hfiles.
    destruct done as [|x done].
    - injection Hfiles as <- _. discriminate Hfail.
    - injection Hfiles as <- Hfiles. destruct done as [|y done].
      + injection Hfiles as <- _. by split.
      + injection Hfiles as <- _. apply Forall_cons in Hdone as [_ Hdone].
        apply Forall_cons in Hdone as [[u Hu] _]. discriminate Hu. }
  reflexivity.
Defined.

(** ** Deleting an event or a hub *)

(** The identifier under which the asset of [imageURL] is destroyed, if
    the URL yields one. *)
Definition publicID (imageURL : string) : option string :=
  match extractPublicID imageURL with Ok id => Some id | _ => None end.

(** The destructions that the cleanup of [urls] asks of the asset
    host: none without a configuration, else one for each URL that
    yields an identifier. *)
Definition cleanup (E : Collaborators) (urls : list string) : list AssetCall :=
  match cloudinaryConfigError E with
  | Some _ => []
  | None => AssetDestroy <$> omap publicID urls
  end.

Definition noPanic (imageURL : string) : Prop :=
  forall msg, extractPublicID imageURL <> Panic msg.

Lemma with_assets_nil w : with_assets (assets w ++ []) w = w.
Proof. rewrite app_nil_r. by destruct w. Qed.

Lemma cleanup_one E u :
  cleanup E [u]
  = match cloudinaryConfigError E, extractPublicID u with
    | None, Ok id => [AssetDestroy id]
    | _, _ => []
    end.
Proof.
  unfold cleanup, publicID. destruct (cloudinaryConfigError E); [reflexivity|].
  cbn [omap list_omap]. by destruct (extractPublicID u).
Qed.

Lemma DeleteFromCloudinary_run E u w :
  cloudinaryConfigError E <> None \/ noPanic u ->
  exists err,
    DeleteFromCloudinary E u w
    = (inr err, with_assets (assets w ++ cleanup E [u]) w).
Proof.
  intros Hsafe. rewrite cleanup_one. unfold DeleteFromCloudinary.
  destruct (cloudinaryConfigError E) as [cfg|].
  - eexists. by rewrite with_assets_nil.
  - destruct Hsafe as [Hcfg | Hu]; [done|].
    destruct (extractPublicID u) as [id|err|msg] eqn:Hext.
    + unfold bind, get_world, put_world.
      destruct (cloudinaryDestroyError E id); eexists; reflexivity.
    + eexists. by rewrite with_assets_nil.
    + exfalso. exact (Hu msg Hext).
Qed.

Arguments DeleteFromCloudinary : simpl never.

Lemma cleanup_cons E u urls : cleanup E (u :: urls) = cleanup E [u] ++ cleanup E urls.
Proof.
  unfold cleanup. destruct (cloudinaryConfigError E); [reflexivity|].
  cbn [omap list_omap]. by destruct (publicID u).
Qed.

Lemma forEach_cleanup E urls w :
  cloudinaryConfigError E <> None \/ Forall noPanic urls ->
  exists errs,
    forEach urls (DeleteFromCloudinary E) w
    = (inr errs, with_assets (assets w ++ cleanup E urls) w).
Proof.
  revert w. induction urls as [|u urls IH]; intros w Hsafe.
  - exists []. unfold cleanup. cbn [forEach].
    destruct (cloudinaryConfigError E); cbn [fmap list_fmap omap list_omap];
      by rewrite with_assets_nil.
  - assert (cloudinaryConfigError E <> None \/ noPanic u) as Hu.
    { destruct Hsafe as [Hcfg | Hall]; [by left | right].
      by apply Forall_cons in Hall as [Hu _]. }
    assert (cloudinaryConfigError E <> None \/ Forall noPanic urls) as Hrest.
    { destruct Hsafe as [Hcfg | Hall]; [by left | right].
      by apply Forall_cons in Hall as [_ Hall]. }
    destruct (DeleteFromCloudinary_run E u w Hu) as (err & Hrun).
    destruct (IH (with_assets (assets w ++ cleanup E [u]) w) Hrest) as (errs & Hruns).
    exists (err :: errs). cbn [forEach]. unfold bind. rewrite Hrun, Hruns.
    unfold ret. f_equal. rewrite (cleanup_cons E u urls).
    unfold with_assets. cbn [db log assets clock issued].
    by rewrite <- app_assoc.
Qed.

Definition eventDeleted (oid : ObjectID) : Exit :=
  Responded (mkResponse 200 [] (MessageID "event deleted successfully" (Hex oid))).

Definition hubDeleted (oid : ObjectID) : Exit :=
  Responded (mkResponse 200 [] (MessageID "Hub deleted successfully" (Hex oid))).

(** The world after a deletion: the read, the deletion, the cleanup. *)
Definition afterDelete (E : Collaborators) (col : string) (oid : ObjectID)
    (l' : list Doc) (images : list string) (w : World) : World :=
  with_assets (assets w ++ cleanup E images)
    (with_db (<[col := l']> (db w))
       (logged (CallDeleteOne col (byID oid)) (logged (CallFindOne col (byID oid)) w))).

Section Deleting.

Variables (E : Collaborators) (c : Context) (w : World) (oid : ObjectID) (d : Doc).
Hypothesis Hauth : user_id c <> "".
Hypothesis Hid : ObjectIDFromHex (Param_id c) = Some oid.

Lemma DeleteEvent_run existing :
  findOneResult E "events" (byID oid) w = Some d ->
  Event.decode d = Some existing ->
  denied (role c) (user_id c) (Event.UserID existing) = false ->
  fault E (S (length (log w))) (CallDeleteOne "events" (byID oid)) = false ->
  cloudinaryConfigError E <> None \/ Forall noPanic (Event.Images existing) ->
  exists l1 l2,
    coll (db w) "events" = l1 ++ d :: l2
    /\ serve (DeleteEvent E c) w
       = (eventDeleted oid,
          afterDelete E "events" oid (l1 ++ l2) (Event.Images existing) w).
Proof.
  intros Hfound Hdec Hperm Hdel Hsafe.
  pose proof (findOneResult_Some _ _ _ _ _ Hfound) as Hfind.
  destruct (find_remove_first _ _ _ Hfind) as (l1 & l2 & Hl & Hrm & _).
  exists l1, l2. split; [exact Hl|].
  unfold serve, DeleteEvent, bind.
  rewrite (eqb_empty_false _ Hauth), Hid. cbn.
  rewrite FindOne_run, Hfound. cbn. rewrite Hdec. cbn. rewrite Hperm. cbn.
  rewrite DeleteOne_run
    by (unfold logged; cbn; by rewrite length_app, Nat.add_1_r).
  cbn. rewrite Hrm. cbn.
  match goal with
  | |- context [forEach ?l ?f ?w0] =>
      destruct (forEach_cleanup E l w0 Hsafe) as (errs & Hrun); rewrite Hrun
  end.
  reflexivity.
Qed.

Lemma DeleteHub_run existing :
  findOneResult E "hubs" (byID oid) w = Some d ->
  Hub.decode d = Some existing ->
  denied (role c) (user_id c) (Hub.UserID existing) = false ->
  fault E (S (length (log w))) (CallDeleteOne "hubs" (byID oid)) = false ->
  cloudinaryConfigError E <> None \/ Forall noPanic (Hub.Images existing) ->
  exists l1 l2,
    coll (db w) "hubs" = l1 ++ d :: l2
    /\ serve (DeleteHub E c) w
       = (hubDeleted oid,
          afterDelete E "hubs" oid (l1 ++ l2) (Hub.Images existing) w).
Proof.
  intros Hfound Hdec Hperm Hdel Hsafe.
  pose proof (findOneResult_Some _ _ _ _ _ Hfound) as Hfind.
  destruct (find_remove_first _ _ _ Hfind) as (l1 & l2 & Hl & Hrm & _).
  exists l1, l2. split; [exact Hl|].
  unfold serve, DeleteHub, bind.
  rewrite (eqb_empty_false _ Hauth), Hid. cbn.
  rewrite FindOne_run, Hfound. cbn. rewrite Hdec. cbn. rewrite Hperm. cbn.
  rewrite DeleteOne_run
    by (unfold logged; cbn; by rewrite length_app, Nat.add_1_r).
  cbn. rewrite Hrm. cbn.
  match goal with
  | |- context [forEach ?l ?f ?w0] =>
      destruct (forEach_cleanup E l w0 Hsafe) as (errs & Hrun); rewrite Hrun
  end.
  reflexivity.
Qed.

End Deleting.

(** The URLs that [url.Parse] takes as they are written: without a
    fragment, and with a host of letters, digits, dots and hyphens, so
    without user information, port or brackets. The checks of the
    parser that [url.Parse] leaves out pass on these, or [url.Parse]
    returns an error as the parser does. *)
Definition plainHost (c : ascii) : bool :=
  url.is_alpha c || url.is_digit c || Ascii.eqb c "." || Ascii.eqb c "-".

Definition plainURL (rawURL : string) : bool :=
  negb (strings.Contains rawURL "#")
  && match url.Parse rawURL with
     | Ok u => forallb plainHost (list_ascii_of_string (url.Host u))
     | _ => true
     end.

(** What a cleanup of [images] adds to the calls of the asset host:
    destructions only, at most one for each image, and none without a
    configuration of the host; with a configuration and plain URLs, one
    for each URL that yields an identifier, in the order of the
    images. *)
Definition cleaned (E : Collaborators) (images : list string)
    (before after : list AssetCall) : Prop :=
  exists destroyed,
    after = before ++ (AssetDestroy <$> destroyed)
    /\ (length destroyed <= length images)%nat
    /\ (cloudinaryConfigError E <> None -> destroyed = [])
    /\ (cloudinaryConfigError E = None ->
        Forall (fun u => plainURL u = true) images ->
        destroyed = omap publicID images).

Lemma length_omap_le {A B} (f : A -> option B) (l : list A) :
  (length (omap f l) <= length l)%nat.
Proof.
  induction l as [|x l IH]; cbn; [lia|]. destruct (f x); cbn; lia.
Qed.

Lemma cleanup_cleaned E images before :
  cleaned E images before (before ++ cleanup E images).
Proof.
  unfold cleaned, cleanup. destruct (cloudinaryConfigError E) as [cfg|].
  - exists []. split; [reflexivity|]. split; [cbn; lia|]. split; [done | discriminate].
  - exists (omap publicID images). split; [reflexivity|].
    split; [apply length_omap_le|]. split; [done | reflexivity].
Qed.

(** A deletion of an event or of a hub by a caller who may delete it,
    when the store deletes: the answer is 200 and the document is taken
    out of its collection, whatever the asset host does; the store is
    called twice, to read the document and to delete it. The images
    are cleaned up afterwards: the asset host is asked for
    destructions only, at most one for each image, and for none
    without a configuration; no error of the cleanup is reported. For
    images whose URLs are plain, there is one destruction for each URL
    that yields an identifier. The one thing that the cleanup must not
    do is panic on a URL. *)
Theorem deletion_ignores_the_asset_host (E : Collaborators) (c : Context)
    (w : World) (oid : ObjectID) (d : Doc) :
  user_id c <> "" ->
  ObjectIDFromHex (Param_id c) = Some oid ->
  (forall existing,
     findOneResult E "events" (byID oid) w = Some d ->
     Event.decode d = Some existing ->
     denied (role c) (user_id c) (Event.UserID existing) = false ->
     fault E (S (length (log w))) (CallDeleteOne "events" (byID oid)) = false ->
     cloudinaryConfigError E <> None \/ Forall noPanic (Event.Images existing) ->
     exists l1 l2 w',
       coll (db w) "events" = l1 ++ d :: l2
       /\ serve (DeleteEvent E c) w = (eventDeleted oid, w')
       /\ db w' = <["events" := l1 ++ l2]> (db w)
       /\ log w' = log w ++ [CallFindOne "events" (byID oid);
                              CallDeleteOne "events" (byID oid)]
       /\ cleaned E (Event.Images existing) (assets w) (assets w'))
  /\ (forall existing,
     findOneResult E "hubs" (byID oid) w = Some d ->
     Hub.decode d = Some existing ->
     denied (role c) (user_id c) (Hub.UserID existing) = false ->
     fault E (S (length (log w))) (CallDeleteOne "hubs" (byID oid)) = false ->
     cloudinaryConfigError E <> None \/ Forall noPanic (Hub.Images existing) ->
     exists l1 l2 w',
       coll (db w) "hubs" = l1 ++ d :: l2
       /\ serve (DeleteHub E c) w = (hubDeleted oid, w')
       /\ db w' = <["hubs" := l1 ++ l2]> (db w)
       /\ log w' = log w ++ [CallFindOne "hubs" (byID oid);
                              CallDeleteOne "hubs" (byID oid)]
       /\ cleaned E (Hub.Images existing) (assets w) (assets w')).
Proof.
  intros Hauth Hid. split.
  - intros existing Hfound Hdec Hperm Hdel Hsafe.
    destruct (DeleteEvent_run E c w oid d Hauth Hid existing Hfound Hdec Hperm Hdel Hsafe)
      as (l1 & l2 & Hl & Hrun).
    eexists l1, l2, _. split; [exact Hl|]. split; [exact Hrun|].
    unfold afterDelete, logged. cbn. split; [reflexivity|].
    split; [by rewrite <- app_assoc | apply cleanup_cleaned].
  - intros existing Hfound Hdec Hperm Hdel Hsafe.
    destruct (DeleteHub_run E c w oid d Hauth Hid existing Hfound Hdec Hperm Hdel Hsafe)
      as (l1 & l2 & Hl & Hrun).
    eexists l1, l2, _. split; [exact Hl|]. split; [exact Hrun|].
    unfold afterDelete, logged. cbn. split; [reflexivity|].
    split; [by rewrite <- app_assoc | apply cleanup_cleaned].
Qed.

Module outage.

(** An asset host that refuses every destruction. *)
Definition env : Collaborators := {|
  fault := fault demo.env;
  objectIDs := objectIDs demo.env;
  GenerateETag := GenerateETag demo.env;
  FormatHTTP := FormatHTTP demo.env;
  ParseTime := ParseTime demo.env;
  regexMatch := regexMatch demo.env;
  cloudinaryConfigError := None;
  cloudinaryUpload := cloudinaryUpload demo.env;
  cloudinaryDestroyError := fun _ => Some "unreachable"
|}.

(** The event of Alice, with two images on the asset host and one
    that is no URL of the host. *)
Definition images : list string :=
  ["https://res.cloudinary.com/demo/image/upload/events/a.jpg";
   "A";
   "https://res.cloudinary.com/demo/image/upload/events/b.jpg"].

Definition document : Doc :=
  fixtures.event_doc fixtures.e1 demo.alice "Roof repair" images 1650000000000.

Definition store : Store := {[ "events" := [document] ]}.

Definition event : Event.t :=
  Event.mk fixtures.e1 demo.alice "Roof repair" "" "" f64.zero None "ACTIVE" images
    1600000000000 1650000000000.

End outage.

Lemma deletion_witness :
  fst (serve (DeleteEvent outage.env fixtures.alice_on_e1) (demo.world outage.store))
  = eventDeleted fixtures.e1
  /\ coll (db (snd (serve (DeleteEvent outage.env fixtures.alice_on_e1)
                      (demo.world outage.store)))) "events" = []
  /\ assets (snd (serve (DeleteEvent outage.env fixtures.alice_on_e1)
                    (demo.world outage.store)))
     = [AssetDestroy "upload/events/a"; AssetDestroy "upload/events/b"].
Proof.
  destruct (deletion_ignores_the_asset_host outage.env fixtures.alice_on_e1
              (demo.world outage.store) fixtures.e1 outage.document)
    as [Hevent _]; [discriminate | reflexivity |].
  destruct (Hevent outage.event)
    as (l1 & l2 & w' & Hl & Hrun & Hdb & _ & destroyed & Hassets & _ & _ & Hplain).
  - vm_compute. reflexivity.
  - vm_compute. reflexivity.
  - reflexivity.
  - reflexivity.
  - right. repeat constructor; intros msg Heq; vm_compute in Heq; discriminate Heq.
  - rewrite Hrun. cbn [fst snd]. split; [reflexivity|]. split.
    + rewrite Hdb, coll_insert.
      change (coll (db (demo.world outage.store)) "events")
        with [outage.document] in Hl.
      apply (f_equal length) in Hl. rewrite length_app in Hl. cbn [length] in Hl.
      destruct l1; destruct l2; cbn [length] in Hl; try lia. reflexivity.
    + rewrite Hassets, Hplain; [vm_compute; reflexivity | reflexivity|].
      repeat constructor.
Defined.

(** ** The favorites of the others *)

Lemma Favorite_encode_pair f :
  Favorite.encode f !! "user_id" = Some (BObjectID (Favorite.UserID f))
  /\ Favorite.encode f !! "hub_id" = Some (BObjectID (Favorite.HubID f)).
Proof.
  unfold Favorite.encode. destruct (IsZero (Favorite.ID f)); by simplify_map_eq.
Qed.

Lemma matches_other_pair E u h u' h' d :
  (u', h') <> (u, h) ->
  matches E (favoriteFilter u h) d = true ->
  matches E (favoriteFilter u' h') d = false.
Proof.
  intros Hne Hm. apply not_true_is_false. intros Hm'.
  apply matches_favorite in Hm as [Hu Hh].
  apply matches_favorite in Hm' as [Hu' Hh'].
  apply Hne. congruence.
Qed.

Lemma existsb_without (p : Doc -> bool) l1 x l2 :
  p x = false -> existsb p (l1 ++ l2) = existsb p (l1 ++ x :: l2).
Proof. intros Hx. rewrite !existsb_app. cbn. by rewrite Hx. Qed.

Section OtherPairs.

Variables (E : Collaborators) (c : Context) (w : World) (userID hubID : ObjectID).
Hypothesis Huser : ObjectIDFromHex (user_id c) = Some userID.
Hypothesis Hhub : ObjectIDFromHex (Param_id c) = Some hubID.
Hypothesis Hok : favoritesOK (coll (db w) "favorites").

Lemma ToggleFavorite_other_pair u' h' :
  (u', h') <> (userID, hubID) ->
  favorited E u' h' (db (snd (serve (ToggleFavorite E c) w))) = favorited E u' h' (db w).
Proof.
  intros Hne. unfold serve, ToggleFavorite, bind. rewrite Huser, Hhub. cbn.
  rewrite FindOne_run. cbn.
  destruct (findOneResult E "favorites" (favoriteFilter userID hubID) w) as [x|]
    eqn:Hfound; cbn.
  - destruct (Favorite.decode x) as [fav|] eqn:Hdec; cbn.
    + apply findOneResult_Some in Hfound.
      destruct (find_some _ _ Hfound) as [Hin Hmx].
      unfold DeleteOne, bind, call, get_world, put_world, ret. cbn.
      destruct (fault E _ _); cbn; [reflexivity|].
      destruct (remove_first _ _) as [l'|] eqn:Hrm; cbn; [|reflexivity].
      destruct (remove_first_split _ _ _ Hrm) as (l1 & y & l2 & Hl & -> & Hy & _).
      assert (y = x) as ->.
      { pose proof (favorites_decode _ Hok) as Hall. rewrite Forall_forall in Hall.
        destruct (Hall x (proj2 (list_elem_of_In _ _) Hin)) as (f & Hf & Hfid).
        assert (f = fav) as -> by congruence.
        apply matches_byID in Hy.
        apply (NoDup_fmap_same docID (coll (db w) "favorites"));
          [apply Hok | | | unfold docID; congruence].
        - rewrite Hl. apply elem_of_app. right. by left.
        - by apply list_elem_of_In. }
      unfold favorited. rewrite coll_insert, Hl.
      apply existsb_without. by eapply matches_other_pair.
    + unfold NewObjectID, InsertOne, bind, call, get_world, put_world, ret. cbn.
      destruct (_ && _); cbn; [|reflexivity].
      unfold favorited. rewrite coll_insert, existsb_app. cbn.
      rewrite orb_false_r.
      match goal with
      | |- context [matches E _ (Favorite.encode ?f)] =>
          destruct (Favorite_encode_pair f) as [Hu Hh];
          rewrite (matches_other_pair E userID hubID u' h' (Favorite.encode f) Hne)
      end; [by rewrite orb_false_r|].
      apply matches_favorite. by split.
  - unfold NewObjectID, InsertOne, bind, call, get_world, put_world, ret. cbn.
    destruct (_ && _); cbn; [|reflexivity].
    unfold favorited. rewrite coll_insert, existsb_app. cbn.
    rewrite orb_false_r.
    match goal with
    | |- context [matches E _ (Favorite.encode ?f)] =>
        destruct (Favorite_encode_pair f) as [Hu Hh];
        rewrite (matches_other_pair E userID hubID u' h' (Favorite.encode f) Hne)
    end; [by rewrite orb_false_r|].
    apply matches_favorite. by split.
Qed.

Lemma ToggleFavorite_other_collections col :
  col <> "favorites" ->
  coll (db (snd (serve (ToggleFavorite E c) w))) col = coll (db w) col.
Proof.
  intros Hne. unfold serve, ToggleFavorite, bind. rewrite Huser, Hhub. cbn.
  rewrite FindOne_run. cbn.
  destruct (_ ≫= Favorite.decode) as [fav|]; cbn.
  - unfold DeleteOne, bind, call, get_world, put_world, ret. cbn.
    destruct (fault E _ _); cbn; [reflexivity|].
    destruct (remove_first _ _); cbn; [|reflexivity]. by apply coll_insert_ne.
  - unfold NewObjectID, InsertOne, bind, call, get_world, put_world, ret. cbn.
    destruct (_ && _); cbn; [|reflexivity]. by apply coll_insert_ne.
Qed.

End OtherPairs.

(** Toggling the favorite of a user for a hub touches that pair and no
    other: with unique identifiers in the favorites, every other user
    and every other hub keeps its favorite state, and the other
    collections stay as they are, whatever the store answers. *)
Theorem ToggleFavorite_leaves_the_others (E : Collaborators) (c : Context)
    (w : World) (userID hubID : ObjectID) :
  ObjectIDFromHex (user_id c) = Some userID ->
  ObjectIDFromHex (Param_id c) = Some hubID ->
  favoritesOK (coll (db w) "favorites") ->
  let w' := snd (serve (ToggleFavorite E c) w) in
  (forall u' h', (u', h') <> (userID, hubID) ->
     favorited E u' h' (db w') = favorited E u' h' (db w))
  /\ (forall col, col <> "favorites" -> coll (db w') col = coll (db w) col).
Proof.
  intros Huser Hhub Hok w'. split.
  - intros u' h'. by apply ToggleFavorite_other_pair.
  - intros col. by apply (ToggleFavorite_other_collections E c w userID hubID).
Qed.

Lemma ToggleFavorite_leaves_witness :
  favorited demo.env demo.alice fixtures.h1
    (db (snd (serve (ToggleFavorite demo.env fixtures.bob_on_h1)
                (demo.world lounge.store))))
  = true.
Proof.
  destruct (ToggleFavorite_leaves_the_others demo.env fixtures.bob_on_h1
              (demo.world lounge.store) demo.bob fixtures.h1) as [Hpairs _].
  - reflexivity.
  - reflexivity.
  - change (coll (db (demo.world lounge.store)) "favorites")
      with [Favorite.encode
              (Favorite.mk (demo.oid_of 81) demo.alice fixtures.h1 1690000000000)].
    split.
    + repeat constructor. eexists. split; [vm_compute; reflexivity | reflexivity].
    + cbn [fmap list_fmap]. apply NoDup_singleton.
    + cbn [fmap list_fmap]. apply NoDup_singleton.
  - rewrite (Hpairs demo.alice fixtures.h1); [vm_compute; reflexivity|].
    intros Heq. vm_compute in Heq. discriminate Heq.
Defined.

(** ** Reviews *)

Module ReviewDoc.

(** [models.Review] as the store keeps it: the identifier and the
    comment are left out when empty. *)
Definition encode (r : Review.t) : Doc :=
  (if IsZero (Review.ID r) then (fun d => d)
   else insert "_id" (BObjectID (Review.ID r)))
  (<["user_id" := BObjectID (Review.UserID r)]>
  (<["hub_id" := BObjectID (Review.HubID r)]>
  (<["rating" := BInt (Review.Rating r)]>
  (Contribution.put_nonempty "comment" (Review.Comment r)
  (<["created_at" := BDateTime (Review.CreatedAt r)]>
  (<["updated_at" := BDateTime (Review.UpdatedAt r)]> ∅)))))).

End ReviewDoc.

(** The body of [AddReview]. *)
Module AddReviewInput.
Record t := mk { Rating : Z; Comment : string }.

(** [c.ShouldBindJSON(&input)] on the decoded body: [Rating] carries
    [binding:"required,min=1,max=5"], checked in this order. *)
Definition ShouldBindJSON (body : outcome t) : outcome t :=
  match body with
  | Ok input =>
      if Rating input =? 0
      then Err (UpdateHubInput.validation_error "Rating" "required")
      else if Rating input <? 1
      then Err (UpdateHubInput.validation_error "Rating" "min")
      else if 5 <? Rating input
      then Err (UpdateHubInput.validation_error "Rating" "max")
      else Ok input
  | other => other
  end.
End AddReviewInput.

Section Reviews.

Variable E : Collaborators.

(** [AddReview] reads the clock twice, for [CreatedAt] and then for
    [UpdatedAt]. The world holds the first reading; [later] is the
    second, which the clock may have moved on to. *)
Definition AddReview (c : Context) (body : outcome AddReviewInput.t) (later : Time)
  : H (Reply Review.t) :=
  userID <- unwrap (ObjectIDFromHex (user_id c))
              (JSON [] http.StatusUnauthorized (ErrorBody "invalid user id"));;
  hubID <- unwrap (ObjectIDFromHex (Param_id c))
             (JSON [] http.StatusBadRequest (ErrorBody "invalid hub id"));;
  input <- bound (AddReviewInput.ShouldBindJSON body);;
  id <- NewObjectID E;;
  created <- time_Now;;
  updated <- ret later;;
  let review := Review.mk id userID hubID (AddReviewInput.Rating input)
                  (AddReviewInput.Comment input) created updated in
  ok <- InsertOne E "reviews" (ReviewDoc.encode review);;
  _ <- when (negb ok)
         (JSON [] http.StatusInternalServerError (ErrorBody "could not add review"));;
  ret (mkReply http.StatusCreated [] review).

End Reviews.

Lemma Review_decode_encode r :
  Review.decode (ReviewDoc.encode r) = Some r.
Proof.
  assert (forall k, k <> "_id" ->
            ReviewDoc.encode r !! k
            = (<["user_id" := BObjectID (Review.UserID r)]>
              (<["hub_id" := BObjectID (Review.HubID r)]>
              (<["rating" := BInt (Review.Rating r)]>
              (Contribution.put_nonempty "comment" (Review.Comment r)
              (<["created_at" := BDateTime (Review.CreatedAt r)]>
              (<["updated_at" := BDateTime (Review.UpdatedAt r)]> ∅)))))) !! k)
    as Hbelow.
  { intros k Hk. unfold ReviewDoc.encode.
    destruct (IsZero (Review.ID r)); [done | by rewrite lookup_insert_ne]. }
  assert (decode.oid (ReviewDoc.encode r) "_id" = Some (Review.ID r)) as Hid.
  { unfold decode.oid, ReviewDoc.encode, IsZero.
    destruct (bool_decide_reflect (Review.ID r = NilObjectID)) as [-> | _].
    - repeat (rewrite lookup_insert_ne by done).
      rewrite lookup_put_nonempty_ne by done.
      repeat (rewrite lookup_insert_ne by done). by rewrite lookup_empty.
    - by rewrite lookup_insert_eq. }
  assert (decode.str (ReviewDoc.encode r) "comment" = Some (Review.Comment r))
    as Hcomment.
  { unfold decode.str at 1. rewrite Hbelow by done.
    repeat (rewrite lookup_insert_ne by done).
    apply decode_str_put_nonempty.
    repeat (rewrite lookup_insert_ne by done). by rewrite lookup_empty. }
  unfold Review.decode. rewrite Hid, Hcomment.
  unfold decode.oid, decode.int, decode.datetime.
  rewrite !Hbelow by done.
  repeat (rewrite ?lookup_insert_eq, ?lookup_put_nonempty_ne, ?lookup_insert_ne by done).
  by destruct r.
Qed.

Lemma Review_encode_id r :
  IsZero (Review.ID r) = false ->
  ReviewDoc.encode r !! "_id" = Some (BObjectID (Review.ID r)).
Proof.
  intros Hnz. unfold ReviewDoc.encode. rewrite Hnz. by rewrite lookup_insert_eq.
Qed.

(** The review that [AddReview] stores for a body: the two readings of
    the clock are kept as the store keeps them. *)
Definition reviewed (id userID hubID : ObjectID) (created updated : Time)
    (input : AddReviewInput.t) : Review.t :=
  Review.mk id userID hubID (AddReviewInput.Rating input)
    (AddReviewInput.Comment input) created updated.

(** A review but for its two times. *)
Definition untimedReview (r : Review.t) :=
  (Review.ID r, Review.UserID r, Review.HubID r, Review.Rating r, Review.Comment r).

Definition ratingError (rating : Z) : string :=
  UpdateHubInput.validation_error "Rating"
    (if rating =? 0 then "required" else if rating <? 1 then "min" else "max").

(** A review is stored when its rating is between 1 and 5 and the
    insert goes through: the answer is 201 with the review, which has
    the generated identifier, the caller as author, the hub of the
    request, and the rating and the comment of the body. The
    collection has one more document, the last, which reads back as
    this review with the two readings of the clock, the first and the
    later one, as the store keeps them; what the answer shows of the
    two times is not said. A rating outside 1..5 is answered 400 with
    nothing changed. Whether the hub exists is not looked at, nor
    whether the caller has reviewed it before. *)
Theorem AddReview_stores_rated_reviews (E : Collaborators) (c : Context) (w : World)
    (userID hubID : ObjectID) (input : AddReviewInput.t) (later : Time) :
  let id := objectIDs E (issued w) in
  let stored := reviewed id userID hubID (clock w) later input in
  let doc := ReviewDoc.encode stored in
  ObjectIDFromHex (user_id c) = Some userID ->
  ObjectIDFromHex (Param_id c) = Some hubID ->
  (1 <= AddReviewInput.Rating input <= 5 ->
     fault E (length (log w)) (CallInsertOne "reviews" doc) = false ->
     freshID id (coll (db w) "reviews") ->
     exists answered,
       AddReview E c (Ok input) later w
       = (inr (mkReply 201 [] answered),
          with_db (<["reviews" := coll (db w) "reviews" ++ [doc]]> (db w))
            (logged (CallInsertOne "reviews" doc) (with_issued (S (issued w)) w)))
       /\ untimedReview answered = untimedReview stored
       /\ Review.decode doc = Some stored)
  /\ (~ 1 <= AddReviewInput.Rating input <= 5 ->
     AddReview E c (Ok input) later w
     = (inl (badRequest (ratingError (AddReviewInput.Rating input))), w)).
Proof.
  intros id stored doc Huser Hhub. split.
  - intros Hrating Hins [Hnz Hfresh]. exists stored.
    split; [|split; [reflexivity | apply Review_decode_encode]].
    unfold AddReview, bind. rewrite Huser, Hhub. cbn.
    unfold AddReviewInput.ShouldBindJSON.
    replace (AddReviewInput.Rating input =? 0) with false by (symmetry; lia).
    replace (AddReviewInput.Rating input <? 1) with false by (symmetry; lia).
    replace (5 <? AddReviewInput.Rating input) with false by (symmetry; lia).
    cbn. unfold NewObjectID. cbn.
    fold id. fold (reviewed id userID hubID (clock w) later input).
    fold stored. fold doc.
    rewrite InsertOne_run.
    + reflexivity.
    + exact Hins.
    + cbn. apply (same_id_fresh _ id); [|exact Hfresh].
      by apply (Review_encode_id stored).
  - intros Hrating. unfold AddReview, bind. rewrite Huser, Hhub. cbn.
    unfold AddReviewInput.ShouldBindJSON, ratingError.
    destruct (AddReviewInput.Rating input =? 0) eqn:H0; [reflexivity|].
    destruct (AddReviewInput.Rating input <? 1) eqn:H1; [reflexivity|].
    destruct (5 <? AddReviewInput.Rating input) eqn:H5; [reflexivity|].
    exfalso. apply Hrating. lia.
Qed.

Lemma AddReview_witness :
  (exists answered,
     AddReview demo.env fixtures.bob_on_h1 (Ok (AddReviewInput.mk 4 "Quiet"))
       1700000000003 (demo.world ∅)
     = (inr (mkReply 201 [] answered),
        mkWorld
          {[ "reviews" :=
               [ReviewDoc.encode
                  (Review.mk (demo.oid_of 128) demo.bob fixtures.h1 4 "Quiet"
                     1700000000000 1700000000003)] ]}
          [CallInsertOne "reviews"
             (ReviewDoc.encode
                (Review.mk (demo.oid_of 128) demo.bob fixtures.h1 4 "Quiet"
                   1700000000000 1700000000003))]
          [] 1700000000000 1)
     /\ untimedReview answered = (demo.oid_of 128, demo.bob, fixtures.h1, 4, "Quiet"))
  /\ AddReview demo.env fixtures.bob_on_h1 (Ok (AddReviewInput.mk 6 "Loud"))
       1700000000003 (demo.world ∅)
     = (inl (badRequest (UpdateHubInput.validation_error "Rating" "max")),
        demo.world ∅).
Proof.
  split.
  - destruct (AddReview_stores_rated_reviews demo.env fixtures.bob_on_h1 (demo.world ∅)
                demo.bob fixtures.h1 (AddReviewInput.mk 4 "Quiet") 1700000000003)
      as [Hstore _]; [reflexivity | reflexivity |].
    destruct Hstore as (answered & Hrun & Hfields & _).
    + cbn. lia.
    + reflexivity.
    + split; [reflexivity | apply Forall_nil_2].
    + exists answered. rewrite Hrun. split; [|exact Hfields]. reflexivity.
  - destruct (AddReview_stores_rated_reviews demo.env fixtures.bob_on_h1 (demo.world ∅)
                demo.bob fixtures.h1 (AddReviewInput.mk 6 "Loud") 1700000000003)
      as [_ Hreject]; [reflexivity | reflexivity |].
    rewrite Hreject; [reflexivity|]. cbn. lia.
Defined.

(** ** The list of favorites *)

Section Favorites.

Variable E : Collaborators.

(** The filter [{key: {"$in": ids}}]. *)
Definition inFilter (key : string) (ids : list ObjectID) : Doc :=
  {[ key := BDocument {[ "$in" := BArray (BObjectID <$> ids) ]} ]}.

(** The store's [$in] on a field: the field holds one of [ids]. *)
Definition fieldIn (key : string) (ids : list ObjectID) (d : Doc) : bool :=
  match d !! key with
  | Some (BObjectID o) => bool_decide (o ∈ ids)
  | _ => false
  end.

(** [Find] with an [$in] filter; [None] on failure. *)
Definition FindIn (col key : string) (ids : list ObjectID)
  : H (option (list Doc)) :=
  ok <- call E (CallFind col (inFilter key ids));;
  w <- get_world;;
  ret (if ok then Some (List.filter (fieldIn key ids) (coll (db w) col)) else None).

Definition ListFavorites (c : Context) : H unit :=
  userID <- unwrap (ObjectIDFromHex (user_id c))
              (JSON [] http.StatusUnauthorized (ErrorBody "invalid user id"));;
  cursor <- Find E "favorites" ({[ "user_id" := BObjectID userID ]} : Doc);;
  docs <- unwrap cursor
            (JSON [] http.StatusInternalServerError
                  (ErrorBody "failed to fetch favorites"));;
  all <- CursorAll E "favorites" Favorite.decode docs;;
  favs <- unwrap all
            (JSON [] http.StatusInternalServerError
                  (ErrorBody "could not decode favorites"));;
  let hubIDs := Favorite.HubID <$> favs in
  cursor <- FindIn "hubs" "_id" hubIDs;;
  docs <- unwrap cursor
            (JSON [] http.StatusInternalServerError (ErrorBody "failed to fetch hubs"));;
  all <- CursorAll E "hubs" Hub.decode docs;;
  hubs <- unwrap all
            (JSON [] http.StatusInternalServerError
                  (ErrorBody "could not decode hubs"));;
  JSON [] http.StatusOK (HubList hubs).

End Favorites.

Arguments FindIn : simpl never.

(** The hubs that the favorites of the user point to. *)
Definition favoriteHubs (E : Collaborators) (s : Store) (userID : ObjectID)
  : option (list ObjectID) :=
  fmap (M := list) Favorite.HubID
    <$> mapM Favorite.decode
          (List.filter (matches E ({[ "user_id" := BObjectID userID ]} : Doc))
             (coll s "favorites")).

Section ListingFavorites.

Variables (E : Collaborators) (c : Context) (w : World) (userID : ObjectID).
Hypothesis Huser : ObjectIDFromHex (user_id c) = Some userID.

Lemma ListFavorites_lists hdrs hubs w' :
  serve (ListFavorites E c) w = (Responded (mkResponse 200 hdrs (HubList hubs)), w') ->
  exists hubIDs,
    favoriteHubs E (db w) userID = Some hubIDs
    /\ mapM Hub.decode (List.filter (fieldIn "_id" hubIDs) (coll (db w) "hubs"))
       = Some hubs
    /\ db w' = db w.
Proof.
  unfold serve, ListFavorites, bind. rewrite Huser. cbn.
  unfold Find, FindIn, CursorAll, bind, call, get_world, ret. cbn.
  destruct (fault E _ _); cbn; [discriminate|].
  destruct (fault E _ _); cbn; [discriminate|].
  unfold favoriteHubs.
  destruct (mapM Favorite.decode _) as [favs|]; cbn; [|discriminate].
  destruct (fault E _ _); cbn; [discriminate|].
  destruct (fault E _ _); cbn; [discriminate|].
  destruct (mapM Hub.decode _) as [hubs0|] eqn:Hhubs; cbn; [|discriminate].
  intros [= _ <- <-]. exists (Favorite.HubID <$> favs). by split.
Qed.

End ListingFavorites.

Lemma mapM_decoded_in {A} (dec : Doc -> option A) docs l x :
  mapM dec docs = Some l -> x ∈ l -> exists d, d ∈ docs /\ dec d = Some x.
Proof.
  intros Hall Hx. apply mapM_decoded in Hall.
  induction Hall as [|d y docs l Hd _ IH]; [by apply elem_of_nil in Hx|].
  apply elem_of_cons in Hx as [-> | Hx].
  - exists d. split; [by left | exact Hd].
  - destruct (IH Hx) as (d' & Hin & Hd'). exists d'. split; [by right | exact Hd'].
Qed.

(** The hubs that [ListFavorites] answers are the stored hubs that a
    favorite of the caller points to, in the order of the hubs
    collection, each once however many favorites point to it; a
    favorite whose hub is gone adds nothing. They come as stored,
    without reviews and without the favorite flag. Nothing is
    written. *)
Theorem ListFavorites_lists_the_favorite_hubs (E : Collaborators) (c : Context)
    (w : World) (userID : ObjectID) (hdrs : list (string * string))
    (hubs : list Hub.t) (w' : World) :
  ObjectIDFromHex (user_id c) = Some userID ->
  serve (ListFavorites E c) w = (Responded (mkResponse 200 hdrs (HubList hubs)), w') ->
  exists hubIDs,
    favoriteHubs E (db w) userID = Some hubIDs
    /\ mapM Hub.decode (List.filter (fieldIn "_id" hubIDs) (coll (db w) "hubs"))
       = Some hubs
    /\ Forall (fun h => Hub.ID h ∈ hubIDs
                        /\ Hub.IsFavorite h = false /\ Hub.Reviews h = []) hubs
    /\ db w' = db w.
Proof.
  intros Huser Hrun.
  destruct (ListFavorites_lists E c w userID Huser hdrs hubs w' Hrun)
    as (hubIDs & Hfavs & Hhubs & Hdb).
  exists hubIDs. split; [exact Hfavs|]. split; [exact Hhubs|]. split; [|exact Hdb].
  apply Forall_forall. intros h Hh.
  destruct (mapM_decoded_in _ _ _ _ Hhubs Hh) as (d & Hd & Hdec).
  apply list_elem_of_In, filter_In in Hd as [_ Hin].
  destruct (Hub_decode_fields d h Hdec) as (Hid & _ & _ & _ & _ & _ & _ & _ & _ & _ & Hf & Hr).
  split; [|by split].
  unfold fieldIn in Hin. unfold decode.oid in Hid.
  destruct (d !! "_id") as [[]|]; try discriminate.
  injection Hid as <-. by apply bool_decide_eq_true in Hin.
Qed.

Lemma ListFavorites_witness :
  exists hubIDs,
    favoriteHubs demo.env lounge.store demo.alice = Some hubIDs
    /\ Forall (fun h => Hub.ID h ∈ hubIDs
                        /\ Hub.IsFavorite h = false /\ Hub.Reviews h = [])
         [forum.hub].
Proof.
  destruct (ListFavorites_lists_the_favorite_hubs demo.env fixtures.alice_on_h1
              (demo.world lounge.store) demo.alice [] [forum.hub]
              (snd (serve (ListFavorites demo.env fixtures.alice_on_h1)
                      (demo.world lounge.store))))
    as (hubIDs & Hfavs & _ & Hall & _).
  - reflexivity.
  - vm_compute. reflexivity.
  - exists hubIDs. by split.
Defined.

(** ** Creating an event or a hub *)

(** *** The documents of events and hubs

    The fields that carry [omitempty] are left out when empty: the
    zero identifier, the empty string, the amount that equals zero, the
    nil deadline. A nil slice of images is stored as null. A struct
    such as the coordinates is never empty. *)
Definition put_id (id : ObjectID) (d : Doc) : Doc :=
  if IsZero id then d else <["_id" := BObjectID id]> d.

Definition put_some (k : string) (v : option bson) (d : Doc) : Doc :=
  match v with Some x => <[k := x]> d | None => d end.

(** [v.Float() == 0]: both zeros, and no NaN. *)
Definition is_zero (x : f64.t) : bool := SFeqb x f64.zero.

Definition images_bson (images : list string) : bson :=
  match images with [] => BNull | _ => images_value images end.

Module EventDoc.
Definition encode (e : Event.t) : Doc :=
  put_id (Event.ID e)
  (<["user_id" := BObjectID (Event.UserID e)]>
  (<["title" := BString (Event.Title e)]>
  (Contribution.put_nonempty "description" (Event.Description e)
  (Contribution.put_nonempty "location" (Event.Location e)
  (put_if (negb (is_zero (Event.TargetAmount e)))
     "target_amount" (BDouble (Event.TargetAmount e))
  (put_some "deadline" (BDateTime <$> Event.Deadline e)
  (<["status" := BString (Event.Status e)]>
  (<["images" := images_bson (Event.Images e)]>
  (<["created_at" := BDateTime (Event.CreatedAt e)]>
  (<["updated_at" := BDateTime (Event.UpdatedAt e)]> ∅)))))))))).
End EventDoc.

Module HubDoc.
Definition encode (h : Hub.t) : Doc :=
  put_id (Hub.ID h)
  (<["user_id" := BObjectID (Hub.UserID h)]>
  (<["title" := BString (Hub.Title h)]>
  (Contribution.put_nonempty "description" (Hub.Description h)
  (<["coordinates" :=
       BDocument (<["lat" := BDouble (Coordinates.Lat (Hub.Coordinates h))]>
                  {[ "lng" := BDouble (Coordinates.Lng (Hub.Coordinates h)) ]})]>
  (Contribution.put_nonempty "location" (Hub.LocationName h)
  (put_if (negb (is_zero (Hub.Rating h))) "target_amount" (BDouble (Hub.Rating h))
  (<["images" := images_bson (Hub.Images h)]>
  (<["created_at" := BDateTime (Hub.CreatedAt h)]>
  (<["updated_at" := BDateTime (Hub.UpdatedAt h)]> ∅))))))))).
End HubDoc.

(** *** The forms *)

Module CreateEventInput.
Record t := mk {
  Title : string;
  Description : string;
  Location : string;
  TargetAmount : f64.t;
  Deadline : option string
}.

Definition ShouldBind (form : outcome t) : outcome t :=
  match form with
  | Ok input =>
      if String.eqb (Title input) ""
      then Err (UpdateHubInput.validation_error "Title" "required")
      else Ok input
  | other => other
  end.
End CreateEventInput.

Module CreateHubInput.
Record t := mk {
  Title : string;
  Description : string;
  Lat : f64.t;
  Lng : f64.t;
  LocationName : string;
  Rating : f64.t
}.

Definition ShouldBind (form : outcome t) : outcome t :=
  match form with
  | Ok input =>
      if String.eqb (Title input) ""
      then Err (UpdateHubInput.validation_error "Title" "required")
      else Ok input
  | other => other
  end.
End CreateHubInput.

(** The body of an answer of the create handlers: the resource, or the
    three fields of the upload failure. *)
Inductive CreateBody (A : Type) :=
| CreatedBody (a : A)
| UploadFailedBody (error details file : string).
Arguments CreatedBody {A}.
Arguments UploadFailedBody {A}.

Section Creating.

Variable E : Collaborators.

(** The upload loop of the create handlers (field [images]): the URLs,
    or the error text and the name of the file that failed. *)
Fixpoint uploadAll (files : list FileHeader) (urls : list string)
  : H (string * string + list string) :=
  match files with
  | [] => ret (inr urls)
  | fileHeader :: rest =>
      _ <- when (negb (Opens fileHeader))
            (JSON [] http.StatusInternalServerError (ErrorBody "failed to open file"));;
      r <- UploadToCloudinary E fileHeader;;
      match r with
      | Ok u => uploadAll rest (urls ++ [u])
      | Err e => ret (inl (e, Filename fileHeader))
      | Panic e => panic e
      end
  end.

(** [form, err := c.MultipartForm()] and the files of [images];
    [broken]: the error is another one than [http.ErrNotMultipart]. *)
Definition formImages (c : Context) (broken : bool) : H (list FileHeader) :=
  match MultipartForm c with
  | Some form => ret (form "images")
  | None =>
      _ <- when broken (JSON [] http.StatusBadRequest (ErrorBody "invalid form data"));;
      ret []
  end.

(** The deadline of a create form: nil when absent or empty. *)
Definition formDeadline (deadline : option string) : H (option Time) :=
  match deadline with
  | Some value =>
      if nonempty value then
        parsed <- unwrap (parseDeadline E value)
                    (JSON [] http.StatusBadRequest
                          (ErrorBody "invalid deadline format, use RFC3339 or YYYY-MM-DD"));;
        ret (Some parsed)
      else ret None
  | None => ret None
  end.

Definition CreateEvent (c : Context) (broken : bool)
    (form : outcome CreateEventInput.t) : H (Reply (CreateBody Event.t)) :=
  userID <- unwrap (ObjectIDFromHex (user_id c))
              (JSON [] http.StatusUnauthorized (ErrorBody "invalid user id"));;
  input <- bound (CreateEventInput.ShouldBind form);;
  deadline <- formDeadline (CreateEventInput.Deadline input);;
  files <- formImages c broken;;
  uploaded <- uploadAll files [];;
  match uploaded with
  | inl failure =>
      ret (mkReply http.StatusInternalServerError []
             (UploadFailedBody "image upload failed" (fst failure) (snd failure)))
  | inr imageURLs =>
      now <- time_Now;;
      id <- NewObjectID E;;
      let event :=
        Event.mk id userID (CreateEventInput.Title input)
          (CreateEventInput.Description input) (CreateEventInput.Location input)
          (CreateEventInput.TargetAmount input) deadline "ACTIVE" imageURLs now now in
      ok <- InsertOne E "events" (EventDoc.encode event);;
      _ <- when (negb ok)
             (JSON [] http.StatusInternalServerError
                   (ErrorBody "could not create event"));;
      ret (mkReply http.StatusCreated [] (CreatedBody event))
  end.

Definition CreateHub (c : Context) (broken : bool)
    (form : outcome CreateHubInput.t) : H (Reply (CreateBody Hub.t)) :=
  userID <- unwrap (ObjectIDFromHex (user_id c))
              (JSON [] http.StatusUnauthorized (ErrorBody "invalid user id"));;
  input <- bound (CreateHubInput.ShouldBind form);;
  files <- formImages c broken;;
  uploaded <- uploadAll files [];;
  match uploaded with
  | inl failure =>
      ret (mkReply http.StatusInternalServerError []
             (UploadFailedBody "image upload failed" (fst failure) (snd failure)))
  | inr imageURLs =>
      now <- time_Now;;
      id <- NewObjectID E;;
      let hub :=
        Hub.mk id userID (CreateHubInput.Title input)
          (CreateHubInput.Description input)
          (Coordinates.mk (CreateHubInput.Lat input) (CreateHubInput.Lng input))
          (CreateHubInput.LocationName input) (CreateHubInput.Rating input)
          imageURLs now now false [] in
      ok <- InsertOne E "hubs" (HubDoc.encode hub);;
      _ <- when (negb ok)
             (JSON [] http.StatusInternalServerError (ErrorBody "could not create hub"));;
      ret (mkReply http.StatusCreated [] (CreatedBody hub))
  end.

End Creating.

Arguments formDeadline : simpl never.
Arguments formImages : simpl never.

(** *** Reading the documents back *)

Lemma lookup_put_id_ne id (d : Doc) k : k <> "_id" -> put_id id d !! k = d !! k.
Proof.
  intros Hne. unfold put_id. destruct (IsZero id); [done | by rewrite lookup_insert_ne].
Qed.

Lemma decode_oid_put_id id (d : Doc) :
  d !! "_id" = None -> decode.oid (put_id id d) "_id" = Some id.
Proof.
  intros Hd. unfold decode.oid, put_id, IsZero.
  destruct (bool_decide_reflect (id = NilObjectID)) as [-> | _];
    [by rewrite Hd | by rewrite lookup_insert_eq].
Qed.

Lemma lookup_put_id id (d : Doc) :
  IsZero id = false -> put_id id d !! "_id" = Some (BObjectID id).
Proof. intros Hnz. unfold put_id. rewrite Hnz. apply lookup_insert_eq. Qed.

Lemma lookup_put_some_ne k v (d : Doc) j : j <> k -> put_some k v d !! j = d !! j.
Proof. intros Hne. destruct v; cbn; [by rewrite lookup_insert_ne | done]. Qed.

Lemma lookup_put_some k v (d : Doc) :
  d !! k = None -> put_some k v d !! k = v.
Proof. intros Hd. destruct v; cbn; [apply lookup_insert_eq | exact Hd]. Qed.

Ltac strip_fields :=
  repeat first
    [ rewrite lookup_put_id_ne by done
    | rewrite lookup_insert_ne by done
    | rewrite lookup_put_nonempty_ne by done
    | rewrite lookup_put_if_ne by done
    | rewrite lookup_put_some_ne by done ].

Ltac stored_field := strip_fields; first [by rewrite lookup_insert_eq | apply lookup_empty].

(** The amount as it is read back: a zero is the positive zero. *)
Definition storedAmount (x : f64.t) : f64.t := if is_zero x then f64.zero else x.

Lemma decode_double_put_if x (d : Doc) k :
  d !! k = None ->
  decode.double (put_if (negb (is_zero x)) k (BDouble x) d) k = Some (storedAmount x).
Proof.
  intros Hd. unfold decode.double, storedAmount. rewrite lookup_put_if_eq.
  destruct (is_zero x); cbn; [by rewrite Hd | reflexivity].
Qed.


Lemma decode_images (d : Doc) l :
  d !! "images" = Some (images_bson l) -> decode.strs d "images" = Some l.
Proof.
  intros Hd. unfold decode.strs. rewrite Hd. destruct l as [|x l]; [reflexivity|].
  apply mapM_str_elem.
Qed.

(** The event as it is read back from its document. *)
Definition storedEvent (e : Event.t) : Event.t :=
  Event.mk (Event.ID e) (Event.UserID e) (Event.Title e) (Event.Description e)
    (Event.Location e) (storedAmount (Event.TargetAmount e)) (Event.Deadline e)
    (Event.Status e) (Event.Images e) (Event.CreatedAt e) (Event.UpdatedAt e).

Section EventFields.

Variable e : Event.t.

Lemma EventDoc_id : decode.oid (EventDoc.encode e) "_id" = Some (Event.ID e).
Proof. unfold EventDoc.encode. apply decode_oid_put_id. stored_field. Qed.

Lemma EventDoc_user :
  EventDoc.encode e !! "user_id" = Some (BObjectID (Event.UserID e)).
Proof. unfold EventDoc.encode. stored_field. Qed.

Lemma EventDoc_title : EventDoc.encode e !! "title" = Some (BString (Event.Title e)).
Proof. unfold EventDoc.encode. stored_field. Qed.

Lemma EventDoc_description :
  decode.str (EventDoc.encode e) "description" = Some (Event.Description e).
Proof.
  unfold decode.str, EventDoc.encode. strip_fields.
  apply decode_str_put_nonempty. stored_field.
Qed.

Lemma EventDoc_location :
  decode.str (EventDoc.encode e) "location" = Some (Event.Location e).
Proof.
  unfold decode.str, EventDoc.encode. strip_fields.
  apply decode_str_put_nonempty. stored_field.
Qed.

Lemma EventDoc_target :
  decode.double (EventDoc.encode e) "target_amount"
  = Some (storedAmount (Event.TargetAmount e)).
Proof.
  unfold decode.double, EventDoc.encode. strip_fields.
  apply decode_double_put_if. stored_field.
Qed.

Lemma EventDoc_deadline :
  decode.datetime_ptr (EventDoc.encode e) "deadline" = Some (Event.Deadline e).
Proof.
  unfold decode.datetime_ptr, EventDoc.encode. strip_fields.
  rewrite lookup_put_some by stored_field. by destruct (Event.Deadline e).
Qed.

Lemma EventDoc_status :
  EventDoc.encode e !! "status" = Some (BString (Event.Status e)).
Proof. unfold EventDoc.encode. stored_field. Qed.

Lemma EventDoc_images :
  EventDoc.encode e !! "images" = Some (images_bson (Event.Images e)).
Proof. unfold EventDoc.encode. stored_field. Qed.

Lemma EventDoc_created :
  EventDoc.encode e !! "created_at" = Some (BDateTime (Event.CreatedAt e)).
Proof. unfold EventDoc.encode. stored_field. Qed.

Lemma EventDoc_updated :
  EventDoc.encode e !! "updated_at" = Some (BDateTime (Event.UpdatedAt e)).
Proof. unfold EventDoc.encode. stored_field. Qed.

End EventFields.

Lemma Event_decode_encode e :
  Event.decode (EventDoc.encode e) = Some (storedEvent e).
Proof.
  unfold Event.decode.
  rewrite EventDoc_id, EventDoc_description, EventDoc_location, EventDoc_target,
    EventDoc_deadline, (decode_images _ _ (EventDoc_images e)).
  unfold decode.oid, decode.str, decode.datetime.
  rewrite EventDoc_user, EventDoc_title, EventDoc_status, EventDoc_created,
    EventDoc_updated.
  reflexivity.
Qed.

(** The hub as it is read back from its document. *)
Definition storedHub (h : Hub.t) : Hub.t :=
  Hub.mk (Hub.ID h) (Hub.UserID h) (Hub.Title h) (Hub.Description h)
    (Hub.Coordinates h) (Hub.LocationName h) (storedAmount (Hub.Rating h))
    (Hub.Images h) (Hub.CreatedAt h) (Hub.UpdatedAt h) false [].

Section HubFields.

Variable h : Hub.t.

Lemma HubDoc_id : decode.oid (HubDoc.encode h) "_id" = Some (Hub.ID h).
Proof. unfold HubDoc.encode. apply decode_oid_put_id. stored_field. Qed.

Lemma HubDoc_user : HubDoc.encode h !! "user_id" = Some (BObjectID (Hub.UserID h)).
Proof. unfold HubDoc.encode. stored_field. Qed.

Lemma HubDoc_title : HubDoc.encode h !! "title" = Some (BString (Hub.Title h)).
Proof. unfold HubDoc.encode. stored_field. Qed.

Lemma HubDoc_description :
  decode.str (HubDoc.encode h) "description" = Some (Hub.Description h).
Proof.
  unfold decode.str, HubDoc.encode. strip_fields.
  apply decode_str_put_nonempty. stored_field.
Qed.

Lemma HubDoc_coordinates :
  Coordinates.decode (HubDoc.encode h !! "coordinates") = Some (Hub.Coordinates h).
Proof.
  unfold HubDoc.encode. strip_fields. rewrite lookup_insert_eq. cbn.
  unfold decode.double. rewrite lookup_insert_eq. cbn.
  rewrite lookup_insert_ne by done. rewrite lookup_singleton_eq. cbn.
  by destruct (Hub.Coordinates h).
Qed.

Lemma HubDoc_location :
  decode.str (HubDoc.encode h) "location" = Some (Hub.LocationName h).
Proof.
  unfold decode.str, HubDoc.encode. strip_fields.
  apply decode_str_put_nonempty. stored_field.
Qed.

Lemma HubDoc_rating :
  decode.double (HubDoc.encode h) "target_amount" = Some (storedAmount (Hub.Rating h)).
Proof.
  unfold decode.double, HubDoc.encode. strip_fields.
  apply decode_double_put_if. stored_field.
Qed.

Lemma HubDoc_images :
  HubDoc.encode h !! "images" = Some (images_bson (Hub.Images h)).
Proof. unfold HubDoc.encode. stored_field. Qed.

Lemma HubDoc_created :
  HubDoc.encode h !! "created_at" = Some (BDateTime (Hub.CreatedAt h)).
Proof. unfold HubDoc.encode. stored_field. Qed.

Lemma HubDoc_updated :
  HubDoc.encode h !! "updated_at" = Some (BDateTime (Hub.UpdatedAt h)).
Proof. unfold HubDoc.encode. stored_field. Qed.

End HubFields.

Lemma Hub_decode_encode h :
  Hub.decode (HubDoc.encode h) = Some (storedHub h).
Proof.
  unfold Hub.decode.
  rewrite HubDoc_id, HubDoc_description, HubDoc_coordinates, HubDoc_location,
    HubDoc_rating, (decode_images _ _ (HubDoc_images h)).
  unfold decode.oid, decode.str, decode.datetime.
  rewrite HubDoc_user, HubDoc_title, HubDoc_created, HubDoc_updated.
  reflexivity.
Qed.

(** *** Runs of the create handlers *)

(** The files of the form field [images]. *)
Definition createFiles (c : Context) : list FileHeader :=
  match MultipartForm c with Some form => form "images" | None => [] end.

(** The form of the request can be read: it is multipart, or the
    request is none and this is the only complaint. *)
Definition formReadable (c : Context) (broken : bool) : Prop :=
  match MultipartForm c with Some _ => True | None => broken = false end.

Lemma uploadAll_run E files urls new w :
  mapM (uploadURL E) files = Some new ->
  uploadAll E files urls w
  = (inr (inr (urls ++ new)),
     with_assets (assets w ++ (AssetUpload ∘ Filename <$> files)) w).
Proof.
  revert urls new w. induction files as [|fh files IH]; intros urls new w Hall.
  - injection Hall as <-. cbn. rewrite !app_nil_r. by destruct w.
  - cbn in Hall. destruct (uploadURL E fh) as [u|] eqn:Hu; [|discriminate].
    cbn in Hall. destruct (mapM (uploadURL E) files) as [rest|] eqn:Hrest; [|discriminate].
    injection Hall as <-.
    unfold uploadURL in Hu. cbn [uploadAll]. unfold bind, UploadToCloudinary.
    destruct (Opens fh); [|discriminate]. cbn.
    destruct (cloudinaryConfigError E); [discriminate|].
    destruct (cloudinaryUpload E fh) as [u'|]; [|discriminate].
    injection Hu as ->. cbn.
    rewrite (IH _ rest) by reflexivity. cbn.
    by rewrite <- !app_assoc.
Qed.

Lemma formImages_run c broken w :
  formReadable c broken -> formImages c broken w = (inr (createFiles c), w).
Proof.
  unfold formReadable, formImages, createFiles.
  destruct (MultipartForm c); [reflexivity|]. by intros ->.
Qed.

Lemma formDeadline_run E deadline p w :
  deadlineParsed E deadline = Some p -> formDeadline E deadline w = (inr p, w).
Proof.
  unfold deadlineParsed, formDeadline. destruct deadline as [v|]; [|by intros [= <-]].
  destruct (nonempty v); [|by intros [= <-]].
  unfold bind. destruct (parseDeadline E v) as [t|]; [|discriminate].
  by intros [= <-].
Qed.

Lemma matches_owned E id user d :
  matches E (<["_id" := BObjectID id]> {[ "user_id" := BObjectID user ]}) d = true
  <-> d !! "_id" = Some (BObjectID id) /\ d !! "user_id" = Some (BObjectID user).
Proof.
  unfold matches.
  rewrite bool_decide_eq_true, map_Forall_insert by done.
  by rewrite map_Forall_singleton, !crit_oid.
Qed.

Lemma find_appended (p : Doc -> bool) (l : list Doc) doc :
  Forall (fun d => p d = false) l -> p doc = true ->
  List.find p (l ++ [doc]) = Some doc.
Proof.
  intros Hl Hdoc. induction Hl as [|x l Hx _ IH]; cbn.
  - by rewrite Hdoc.
  - by rewrite Hx.
Qed.

(** The event that [CreateEvent] makes of a form. *)
Definition newEvent (id userID : ObjectID) (now : Time) (input : CreateEventInput.t)
    (deadline : option Time) (images : list string) : Event.t :=
  Event.mk id userID (CreateEventInput.Title input)
    (CreateEventInput.Description input) (CreateEventInput.Location input)
    (CreateEventInput.TargetAmount input) deadline "ACTIVE" images now now.

(** The hub that [CreateHub] makes of a form. *)
Definition newHub (id userID : ObjectID) (now : Time) (input : CreateHubInput.t)
    (images : list string) : Hub.t :=
  Hub.mk id userID (CreateHubInput.Title input) (CreateHubInput.Description input)
    (Coordinates.mk (CreateHubInput.Lat input) (CreateHubInput.Lng input))
    (CreateHubInput.LocationName input) (CreateHubInput.Rating input)
    images now now false [].

(** The world after a creation: the uploads, the identifier, the insert. *)
Definition afterInsert (col : string) (doc : Doc) (files : list FileHeader)
    (w : World) : World :=
  with_db (<[col := coll (db w) col ++ [doc]]> (db w))
    (logged (CallInsertOne col doc)
       (with_issued (S (issued w))
          (with_assets (assets w ++ (AssetUpload ∘ Filename <$> files)) w))).

Section Created.

Variables (E : Collaborators) (c : Context) (broken : bool) (w : World).
Variables (userID : ObjectID) (images : list string).
Hypothesis Huser : ObjectIDFromHex (user_id c) = Some userID.
Hypothesis Hform : formReadable c broken.
Hypothesis Hfiles : mapM (uploadURL E) (createFiles c) = Some images.

Let id := objectIDs E (issued w).

Lemma CreateEvent_run input p :
  let event := newEvent id userID (clock w) input p images in
  CreateEventInput.Title input <> "" ->
  deadlineParsed E (CreateEventInput.Deadline input) = Some p ->
  fault E (length (log w)) (CallInsertOne "events" (EventDoc.encode event)) = false ->
  freshID id (coll (db w) "events") ->
  CreateEvent E c broken (Ok input) w
  = (inr (mkReply 201 [] (CreatedBody event)),
     afterInsert "events" (EventDoc.encode event) (createFiles c) w).
Proof.
  intros event Htitle Hdl Hins [Hnz Hfresh].
  unfold CreateEvent, bind. rewrite Huser. cbn.
  rewrite (eqb_empty_false _ Htitle). cbn.
  rewrite (formDeadline_run _ _ _ _ Hdl), (formImages_run _ _ _ Hform).
  rewrite (uploadAll_run _ _ _ _ _ Hfiles). cbn.
  unfold NewObjectID. cbn. fold id.
  fold (newEvent id userID (clock w) input p images). fold event.
  rewrite InsertOne_run.
  - reflexivity.
  - exact Hins.
  - cbn. apply (same_id_fresh _ id); [|exact Hfresh].
    unfold EventDoc.encode. by apply lookup_put_id.
Qed.

Lemma CreateHub_run input :
  let hub := newHub id userID (clock w) input images in
  CreateHubInput.Title input <> "" ->
  fault E (length (log w)) (CallInsertOne "hubs" (HubDoc.encode hub)) = false ->
  freshID id (coll (db w) "hubs") ->
  CreateHub E c broken (Ok input) w
  = (inr (mkReply 201 [] (CreatedBody hub)),
     afterInsert "hubs" (HubDoc.encode hub) (createFiles c) w).
Proof.
  intros hub Htitle Hins [Hnz Hfresh].
  unfold CreateHub, bind. rewrite Huser. cbn.
  rewrite (eqb_empty_false _ Htitle). cbn.
  rewrite (formImages_run _ _ _ Hform).
  rewrite (uploadAll_run _ _ _ _ _ Hfiles). cbn.
  unfold NewObjectID. cbn. fold id.
  fold (newHub id userID (clock w) input images). fold hub.
  rewrite InsertOne_run.
  - reflexivity.
  - exact Hins.
  - cbn. apply (same_id_fresh _ id); [|exact Hfresh].
    unfold HubDoc.encode. by apply lookup_put_id.
Qed.

End Created.

(** What [GetEvent] answers for an event that it finds. *)
Definition shownEvent (E : Collaborators) (c : Context) (event : Event.t)
  : Exit + Reply Event.t :=
  let etag := GenerateETag E (Event.ID event) (Event.UpdatedAt event) in
  if etagMatches c etag then inl (Responded (mkResponse 304 [] NoBody))
  else inr (mkReply 200 [("ETag", etag)] event).

Abbreviation ownedBy id user :=
  (<["_id" := BObjectID id]> {[ "user_id" := BObjectID user ]} : Doc).

Lemma GetEvent_run E c w userID eventID :
  ObjectIDFromHex (user_id c) = Some userID ->
  ObjectIDFromHex (Param_id c) = Some eventID ->
  GetEvent E c w
  = (match findOneResult E "events" (ownedBy eventID userID) w ≫= Event.decode with
     | Some event => shownEvent E c event
     | None => inl (notFound "event not found or not owned")
     end,
     logged (CallFindOne "events" (ownedBy eventID userID)) w).
Proof.
  intros Huser Hid. unfold GetEvent, bind. rewrite Huser, Hid. cbn.
  rewrite FindOne_run.
  destruct (findOneResult _ _ _ _ ≫= Event.decode) as [event|]; cbn; [|reflexivity].
  unfold shownEvent. by destruct (etagMatches _ _).
Qed.

(** An event but for its times: the deadline, of which only whether
    it is set is kept, and the two stamps. *)
Definition untimedEvent (e : Event.t) :=
  (Event.ID e, Event.UserID e, Event.Title e, Event.Description e,
   Event.Location e, Event.TargetAmount e,
   match Event.Deadline e with Some _ => true | None => false end,
   Event.Status e, Event.Images e).

(** A hub but for its two stamps. *)
Definition untimedHub (h : Hub.t) :=
  (Hub.ID h, Hub.UserID h, Hub.Title h, Hub.Description h, Hub.Coordinates h,
   Hub.LocationName h, Hub.Rating h, Hub.Images h, Hub.IsFavorite h, Hub.Reviews h).

(** An event is created for the caller when the form has a title, the
    deadline parses, the files are uploaded and the insert goes
    through: the answer is 201 with the event, which has the generated
    identifier, the caller as owner, the fields of the form, the status
    ACTIVE and the URLs of the uploaded files in their order; what the
    answer shows of the times is not said. The collection has one more
    document, the last, from which the event is read back with these
    fields, a target amount of zero being the positive zero, with the
    deadline of the form and with the reading of the clock as its two
    stamps, as the store keeps them. The owner then gets the event as
    it is read back from [GetEvent] under its identifier. *)
Theorem CreateEvent_stores_the_callers_event (E : Collaborators) (c : Context)
    (broken : bool) (w : World) (userID : ObjectID) (images : list string)
    (input : CreateEventInput.t) (p : option Time) :
  let id := objectIDs E (issued w) in
  let event := newEvent id userID (clock w) input p images in
  let doc := EventDoc.encode event in
  let w' := afterInsert "events" doc (createFiles c) w in
  ObjectIDFromHex (user_id c) = Some userID ->
  formReadable c broken ->
  mapM (uploadURL E) (createFiles c) = Some images ->
  CreateEventInput.Title input <> "" ->
  deadlineParsed E (CreateEventInput.Deadline input) = Some p ->
  fault E (length (log w)) (CallInsertOne "events" doc) = false ->
  freshID id (coll (db w) "events") ->
  (exists answered,
     CreateEvent E c broken (Ok input) w
     = (inr (mkReply 201 [] (CreatedBody answered)), w')
     /\ untimedEvent answered = untimedEvent event)
  /\ coll (db w') "events" = coll (db w) "events" ++ [doc]
  /\ Event.decode doc = Some (storedEvent event)
  /\ (forall c',
        ObjectIDFromHex (user_id c') = Some userID ->
        ObjectIDFromHex (Param_id c') = Some id ->
        fault E (S (length (log w))) (CallFindOne "events" (ownedBy id userID)) = false ->
        fst (GetEvent E c' w') = shownEvent E c' (storedEvent event)).
Proof.
  intros id event doc w' Huser Hform Hfiles Htitle Hdl Hins Hfresh.
  split; [exists event; split; [by apply CreateEvent_run | reflexivity]|].
  split; [apply coll_insert|]. split; [apply Event_decode_encode|].
  intros c' Huser' Hid' Hread.
  rewrite (GetEvent_run E c' w' userID id Huser' Hid'). cbn [fst].
  unfold findOneResult, w', afterInsert.
  cbn [log with_db with_log logged with_issued with_assets db].
  rewrite length_app, Nat.add_1_r, Hread, coll_insert.
  destruct Hfresh as [Hnz Hfresh].
  rewrite find_appended.
  - cbn [mbind option_bind]. unfold doc. by rewrite Event_decode_encode.
  - eapply Forall_impl; [exact Hfresh|]. intros d Hd. cbn in Hd.
    apply not_true_is_false. intros Hm. apply matches_owned in Hm as [Hm _]. done.
  - apply matches_owned. split.
    + unfold doc, EventDoc.encode. by apply lookup_put_id.
    + apply EventDoc_user.
Qed.

(** A hub is created for the caller in the same way: the answer is 201
    with the hub of the form, under the generated identifier and with
    the caller as owner; what the answer shows of the two stamps is
    not said. The location name and the rating of the form are stored
    under the names that the hub is read from, and are read back; the
    two stamps that are read back are the reading of the clock, as the
    store keeps it. *)
Theorem CreateHub_stores_the_callers_hub (E : Collaborators) (c : Context)
    (broken : bool) (w : World) (userID : ObjectID) (images : list string)
    (input : CreateHubInput.t) :
  let id := objectIDs E (issued w) in
  let hub := newHub id userID (clock w) input images in
  let doc := HubDoc.encode hub in
  let w' := afterInsert "hubs" doc (createFiles c) w in
  ObjectIDFromHex (user_id c) = Some userID ->
  formReadable c broken ->
  mapM (uploadURL E) (createFiles c) = Some images ->
  CreateHubInput.Title input <> "" ->
  fault E (length (log w)) (CallInsertOne "hubs" doc) = false ->
  freshID id (coll (db w) "hubs") ->
  (exists answered,
     CreateHub E c broken (Ok input) w
     = (inr (mkReply 201 [] (CreatedBody answered)), w')
     /\ untimedHub answered = untimedHub hub)
  /\ coll (db w') "hubs" = coll (db w) "hubs" ++ [doc]
  /\ Hub.decode doc = Some (storedHub hub)
  /\ List.find (matches E (byID id)) (coll (db w') "hubs") = Some doc
  /\ Hub.LocationName (storedHub hub) = CreateHubInput.LocationName input
  /\ Hub.Rating (storedHub hub) = storedAmount (CreateHubInput.Rating input).
Proof.
  intros id hub doc w' Huser Hform Hfiles Htitle Hins Hfresh.
  split; [exists hub; split; [by apply CreateHub_run | reflexivity]|].
  split; [apply coll_insert|]. split; [apply Hub_decode_encode|].
  split; [|split; reflexivity].
  unfold w', afterInsert. cbn [db with_db]. rewrite coll_insert.
  destruct Hfresh as [Hnz Hfresh].
  apply find_byID_appended; [exact Hfresh|].
  unfold doc, HubDoc.encode. by apply lookup_put_id.
Qed.

Module intake.

(** Alice sends a form with two images. *)
Definition with_images : Context := {|
  user_id := Hex demo.alice; role := "user"; Param_id := "";
  Query := fun _ => ""; GetHeader := fun _ => "";
  MultipartForm := Some (fun field =>
    if String.eqb field "images"
    then [{| Filename := "a.jpg"; Opens := true |};
          {| Filename := "b.jpg"; Opens := true |}] else [])
|}.

Definition urls : list string :=
  ["https://res.cloudinary.com/demo/image/upload/v1/events/a.jpg";
   "https://res.cloudinary.com/demo/image/upload/v1/events/b.jpg"].

Definition event_form : CreateEventInput.t :=
  CreateEventInput.mk "Well" "" "Kisumu" (f64.of_Z 0) (Some "").

Definition hub_form : CreateHubInput.t :=
  CreateHubInput.mk "Library" "" (f64.of_Z 1) (f64.of_Z 2) "Main street" (f64.of_Z 4).

End intake.

Lemma CreateEvent_witness :
  (exists answered w',
     CreateEvent demo.env intake.with_images false (Ok intake.event_form) (demo.world ∅)
     = (inr (mkReply 201 [] (CreatedBody answered)), w')
     /\ untimedEvent answered
        = (demo.oid_of 128, demo.alice, "Well", "", "Kisumu", f64.zero, false,
           "ACTIVE", intake.urls)
     /\ Event.decode <$> coll (db w') "events"
        = [Some (Event.mk (demo.oid_of 128) demo.alice "Well" "" "Kisumu" f64.zero None
                   "ACTIVE" intake.urls 1700000000000 1700000000000)])
  /\ fst (GetEvent demo.env (demo.context (Hex demo.alice) "user" (Hex (demo.oid_of 128)))
            (snd (CreateEvent demo.env intake.with_images false (Ok intake.event_form)
                    (demo.world ∅))))
     = inr (mkReply 200
              [("ETag", GenerateETag demo.env (demo.oid_of 128) 1700000000000)]
              (Event.mk (demo.oid_of 128) demo.alice "Well" "" "Kisumu" f64.zero None
                 "ACTIVE" intake.urls 1700000000000 1700000000000)).
Proof.
  destruct (CreateEvent_stores_the_callers_event demo.env intake.with_images false
              (demo.world ∅) demo.alice intake.urls intake.event_form None)
    as ((answered & Hrun & Hfields) & Hcoll & Hdoc & Hget).
  - reflexivity.
  - exact I.
  - reflexivity.
  - discriminate.
  - reflexivity.
  - reflexivity.
  - split; [reflexivity | apply Forall_nil_2].
  - split.
    + eexists answered, _. split; [exact Hrun|]. split; [exact Hfields|].
      rewrite Hcoll. vm_compute. reflexivity.
    + rewrite Hrun. cbn [fst snd].
      rewrite (Hget (demo.context (Hex demo.alice) "user" (Hex (demo.oid_of 128))));
        reflexivity.
Defined.

Lemma CreateHub_witness :
  exists answered w',
    CreateHub demo.env intake.with_images false (Ok intake.hub_form) (demo.world ∅)
    = (inr (mkReply 201 [] (CreatedBody answered)), w')
    /\ untimedHub answered
       = (demo.oid_of 128, demo.alice, "Library", "",
          Coordinates.mk (f64.of_Z 1) (f64.of_Z 2), "Main street", f64.of_Z 4,
          intake.urls, false, [])
    /\ Hub.decode <$> coll (db w') "hubs"
       = [Some (Hub.mk (demo.oid_of 128) demo.alice "Library" ""
                  (Coordinates.mk (f64.of_Z 1) (f64.of_Z 2)) "Main street" (f64.of_Z 4)
                  intake.urls 1700000000000 1700000000000 false [])].
Proof.
  destruct (CreateHub_stores_the_callers_hub demo.env intake.with_images false
              (demo.world ∅) demo.alice intake.urls intake.hub_form)
    as ((answered & Hrun & Hfields) & Hcoll & Hdoc & _).
  - reflexivity.
  - exact I.
  - reflexivity.
  - discriminate.
  - reflexivity.
  - split; [reflexivity | apply Forall_nil_2].
  - eexists answered, _. split; [exact Hrun|]. split; [exact Hfields|].
    rewrite Hcoll. vm_compute. reflexivity.
Defined.

(** ** Documents read back *)

Lemma Favorite_decode_encode f : Favorite.decode (Favorite.encode f) = Some f.
Proof.
  unfold Favorite.decode, Favorite.encode, decode.oid, decode.datetime, IsZero.
  destruct f as [id user hub created]. cbn.
  destruct (bool_decide_reflect (id = NilObjectID)) as [-> | _]; by simplify_map_eq.
Qed.

Lemma storedAmount_cases x :
  storedAmount x = x \/ (x = S754_zero true /\ storedAmount x = f64.zero).
Proof.
  unfold storedAmount, is_zero, f64.zero, SFeqb, SFcompare.
  destruct x as [[]|[]| |[] m e]; auto.
Qed.

Lemma put_if_storedAmount k x (d : Doc) :
  put_if (negb (is_zero (storedAmount x))) k (BDouble (storedAmount x)) d
  = put_if (negb (is_zero x)) k (BDouble x) d.
Proof.
  unfold storedAmount. destruct (is_zero x) eqn:Hx; [|by rewrite Hx].
  reflexivity.
Qed.

Lemma EventDoc_stored e : EventDoc.encode (storedEvent e) = EventDoc.encode e.
Proof.
  unfold EventDoc.encode, storedEvent. cbn [Event.ID Event.UserID Event.Title
    Event.Description Event.Location Event.TargetAmount Event.Deadline Event.Status
    Event.Images Event.CreatedAt Event.UpdatedAt].
  by rewrite put_if_storedAmount.
Qed.

Lemma HubDoc_stored h : HubDoc.encode (storedHub h) = HubDoc.encode h.
Proof.
  unfold HubDoc.encode, storedHub. cbn [Hub.ID Hub.UserID Hub.Title Hub.Description
    Hub.Coordinates Hub.LocationName Hub.Rating Hub.Images Hub.CreatedAt Hub.UpdatedAt].
  by rewrite put_if_storedAmount.
Qed.

(** A contribution and a favorite but for their times. *)
Definition untimedContribution (c : Contribution.t) :=
  (Contribution.ID c, Contribution.EventID c, Contribution.ContributorName c,
   Contribution.ContributorContact c, Contribution.Amount c, Contribution.Currency c,
   Contribution.Method c, Contribution.PaymentRef c, Contribution.Status c,
   Contribution.ReceiptURL c).

Definition untimedFavorite (f : Favorite.t) :=
  (Favorite.ID f, Favorite.UserID f, Favorite.HubID f).

(** What the handlers store for a value of the data model is read back
    with the same fields, but for the times, and from the value that is
    read back the same document is stored again: of a time, the
    document keeps the instant in milliseconds, and it is this that is
    read back. An amount or a rating of negative zero is left out of
    the document of an event or a hub like every zero, and read back as
    the positive zero; the review list and the favorite flag of a hub
    are not stored. *)
Theorem documents_read_back :
  (forall c, exists c',
      Contribution.decode (Contribution.encode c) = Some c'
      /\ Contribution.encode c' = Contribution.encode c
      /\ untimedContribution c' = untimedContribution c)
  /\ (forall f, exists f',
      Favorite.decode (Favorite.encode f) = Some f'
      /\ Favorite.encode f' = Favorite.encode f
      /\ untimedFavorite f' = untimedFavorite f)
  /\ (forall r, exists r',
      Review.decode (ReviewDoc.encode r) = Some r'
      /\ ReviewDoc.encode r' = ReviewDoc.encode r
      /\ untimedReview r' = untimedReview r)
  /\ (forall e, exists e',
      Event.decode (EventDoc.encode e) = Some e'
      /\ EventDoc.encode e' = EventDoc.encode e
      /\ untimedEvent e' = untimedEvent (storedEvent e))
  /\ (forall h, exists h',
      Hub.decode (HubDoc.encode h) = Some h'
      /\ HubDoc.encode h' = HubDoc.encode h
      /\ untimedHub h' = untimedHub (storedHub h))
  /\ (forall x, storedAmount x = x
                \/ (x = S754_zero true /\ storedAmount x = f64.zero)).
Proof.
  split; [intros c; exists c; by rewrite Contribution_decode_encode|].
  split; [intros f; exists f; by rewrite Favorite_decode_encode|].
  split; [intros r; exists r; by rewrite Review_decode_encode|].
  split.
  { intros e. exists (storedEvent e). rewrite Event_decode_encode.
    split; [reflexivity|]. split; [apply EventDoc_stored | reflexivity]. }
  split.
  { intros h. exists (storedHub h). rewrite Hub_decode_encode.
    split; [reflexivity|]. split; [apply HubDoc_stored | reflexivity]. }
  exact storedAmount_cases.
Qed.
